(* ===== verification/_CoqProject ===== *)
-Q . S2P
Prelude.v
Collections.v
Usage.v
Accounting.v
QuotaTypes.v
QuotaDetector.v
Coordinator.v
Hints.v
Scheduler.v
Pricing.v
PriceOverrides.v
CostSelection.v
StateErrors.v
Retention.v
Records.v
Journal.v
RunState.v
Checkpoint.v
Framing.v
ParserValues.v
ParserState.v
ParserEffects.v
Parser.v
ReaderParser.v
BenefitTypes.v
Benefits.v
