(* ===== verification/Prelude.v ===== *)
(** * TokenMaster: a verification library

    TokenMaster watches the session files of coding agents, turns them into usage
    events, and reports tokens, cost and quota.  Its crates form a pipeline:

    - [codex] finds session files, cuts them into lines ([reader/framing.rs]),
      parses the lines and keeps a checkpoint per file ([reader/checkpoint.rs],
      [checkpoint_codec.rs]);
    - [accounting] gives every observation a fingerprint and decides whether an
      event of a forked session repeats one of its parent;
    - [quota] folds provider samples into the epochs of a quota window;
    - [pricing] prices token counts from an embedded catalog and user overrides,
      and selects a cost for a set of rows;
    - [benefits] keeps the inventory of a provider's benefits, journals what changed
      and reminds the user before a lot expires;
    - [engine] runs refreshes one at a time and coalesces requests; [runtime] turns
      hints of changed files into refreshes on a scheduler thread;
    - [state] keeps settings, recovery records and backups;
    - [store] is SQLite; [query], [product], [app] and [desktop] read it and show it.

    The values these crates exchange are those of [domain].

    ** Files and what they model (paths under [src/crates])

    - [Prelude]: [Result] and [?], machine integers with their checked and
      saturating operations, byte encodings, strings with UTF-8, sums; the tactics
      [to_prop], [inv_ok], [decide_guards] and the hint databases [ints] and
      [lengths].
    - [Collections]: comparison functions as a type class, sorting, binary search
      and de-duplication of the standard library.
    - [Usage]: [domain/src/usage.rs].
    - [Accounting]: [accounting/src]: [canonicalize], the two hashes, event ids,
      [classify].
    - [QuotaTypes], [QuotaDetector]: [domain/src/quota.rs], [quota/src]:
      [evaluate_sample] with its detectors, transitions and restored values.
    - [Coordinator]: [engine/src/coordinator.rs]; a cancellation token is a cell of
      a heap that caller and coordinator share.
    - [Pricing], [PriceOverrides], [CostSelection]: the three files of [pricing/src].
    - [Retention]: the planning half of [state/src/retention.rs] over the catalog of
      [state/src/catalog.rs].
    - [Checkpoint]: [codex/src/reader/checkpoint.rs] and [checkpoint_codec.rs], over
      the interface [ResumeState] of the parser state.
    - [Framing]: [codex/src/reader/framing.rs] with the limits and diagnostics of
      [reader/mod.rs] and [parser/mod.rs], over the interface [LineParser]; the hash
      of a range of a file and the boundary anchor of [reader/source.rs], and the
      checkpoint that ends a batch.
    - [ParserValues], [ParserState], [ParserEffects], [Parser]: [codex/src/parser]
      ([value.rs] and [wire.rs], [state.rs], [effects.rs] with [path_policy.rs],
      [mod.rs]): the JSONL parser from a line to its outcome.
    - [ReaderParser]: the parser as the [LineParser] of the reader and its snapshot as
      the [ResumeState] of a checkpoint, with restarts between batches.
    - [Hints], [Scheduler]: [runtime/src/hints.rs] and [scheduler.rs] as programs of
      atomic operations; a run interleaves the scheduler thread with any callers.
    - [StateErrors], [Records], [Journal], [RunState]: [state/src/error.rs],
      [record.rs], [recovery/journal.rs], [run_state.rs]: records in two files that
      may fail at every operation, behind the interface [RecordStore] with its laws
      [RecordStoreLaws]; the recovery journal and the run state use that interface.
    - [BenefitTypes], [Benefits]: [domain/src/benefit.rs] and [benefits/src]:
      [reconcile_inventory], [schedule_reminders], [collapse_due_reminders]; a
      [BTreeMap] is a finite map listed in key order.

    A struct is a record, an enum an inductive type, a method a function of its
    receiver; [&mut self] returns the new value.  A validated newtype is the value
    it wraps.  An early return is the constructor [Err] of [result].  An integer is
    a [Z]; where the source uses a checked or saturating operation the model writes
    it out, and a theorem that needs a width has the range as a hypothesis.

    ** What the theorems show

    - Refinement: the epoch state of a quota window against the history of its
      samples; the coordinator against a machine that remembers every waiting
      request; the batches of a file against one pass over its bytes; the replay
      classifier against its transition table; the lots of an inventory against a
      replay of their journal; the run state in its two files against one value, with
      what each reply of a session says.
    - Restarts: resuming the parser from a snapshot is invisible, in the parser alone
      and under the reader with batches, appends and restarts; every batch gives a
      checkpoint that is accepted when its text fits.
    - Interleaving: an accepted hint is served, no wake-up is missed, and what a round
      of the scheduler does when nothing disturbs it.
    - Crashes: a save is atomic and survives the damage of one file; the journal only
      moves along its phases; a crash is noticed, launches are limited, a migration
      stays owed.
    - Safety: usage is dropped as a replay only when its content was counted
      before; resets need evidence; retention deletes no protected backup; a
      cancellation reaches one request only; a checkpoint that decodes is one that
      was written.
    - Exactness: rates, costs and selected amounts are the exact rational value
      rounded once, and no intermediate value overflows.
    - Round trips and errors: checkpoints; damaged checkpoints; when planning a
      retention or selecting a cost fails; an observation taken in twice.
    - Selection: of all due reminders of a lot exactly the most urgent is shown.
    - Identity: fingerprints and revisions determine what was hashed, or two given
      messages collide.
    - Termination and progress: eviction ends; a batch returns and the next one
      starts later.

    ** Parameters and bounds

    SHA-256 is a parameter wherever it is used; a statement about identifiers says
    "or SHA-256 collides on these two messages" ([collision]), and its witness uses
    [toy_sha256].  [serde_json] on the parser state, the records and the lines of a
    session file, the calendar of [chrono] and the opening of a directory are
    parameters or type classes with the laws the clients need; how many bytes a read
    returns, which operation on a file fails, the clock, cancellation and allocation
    are arguments or choices of the environment.

    Loops that are not structural take fuel: binary search the length of the slice,
    eviction one more than the number of backups, framing one more than the number
    of bytes, hashing a range one more than its length.  Each is shown sufficient:
    running out of fuel is an [Err] in the model and the theorems on success exclude it.

    ** What is not modelled

    Opening and identifying files, threads as such, processes and SQLite ([platform],
    [store], most of [runtime], [git/src/process.rs]); the user interface ([app],
    [desktop], [product]); text formatting and [Debug] output; the deletion of a backup
    file after it was chosen; the chunk proofs of [reader/source.rs]; the worker and
    executor of [engine]; the output of git; the queries; settings, maintenance and
    backup packages of [state].  Atomic operations are sequentially consistent, and
    when the submit callback panics the fault is stored before the receiver is dropped,
    where the source does the two in the other order.  Paths are those of Unix: the
    branches compiled for Windows only are left out. *)

From stdpp Require Export base tactics option list numbers strings.
From Stdlib Require Export ZArith Lia.

#[export] Set Default Goal Selector "!".

Open Scope Z_scope.

(** ** Rust's [Result] and its [?] operator *)

Inductive result (A E : Type) : Type :=
| Ok (value : A)
| Err (error : E).
Arguments Ok {A E} _.
Arguments Err {A E} _.

Declare Scope rust_scope.
Delimit Scope rust_scope with rust.
Open Scope rust_scope.

(** [e?]: continue with the value, return the error. *)
Definition rbind {A B E} (r : result A E) (k : A -> result B E) : result B E :=
  match r with Ok a => k a | Err e => Err e end.

Notation "'let?' x := e 'in' k" := (rbind e (fun x => k))
  (at level 10, x name, e at level 200, k at level 200) : rust_scope.

(** [if c { return Err(e); }] followed by the rest of the body. *)
Notation "'fail_if' c 'with' e 'else' k" := (if c : bool then Err e else k)
  (at level 10, c at level 200, e at level 200, k at level 200) : rust_scope.

Definition is_ok {A E} (r : result A E) : bool :=
  match r with Ok _ => true | Err _ => false end.

(** [Option::ok_or_else] *)
Definition ok_or {A E} (o : option A) (e : E) : result A E :=
  match o with Some a => Ok a | None => Err e end.

(** [Option::is_some] / [is_none] / [is_some_and] / [is_none_or] / [filter] / [zip] *)
Definition is_some {A} (o : option A) : bool :=
  match o with Some _ => true | None => false end.
Definition is_none {A} (o : option A) : bool := negb (is_some o).
Definition is_some_and {A} (o : option A) (p : A -> bool) : bool :=
  match o with Some a => p a | None => false end.
Definition is_none_or {A} (o : option A) (p : A -> bool) : bool :=
  match o with Some a => p a | None => true end.
Definition option_filter {A} (o : option A) (p : A -> bool) : option A :=
  match o with Some a => if p a then Some a else None | None => None end.
Definition option_zip {A B} (a : option A) (b : option B) : option (A * B) :=
  match a, b with Some a, Some b => Some (a, b) | _, _ => None end.
Definition unwrap_or {A} (o : option A) (d : A) : A :=
  match o with Some a => a | None => d end.

Lemma rbind_ok {A B E} (r : result A E) (k : A -> result B E) b :
  rbind r k = Ok b <-> exists a, r = Ok a /\ k a = Ok b.
Proof. destruct r; simpl; split; [eauto|by intros (?&[= ->]&?)|done|by intros (?&?&_)]. Qed.

Lemma rbind_err {A B E} (r : result A E) (k : A -> result B E) e :
  rbind r k = Err e <-> r = Err e \/ exists a, r = Ok a /\ k a = Err e.
Proof.
  destruct r; simpl; split.
  - eauto.
  - by intros [?|(?&[= ->]&?)].
  - intros [= ->]. by left.
  - by intros [[= ->]|(?&?&_)].
Qed.

Lemma option_filter_Some {A} (o : option A) p a :
  option_filter o p = Some a <-> o = Some a /\ p a = true.
Proof.
  destruct o as [b|]; simpl; [|by split; [|intros [? _]]].
  destruct (p b) eqn:E; split; [by intros [= ->]|by intros [[= ->] _]|done|].
  intros [[= ->] H]. congruence.
Qed.

#[export] Instance result_eq_dec {A E} `{EqDecision A, EqDecision E} : EqDecision (result A E).
Proof. solve_decision. Defined.

(** ** Machine integers

    A [u64] (or [u32], [u16], [u8], [usize], [i64]) is a [Z] in its range; every
    operation of the source that can leave the range is written out. *)

Definition u8_max : Z := 2 ^ 8 - 1.
Definition u16_max : Z := 2 ^ 16 - 1.
Definition u32_max : Z := 2 ^ 32 - 1.
Definition u64_max : Z := 2 ^ 64 - 1.
Definition i64_max : Z := 2 ^ 63 - 1.
Definition i64_min : Z := - 2 ^ 63.

Definition in_u8 (z : Z) : Prop := 0 <= z <= u8_max.
Definition in_u16 (z : Z) : Prop := 0 <= z <= u16_max.
Definition in_u32 (z : Z) : Prop := 0 <= z <= u32_max.
Definition in_u64 (z : Z) : Prop := 0 <= z <= u64_max.
Definition in_i64 (z : Z) : Prop := i64_min <= z <= i64_max.

(** [checked_add], [checked_sub], [saturating_add] at an unsigned width *)
Definition checked_add (max a b : Z) : option Z :=
  if a + b <=? max then Some (a + b) else None.
Definition checked_sub (a b : Z) : option Z :=
  if b <=? a then Some (a - b) else None.
Definition checked_mul (max a b : Z) : option Z :=
  if a * b <=? max then Some (a * b) else None.
Definition saturating_add (max a b : Z) : Z := Z.min max (a + b).
Definition saturating_sub (a b : Z) : Z := Z.max 0 (a - b).

Ltac unfold_ints :=
  unfold in_u8, in_u16, in_u32, in_u64, in_i64, u8_max, u16_max, u32_max, u64_max,
    i64_max, i64_min in *.

(** Boolean guards of the source as propositions, then arithmetic. *)
Ltac to_prop :=
  repeat match goal with
  | H : (_ && _)%bool = true |- _ => apply andb_prop in H; destruct H
  | H : (_ || _)%bool = false |- _ => apply orb_false_elim in H; destruct H
  | H : (_ || _)%bool = true |- _ => apply orb_true_iff in H
  | H : (_ && _)%bool = false |- _ => apply andb_false_iff in H
  | H : negb _ = true |- _ => apply negb_true_iff in H
  | H : negb _ = false |- _ => apply negb_false_iff in H
  | H : (_ <=? _) = true |- _ => apply Z.leb_le in H
  | H : (_ <=? _) = false |- _ => apply Z.leb_gt in H
  | H : (_ <? _) = true |- _ => apply Z.ltb_lt in H
  | H : (_ <? _) = false |- _ => apply Z.ltb_ge in H
  | H : (_ =? _) = true |- _ => apply Z.eqb_eq in H
  | H : (_ =? _) = false |- _ => apply Z.eqb_neq in H
  | H : bool_decide _ = true |- _ => apply bool_decide_eq_true in H
  | H : bool_decide _ = false |- _ => apply bool_decide_eq_false in H
  | H : eqb _ _ = true |- _ => apply eqb_prop in H
  end.

(** Successful checked operations *)
Lemma ok_or_Ok {A E} (o : option A) (e : E) a : ok_or o e = Ok a <-> o = Some a.
Proof. destruct o; simpl; naive_solver. Qed.

Lemma checked_add_Some max a b c : checked_add max a b = Some c <-> c = a + b /\ a + b <= max.
Proof. unfold checked_add. destruct (_ <=? _) eqn:E; to_prop; naive_solver lia. Qed.

Lemma checked_mul_Some max a b c : checked_mul max a b = Some c <-> c = a * b /\ a * b <= max.
Proof. unfold checked_mul. destruct (_ <=? _) eqn:E; to_prop; naive_solver lia. Qed.

Lemma checked_sub_Some a b c : checked_sub a b = Some c <-> c = a - b /\ b <= a.
Proof. unfold checked_sub. destruct (_ <=? _) eqn:E; to_prop; naive_solver lia. Qed.

(** Range side conditions, by arithmetic: [auto with ints]. *)
Create HintDb ints.
#[export] Hint Extern 1 (in_u8 _) => unfold_ints; lia : ints.
#[export] Hint Extern 1 (in_u16 _) => unfold_ints; lia : ints.
#[export] Hint Extern 1 (in_u32 _) => unfold_ints; lia : ints.
#[export] Hint Extern 1 (in_u64 _) => unfold_ints; lia : ints.
#[export] Hint Extern 1 (in_i64 _) => unfold_ints; lia : ints.
#[export] Hint Extern 2 (_ <= _) => unfold_ints; lia : ints.
#[export] Hint Extern 2 (_ < _) => unfold_ints; lia : ints.
#[export] Hint Extern 2 (_ <= _ <= _) => unfold_ints; lia : ints.
#[export] Hint Extern 2 (_ <= _ < _) => unfold_ints; lia : ints.

(** Evaluate the comparisons of the goal that arithmetic decides. *)
Ltac decide_guards :=
  repeat match goal with
  | |- context [?a <? ?b] =>
      first [rewrite (proj2 (Z.ltb_lt a b)) by lia | rewrite (proj2 (Z.ltb_ge a b)) by lia]
  | |- context [?a <=? ?b] =>
      first [rewrite (proj2 (Z.leb_le a b)) by lia | rewrite (proj2 (Z.leb_gt a b)) by lia]
  | |- context [?a =? ?b] =>
      first [rewrite (proj2 (Z.eqb_eq a b)) by lia | rewrite (proj2 (Z.eqb_neq a b)) by lia]
  end.

(** Split the next [if]/[match] of the goal or of a hypothesis. *)
Ltac split_goal :=
  match goal with
  | |- context [if ?b then _ else _] => let E := fresh "E" in destruct b eqn:E
  | |- context [match ?x with _ => _ end] => let E := fresh "E" in destruct x eqn:E
  end.
Ltac split_in H :=
  match type of H with
  | context [if ?b then _ else _] => let E := fresh "E" in destruct b eqn:E
  | context [match ?x with _ => _ end] => let E := fresh "E" in destruct x eqn:E
  end.

(** [inv_ok H]: [H : body = Ok v] for a body made of guards; every failing
    branch is discarded and the guards are left as propositions. *)
Ltac inv_ok H :=
  repeat (first
    [ discriminate H
    | apply rbind_ok in H; let a := fresh "v" in let Ha := fresh "Hv" in
      destruct H as (a & Ha & H)
    | split_in H; try discriminate H ]);
  try (injection H as H); subst; to_prop.

(** ** Sums over lists *)

Definition zsum {A} (f : A -> Z) (l : list A) : Z := foldr (fun a s => f a + s) 0 l.

Lemma zsum_app {A} (f : A -> Z) l k : zsum f (l ++ k) = zsum f l + zsum f k.
Proof. unfold zsum. induction l; simpl; lia. Qed.

Lemma zsum_snoc {A} (f : A -> Z) l a : zsum f (l ++ [a]) = zsum f l + f a.
Proof. rewrite zsum_app. unfold zsum. simpl. lia. Qed.

Lemma zsum_le {A} (f g : A -> Z) l : (forall a, a ∈ l -> f a <= g a) -> zsum f l <= zsum g l.
Proof.
  unfold zsum. induction l as [|a l IH]; simpl; [lia|]. intros H.
  pose proof (H a (list_elem_of_here a l)).
  assert (forall b, b ∈ l -> f b <= g b) by (intros; apply H; by apply elem_of_cons; right).
  specialize (IH ltac:(done)). lia.
Qed.

Lemma zsum_add {A} (f g : A -> Z) l : zsum (fun a => f a + g a) l = zsum f l + zsum g l.
Proof. unfold zsum. induction l; simpl; lia. Qed.

Lemma zsum_const {A} (c : Z) (l : list A) : zsum (fun _ => c) l = c * Z.of_nat (length l).
Proof. unfold zsum. induction l; simpl length; simpl foldr; lia. Qed.

Lemma zsum_nonneg {A} (f : A -> Z) l : (forall a, a ∈ l -> 0 <= f a) -> 0 <= zsum f l.
Proof.
  intros H. transitivity (zsum (fun _ : A => 0) l); [rewrite zsum_const; lia|]. by apply zsum_le.
Qed.

(** Two summands that differ at one index only *)
Lemma zsum_update {A} `{EqDecision A} (f g : A -> Z) (l : list A) (r : A) :
  NoDup l -> r ∈ l -> (forall x, x <> r -> f x = g x) -> zsum f l = zsum g l + (f r - g r).
Proof.
  intros Hnd. revert r. induction Hnd as [|a l Ha Hnd IH]; intros r Hr Hfg; [by apply not_elem_of_nil in Hr|].
  unfold zsum in *. simpl. destruct (decide (a = r)) as [->|Hne].
  - assert (foldr (fun a s => f a + s) 0 l = foldr (fun a s => g a + s) 0 l) as E; [|lia].
    clear -Ha Hfg. induction l as [|b l IH]; simpl; [done|].
    apply not_elem_of_cons in Ha as [Hb Hl]. rewrite Hfg by done. by rewrite IH.
  - apply elem_of_cons in Hr as [->|Hr]; [done|]. rewrite (IH r Hr Hfg), (Hfg a Hne). lia.
Qed.

Lemma zsum_permutation {A} (f : A -> Z) l k : l ≡ₚ k -> zsum f l = zsum f k.
Proof. unfold zsum. induction 1; simpl; lia. Qed.

Lemma zsum_ext {A} (f g : A -> Z) l : (forall a, a ∈ l -> f a = g a) -> zsum f l = zsum g l.
Proof. intros H. apply Z.le_antisymm; apply zsum_le; intros a Ha; by rewrite (H a Ha). Qed.

(** A sum over a list as a sum over its indices *)
Lemma zsum_lookup {A} (f : A -> Z) l :
  zsum f l = zsum (fun i => match l !! i with Some a => f a | None => 0 end) (seq 0 (length l)).
Proof.
  assert (forall k, zsum f l
    = zsum (fun i => match l !! (i - k)%nat with Some a => f a | None => 0 end) (seq k (length l))) as H.
  { induction l as [|a l IH]; intros k; [done|]. cbn [length seq]. unfold zsum in *. cbn [foldr].
    rewrite Nat.sub_diag. cbn [lookup list_lookup]. f_equal. rewrite (IH (S k)).
    assert (forall n m, (k < m)%nat ->
      foldr (fun i s => match l !! (i - S k)%nat with Some a => f a | None => 0 end + s) 0 (seq m n)
      = foldr (fun i s => match (a :: l) !! (i - k)%nat with Some a => f a | None => 0 end + s) 0 (seq m n))
      as Hshift; [|apply Hshift; lia].
    intros n. induction n as [|n IHn]; intros m Hm; simpl; [done|]. rewrite IHn by lia. f_equal.
    replace (m - k)%nat with (S (m - S k)) by lia. done. }
  rewrite (H 0%nat). apply zsum_ext. intros i _. by rewrite Nat.sub_0_r.
Qed.

(** ** Byte encodings *)

Definition byte_ok (b : Z) : Prop := 0 <= b < 256.

Fixpoint le_bytes (n : nat) (z : Z) : list Z :=
  match n with
  | O => []
  | S n => z mod 256 :: le_bytes n (z / 256)
  end.

Fixpoint le_value (l : list Z) : Z :=
  match l with
  | [] => 0
  | b :: l => b + 256 * le_value l
  end.

Lemma forallb_byte_ok l : forallb (fun b => (0 <=? b) && (b <? 256)) l = true -> Forall byte_ok l.
Proof.
  rewrite forallb_forall, Forall_forall. intros H b Hb. apply list_elem_of_In, H in Hb.
  to_prop. done.
Qed.

(** [to_be_bytes] of an [n]-byte unsigned integer *)
Definition be_bytes (n : nat) (z : Z) : list Z := reverse (le_bytes n z).

Lemma le_bytes_length n z : length (le_bytes n z) = n.
Proof. revert z; induction n as [|n IH]; intros z; cbn [le_bytes length]; auto. Qed.

Lemma le_bytes_ok n z : Forall byte_ok (le_bytes n z).
Proof.
  revert z; induction n as [|n IH]; intros z; cbn [le_bytes]; constructor; auto.
  unfold byte_ok. apply Z.mod_pos_bound. lia.
Qed.

Lemma le_value_bytes n z : 0 <= z < 256 ^ Z.of_nat n -> le_value (le_bytes n z) = z.
Proof.
  revert z; induction n as [|n IH]; intros z Hz; cbn [le_bytes le_value].
  - simpl in Hz. lia.
  - rewrite IH.
    + pose proof (Z.div_mod z 256). lia.
    + rewrite Nat2Z.inj_succ, Z.pow_succ_r in Hz by lia.
      split; [apply Z.div_pos; lia|]. apply Z.div_lt_upper_bound; lia.
Qed.

Lemma le_value_bound l : Forall byte_ok l -> 0 <= le_value l < 256 ^ Z.of_nat (length l).
Proof.
  induction 1 as [|b l Hb Hl IH]; simpl length; [simpl; lia|].
  cbn [le_value]. rewrite Nat2Z.inj_succ, Z.pow_succ_r by lia. unfold byte_ok in Hb. lia.
Qed.

Lemma le_bytes_value l : Forall byte_ok l -> le_bytes (length l) (le_value l) = l.
Proof.
  induction 1 as [|b l Hb Hl IH]; [done|]. cbn [length le_value le_bytes].
  unfold byte_ok in Hb. f_equal.
  - rewrite Z.mul_comm, Z.mod_add, Z.mod_small; lia.
  - rewrite (Z.mul_comm 256), Z.div_add, (Z.div_small b), Z.add_0_l by lia. done.
Qed.

Lemma be_bytes_length n z : length (be_bytes n z) = n.
Proof. unfold be_bytes. rewrite length_reverse. apply le_bytes_length. Qed.

(** Lengths of encodings: [autorewrite with lengths]. *)
Create HintDb lengths discriminated.
#[export] Hint Rewrite @length_app @length_nil le_bytes_length be_bytes_length
  @length_take @length_drop : lengths.

Lemma le_bytes_inj n a b :
  0 <= a < 256 ^ Z.of_nat n -> 0 <= b < 256 ^ Z.of_nat n ->
  le_bytes n a = le_bytes n b -> a = b.
Proof.
  intros Ha Hb H. apply (f_equal le_value) in H. by rewrite !le_value_bytes in H.
Qed.

Lemma be_bytes_inj n a b :
  0 <= a < 256 ^ Z.of_nat n -> 0 <= b < 256 ^ Z.of_nat n ->
  be_bytes n a = be_bytes n b -> a = b.
Proof. intros Ha Hb H. apply (le_bytes_inj n); auto. by apply (inj reverse) in H. Qed.

#[global] Arguments le_bytes : simpl never.
#[global] Arguments be_bytes : simpl never.

Lemma combine_zip {A B} (l : list A) (k : list B) : combine l k = zip l k.
Proof. revert k; induction l; intros [|]; simpl; f_equal; auto. Qed.

Lemma mjoin_map_cons {A B} (f : A -> list B) a l : mjoin (map f (a :: l)) = f a ++ mjoin (map f l).
Proof. done. Qed.

Lemma cons_split {A} (a b : A) l k : a :: l = b :: k -> a = b /\ l = k.
Proof. by intros [= -> ->]. Qed.

(** Two encodings that start with fields of equal length agree field by field. *)
Lemma app_split {A} (a b c d : list A) :
  length a = length c -> a ++ b = c ++ d -> a = c /\ b = d.
Proof. intros. by apply app_inj_1. Qed.

(** A field whose length is written before it, [n] bytes big-endian, followed by
    more fields: the encoding determines the field and the rest. *)
Lemma length_prefixed_inj n (a b r1 r2 : list Z) :
  Z.of_nat (length a) < 256 ^ Z.of_nat n -> Z.of_nat (length b) < 256 ^ Z.of_nat n ->
  be_bytes n (Z.of_nat (length a)) ++ a ++ r1 = be_bytes n (Z.of_nat (length b)) ++ b ++ r2 ->
  a = b /\ r1 = r2.
Proof.
  intros Ha Hb H. apply app_split in H as [Hlen H]; [|by rewrite !be_bytes_length].
  apply be_bytes_inj in Hlen; [|lia..]. apply app_split in H; [done|lia].
Qed.

(** ** Rust strings

    A [str] is a sequence of Unicode scalar values; [len()] and [as_bytes()] are
    those of its UTF-8 form. *)

Abbreviation str := (list Z).

(** The UTF-8 bytes of one [char]. *)
Definition utf8_char (c : Z) : list Z :=
  if c <? 128 then [c]
  else if c <? 2048 then [192 + c / 64; 128 + c mod 64]
  else if c <? 65536 then [224 + c / 4096; 128 + (c / 64) mod 64; 128 + c mod 64]
  else [240 + c / 262144; 128 + (c / 4096) mod 64; 128 + (c / 64) mod 64; 128 + c mod 64].

(** [str::as_bytes] *)
Fixpoint as_bytes (s : str) : list Z :=
  match s with
  | [] => []
  | c :: s => utf8_char c ++ as_bytes s
  end.

(** [str::len] *)
Definition str_len (s : str) : Z := Z.of_nat (length (as_bytes s)).

Definition scalar (c : Z) : Prop := (0 <= c < 55296) \/ (57344 <= c < 1114112).
Definition str_ok (s : str) : Prop := Forall scalar s.

(** A string literal of the source (ASCII). *)
Fixpoint lit (s : string) : str :=
  match s with
  | EmptyString => []
  | String a s => Z.of_N (Ascii.N_of_ascii a) :: lit s
  end.

(** [char::is_whitespace] (Unicode [White_Space]) and [char::is_control] ([Cc]) *)
Definition is_whitespace (c : Z) : bool :=
  ((9 <=? c) && (c <=? 13)) || (c =? 32) || (c =? 133) || (c =? 160) || (c =? 5760)
  || ((8192 <=? c) && (c <=? 8202)) || (c =? 8232) || (c =? 8233) || (c =? 8239)
  || (c =? 8287) || (c =? 12288).
Definition is_control (c : Z) : bool :=
  ((0 <=? c) && (c <=? 31)) || ((127 <=? c) && (c <=? 159)).

(** [str::trim] *)
Fixpoint trim_start (s : str) : str :=
  match s with
  | [] => []
  | c :: s' => if is_whitespace c then trim_start s' else s
  end.
Definition trim_end (s : str) : str := reverse (trim_start (reverse s)).
Definition trim (s : str) : str := trim_end (trim_start s).

(** [u8::is_ascii_alphanumeric] and the classes it is made of *)
Definition is_ascii_digit (b : Z) : bool := (48 <=? b) && (b <=? 57).
Definition is_ascii_uppercase (b : Z) : bool := (65 <=? b) && (b <=? 90).
Definition is_ascii_lowercase (b : Z) : bool := (97 <=? b) && (b <=? 122).
Definition is_ascii_alphanumeric (b : Z) : bool :=
  is_ascii_digit b || is_ascii_uppercase b || is_ascii_lowercase b.

(** UTF-8 is uniquely decodable: the first character of an encoding and what
    follows it are determined by the bytes. *)
Lemma utf8_char_app_inj c d r1 r2 :
  scalar c -> scalar d -> utf8_char c ++ r1 = utf8_char d ++ r2 -> c = d /\ r1 = r2.
Proof.
  unfold scalar, utf8_char. intros Hc Hd.
  pose proof (Z.div_mod c 64). pose proof (Z.mod_pos_bound c 64).
  pose proof (Z.div_mod d 64). pose proof (Z.mod_pos_bound d 64).
  pose proof (Z.div_mod (c / 64) 64). pose proof (Z.mod_pos_bound (c / 64) 64).
  pose proof (Z.div_mod (d / 64) 64). pose proof (Z.mod_pos_bound (d / 64) 64).
  pose proof (Z.div_mod (c / 4096) 64). pose proof (Z.mod_pos_bound (c / 4096) 64).
  pose proof (Z.div_mod (d / 4096) 64). pose proof (Z.mod_pos_bound (d / 4096) 64).
  assert (c / 4096 = c / 64 / 64) by (by rewrite Z.div_div).
  assert (d / 4096 = d / 64 / 64) by (by rewrite Z.div_div).
  assert (c / 262144 = c / 4096 / 64) by (by rewrite Z.div_div).
  assert (d / 262144 = d / 4096 / 64) by (by rewrite Z.div_div).
  intros E; repeat split_in E; to_prop; simpl in E;
    injection E; intros; split; solve [lia | congruence].
Qed.

Lemma as_bytes_inj s t : str_ok s -> str_ok t -> as_bytes s = as_bytes t -> s = t.
Proof.
  intros Hs; revert t; induction Hs as [|c s Hc Hs IH]; intros [|d t] Ht E; simpl in E.
  - done.
  - exfalso. unfold utf8_char in E. repeat split_in E; discriminate.
  - exfalso. unfold utf8_char in E. repeat split_in E; discriminate.
  - inversion Ht; subst. apply utf8_char_app_inj in E as [-> E]; auto. f_equal; auto.
Qed.

(** ** Digests

    SHA-256 itself is a parameter of the components that hash. *)

(** Two given messages collide under [h]. *)
Definition collision (h : list Z -> list Z) (a b : list Z) : Prop := a <> b /\ h a = h b.

(** Equality of two hashes, as equality of what they hash or a collision of the two inputs. *)
Lemma hash_eq_cases {A B} (h : list Z -> list Z) (input : A -> list Z) (content : A -> B)
    `{EqDecision B} a b :
  (input a = input b <-> content a = content b) ->
  h (input a) = h (input b) <->
  content a = content b \/ collision h (input a) (input b).
Proof.
  intros Hi. split.
  - intros Hh. destruct (decide (content a = content b)) as [|Hn]; [by left|right].
    split; [|done]. by intros ?%Hi.
  - intros [Hc|[_ Hh]]; [|done]. by rewrite (proj2 Hi Hc).
Qed.

(** A digest-shaped stand-in for SHA-256: the last 32 bytes of the message. *)
Definition toy_sha256 (m : list Z) : list Z :=
  map (fun b => b mod 256) (take 32 (reverse m ++ replicate 32 0)).

Lemma toy_sha256_length m : length (toy_sha256 m) = 32%nat.
Proof. unfold toy_sha256. rewrite length_map, length_take, length_app, length_replicate. lia. Qed.

Lemma toy_sha256_bytes m : Forall byte_ok (toy_sha256 m).
Proof. apply Forall_forall. intros b (c & -> & _)%list_elem_of_fmap. apply Z.mod_pos_bound. lia. Qed.
