(* ===== verification/Collections.v ===== *)
(** * Slices of the standard library

    What the components use of [core::slice] and [core::cmp]: comparison
    functions as values of [comparison] ([Ordering]), [sort_unstable_by],
    [binary_search_by], [Vec::dedup].  [TotalCmp] is the contract of a comparison
    function handed to them, with instances for integers, byte strings,
    lexicographic pairs and projections to a key; the results below are proved
    against that contract.

    [sort_unstable_by] returns a sorted permutation and promises nothing on the
    order of elements that compare equal; [sort_by_cmp] is the merge sort, and
    every result below that depends on which permutation is taken assumes that
    equal comparison means equal elements. *)

From stdpp Require Export sorting.
From S2P Require Import Prelude.

(** ** Comparison functions *)

Class TotalCmp {A} (cmp : A -> A -> comparison) : Prop := {
  cmp_opp : forall a b, cmp b a = CompOpp (cmp a b);
  cmp_trans : forall a b c, cmp a b <> Gt -> cmp b c <> Gt -> cmp a c <> Gt
}.

Arguments cmp_opp {A} cmp {_} a b.
Arguments cmp_trans {A} cmp {_} a b c.

(** Comparing equal only when equal *)
Class ExactCmp {A} (cmp : A -> A -> comparison) : Prop :=
  cmp_exact : forall a b, cmp a b = Eq -> a = b.

(** [Ordering::then_with] *)
Definition then_with (c d : comparison) : comparison :=
  match c with Eq => d | _ => c end.

(** Comparison through a key *)
Definition cmp_by {A K} (key : A -> K) (cmp : K -> K -> comparison) (a b : A) : comparison :=
  cmp (key a) (key b).

(** [Ordering::reverse], that is [right.cmp(&left)] *)
Definition cmp_rev {A} (cmp : A -> A -> comparison) (a b : A) : comparison := cmp b a.

Definition cmp_then {A} (c1 c2 : A -> A -> comparison) (a b : A) : comparison :=
  then_with (c1 a b) (c2 a b).

(** The derived [Ord] of sequences *)
Fixpoint lex_cmp {A} (cmp : A -> A -> comparison) (l k : list A) : comparison :=
  match l, k with
  | [], [] => Eq
  | [], _ :: _ => Lt
  | _ :: _, [] => Gt
  | a :: l, b :: k => then_with (cmp a b) (lex_cmp cmp l k)
  end.

(** The derived [Ord] of options: [None] first *)
Definition option_cmp {A} (cmp : A -> A -> comparison) (a b : option A) : comparison :=
  match a, b with
  | None, None => Eq
  | None, Some _ => Lt
  | Some _, None => Gt
  | Some a, Some b => cmp a b
  end.

(** [str::cmp]: the UTF-8 bytes in lexicographic order *)
Definition str_cmp (a b : str) : comparison := lex_cmp Z.compare (as_bytes a) (as_bytes b).

#[global] Typeclasses Opaque cmp_by cmp_rev cmp_then lex_cmp option_cmp str_cmp.

#[export] Instance Z_compare_total : TotalCmp Z.compare.
Proof.
  split.
  - intros a b. apply Z.compare_antisym.
  - intros a b c. change (a <= b -> b <= c -> a <= c). lia.
Qed.
#[export] Instance Z_compare_exact : ExactCmp Z.compare.
Proof. intros a b. apply Z.compare_eq. Qed.

Section comparisons.
Context {A : Type} (cmp : A -> A -> comparison) `{!TotalCmp cmp}.

Lemma cmp_refl a : cmp a a = Eq.
Proof. pose proof (cmp_opp cmp a a) as H. destruct (cmp a a); done. Qed.

Lemma cmp_Eq_sym a b : cmp a b = Eq -> cmp b a = Eq.
Proof. intros H. by rewrite (cmp_opp cmp), H. Qed.

Lemma cmp_Lt_Gt a b : cmp a b = Lt <-> cmp b a = Gt.
Proof. rewrite (cmp_opp cmp a b). by destruct (cmp a b). Qed.

Lemma cmp_not_Gt a b : cmp a b <> Gt <-> cmp b a <> Lt.
Proof. by rewrite <- (cmp_Lt_Gt b a). Qed.

(** [Lt] on the left or on the right of a chain makes the chain [Lt]. *)
Lemma cmp_Lt_le a b c : cmp a b = Lt -> cmp b c <> Gt -> cmp a c = Lt.
Proof.
  intros H1 H2. destruct (cmp a c) eqn:E; [|done|].
  - exfalso. assert (cmp c a <> Gt) as Hca by (rewrite (cmp_opp cmp), E; done).
    pose proof (cmp_trans cmp b c a H2 Hca) as Hba. by rewrite (cmp_opp cmp), H1 in Hba.
  - exfalso. apply (cmp_trans cmp a b c); [by rewrite H1|done|done].
Qed.

Lemma cmp_le_Lt a b c : cmp a b <> Gt -> cmp b c = Lt -> cmp a c = Lt.
Proof.
  intros H1 H2. destruct (cmp a c) eqn:E; [|done|].
  - exfalso. assert (cmp c a <> Gt) as Hca by (rewrite (cmp_opp cmp), E; done).
    pose proof (cmp_trans cmp c a b Hca H1) as Hcb. by rewrite (cmp_opp cmp), H2 in Hcb.
  - exfalso. apply (cmp_trans cmp a b c); [done|by rewrite H2|done].
Qed.

Lemma cmp_Eq_l a b c : cmp a b = Eq -> cmp a c = cmp b c.
Proof.
  intros H. destruct (cmp b c) eqn:E.
  - destruct (cmp a c) eqn:E'; [done| |].
    + assert (cmp a b = Lt); [|congruence]. apply (cmp_Lt_le a c b); [done|].
      by rewrite (cmp_opp cmp), E.
    + exfalso. apply (cmp_trans cmp a b c); [by rewrite H|by rewrite E|done].
  - apply (cmp_le_Lt a b c); [by rewrite H|done].
  - apply cmp_Lt_Gt. apply (cmp_Lt_le c b a); [by apply cmp_Lt_Gt|].
    rewrite (cmp_opp cmp), H. done.
Qed.
End comparisons.

#[export] Instance cmp_by_total {A K} (key : A -> K) cmp `{!TotalCmp cmp} :
  TotalCmp (cmp_by key cmp).
Proof. split; unfold cmp_by; intros; [apply (cmp_opp cmp)|by eapply (cmp_trans cmp)]. Qed.

#[export] Instance cmp_rev_total {A} (cmp : A -> A -> comparison) `{!TotalCmp cmp} :
  TotalCmp (cmp_rev cmp).
Proof. split; unfold cmp_rev; intros; [apply (cmp_opp cmp)|by eapply (cmp_trans cmp)]. Qed.

#[export] Instance cmp_then_total {A} (c1 c2 : A -> A -> comparison)
  `{!TotalCmp c1, !TotalCmp c2} : TotalCmp (cmp_then c1 c2).
Proof.
  split; unfold cmp_then.
  - intros a b. rewrite (cmp_opp c1 a b), (cmp_opp c2 a b). by destruct (c1 a b).
  - intros a b c H1 H2. destruct (c1 a b) eqn:E1; simpl in H1; try done.
    + rewrite (cmp_Eq_l c1 a b c E1). destruct (c1 b c); simpl in *; try done.
      by eapply (cmp_trans c2).
    + rewrite (cmp_Lt_le c1 a b c E1); [done|]. by destruct (c1 b c).
Qed.

#[export] Instance lex_cmp_total {A} (cmp : A -> A -> comparison) `{!TotalCmp cmp} :
  TotalCmp (lex_cmp cmp).
Proof.
  split.
  - intros a. induction a as [|x a IH]; intros [|y b]; simpl; try done.
    rewrite (cmp_opp cmp x y), IH. by destruct (cmp x y).
  - intros a. induction a as [|x a IH]; intros [|y b] [|z c]; simpl; try done.
    intros H1 H2. destruct (cmp x y) eqn:E1; simpl in H1; try done.
    + rewrite (cmp_Eq_l cmp x y z E1). destruct (cmp y z); simpl in *; try done. eauto.
    + rewrite (cmp_Lt_le cmp x y z E1); [done|]. by destruct (cmp y z).
Qed.

#[export] Instance lex_cmp_exact {A} (cmp : A -> A -> comparison) `{!ExactCmp cmp} :
  ExactCmp (lex_cmp cmp).
Proof.
  intros a. induction a as [|x a IH]; intros [|y b]; simpl; try done.
  destruct (cmp x y) eqn:E; simpl; try done. apply cmp_exact in E as ->. by intros ->%IH.
Qed.

#[export] Instance option_cmp_total {A} (cmp : A -> A -> comparison) `{!TotalCmp cmp} :
  TotalCmp (option_cmp cmp).
Proof.
  split; [intros [a|] [b|]; simpl; [apply (cmp_opp cmp)|done..]|].
  intros [] [] []; simpl; try done. by eapply (cmp_trans cmp).
Qed.

#[export] Instance option_cmp_exact {A} (cmp : A -> A -> comparison) `{!ExactCmp cmp} :
  ExactCmp (option_cmp cmp).
Proof. intros [] []; simpl; try done. by intros ->%cmp_exact. Qed.

#[export] Instance str_cmp_total : TotalCmp str_cmp.
Proof. exact (cmp_by_total as_bytes (lex_cmp Z.compare)). Qed.

Lemma str_cmp_Eq a b : str_ok a -> str_ok b -> str_cmp a b = Eq <-> a = b.
Proof.
  intros Ha Hb. split.
  - intros H. apply as_bytes_inj; [done..|]. by apply (lex_cmp_exact Z.compare).
  - intros ->. apply (cmp_refl str_cmp).
Qed.

(** ** Sorting *)

Definition cmp_le {A} (cmp : A -> A -> comparison) (a b : A) : Prop := cmp a b <> Gt.

#[export] Instance cmp_le_dec {A} (cmp : A -> A -> comparison) : RelDecision (cmp_le cmp).
Proof. intros a b. unfold cmp_le. destruct (cmp a b); [left|left|right]; congruence. Defined.

#[export] Instance cmp_le_trans {A} (cmp : A -> A -> comparison) `{!TotalCmp cmp} :
  Transitive (cmp_le cmp).
Proof. intros a b c. apply (cmp_trans cmp). Qed.

#[export] Instance cmp_le_total {A} (cmp : A -> A -> comparison) `{!TotalCmp cmp} :
  Total (cmp_le cmp).
Proof.
  intros a b. unfold cmp_le. rewrite (cmp_opp cmp a b). destruct (cmp a b); simpl; auto.
Qed.

Definition sort_by_cmp {A} (cmp : A -> A -> comparison) (l : list A) : list A :=
  merge_sort (cmp_le cmp) l.

(** Ascending with no two elements that compare equal *)
Definition strictly_sorted {A} (cmp : A -> A -> comparison) : list A -> Prop :=
  StronglySorted (fun a b => cmp a b = Lt).

Section sorting.
Context {A : Type} (cmp : A -> A -> comparison) `{!TotalCmp cmp}.

Lemma sort_permutation l : sort_by_cmp cmp l ≡ₚ l.
Proof. apply merge_sort_Permutation. Qed.

Lemma sort_sorted l : StronglySorted (cmp_le cmp) (sort_by_cmp cmp l).
Proof. apply StronglySorted_merge_sort; apply _. Qed.

Lemma elem_of_sort x l : x ∈ sort_by_cmp cmp l <-> x ∈ l.
Proof. by rewrite sort_permutation. Qed.

(** Sorting distinct keys leaves no ties. *)
Lemma sort_strictly_sorted l :
  (forall a b, a ∈ l -> b ∈ l -> cmp a b = Eq -> a = b) -> NoDup l ->
  strictly_sorted cmp (sort_by_cmp cmp l).
Proof.
  intros Hex Hnd. pose proof (sort_sorted l) as Hs.
  assert (NoDup (sort_by_cmp cmp l)) as Hnd' by (by rewrite sort_permutation).
  assert (forall a b, a ∈ sort_by_cmp cmp l -> b ∈ sort_by_cmp cmp l -> cmp a b = Eq -> a = b)
    as Hex' by (intros a b; rewrite !elem_of_sort; auto).
  clear Hex Hnd. unfold strictly_sorted. induction Hs as [|a k Hk IH Hle]; constructor.
  - apply IH; [by inversion Hnd'|]. intros. apply Hex'; auto; by apply elem_of_cons; right.
  - apply NoDup_cons in Hnd' as [Ha _]. rewrite Forall_forall in *. intros b Hb.
    specialize (Hle b Hb). unfold cmp_le in Hle. destruct (cmp a b) eqn:E; try done.
    destruct Ha. rewrite (Hex' a b); auto; [apply elem_of_cons; by left|by apply elem_of_cons; right].
Qed.

(** A strictly sorted sequence is determined by its elements. *)
Lemma strictly_sorted_unique l k :
  strictly_sorted cmp l -> strictly_sorted cmp k -> l ≡ₚ k -> l = k.
Proof.
  intros Hl Hk. apply (StronglySorted_unique_strong (fun a b => cmp a b = Lt)); [|done..].
  intros a b _ _ H1 H2. exfalso. rewrite (cmp_opp cmp a b), H1 in H2. done.
Qed.

Lemma strictly_sorted_lookup l i j a b :
  strictly_sorted cmp l -> (i < j)%nat -> l !! i = Some a -> l !! j = Some b -> cmp a b = Lt.
Proof.
  intros Hs. revert i j. induction Hs as [|x l Hs IH Hx]; intros [|i] [|j]; simpl; try (done || lia).
  - intros _ [= <-] Hb. rewrite Forall_forall in Hx. apply Hx. by eapply list_elem_of_lookup_2.
  - intros Hij. apply IH. lia.
Qed.
End sorting.

(** ** [binary_search_by] *)

Section binary_search.
Context {A : Type} (f : A -> comparison) (l : list A).

Definition probe (i : nat) : comparison :=
  match l !! i with Some a => f a | None => Gt end.

(** The loop of the library: halve [size] until one candidate is left. *)
Fixpoint search_loop (fuel base size : nat) : nat :=
  match fuel with
  | O => base
  | S fuel =>
      if (size <=? 1)%nat then base
      else
        let half := (size / 2)%nat in
        let mid := (base + half)%nat in
        let base := match probe mid with Gt => base | _ => mid end in
        search_loop fuel base (size - half)%nat
  end.

(** [Ok(index)] as [Some index]; the insertion point of [Err] is not used. *)
Definition binary_search_by : option nat :=
  if (length l =? 0)%nat then None
  else
    let base := search_loop (length l) 0 (length l) in
    match probe base with Eq => Some base | _ => None end.

(** [f] compares the elements of an ascending slice with a fixed target. *)
Definition ascending_probe : Prop :=
  forall i j a b, (i < j)%nat -> l !! i = Some a -> l !! j = Some b ->
    (f a = Gt -> f b = Gt) /\ (f b = Lt -> f a = Lt) /\ (f a = Eq -> f b = Gt).

Lemma search_loop_range fuel base size :
  (1 <= size)%nat -> (base <= search_loop fuel base size < base + size)%nat.
Proof.
  revert base size. induction fuel as [|fuel IH]; intros base size Hs; cbn [search_loop]; [lia|].
  destruct (size <=? 1)%nat eqn:E; [lia|]. apply Nat.leb_gt in E.
  pose proof (Nat.div_lt size 2). pose proof (Nat.div_str_pos size 2).
  destruct (probe (base + size / 2)).
  - specialize (IH (base + size / 2) (size - size / 2))%nat. lia.
  - specialize (IH (base + size / 2) (size - size / 2))%nat. lia.
  - specialize (IH base (size - size / 2))%nat. lia.
Qed.

Lemma search_loop_finds fuel base size k :
  ascending_probe -> (size <= fuel)%nat -> (base <= k < base + size)%nat ->
  (base + size <= length l)%nat -> probe k = Eq -> search_loop fuel base size = k.
Proof.
  intros Hasc. revert base size. induction fuel as [|fuel IH]; intros base size Hf Hk Hl Hp; [lia|].
  cbn [search_loop]. destruct (size <=? 1)%nat eqn:E; [apply Nat.leb_le in E; lia|]. apply Nat.leb_gt in E.
  pose proof (Nat.div_lt size 2). pose proof (Nat.div_str_pos size 2).
  pose proof (Nat.div_mod size 2). pose proof (Nat.mod_upper_bound size 2).
  remember (base + size / 2)%nat as mid eqn:Em.
  destruct (lookup_lt_is_Some_2 l mid) as [x Hx]; [lia|].
  destruct (lookup_lt_is_Some_2 l k) as [y Hy]; [lia|].
  unfold probe in Hp. rewrite Hy in Hp. unfold probe at 1. rewrite Hx.
  destruct (lt_eq_lt_dec k mid) as [[Hlt|Heq]|Hgt].
  - destruct (Hasc k mid y x Hlt Hy Hx) as (_ & _ & ->); [|done].
    apply IH; [lia..|]. unfold probe. by rewrite Hy.
  - subst k. simplify_eq. rewrite Hp. apply IH; [lia..|]. unfold probe. by rewrite Hy.
  - destruct (Hasc mid k x y Hgt Hx Hy) as (HG & _ & HE).
    destruct (f x) eqn:Ef; [rewrite HE in Hp; done| |rewrite HG in Hp; done].
    apply IH; [lia..|]. unfold probe. by rewrite Hy.
Qed.

(** The search finds an index exactly when some element compares equal. *)
Lemma binary_search_spec i :
  ascending_probe -> binary_search_by = Some i <-> exists a, l !! i = Some a /\ f a = Eq.
Proof.
  intros Hasc. unfold binary_search_by. destruct (length l =? 0)%nat eqn:E0.
  { apply Nat.eqb_eq, length_zero_iff_nil in E0. rewrite E0. split; [done|].
    intros (a & Ha & _). done. }
  apply Nat.eqb_neq in E0. split.
  - destruct (probe _) eqn:Ep; [|done..]. intros [= <-]. unfold probe in Ep.
    destruct (l !! _) as [a|] eqn:El; [|done]. by exists a.
  - intros (a & Ha & Hf). assert (probe i = Eq) as Hp by (unfold probe; by rewrite Ha).
    rewrite (search_loop_finds (length l) 0 (length l) i); auto; [by rewrite Hp|].
    apply lookup_lt_Some in Ha. lia.
Qed.

(** The search with its insertion point: [Err(index)] when no element is equal. *)
Definition binary_search : result nat nat :=
  if (length l =? 0)%nat then Err 0%nat
  else
    let base := search_loop (length l) 0 (length l) in
    match probe base with
    | Eq => Ok base
    | Lt => Err (base + 1)%nat
    | Gt => Err base
    end.

(** What the loop leaves out compares [Gt]; its base never does unless it is 0. *)
Lemma search_loop_bounds fuel base size :
  ascending_probe -> (size <= fuel)%nat -> (1 <= size)%nat -> (base + size <= length l)%nat ->
  (base = 0%nat \/ probe base <> Gt) ->
  (forall j, (base + size <= j < length l)%nat -> probe j = Gt) ->
  let r := search_loop fuel base size in
  (r = 0%nat \/ probe r <> Gt) /\ (r < length l)%nat /\
  (forall j, (r < j < length l)%nat -> probe j = Gt).
Proof.
  intros Hasc. revert base size. induction fuel as [|fuel IH]; intros base size Hf Hs Hl Hb Hgt; [lia|].
  cbn [search_loop]. destruct (size <=? 1)%nat eqn:E; [apply Nat.leb_le in E|apply Nat.leb_gt in E].
  { split_and!; [done|lia|]. intros j Hj. apply Hgt. lia. }
  pose proof (Nat.div_lt size 2). pose proof (Nat.div_str_pos size 2).
  pose proof (Nat.div_mod size 2). pose proof (Nat.mod_upper_bound size 2).
  remember (base + size / 2)%nat as mid eqn:Em.
  destruct (lookup_lt_is_Some_2 l mid) as [x Hx]; [lia|].
  destruct (probe mid) eqn:Ep; [| |].
  1,2: apply IH; [lia|lia|lia|right; by rewrite Ep|intros j Hj; apply Hgt; lia].
  apply IH; [lia|lia|lia|done|]. intros j Hj. destruct (decide (mid = j)) as [<-|Hne]; [done|].
  destruct (lookup_lt_is_Some_2 l j) as [y Hy]; [lia|]. unfold probe in *. rewrite Hx in Ep. rewrite Hy.
  destruct (Hasc mid j x y) as (H' & _ & _); [lia|done..|]. by apply H'.
Qed.

(** The outcome on an ascending slice: an equal element, or the place between the
    smaller and the greater ones. *)
Lemma binary_search_cases : ascending_probe ->
  match binary_search with
  | Ok i => exists a, l !! i = Some a /\ f a = Eq
  | Err i => (i <= length l)%nat /\ (forall a, a ∈ take i l -> f a = Lt) /\ (forall a, a ∈ drop i l -> f a = Gt)
  end.
Proof.
  intros Hasc. unfold binary_search. destruct (length l =? 0)%nat eqn:E0.
  { apply Nat.eqb_eq, length_zero_iff_nil in E0. rewrite E0. simpl.
    split_and!; [lia|by intros a ?%not_elem_of_nil..]. }
  apply Nat.eqb_neq in E0.
  pose proof (search_loop_bounds (length l) 0 (length l) Hasc) as H. cbv zeta in H.
  destruct H as (Hb & Hr & Hgt); [lia|lia|lia|by left|intros; lia|].
  set (r := search_loop (length l) 0 (length l)) in *. clearbody r.
  destruct (lookup_lt_is_Some_2 l r Hr) as [x Hx].
  assert (probe r = f x) as Ep by (unfold probe; by rewrite Hx). rewrite Ep.
  assert (forall a i, a ∈ drop i l -> (r < i)%nat -> f a = Gt) as Hafter.
  { intros a i Ha Hi. apply list_elem_of_lookup in Ha as [j Hj]. rewrite lookup_drop in Hj.
    pose proof (lookup_lt_Some _ _ _ Hj). specialize (Hgt (i + j)%nat). unfold probe in Hgt.
    rewrite Hj in Hgt. apply Hgt. lia. }
  destruct (f x) eqn:Ef; [by exists x| |].
  - split_and!; [lia| |by intros a Ha; apply (Hafter a (r + 1)%nat); [|lia]].
    intros a Ha. apply list_elem_of_lookup in Ha as [j Hj]. apply lookup_take_Some in Hj as [Hj Hlt].
    destruct (decide (j = r)) as [->|Hne]; [congruence|].
    destruct (Hasc j r a x) as (_ & H & _); [lia|done..|auto].
  - destruct Hb as [->|Hb]; [|congruence]. split_and!; [lia|by intros a ?%not_elem_of_nil|].
    intros a Ha. rewrite drop_0 in Ha. destruct l as [|y k]; [done|].
    injection Hx as ->. apply elem_of_cons in Ha as [->|Ha]; [done|]. by apply (Hafter a 1%nat); [|lia].
Qed.
End binary_search.

(** Searching a slice sorted by a string key is looking the key up. *)
Definition find_key {A} (key : A -> str) (k : str) (l : list A) : option A :=
  match binary_search_by (fun a => str_cmp (key a) k) l with
  | Some i => l !! i
  | None => None
  end.

Lemma sorted_probe {A} (key : A -> str) (k : str) (l : list A) :
  strictly_sorted (cmp_by key str_cmp) l -> ascending_probe (fun a => str_cmp (key a) k) l.
Proof.
  intros Hs i j a b Hij Ha Hb.
  pose proof (strictly_sorted_lookup _ _ _ _ _ _ Hs Hij Ha Hb) as Hlt. unfold cmp_by in Hlt.
  split_and!.
  - intros Hg. apply cmp_Lt_Gt in Hg; [|apply _]. apply cmp_Lt_Gt; [apply _|].
    eapply cmp_Lt_le; [apply _|done|]. by rewrite Hlt.
  - intros Hl. eapply cmp_le_Lt; [apply _| |done]. by rewrite Hlt.
  - intros He. apply cmp_Lt_Gt; [apply _|]. apply cmp_Eq_sym in He; [|apply _].
    by rewrite (cmp_Eq_l _ _ _ _ He).
Qed.

Lemma find_key_spec {A} (key : A -> str) (k : str) (l : list A) a :
  strictly_sorted (cmp_by key str_cmp) l ->
  (forall x, x ∈ l -> str_ok (key x)) -> str_ok k ->
  find_key key k l = Some a <-> a ∈ l /\ key a = k.
Proof.
  intros Hs Hok Hk. pose proof (sorted_probe key k l Hs) as Hp. unfold find_key.
  destruct (binary_search_by _ l) as [i|] eqn:E.
  - apply binary_search_spec in E as (x & Hx & Hf); [|done]. rewrite Hx.
    assert (x ∈ l) as Hin by (by eapply list_elem_of_lookup_2).
    apply str_cmp_Eq in Hf; [|by auto..]. split.
    + by intros [= <-].
    + intros [[j Hj]%list_elem_of_lookup_1 Ha]. f_equal.
      destruct (lt_eq_lt_dec i j) as [[Hlt| ->]|Hlt]; [|congruence|].
      * pose proof (strictly_sorted_lookup _ _ _ _ _ _ Hs Hlt Hx Hj) as H. unfold cmp_by in H.
        rewrite Hf, Ha, (cmp_refl str_cmp) in H. done.
      * pose proof (strictly_sorted_lookup _ _ _ _ _ _ Hs Hlt Hj Hx) as H. unfold cmp_by in H.
        rewrite Hf, Ha, (cmp_refl str_cmp) in H. done.
  - split; [done|]. intros [[j Hj]%list_elem_of_lookup_1 Ha].
    assert (binary_search_by (fun a => str_cmp (key a) k) l = Some j); [|congruence].
    apply binary_search_spec; [done|]. exists a. split; [done|]. rewrite Ha. apply (cmp_refl str_cmp).
Qed.

Lemma find_key_None {A} (key : A -> str) (k : str) (l : list A) :
  strictly_sorted (cmp_by key str_cmp) l ->
  (forall x, x ∈ l -> str_ok (key x)) -> str_ok k ->
  find_key key k l = None <-> k ∉ map key l.
Proof.
  intros Hs Hok Hk. rewrite list_elem_of_fmap.
  destruct (find_key key k l) as [a|] eqn:E.
  - apply find_key_spec in E as [Ha Hka]; [|done..]. split; [done|]. intros []. by exists a.
  - split; [|done]. intros _ (a & -> & Ha).
    assert (find_key key (key a) l = Some a) by (by apply find_key_spec). congruence.
Qed.

(** ** [Vec::dedup]: drop consecutive repetitions *)

Fixpoint dedup {A} `{EqDecision A} (l : list A) : list A :=
  match l with
  | [] => []
  | a :: l =>
      match l with
      | b :: _ => if decide (a = b) then dedup l else a :: dedup l
      | [] => [a]
      end
  end.

Lemma elem_of_dedup {A} `{EqDecision A} (l : list A) x : x ∈ dedup l <-> x ∈ l.
Proof.
  induction l as [|a [|b l] IH]; [done|done|].
  cbn [dedup]. destruct (decide (a = b)) as [->|]; [rewrite IH|rewrite elem_of_cons, IH];
    rewrite !elem_of_cons; naive_solver.
Qed.

(** Deduplicating a sorted sequence leaves each element once, in strict order. *)
Lemma dedup_strictly_sorted {A} `{EqDecision A} (cmp : A -> A -> comparison) `{!TotalCmp cmp} l :
  (forall a b, a ∈ l -> b ∈ l -> cmp a b = Eq -> a = b) ->
  StronglySorted (cmp_le cmp) l -> strictly_sorted cmp (dedup l).
Proof.
  induction l as [|a [|b l] IH]; intros Hex Hs.
  - constructor.
  - repeat constructor.
  - cbn [dedup]. apply StronglySorted_inv in Hs as [Hs Ha].
    assert (strictly_sorted cmp (dedup (b :: l))) as Hrec.
    { apply IH; [|done]. intros x y Hx Hy. apply Hex; by apply elem_of_cons; right. }
    destruct (decide (a = b)) as [->|Hne]; [done|].
    constructor; [done|]. rewrite Forall_forall in *. intros x Hx.
    apply (proj1 (elem_of_dedup (b :: l) x)) in Hx.
    assert (cmp a b = Lt) as Hab.
    { specialize (Ha b (list_elem_of_here b l)). unfold cmp_le in Ha.
      destruct (cmp a b) eqn:E; try done.
      destruct Hne. apply Hex; [left|right; left|done]. }
    apply elem_of_cons in Hx as [->|Hx]; [done|].
    apply StronglySorted_inv in Hs as [_ Hb]. rewrite Forall_forall in Hb.
    by eapply cmp_Lt_le; [apply _|done|apply Hb].
Qed.

Lemma strictly_sorted_NoDup {A} (cmp : A -> A -> comparison) `{!TotalCmp cmp} l :
  strictly_sorted cmp l -> NoDup l.
Proof.
  induction 1 as [|a l Hs IH Ha]; constructor; [|done].
  intros Hin. rewrite Forall_forall in Ha. specialize (Ha a Hin). simpl in Ha.
  by rewrite (cmp_refl cmp) in Ha.
Qed.

(** ** [Vec::insert] at the place a search found *)

Definition vec_insert {A} (l : list A) (i : nat) (a : A) : list A := take i l ++ a :: drop i l.

Lemma vec_insert_permutation {A} (l : list A) i a : vec_insert l i a ≡ₚ a :: l.
Proof.
  unfold vec_insert. rewrite <- Permutation_middle. by rewrite take_drop.
Qed.

Lemma strictly_sorted_app {A} (cmp : A -> A -> comparison) l k :
  strictly_sorted cmp l -> strictly_sorted cmp k -> (forall a b, a ∈ l -> b ∈ k -> cmp a b = Lt) ->
  strictly_sorted cmp (l ++ k).
Proof.
  induction 1 as [|a l Hs IH Ha]; intros Hk H; simpl; [done|]. constructor.
  - apply IH; [done|]. intros x y Hx. apply H, elem_of_cons. by right.
  - apply Forall_app. split; [done|]. apply Forall_forall. intros b Hb. apply H; [apply elem_of_cons; by left|done].
Qed.

Lemma strictly_sorted_sub {A} (cmp : A -> A -> comparison) l k :
  k `sublist_of` l -> strictly_sorted cmp l -> strictly_sorted cmp k.
Proof.
  unfold strictly_sorted. intros Hsub. induction Hsub as [|a k l Hsub IH|a k l Hsub IH]; intros Hs; [constructor| |].
  - apply StronglySorted_inv in Hs as [Hs Ha]. constructor; [auto|].
    rewrite Forall_forall in *. intros b Hb. apply Ha. by eapply elem_of_submseteq, sublist_submseteq.
  - apply StronglySorted_inv in Hs as [Hs _]. auto.
Qed.

Lemma vec_insert_sorted {A} (key : A -> str) (l : list A) i a :
  strictly_sorted (cmp_by key str_cmp) l ->
  (forall b, b ∈ take i l -> str_cmp (key b) (key a) = Lt) ->
  (forall b, b ∈ drop i l -> str_cmp (key b) (key a) = Gt) ->
  strictly_sorted (cmp_by key str_cmp) (vec_insert l i a).
Proof.
  intros Hs Hlt Hgt. unfold vec_insert. apply strictly_sorted_app.
  - eapply strictly_sorted_sub; [apply sublist_take|done].
  - constructor; [eapply strictly_sorted_sub; [apply sublist_drop|done]|].
    apply Forall_forall. intros b Hb. unfold cmp_by. apply cmp_Lt_Gt; [apply _|]. auto.
  - intros x y Hx [->|Hy]%elem_of_cons; [by apply Hlt|]. unfold cmp_by.
    eapply (cmp_Lt_le str_cmp); [by apply Hlt|]. apply cmp_not_Gt; [apply _|]. by rewrite Hgt.
Qed.
