(* ===== verification/Usage.v ===== *)
(** * Usage values ([crates/domain/src/usage.rs])

    The provider-neutral vocabulary every other component speaks: token counts,
    activity counters, bounded identifiers, and the observation and relation
    drafts a provider adapter emits. A validated newtype ([UsageProviderId],
    [ModelKey], ...) is the string it wraps; its constructor is the [_new]
    function, and "a value of that type" is a string its constructor returned. *)

From S2P Require Import Prelude.

Definition MAX_USAGE_ID_BYTES : Z := 128.
Definition MAX_PROVIDER_ID_BYTES : Z := 64.
Definition MAX_SESSION_ID_BYTES : Z := 512.
Definition MAX_MODEL_KEY_BYTES : Z := 64.
Definition MAX_METADATA_BYTES : Z := 512.

Inductive UsageError : Type :=
| InvalidText (field : string) (max_bytes : Z)
| InvalidCharacters (field : string)
| InvalidTimestamp
| InvalidLineage.

(** ** Token counts *)

Inductive TokenCount : Type :=
| Available (value : Z)
| Unavailable.

#[export] Instance TokenCount_eq_dec : EqDecision TokenCount.
Proof. solve_decision. Defined.

Record TokenUsage : Type := mkTokenUsage {
  tu_input : TokenCount;
  tu_cached : TokenCount;
  tu_output : TokenCount;
  tu_reasoning : TokenCount;
  tu_total : TokenCount;
  tu_cache_write_5m : TokenCount;
  tu_cache_write_1h : TokenCount
}.

#[export] Instance TokenUsage_eq_dec : EqDecision TokenUsage.
Proof. solve_decision. Defined.

Definition TokenUsage_new (input cached output reasoning total : TokenCount) : TokenUsage :=
  mkTokenUsage input cached output reasoning total Unavailable Unavailable.

Definition with_cache_writes (self : TokenUsage) (cache_write_5m cache_write_1h : TokenCount)
  : TokenUsage :=
  mkTokenUsage (tu_input self) (tu_cached self) (tu_output self) (tu_reasoning self)
    (tu_total self) cache_write_5m cache_write_1h.

Inductive LongContextState : Type := LongYes | LongNo | LongUnavailable.

#[export] Instance LongContextState_eq_dec : EqDecision LongContextState.
Proof. solve_decision. Defined.

(** ** Activity counters *)

Inductive ActivityKind : Type :=
| Read | EditWrite | Search | Git | BuildTest | Web | Subagents | Terminal.

#[export] Instance ActivityKind_eq_dec : EqDecision ActivityKind.
Proof. solve_decision. Defined.

(** [self as usize]: the [repr(u8)] discriminant. *)
Definition ActivityKind_index (kind : ActivityKind) : nat :=
  match kind with
  | Read => 0 | EditWrite => 1 | Search => 2 | Git => 3
  | BuildTest => 4 | Web => 5 | Subagents => 6 | Terminal => 7
  end%nat.

(** [[u64; 8]] *)
Record ActivityCounts : Type := mkActivityCounts { ac_slots : list Z }.

#[export] Instance ActivityCounts_eq_dec : EqDecision ActivityCounts.
Proof. solve_decision. Defined.

Definition ActivityCounts_default : ActivityCounts := mkActivityCounts (repeat 0 8).

Definition ActivityCounts_get (self : ActivityCounts) (kind : ActivityKind) : Z :=
  nth (ActivityKind_index kind) (ac_slots self) 0.

Definition ActivityCounts_add (self : ActivityCounts) (kind : ActivityKind) (count : Z)
  : ActivityCounts :=
  mkActivityCounts
    (<[ActivityKind_index kind :=
         saturating_add u64_max (ActivityCounts_get self kind) count]> (ac_slots self)).

Definition ActivityCounts_increment (self : ActivityCounts) (kind : ActivityKind)
  : ActivityCounts := ActivityCounts_add self kind 1.

(** ** Timestamps *)

Record UtcTimestamp : Type := mkUtcTimestamp { unix_seconds : Z; subsec_nanos : Z }.

#[export] Instance UtcTimestamp_eq_dec : EqDecision UtcTimestamp.
Proof. solve_decision. Defined.

Definition UtcTimestamp_new (unix_seconds subsec_nanos : Z) : result UtcTimestamp UsageError :=
  fail_if 1000000000 <=? subsec_nanos with InvalidTimestamp else
  Ok (mkUtcTimestamp unix_seconds subsec_nanos).

(** ** Validated text *)

Definition is_usage_id_byte (byte : Z) : bool :=
  is_ascii_alphanumeric byte || (byte =? 46) || (byte =? 95) || (byte =? 45).

Definition is_model_key_byte (byte : Z) : bool :=
  is_usage_id_byte byte || (byte =? 47) || (byte =? 58).

Definition validate_ascii_value (value : str) (field : string) (max_bytes : Z)
    (is_allowed : Z -> bool) : result str UsageError :=
  fail_if bool_decide (value = []) || (max_bytes <? str_len value)
    with InvalidText field max_bytes else
  fail_if negb (forallb is_allowed (as_bytes value)) with InvalidCharacters field else
  Ok value.

Definition validate_trimmed_value (value : str) (field : string) (max_bytes : Z)
  : result str UsageError :=
  let value := trim value in
  fail_if bool_decide (value = []) || (max_bytes <? str_len value)
    with InvalidText field max_bytes else
  fail_if existsb is_control value with InvalidCharacters field else
  Ok value.

Definition UsageProviderId_new (value : str) : result str UsageError :=
  validate_ascii_value value "provider_id" MAX_PROVIDER_ID_BYTES is_usage_id_byte.
Definition UsageProfileId_new (value : str) : result str UsageError :=
  validate_ascii_value value "profile_id" MAX_USAGE_ID_BYTES is_usage_id_byte.
Definition UsageSourceId_new (value : str) : result str UsageError :=
  validate_ascii_value value "source_id" MAX_USAGE_ID_BYTES is_usage_id_byte.
Definition ModelKey_new (value : str) : result str UsageError :=
  validate_ascii_value value "model" MAX_MODEL_KEY_BYTES is_model_key_byte.
Definition UsageSessionId_new (value : str) : result str UsageError :=
  validate_trimmed_value value "session_id" MAX_SESSION_ID_BYTES.
Definition MetadataValue_new (value : str) : result str UsageError :=
  validate_trimmed_value value "metadata" MAX_METADATA_BYTES.

Definition ProjectAlias_new (value : str) : result str UsageError :=
  let? value := validate_trimmed_value value "project" MAX_METADATA_BYTES in
  fail_if existsb (fun byte => (byte =? 47) || (byte =? 92)) (as_bytes value)
    with InvalidCharacters "project" else
  Ok value.

(** ** Drafts *)

Inductive ObservationVerification : Type := Incremental | FullPrefix.

#[export] Instance ObservationVerification_eq_dec : EqDecision ObservationVerification.
Proof. solve_decision. Defined.

Record SessionRelationDraft : Type := mkSessionRelationDraft {
  sr_provider_id : str;
  sr_profile_id : str;
  sr_session_id : str;
  sr_parent_session_id : str;
  sr_declared_conflict : bool;
  sr_source_id : str;
  sr_source_offset : Z
}.

Definition SessionRelationDraft_new (parts : SessionRelationDraft)
  : result SessionRelationDraft UsageError :=
  fail_if negb (sr_declared_conflict parts)
          && bool_decide (sr_parent_session_id parts = sr_session_id parts)
    with InvalidLineage else
  Ok parts.

Record ObservationDraft : Type := mkObservationDraft {
  od_provider_id : str;
  od_profile_id : str;
  od_session_id : str;
  od_parent_session_id : option str;
  od_session_ordinal : Z;
  od_lineage_conflict : bool;
  od_source_id : str;
  od_source_offset : Z;
  od_source_verification : ObservationVerification;
  od_timestamp : UtcTimestamp;
  od_model : str;
  od_raw_model : option str;
  od_delta_usage : TokenUsage;
  od_cumulative_usage : option TokenUsage;
  od_fallback_model : bool;
  od_long_context : LongContextState;
  od_service_tier : option str;
  od_reported_cost : option Z;
  od_project : option str;
  od_originator : option str;
  od_activity : ActivityCounts
}.

Definition ObservationDraft_new (parts : ObservationDraft) : result ObservationDraft UsageError :=
  fail_if negb (od_lineage_conflict parts)
          && bool_decide (od_parent_session_id parts = Some (od_session_id parts))
    with InvalidLineage else
  Ok parts.

(** ** Well-formedness: what the types and constructors of the source guarantee *)

Definition TokenCount_ok (c : TokenCount) : Prop :=
  match c with Available v => in_u64 v | Unavailable => True end.

Definition TokenUsage_ok (u : TokenUsage) : Prop :=
  TokenCount_ok (tu_input u) /\ TokenCount_ok (tu_cached u) /\ TokenCount_ok (tu_output u) /\
  TokenCount_ok (tu_reasoning u) /\ TokenCount_ok (tu_total u) /\
  TokenCount_ok (tu_cache_write_5m u) /\ TokenCount_ok (tu_cache_write_1h u).

Definition ActivityCounts_ok (a : ActivityCounts) : Prop :=
  length (ac_slots a) = 8%nat /\ Forall in_u64 (ac_slots a).

(** The identity-bearing fields of a draft, each as its constructor returned it. *)
Definition ObservationDraft_ok (d : ObservationDraft) : Prop :=
  UsageProviderId_new (od_provider_id d) = Ok (od_provider_id d) /\
  UsageProfileId_new (od_profile_id d) = Ok (od_profile_id d) /\
  UsageSessionId_new (od_session_id d) = Ok (od_session_id d) /\
  ModelKey_new (od_model d) = Ok (od_model d) /\
  str_ok (od_provider_id d) /\ str_ok (od_profile_id d) /\ str_ok (od_session_id d) /\
  str_ok (od_model d) /\
  in_u64 (od_session_ordinal d) /\ in_u64 (od_source_offset d) /\
  TokenUsage_ok (od_delta_usage d) /\
  match od_cumulative_usage d with Some u => TokenUsage_ok u | None => True end.

(** ** Lemmas *)

Lemma ActivityKind_index_lt kind : (ActivityKind_index kind < 8)%nat.
Proof. destruct kind; simpl; lia. Qed.

Lemma ActivityKind_index_inj k1 k2 : ActivityKind_index k1 = ActivityKind_index k2 -> k1 = k2.
Proof. destruct k1, k2; simpl; congruence. Qed.

Lemma nth_insert_eq (l : list Z) i v d : (i < length l)%nat -> nth i (<[i:=v]> l) d = v.
Proof. intros H. apply nth_lookup_Some. by apply list_lookup_insert_eq. Qed.

Lemma nth_insert_ne (l : list Z) i j v d : i <> j -> nth j (<[i:=v]> l) d = nth j l d.
Proof. intros H. rewrite !nth_lookup. by rewrite list_lookup_insert_ne. Qed.

Lemma trim_start_head s c t : trim_start s = c :: t -> is_whitespace c = false.
Proof.
  induction s as [|a s IH]; simpl; [done|]. destruct (is_whitespace a) eqn:E; auto.
  by intros [= <- _].
Qed.

Lemma trim_start_fix s c t : s = c :: t -> is_whitespace c = false -> trim_start s = s.
Proof. intros -> H. simpl. by rewrite H. Qed.

Lemma trim_start_suffix s : exists p, s = p ++ trim_start s.
Proof.
  induction s as [|a s [p IH]]; simpl; [by exists []|].
  destruct (is_whitespace a); [exists (a :: p); by rewrite IH at 1|by exists []].
Qed.

Lemma trim_end_prefix s : exists p, s = trim_end s ++ p.
Proof.
  unfold trim_end. destruct (trim_start_suffix (reverse s)) as [p Hp].
  exists (reverse p). rewrite <- reverse_app, <- Hp. by rewrite reverse_involutive.
Qed.

(** A trimmed string is a fixed point of [trim]. *)
Lemma trim_idempotent s : trim (trim s) = trim s.
Proof.
  unfold trim. assert (Hs : trim_start (trim_end (trim_start s)) = trim_end (trim_start s)).
  { destruct (trim_end_prefix (trim_start s)) as [p Hp].
    destruct (trim_end (trim_start s)) as [|c t] eqn:E; [done|].
    eapply trim_start_fix; [done|]. by eapply trim_start_head, Hp. }
  rewrite Hs. unfold trim_end. rewrite reverse_involutive. f_equal.
  destruct (trim_start (reverse (trim_start s))) as [|c t] eqn:E; [done|].
  eapply trim_start_fix; [done|]. by eapply trim_start_head.
Qed.

Lemma validate_ascii_value_ok value field max allowed w :
  validate_ascii_value value field max allowed = Ok w <->
  w = value /\ value <> [] /\ str_len value <= max /\
  Forall (fun b => allowed b = true) (as_bytes value).
Proof.
  unfold validate_ascii_value. rewrite Forall_forall. split.
  - intros H. inv_ok H. rewrite forallb_forall in E0. split_and!; auto.
    intros b Hb. apply E0. by apply list_elem_of_In.
  - intros (-> & Hne & Hlen & Hall). rewrite bool_decide_eq_false_2 by done.
    replace (max <? str_len value) with false by lia. simpl.
    replace (forallb allowed (as_bytes value)) with true; [done|].
    symmetry. apply forallb_forall. intros b Hb. apply Hall. by apply list_elem_of_In.
Qed.

Lemma validate_trimmed_value_ok value field max w :
  validate_trimmed_value value field max = Ok w <->
  w = trim value /\ w <> [] /\ str_len w <= max /\ existsb is_control w = false.
Proof.
  unfold validate_trimmed_value. split.
  - intros H. inv_ok H. split_and!; auto.
  - intros (-> & Hne & Hlen & Hc). rewrite bool_decide_eq_false_2 by done.
    replace (max <? str_len (trim value)) with false by lia. simpl. by rewrite Hc.
Qed.

Lemma validate_trimmed_value_fix value field max w :
  validate_trimmed_value value field max = Ok w -> validate_trimmed_value w field max = Ok w.
Proof.
  rewrite !validate_trimmed_value_ok. intros (-> & H). by rewrite trim_idempotent.
Qed.

(** ** Properties *)

(** Adding to one activity counter saturates that counter at [u64::MAX],
    changes no other counter and keeps the eight-slot array well formed. *)
Theorem activity_add_saturates (a : ActivityCounts) (kind kind' : ActivityKind) (count : Z) :
  ActivityCounts_ok a -> in_u64 count ->
  ActivityCounts_ok (ActivityCounts_add a kind count) /\
  ActivityCounts_get (ActivityCounts_add a kind count) kind' =
    (if decide (kind = kind')
     then Z.min u64_max (ActivityCounts_get a kind' + count)
     else ActivityCounts_get a kind').
Proof.
  intros [Hlen Hall] Hcount. pose proof (ActivityKind_index_lt kind) as Hi.
  assert (Hget : in_u64 (ActivityCounts_get a kind)).
  { unfold ActivityCounts_get. apply (proj1 (Forall_forall in_u64 _) Hall).
    apply list_elem_of_In, nth_In. lia. }
  split.
  - split; simpl; [by rewrite length_insert|]. apply Forall_insert; [done|].
    unfold saturating_add. unfold_ints. lia.
  - unfold ActivityCounts_get, ActivityCounts_add. simpl. case_decide as Hk.
    + subst kind'. by rewrite nth_insert_eq by lia.
    + rewrite nth_insert_ne; [done|]. by intros ?%ActivityKind_index_inj.
Qed.

Lemma activity_add_saturates_witness :
  ActivityCounts_get (ActivityCounts_add (mkActivityCounts (repeat u64_max 8)) Git 5) Git
  = u64_max.
Proof.
  destruct (activity_add_saturates (mkActivityCounts (repeat u64_max 8)) Git Git 5) as [_ H].
  - split; [done|]. repeat (constructor; [unfold_ints; lia|]). constructor.
  - unfold_ints. lia.
  - exact H.
Defined.

(** A project alias is non-empty, at most 512 UTF-8 bytes, free of control
    characters and of both path separators, carries no surrounding whitespace, and
    passes its own constructor unchanged, so that persisting and reloading it is the
    identity. *)
Theorem project_alias_stable (value alias : str) :
  ProjectAlias_new value = Ok alias ->
  alias = trim value /\ alias <> [] /\ str_len alias <= MAX_METADATA_BYTES /\
  existsb is_control alias = false /\
  (47 ∉ as_bytes alias) /\ (92 ∉ as_bytes alias) /\
  ProjectAlias_new alias = Ok alias.
Proof.
  unfold ProjectAlias_new. intros H. apply rbind_ok in H as (w & Hw & H).
  destruct (existsb _ (as_bytes w)) eqn:Es; [done|]. injection H as <-.
  pose proof (validate_trimmed_value_fix _ _ _ _ Hw) as Hfix.
  apply validate_trimmed_value_ok in Hw as (-> & ? & ? & ?).
  assert (Hsep : forall b, b = 47 \/ b = 92 -> b ∉ as_bytes (trim value)).
  { intros b Hb Hin. enough (true = false) by done. rewrite <- Es. symmetry.
    apply existsb_exists. exists b. rewrite <- list_elem_of_In. split; [done|]. lia. }
  split_and!; auto. rewrite Hfix. simpl. by rewrite Es.
Qed.

Lemma project_alias_stable_witness : ProjectAlias_new (lit "  token master ") = Ok (lit "token master").
Proof.
  destruct (project_alias_stable (lit "  token master ") (lit "token master")) as (-> & _);
    reflexivity.
Defined.
