(* ===== verification/Accounting.v ===== *)
(** * Canonical accounting ([crates/accounting/src])

    The canonicalizer turns an observation draft into a canonical event with a
    content fingerprint, a replay signature, an event id and a lineage record; the
    replay classifier decides, event by event, whether a child session repeats its
    parent. SHA-256 ([sha2] crate) is a parameter of the model: the hasher is the
    byte sequence fed to it so far, and [finalize] applies the parameter. *)

From S2P Require Import Prelude Usage.

(** ** Event identities ([event.rs]) *)

Inductive ReplayEvidence : Type := StrongCumulative | WeakUsageOnly.

#[export] Instance ReplayEvidence_eq_dec : EqDecision ReplayEvidence.
Proof. solve_decision. Defined.

Record UsageLineage : Type := mkUsageLineage {
  ul_parent_session_id : option str;
  ul_session_ordinal : Z;
  ul_signature : list Z;
  ul_evidence : ReplayEvidence;
  ul_declared_conflict : bool
}.

(** [HEX[usize::from(nibble)]] *)
Definition HEX : str := lit "0123456789abcdef".
Definition hex_digit (nibble : Z) : Z := nth (Z.to_nat nibble) HEX 0.

Fixpoint append_hex (output : str) (bytes : list Z) : str :=
  match bytes with
  | [] => output
  | byte :: bytes =>
      append_hex (output ++ [hex_digit (Z.shiftr byte 4); hex_digit (Z.land byte 15)]) bytes
  end.

Definition bytes_to_hex (bytes : list Z) : str := append_hex [] bytes.

(** [EventId::from_fingerprint]: [fingerprint.0[..10]] of a 32-byte array. *)
Definition EventId_from_fingerprint (fingerprint : list Z) : str :=
  append_hex (lit "event_") (take 10 fingerprint).

Record CanonicalUsageEvent : Type := mkCanonicalUsageEvent {
  ce_draft : ObservationDraft;
  ce_fingerprint : list Z;
  ce_id : str;
  ce_lineage : UsageLineage
}.

Definition CanonicalUsageEvent_from_draft (draft : ObservationDraft)
    (fingerprint signature : list Z) (evidence : ReplayEvidence) : CanonicalUsageEvent :=
  let id := EventId_from_fingerprint fingerprint in
  let lineage := mkUsageLineage (od_parent_session_id draft) (od_session_ordinal draft)
    signature evidence (od_lineage_conflict draft) in
  mkCanonicalUsageEvent draft fingerprint id lineage.

(** ** Hash inputs ([hash.rs]) *)

Definition EVENT_FINGERPRINT_DOMAIN : list Z := lit "tokenmaster.event-fingerprint.v2" ++ [0].
Definition REPLAY_SIGNATURE_DOMAIN : list Z := lit "tokenmaster.replay-signature.v1" ++ [0].

Definition update_text (hasher : list Z) (value : str) : list Z :=
  let len := if str_len value <=? u32_max then str_len value else u32_max in
  (hasher ++ be_bytes 4 len) ++ as_bytes value.

Definition update_count (hasher : list Z) (count : TokenCount) : list Z :=
  match count with
  | Available value => (hasher ++ [1]) ++ be_bytes 8 value
  | Unavailable => hasher ++ [0]
  end.

Definition usage_counts (usage : TokenUsage) : list TokenCount :=
  [tu_input usage; tu_cached usage; tu_output usage; tu_reasoning usage; tu_total usage].

Definition update_usage (hasher : list Z) (usage : TokenUsage) : list Z :=
  fold_left update_count (usage_counts usage) hasher.

(** The bytes [event_fingerprint] feeds to the hasher. *)
Definition event_fingerprint_input (draft : ObservationDraft) : list Z :=
  let hasher := EVENT_FINGERPRINT_DOMAIN in
  let hasher := update_text hasher (od_provider_id draft) in
  let hasher := update_text hasher (od_profile_id draft) in
  let hasher := update_text hasher (od_session_id draft) in
  let hasher := hasher ++ be_bytes 8 (od_session_ordinal draft) in
  let hasher := update_text hasher (od_model draft) in
  update_usage hasher (od_delta_usage draft).

(** The bytes [replay_signature] feeds to the hasher. *)
Definition replay_signature_input (draft : ObservationDraft) : list Z :=
  let hasher := REPLAY_SIGNATURE_DOMAIN in
  let hasher := update_text hasher (od_model draft) in
  let hasher := update_usage hasher (od_delta_usage draft) in
  match od_cumulative_usage draft with
  | Some cumulative => update_usage (hasher ++ [1]) cumulative
  | None => hasher ++ [0]
  end.

(** ** The canonicalizer ([lib.rs]) *)

Inductive CanonicalizationErrorCode : Type :=
| EmptyUsage
| InconsistentCumulative
| ValueOutOfRange.

Definition usage_is_positive (usage : TokenUsage) : bool :=
  existsb (fun count => match count with Available value => 0 <? value | Unavailable => false end)
    (usage_counts usage).

Definition cumulative_covers_delta (delta cumulative : TokenUsage) : bool :=
  forallb (fun '(delta, cumulative) =>
             match delta, cumulative with
             | Available delta, Available cumulative => delta <=? cumulative
             | _, _ => true
             end)
    (combine (usage_counts delta) (usage_counts cumulative)).

Section Sha256.
Context (sha256 : list Z -> list Z).

Definition event_fingerprint (draft : ObservationDraft) : list Z :=
  sha256 (event_fingerprint_input draft).

Definition replay_signature (draft : ObservationDraft) : list Z :=
  sha256 (replay_signature_input draft).

Definition canonicalize (draft : ObservationDraft)
  : result CanonicalUsageEvent CanonicalizationErrorCode :=
  fail_if (i64_max <? od_session_ordinal draft) || (i64_max <? od_source_offset draft)
    with ValueOutOfRange else
  fail_if negb (usage_is_positive (od_delta_usage draft)) with EmptyUsage else
  fail_if is_some_and (od_cumulative_usage draft)
            (fun cumulative => negb (cumulative_covers_delta (od_delta_usage draft) cumulative))
    with InconsistentCumulative else
  let fingerprint := event_fingerprint draft in
  let signature := replay_signature draft in
  let evidence :=
    match option_map tu_total (od_cumulative_usage draft) with
    | Some (Available _) => StrongCumulative
    | Some Unavailable | None => WeakUsageOnly
    end in
  Ok (CanonicalUsageEvent_from_draft draft fingerprint signature evidence).

End Sha256.

(** ** The replay classifier ([replay.rs]) *)

Definition MAX_REPLAY_DEPTH : Z := 32.
Definition MAX_REPLAY_FANOUT : Z := 256.

Inductive ReplayDisposition : Type := Eligible | Replay | DispPending | DispConflict.

Inductive SessionReplayState : Type := Root | Matching | Diverged | Pending | Conflict.

#[export] Instance SessionReplayState_eq_dec : EqDecision SessionReplayState.
Proof. solve_decision. Defined.

Record ReplayEventFacts : Type := mkReplayEventFacts {
  rf_provider_id : str;
  rf_profile_id : str;
  rf_session_id : str;
  rf_parent_session_id : option str;
  rf_session_ordinal : Z;
  rf_replay_signature : list Z;
  rf_evidence : ReplayEvidence;
  rf_declared_conflict : bool
}.

Definition ReplayEventFacts_from_event (event : CanonicalUsageEvent) : ReplayEventFacts :=
  mkReplayEventFacts
    (od_provider_id (ce_draft event))
    (od_profile_id (ce_draft event))
    (od_session_id (ce_draft event))
    (ul_parent_session_id (ce_lineage event))
    (ul_session_ordinal (ce_lineage event))
    (ul_signature (ce_lineage event))
    (ul_evidence (ce_lineage event))
    (ul_declared_conflict (ce_lineage event)).

Inductive ParentOrdinal : Type :=
| NotApplicable
| Present (parent : ReplayEventFacts)
| MissingOpen
| MissingComplete.

Record ReplayTraversalFacts : Type := mkReplayTraversalFacts {
  rt_depth : Z;
  rt_direct_children : Z;
  rt_cycle : bool;
  rt_relation_conflict : bool
}.

Definition exceeds_bound (t : ReplayTraversalFacts) : bool :=
  (MAX_REPLAY_DEPTH <? rt_depth t) || (MAX_REPLAY_FANOUT <? rt_direct_children t).

Record ReplayClassificationInput : Type := mkReplayClassificationInput {
  ri_prior_state : SessionReplayState;
  ri_child : ReplayEventFacts;
  ri_parent : ParentOrdinal;
  ri_traversal : ReplayTraversalFacts
}.

Record ReplayClassification : Type := classification {
  rc_disposition : ReplayDisposition;
  rc_next_state : SessionReplayState
}.

Definition structurally_valid (input : ReplayClassificationInput) : bool :=
  let child := ri_child input in
  match rf_parent_session_id child, ri_prior_state input, ri_parent input with
  | None, Root, NotApplicable => rt_depth (ri_traversal input) =? 0
  | Some parent_session_id, (Matching | Diverged | Pending), Present parent =>
      negb (rf_declared_conflict parent)
      && bool_decide (rf_provider_id parent = rf_provider_id child)
      && bool_decide (rf_profile_id parent = rf_profile_id child)
      && bool_decide (rf_session_id parent = parent_session_id)
      && (rf_session_ordinal parent =? rf_session_ordinal child)
  | Some _, (Matching | Diverged | Pending), (MissingOpen | MissingComplete) => true
  | _, _, _ => false
  end.

Definition classify_matching (input : ReplayClassificationInput) : ReplayClassification :=
  match ri_parent input with
  | Present parent =>
      if negb (bool_decide (rf_evidence (ri_child input) = StrongCumulative))
         || negb (bool_decide (rf_evidence parent = StrongCumulative))
      then classification DispPending Matching
      else if bool_decide (rf_replay_signature (ri_child input) = rf_replay_signature parent)
      then classification Replay Matching
      else classification Eligible Diverged
  | MissingOpen => classification DispPending Pending
  | MissingComplete => classification Eligible Diverged
  | NotApplicable => classification DispConflict Conflict
  end.

Definition classify (input : ReplayClassificationInput) : ReplayClassification :=
  if bool_decide (ri_prior_state input = Conflict)
     || rf_declared_conflict (ri_child input)
     || rt_cycle (ri_traversal input)
     || rt_relation_conflict (ri_traversal input)
     || negb (structurally_valid input)
  then classification DispConflict Conflict
  else if exceeds_bound (ri_traversal input)
  then classification DispPending Pending
  else match ri_prior_state input with
       | Root => classification Eligible Root
       | Matching => classify_matching input
       | Diverged => classification Eligible Diverged
       | Pending => classification DispPending Pending
       | Conflict => classification DispConflict Conflict
       end.

(** ** What the hashes identify *)

(** The content two drafts must share to have one fingerprint: source position,
    timestamp, cumulative usage and metadata are not part of it. *)
Definition event_identity (d : ObservationDraft) : str * str * str * Z * str * list TokenCount :=
  (od_provider_id d, od_profile_id d, od_session_id d, od_session_ordinal d, od_model d,
   usage_counts (od_delta_usage d)).

(** The content two drafts must share to have one replay signature. *)
Definition replay_identity (d : ObservationDraft)
  : str * list TokenCount * option (list TokenCount) :=
  (od_model d, usage_counts (od_delta_usage d), usage_counts <$> od_cumulative_usage d).

Definition text_code (value : str) : list Z :=
  be_bytes 4 (if str_len value <=? u32_max then str_len value else u32_max) ++ as_bytes value.
Definition count_code (count : TokenCount) : list Z :=
  match count with Available value => 1 :: be_bytes 8 value | Unavailable => [0] end.
Definition usage_code (usage : TokenUsage) : list Z := flat_map count_code (usage_counts usage).

Lemma update_text_app h value : update_text h value = h ++ text_code value.
Proof. unfold update_text, text_code. by rewrite app_assoc. Qed.

Lemma update_counts_app counts h :
  fold_left update_count counts h = h ++ flat_map count_code counts.
Proof.
  revert h; induction counts as [|c counts IH]; intros h; simpl; [by rewrite app_nil_r|].
  rewrite IH, app_assoc. f_equal. destruct c; simpl; [by rewrite <- app_assoc|done].
Qed.

Lemma update_usage_app h usage : update_usage h usage = h ++ usage_code usage.
Proof. apply update_counts_app. Qed.

Lemma text_code_inj s t r1 r2 :
  str_ok s -> str_ok t -> str_len s <= u32_max -> str_len t <= u32_max ->
  text_code s ++ r1 = text_code t ++ r2 -> s = t /\ r1 = r2.
Proof.
  intros Hs Ht Ls Lt. unfold text_code.
  rewrite (proj2 (Z.leb_le _ _) Ls), (proj2 (Z.leb_le _ _) Lt), <- !app_assoc.
  intros H. apply length_prefixed_inj in H as [H ->]; [|unfold str_len, u32_max in *; lia..].
  by apply as_bytes_inj in H.
Qed.

Lemma count_code_inj c d r1 r2 :
  TokenCount_ok c -> TokenCount_ok d -> count_code c ++ r1 = count_code d ++ r2 ->
  c = d /\ r1 = r2.
Proof.
  intros Hc Hd H. destruct c as [v|], d as [w|]; cbn [count_code app] in H; [|by discriminate..|].
  - apply cons_split in H as [_ H]. apply app_split in H as [H ->]; [|by rewrite !be_bytes_length].
    simpl in Hc, Hd. unfold_ints. apply be_bytes_inj in H; [by subst|lia..].
  - by apply cons_split in H as [_ ->].
Qed.

Lemma counts_code_inj cs ds r1 r2 :
  length cs = length ds -> Forall TokenCount_ok cs -> Forall TokenCount_ok ds ->
  flat_map count_code cs ++ r1 = flat_map count_code ds ++ r2 -> cs = ds /\ r1 = r2.
Proof.
  intros Hlen Hc; revert ds Hlen; induction Hc as [|c cs Hc Hcs IH];
    intros [|d ds] Hlen Hd H; try discriminate Hlen; [done|].
  inversion Hd; subst. simpl in H. rewrite <- !app_assoc in H.
  apply count_code_inj in H as [-> H]; auto. apply IH in H as [-> ->]; auto.
Qed.

Lemma usage_counts_ok u : TokenUsage_ok u -> Forall TokenCount_ok (usage_counts u).
Proof. unfold TokenUsage_ok, usage_counts. intros. destruct_and!. repeat constructor; auto. Qed.

Lemma usage_code_inj u w r1 r2 :
  TokenUsage_ok u -> TokenUsage_ok w -> usage_code u ++ r1 = usage_code w ++ r2 ->
  usage_counts u = usage_counts w /\ r1 = r2.
Proof. intros. apply counts_code_inj; auto using usage_counts_ok. Qed.

Lemma ObservationDraft_text_bounds d :
  ObservationDraft_ok d ->
  str_len (od_provider_id d) <= u32_max /\ str_len (od_profile_id d) <= u32_max /\
  str_len (od_session_id d) <= u32_max /\ str_len (od_model d) <= u32_max.
Proof.
  unfold ObservationDraft_ok, UsageProviderId_new, UsageProfileId_new, UsageSessionId_new,
    ModelKey_new. intros H. destruct_and!.
  rewrite !validate_ascii_value_ok, validate_trimmed_value_ok in *. destruct_and!.
  unfold MAX_PROVIDER_ID_BYTES, MAX_USAGE_ID_BYTES, MAX_SESSION_ID_BYTES, MAX_MODEL_KEY_BYTES,
    u32_max in *. lia.
Qed.

Lemma event_fingerprint_input_app d :
  event_fingerprint_input d =
  EVENT_FINGERPRINT_DOMAIN ++ text_code (od_provider_id d) ++ text_code (od_profile_id d) ++
  text_code (od_session_id d) ++ be_bytes 8 (od_session_ordinal d) ++ text_code (od_model d) ++
  usage_code (od_delta_usage d).
Proof.
  unfold event_fingerprint_input. by rewrite update_usage_app, !update_text_app, <- !app_assoc.
Qed.

Lemma replay_signature_input_app d :
  replay_signature_input d =
  REPLAY_SIGNATURE_DOMAIN ++ text_code (od_model d) ++ usage_code (od_delta_usage d) ++
  match od_cumulative_usage d with Some c => 1 :: usage_code c | None => [0] end.
Proof.
  unfold replay_signature_input.
  destruct (od_cumulative_usage d);
    by rewrite !update_usage_app, update_text_app, <- !app_assoc.
Qed.

Lemma event_fingerprint_input_inj d1 d2 :
  ObservationDraft_ok d1 -> ObservationDraft_ok d2 ->
  event_fingerprint_input d1 = event_fingerprint_input d2 <->
  event_identity d1 = event_identity d2.
Proof.
  intros H1 H2. pose proof (ObservationDraft_text_bounds _ H1).
  pose proof (ObservationDraft_text_bounds _ H2). rewrite !event_fingerprint_input_app.
  unfold ObservationDraft_ok in H1, H2. destruct_and!. unfold event_identity. split.
  - intros E. apply app_inv_head in E.
    apply text_code_inj in E as [-> E]; auto. apply text_code_inj in E as [-> E]; auto.
    apply text_code_inj in E as [-> E]; auto.
    apply app_split in E as [En E]; [|by rewrite !be_bytes_length].
    apply be_bytes_inj in En; [|unfold_ints; lia..]. rewrite En.
    apply text_code_inj in E as [-> E]; auto.
    rewrite <- (app_nil_r (usage_code (od_delta_usage d1))),
      <- (app_nil_r (usage_code (od_delta_usage d2))) in E.
    apply usage_code_inj in E as [-> _]; auto.
  - intros E. injection E as -> -> -> -> -> E. unfold usage_code, usage_counts. congruence.
Qed.

Lemma replay_signature_input_inj d1 d2 :
  ObservationDraft_ok d1 -> ObservationDraft_ok d2 ->
  replay_signature_input d1 = replay_signature_input d2 <->
  replay_identity d1 = replay_identity d2.
Proof.
  intros H1 H2. pose proof (ObservationDraft_text_bounds _ H1).
  pose proof (ObservationDraft_text_bounds _ H2). rewrite !replay_signature_input_app.
  unfold ObservationDraft_ok in H1, H2. destruct_and!. unfold replay_identity. split.
  - intros E. apply app_inv_head in E. apply text_code_inj in E as [-> E]; auto.
    apply usage_code_inj in E as [-> E]; auto.
    destruct (od_cumulative_usage d1) as [u|], (od_cumulative_usage d2) as [w|];
      [|by discriminate..|done].
    apply cons_split in E as [_ E].
    rewrite <- (app_nil_r (usage_code u)), <- (app_nil_r (usage_code w)) in E.
    apply usage_code_inj in E as [E _]; auto. simpl. by rewrite E.
  - intros E. injection E as -> E. unfold usage_code, usage_counts in *.
    destruct (od_cumulative_usage d1), (od_cumulative_usage d2); simplify_eq/=; congruence.
Qed.

(** Event fingerprints identify content: two well-formed drafts have the same
    fingerprint exactly when they agree on provider, profile, session, ordinal,
    model and the five hashed token counts, unless their two hash inputs are
    distinct and collide under SHA-256. The length-prefixed encoding itself never
    confuses two contents. *)
Theorem event_fingerprint_identifies (sha256 : list Z -> list Z) (d1 d2 : ObservationDraft) :
  ObservationDraft_ok d1 -> ObservationDraft_ok d2 ->
  event_fingerprint sha256 d1 = event_fingerprint sha256 d2 <->
  event_identity d1 = event_identity d2 \/
  collision sha256 (event_fingerprint_input d1) (event_fingerprint_input d2).
Proof.
  intros H1 H2. apply (hash_eq_cases sha256 event_fingerprint_input event_identity).
  by apply event_fingerprint_input_inj.
Qed.

(** Replay signatures identify replayed content: the signature depends on the
    model, the delta counts and the cumulative counts (with their presence) and on
    nothing that names a session, so a child event can equal its parent's. *)
Theorem replay_signature_identifies (sha256 : list Z -> list Z) (d1 d2 : ObservationDraft) :
  ObservationDraft_ok d1 -> ObservationDraft_ok d2 ->
  replay_signature sha256 d1 = replay_signature sha256 d2 <->
  replay_identity d1 = replay_identity d2 \/
  collision sha256 (replay_signature_input d1) (replay_signature_input d2).
Proof.
  intros H1 H2. apply (hash_eq_cases sha256 replay_signature_input replay_identity).
  by apply replay_signature_input_inj.
Qed.

(** ** The canonicalizer's contract *)

(** The drafts the canonicalizer accepts. *)
Definition canonicalizable (d : ObservationDraft) : Prop :=
  od_session_ordinal d <= i64_max /\ od_source_offset d <= i64_max /\
  (exists v, Available v ∈ usage_counts (od_delta_usage d) /\ 0 < v) /\
  (forall u, od_cumulative_usage d = Some u ->
     forall i v w, usage_counts (od_delta_usage d) !! i = Some (Available v) ->
                   usage_counts u !! i = Some (Available w) -> v <= w).

Lemma usage_is_positive_spec u :
  usage_is_positive u = true <-> exists v, Available v ∈ usage_counts u /\ 0 < v.
Proof.
  unfold usage_is_positive. rewrite existsb_exists. split.
  - intros ([v|] & Hin & Hv); [|done]. exists v. rewrite list_elem_of_In. split; [done|lia].
  - intros (v & Hin & Hv). exists (Available v). rewrite <- list_elem_of_In. split; [done|lia].
Qed.

Lemma cumulative_covers_delta_spec d u :
  cumulative_covers_delta d u = true <->
  forall i v w, usage_counts d !! i = Some (Available v) ->
                usage_counts u !! i = Some (Available w) -> v <= w.
Proof.
  unfold cumulative_covers_delta. rewrite forallb_forall. split.
  - intros H i v w Hd Hu. apply Z.leb_le. apply (H (Available v, Available w)).
    rewrite combine_zip. apply list_elem_of_In, list_elem_of_lookup. exists i.
    apply lookup_zip_with_Some. eauto.
  - rewrite combine_zip. intros H [a b] Hin%list_elem_of_In%list_elem_of_lookup. destruct Hin as [i Hi].
    apply lookup_zip_with_Some in Hi as (a' & b' & [= -> ->] & Ha & Hb).
    destruct a' as [v|], b' as [w|]; auto. apply Z.leb_le. by eapply H.
Qed.

(** The event the canonicalizer builds for a draft it accepts. *)
Definition canonical_event (sha256 : list Z -> list Z) (d : ObservationDraft) : CanonicalUsageEvent :=
  mkCanonicalUsageEvent d (event_fingerprint sha256 d)
    (EventId_from_fingerprint (event_fingerprint sha256 d))
    (mkUsageLineage (od_parent_session_id d) (od_session_ordinal d)
       (replay_signature sha256 d)
       (match od_cumulative_usage d with
        | Some u => match tu_total u with
                    | Available _ => StrongCumulative | Unavailable => WeakUsageOnly end
        | None => WeakUsageOnly end)
       (od_lineage_conflict d)).

Lemma canonicalize_shape sha256 d e :
  canonicalize sha256 d = Ok e -> e = canonical_event sha256 d.
Proof.
  unfold canonicalize. intros H. do 3 (split_in H; [done|]). injection H as <-.
  unfold canonical_event, CanonicalUsageEvent_from_draft. by destruct (od_cumulative_usage d).
Qed.

(** The canonicalizer accepts exactly the drafts whose ordinal and offset fit
    the archive's signed range, whose delta has a positive available count and
    whose cumulative counts (where both are available) cover the delta; an accepted
    event carries the draft, the two hashes, the id derived from the fingerprint
    and strong evidence precisely when a cumulative total is available. *)
Theorem canonicalize_accepts (sha256 : list Z -> list Z) (d : ObservationDraft) e :
  canonicalize sha256 d = Ok e <->
  canonicalizable d /\
  e = canonical_event sha256 d.
Proof.
  unfold canonicalize, canonicalizable, canonical_event, CanonicalUsageEvent_from_draft.
  rewrite <- usage_is_positive_spec.
  destruct (i64_max <? od_session_ordinal d) eqn:E1; simpl.
  { split; [done|]. intros [(? & _) _]. lia. }
  destruct (i64_max <? od_source_offset d) eqn:E2; simpl.
  { split; [done|]. intros [(_ & ? & _) _]. lia. }
  destruct (usage_is_positive (od_delta_usage d)) eqn:E3; simpl.
  2: { split; [done|]. by intros [(_ & _ & ? & _) _]. }
  destruct (od_cumulative_usage d) as [u|]; simpl.
  - destruct (cumulative_covers_delta (od_delta_usage d) u) eqn:E4; simpl.
    + rewrite cumulative_covers_delta_spec in E4. split.
      * intros [= <-]. split; [|done]. split_and!; [lia|lia|done|]. by intros ? [= <-].
      * by intros [_ ->].
    + split; [done|]. intros [(_ & _ & _ & H) _].
      rewrite (proj2 (cumulative_covers_delta_spec _ _) (H u eq_refl)) in E4. done.
  - split; [|by intros [_ ->]]. intros [= <-]. split; [|done]. by split_and!; [lia|lia|..].
Qed.

(** ** Event ids *)

Definition hex_pair (byte : Z) : str := [hex_digit (Z.shiftr byte 4); hex_digit (Z.land byte 15)].

Lemma append_hex_app output bytes : append_hex output bytes = output ++ flat_map hex_pair bytes.
Proof.
  revert output; induction bytes as [|b bytes IH]; intros output; simpl.
  - by rewrite app_nil_r.
  - by rewrite IH, <- app_assoc.
Qed.

Lemma hex_digit_inj a b : 0 <= a < 16 -> 0 <= b < 16 -> hex_digit a = hex_digit b -> a = b.
Proof.
  intros Ha Hb H.
  assert (Hall : forallb (fun x => forallb (fun y =>
            negb (hex_digit x =? hex_digit y) || (x =? y)) (seqZ 0 16)) (seqZ 0 16) = true)
    by (by vm_compute).
  rewrite forallb_forall in Hall. specialize (Hall a).
  rewrite <- list_elem_of_In, elem_of_seqZ, forallb_forall in Hall.
  specialize (Hall ltac:(lia) b). rewrite <- list_elem_of_In, elem_of_seqZ in Hall.
  specialize (Hall ltac:(lia)). rewrite H, Z.eqb_refl in Hall. simpl in Hall. lia.
Qed.

Lemma nibbles byte : byte_ok byte ->
  0 <= Z.shiftr byte 4 < 16 /\ 0 <= Z.land byte 15 < 16 /\
  byte = 16 * Z.shiftr byte 4 + Z.land byte 15.
Proof.
  unfold byte_ok. intros H. change 15 with (Z.ones 4). rewrite Z.land_ones by lia.
  rewrite Z.shiftr_div_pow2 by lia. change (2 ^ 4) with 16.
  pose proof (Z.div_mod byte 16). pose proof (Z.mod_pos_bound byte 16). lia.
Qed.

Lemma hex_pairs_inj xs ys :
  Forall byte_ok xs -> Forall byte_ok ys -> flat_map hex_pair xs = flat_map hex_pair ys -> xs = ys.
Proof.
  intros Hx; revert ys; induction Hx as [|x xs Hx Hxs IH]; intros [|y ys] Hy H;
    try discriminate H; [done|].
  inversion Hy as [|? ? Hy1 Hys]; subst. cbn [flat_map hex_pair app] in H.
  apply cons_split in H as [Ha H]. apply cons_split in H as [Hb H].
  destruct (nibbles x Hx) as (? & ? & ->), (nibbles y Hy1) as (? & ? & ->).
  apply hex_digit_inj in Ha; [|done..]. apply hex_digit_inj in Hb; [|done..].
  rewrite Ha, Hb. f_equal; auto.
Qed.

Lemma hex_pairs_length xs : length (flat_map hex_pair xs) = (2 * length xs)%nat.
Proof. induction xs; cbn [flat_map hex_pair app length]; lia. Qed.

(** An event id is the 26 characters "event_" and twenty hexadecimal digits,
    and it determines (and is determined by) exactly the first ten bytes of the
    32-byte fingerprint. *)
Theorem event_id_faithful (f1 f2 : list Z) :
  length f1 = 32%nat -> length f2 = 32%nat -> Forall byte_ok f1 -> Forall byte_ok f2 ->
  length (EventId_from_fingerprint f1) = 26%nat /\
  take 6 (EventId_from_fingerprint f1) = lit "event_" /\
  (EventId_from_fingerprint f1 = EventId_from_fingerprint f2 <-> take 10 f1 = take 10 f2).
Proof.
  intros L1 L2 B1 B2. unfold EventId_from_fingerprint. rewrite !append_hex_app.
  split_and!.
  - by rewrite length_app, hex_pairs_length, length_take, L1.
  - done.
  - split; [|by intros ->]. intros H%app_inv_head.
    by apply hex_pairs_inj in H; [|apply Forall_take..].
Qed.

(** ** The classifier as a state machine *)

(** One event of a session: from a prior state, through a classification, to the
    next state. *)
Inductive replay_step : SessionReplayState -> ReplayDisposition -> SessionReplayState -> Prop :=
| replay_step_intro input :
    replay_step (ri_prior_state input) (rc_disposition (classify input))
      (rc_next_state (classify input)).

(** The transition table. *)
Definition replay_table (s : SessionReplayState) (d : ReplayDisposition) (s' : SessionReplayState)
  : bool :=
  match s, d, s' with
  | Root, Eligible, Root => true
  | Matching, Eligible, Diverged => true
  | Matching, Replay, Matching => true
  | Matching, DispPending, Matching => true
  | Diverged, Eligible, Diverged => true
  | (Root | Matching | Diverged | Pending), DispPending, Pending => true
  | _, DispConflict, Conflict => true
  | _, _, _ => false
  end.

Definition clear_traversal : ReplayTraversalFacts := mkReplayTraversalFacts 0 0 false false.
Definition deep_traversal : ReplayTraversalFacts := mkReplayTraversalFacts 0 257 false false.
Definition cyclic_traversal : ReplayTraversalFacts := mkReplayTraversalFacts 0 0 true false.

Definition facts (session : str) (parent : option str) (signature : list Z) (e : ReplayEvidence)
  : ReplayEventFacts := mkReplayEventFacts [] [] session parent 0 signature e false.
Definition child_facts : ReplayEventFacts := facts [1] (Some [2]) [] StrongCumulative.
Definition root_facts : ReplayEventFacts := facts [2] None [] StrongCumulative.

Lemma replay_step_at s child parent t d s' :
  classify (mkReplayClassificationInput s child parent t) = classification d s' ->
  replay_step s d s'.
Proof.
  intros H. pose proof (replay_step_intro (mkReplayClassificationInput s child parent t)) as R.
  by rewrite H in R.
Qed.

Lemma replay_step_in_table s d s' : replay_step s d s' -> replay_table s d s' = true.
Proof.
  intros [input]. unfold classify. split_goal; [destruct (ri_prior_state input); done|].
  split_goal; [destruct (ri_prior_state input) eqn:Es; to_prop; done|].
  destruct (ri_prior_state input) eqn:Es; try done. unfold classify_matching.
  repeat split_goal; try done.
Qed.

(** The classifier is exactly the state machine of [replay_table]: every
    transition it takes is in the table, and every entry of the table is taken by
    some input. In particular [Conflict] is absorbing, [Replay] is reachable from
    [Matching] only, and a diverged session never matches again. *)
Theorem classify_refines_table s d s' :
  replay_step s d s' <-> replay_table s d s' = true.
Proof.
  split; [apply replay_step_in_table|].
  destruct s, d, s'; intros [=].
  all: first
      [ by apply (replay_step_at _ root_facts NotApplicable clear_traversal)
      | by apply (replay_step_at _ root_facts NotApplicable deep_traversal)
      | by apply (replay_step_at _ root_facts NotApplicable cyclic_traversal)
      | by apply (replay_step_at _ child_facts (Present root_facts) clear_traversal)
      | by apply (replay_step_at _ child_facts (Present root_facts) deep_traversal)
      | by apply (replay_step_at _ child_facts (Present root_facts) cyclic_traversal)
      | by apply (replay_step_at _ child_facts MissingComplete clear_traversal)
      | by apply (replay_step_at _ (facts [1] (Some [2]) [] WeakUsageOnly)
                    (Present root_facts) clear_traversal) ].
Qed.

(** What it takes for an event to be dropped as a replay. *)
Definition replays (input : ReplayClassificationInput) (parent : ReplayEventFacts) : Prop :=
  let child := ri_child input in
  let t := ri_traversal input in
  ri_prior_state input = Matching /\ ri_parent input = Present parent /\
  rf_declared_conflict child = false /\ rf_declared_conflict parent = false /\
  rf_provider_id parent = rf_provider_id child /\ rf_profile_id parent = rf_profile_id child /\
  rf_parent_session_id child = Some (rf_session_id parent) /\
  rf_session_ordinal parent = rf_session_ordinal child /\
  rf_evidence child = StrongCumulative /\ rf_evidence parent = StrongCumulative /\
  rf_replay_signature child = rf_replay_signature parent /\
  rt_cycle t = false /\ rt_relation_conflict t = false /\
  rt_depth t <= MAX_REPLAY_DEPTH /\ rt_direct_children t <= MAX_REPLAY_FANOUT.

Lemma classify_replay_inv input :
  rc_disposition (classify input) = Replay -> exists parent, replays input parent.
Proof.
  unfold classify, replays, structurally_valid, classify_matching, exceeds_bound. intros H.
  repeat (split_in H; try discriminate H); to_prop.
  match goal with Hs : match rf_parent_session_id _ with _ => _ end = true |- _ =>
    split_in Hs; [|done] end; to_prop.
  exists parent. split_and!; try done; congruence.
Qed.

(** An event is dropped as a replay exactly when its session is still matching
    and the parent's event of the same ordinal, provider and profile is present,
    both carry strong cumulative evidence and equal signatures, nothing declares a
    conflict, and the ancestry walk stayed acyclic and within its depth and fan-out
    budgets: weak evidence or an exhausted budget never drops usage. *)
Theorem classify_replay_iff input :
  rc_disposition (classify input) = Replay <-> exists parent, replays input parent.
Proof.
  split; [apply classify_replay_inv|].
  intros (parent & H). unfold replays in H. destruct_and!.
  unfold classify, structurally_valid, classify_matching, exceeds_bound.
  repeat match goal with E : _ = _ |- _ => rewrite E end.
  change (bool_decide (Matching = Conflict)) with false.
  rewrite !bool_decide_eq_true_2, Z.eqb_refl by done.
  replace (MAX_REPLAY_DEPTH <? rt_depth (ri_traversal input)) with false by lia.
  replace (MAX_REPLAY_FANOUT <? rt_direct_children (ri_traversal input)) with false by lia.
  done.
Qed.

(** C24. End to end: when an event canonicalized from one draft is dropped as a
    replay of an event canonicalized from another, the two drafts report the same
    model, delta counts and cumulative counts at the same ordinal of a session and
    its declared parent under one provider and profile, both with an available
    cumulative total, unless SHA-256 collides on their two signature inputs. *)
Theorem replay_drops_only_repeats (sha256 : list Z -> list Z)
    (dc dp : ObservationDraft) (child parent : CanonicalUsageEvent) s t :
  ObservationDraft_ok dc -> ObservationDraft_ok dp ->
  canonicalize sha256 dc = Ok child -> canonicalize sha256 dp = Ok parent ->
  rc_disposition (classify (mkReplayClassificationInput s
    (ReplayEventFacts_from_event child) (Present (ReplayEventFacts_from_event parent)) t))
    = Replay ->
  od_provider_id dc = od_provider_id dp /\ od_profile_id dc = od_profile_id dp /\
  od_parent_session_id dc = Some (od_session_id dp) /\
  od_session_ordinal dc = od_session_ordinal dp /\
  (exists uc up vc vp, od_cumulative_usage dc = Some uc /\ od_cumulative_usage dp = Some up /\
     tu_total uc = Available vc /\ tu_total up = Available vp) /\
  (replay_identity dc = replay_identity dp \/
   collision sha256 (replay_signature_input dc) (replay_signature_input dp)).
Proof.
  intros Hc Hp Ec Ep HR. apply canonicalize_shape in Ec, Ep. subst child parent.
  apply classify_replay_inv in HR as (p & HR). unfold replays in HR. cbn in HR. destruct_and!.
  match goal with E : Present _ = Present p |- _ => injection E as <- end. cbn in *.
  split_and!; try congruence.
  - destruct (od_cumulative_usage dc) as [uc|]; [|done].
    destruct (od_cumulative_usage dp) as [up|]; [|done].
    destruct (tu_total uc) eqn:?, (tu_total up) eqn:?; try done. eauto 10.
  - apply (hash_eq_cases sha256 replay_signature_input replay_identity); [|done].
    by apply replay_signature_input_inj.
Qed.

(** A session's events in order. *)
Inductive replay_run : SessionReplayState -> list ReplayDisposition -> SessionReplayState -> Prop :=
| replay_run_nil s : replay_run s [] s
| replay_run_cons s d s' ds s'' :
    replay_step s d s' -> replay_run s' ds s'' -> replay_run s (d :: ds) s''.

Lemma no_replay_outside_matching s ds s' :
  s <> Matching -> replay_run s ds s' -> Replay ∉ ds.
Proof.
  intros Hs Hr. induction Hr as [|s d s' ds s'' Hstep Hr IH]; [apply not_elem_of_nil|].
  apply replay_step_in_table in Hstep. apply not_elem_of_cons.
  destruct s, d, s'; simplify_eq/=; (split; [done|auto]).
Qed.

(** Along any run of a session the replayed events form a prefix: after the
    first event that is counted, or conflicts, or leaves the matching state, no
    later event is ever dropped as a replay. *)
Theorem replays_form_a_prefix s ds s' :
  replay_run s ds s' ->
  exists pre post, ds = pre ++ post /\
    Forall (fun d => d = Replay \/ d = DispPending) pre /\ Replay ∉ post.
Proof.
  intros Hr. induction Hr as [s|s d s' ds s'' Hstep Hr IH].
  - exists [], []. split_and!; [done|constructor|apply not_elem_of_nil].
  - pose proof (replay_step_in_table _ _ _ Hstep) as Ht.
    destruct (decide (s' = Matching)) as [->|Hs'].
    + destruct IH as (pre & post & -> & Hpre & Hpost). exists (d :: pre), post.
      split_and!; [done| |done]. constructor; [|done]. destruct s, d; simplify_eq/=; auto.
    + exists [], (d :: ds). split_and!; [done|constructor|]. apply not_elem_of_cons.
      split; [|by eapply no_replay_outside_matching].
      destruct s, d, s'; simplify_eq/=; done.
Qed.

(** ** Concrete instances *)

Definition usage_example (total : Z) : TokenUsage :=
  TokenUsage_new (Available 7) Unavailable (Available 2) Unavailable (Available total).

Definition draft_example (session : string) (parent : option string) (offset : Z)
  : ObservationDraft :=
  mkObservationDraft (lit "codex") (lit "default") (lit session) (lit <$> parent) 0 false
    (lit "source-1") offset Incremental (mkUtcTimestamp 1700000000 0) (lit "gpt-5")
    None (usage_example 9) (Some (usage_example 9)) false LongUnavailable None None None None
    ActivityCounts_default.

Ltac solve_example_ok :=
  unfold ObservationDraft_ok; split_and!;
  solve [ reflexivity
        | repeat constructor; unfold scalar, u64_max; simpl; lia
        | unfold_ints; simpl; lia
        | unfold TokenUsage_ok, TokenCount_ok; simpl; unfold_ints; lia ].

Lemma event_fingerprint_identifies_witness :
  event_fingerprint toy_sha256 (draft_example "child" (Some "parent") 10)
  = event_fingerprint toy_sha256 (draft_example "child" None 20).
Proof.
  apply (event_fingerprint_identifies toy_sha256 (draft_example "child" (Some "parent") 10)
           (draft_example "child" None 20)); [solve_example_ok..|].
  by left.
Defined.

Lemma replay_signature_identifies_witness :
  replay_signature toy_sha256 (draft_example "child" (Some "parent") 10)
  = replay_signature toy_sha256 (draft_example "parent" None 20).
Proof.
  apply (replay_signature_identifies toy_sha256 (draft_example "child" (Some "parent") 10)
           (draft_example "parent" None 20)); [solve_example_ok..|].
  by left.
Defined.

Lemma event_id_faithful_witness :
  EventId_from_fingerprint (repeat 171 32) <> EventId_from_fingerprint (repeat 172 32).
Proof.
  intros H. apply (event_id_faithful (repeat 171 32) (repeat 172 32)) in H;
    [discriminate H|reflexivity|reflexivity|
     repeat (constructor; [unfold byte_ok; lia|]); constructor..].
Defined.

Lemma replay_drops_only_repeats_witness :
  od_parent_session_id (draft_example "child" (Some "parent") 10)
  = Some (od_session_id (draft_example "parent" None 20)).
Proof.
  eapply (replay_drops_only_repeats toy_sha256 (draft_example "child" (Some "parent") 10)
            (draft_example "parent" None 20) _ _ Matching clear_traversal);
    [solve_example_ok|solve_example_ok|reflexivity|reflexivity|reflexivity].
Defined.

Lemma replays_form_a_prefix_witness :
  exists pre post, [Replay; Eligible; Eligible] = pre ++ post /\
    Forall (fun d => d = Replay \/ d = DispPending) pre /\ Replay ∉ post.
Proof.
  apply (replays_form_a_prefix Matching _ Diverged).
  eapply replay_run_cons; [by apply (replay_step_at _ child_facts (Present root_facts) clear_traversal)|].
  eapply replay_run_cons; [by apply (replay_step_at _ child_facts MissingComplete clear_traversal)|].
  eapply replay_run_cons; [by apply (replay_step_at _ child_facts MissingOpen clear_traversal)|].
  apply replay_run_nil.
Defined.
