(* ===== verification/QuotaTypes.v ===== *)
(** * Quota values ([crates/domain/src/quota.rs])

    Identifiers, ratios, units, window definitions and samples, with the
    validating constructors through which every value (deserialized ones included)
    is built. A constructor takes the fields ([...Parts] in the source) and returns
    the same record or the error of the first failing check. *)

From S2P Require Import Prelude Usage.

Definition MAX_QUOTA_ID_BYTES : Z := 128.
Definition MAX_QUOTA_LABEL_KEY_BYTES : Z := 128.

(** [tokenmaster_domain::QuotaError] *)
Inductive QuotaDomainError : Type :=
| InvalidId (field : string)
| InvalidRatio
| EmptyUnits
| UnitsExceedCapacity (field : string)
| EmptyResetThresholds
| InvalidMinimumDrop
| InvalidDefinitionRevision
| InvalidLabelKey
| InvalidNominalDuration
| ThresholdsRequireFixedWindow
| InvalidSampleTimes
| InvalidAdvertisedResetTime
| EmptySample
| ResetTimeWithoutEvidence
| InvalidResetOccurredAt.

Definition valid_quota_id (value : str) (max_bytes : Z) : bool :=
  negb (bool_decide (value = []))
  && (str_len value <=? max_bytes)
  && forallb (fun byte => is_ascii_alphanumeric byte || (byte =? 46) || (byte =? 95) || (byte =? 45))
       (as_bytes value).

Definition validate_quota_id (value : str) (field : string) (max_bytes : Z)
  : result str QuotaDomainError :=
  fail_if negb (valid_quota_id value max_bytes) with InvalidId field else Ok value.

Definition QuotaAccountId_new (value : str) := validate_quota_id value "account_id" MAX_QUOTA_ID_BYTES.
Definition QuotaWorkspaceId_new (value : str) := validate_quota_id value "workspace_id" MAX_QUOTA_ID_BYTES.
Definition QuotaWindowId_new (value : str) := validate_quota_id value "window_id" MAX_QUOTA_ID_BYTES.
Definition QuotaUnitId_new (value : str) := validate_quota_id value "unit_id" MAX_QUOTA_ID_BYTES.
Definition QuotaProviderEpochId_new (value : str) :=
  validate_quota_id value "provider_epoch_id" MAX_QUOTA_ID_BYTES.

Record QuotaScope : Type := mkQuotaScope {
  sc_provider_id : str;
  sc_account_id : str;
  sc_workspace_id : option str
}.

#[export] Instance QuotaScope_eq_dec : EqDecision QuotaScope.
Proof. solve_decision. Defined.

Record QuotaWindowKey : Type := mkQuotaWindowKey {
  wk_scope : QuotaScope;
  wk_window_id : str
}.

#[export] Instance QuotaWindowKey_eq_dec : EqDecision QuotaWindowKey.
Proof. solve_decision. Defined.

(** [QuotaRatio]: parts per million, held as its [u32]. *)
Definition QuotaRatio_new (parts_per_million : Z) : result Z QuotaDomainError :=
  fail_if 1000000 <? parts_per_million with InvalidRatio else Ok parts_per_million.

Record QuotaUnits : Type := mkQuotaUnits {
  qu_unit_id : str;
  qu_used : option Z;
  qu_remaining : option Z;
  qu_capacity : option Z
}.

#[export] Instance QuotaUnits_eq_dec : EqDecision QuotaUnits.
Proof. solve_decision. Defined.

Definition QuotaUnits_new (unit_id : str) (used remaining capacity : option Z)
  : result QuotaUnits QuotaDomainError :=
  fail_if is_none used && is_none remaining && is_none capacity with EmptyUnits else
  fail_if is_some_and (option_zip used capacity) (fun '(used, capacity) => capacity <? used)
    with UnitsExceedCapacity "used" else
  fail_if is_some_and (option_zip remaining capacity)
            (fun '(remaining, capacity) => capacity <? remaining)
    with UnitsExceedCapacity "remaining" else
  Ok (mkQuotaUnits unit_id used remaining capacity).

Inductive QuotaWindowSemantics : Type :=
| SemFixed | SemRolling | SemCredit | SemUnknown.

#[export] Instance QuotaWindowSemantics_eq_dec : EqDecision QuotaWindowSemantics.
Proof. solve_decision. Defined.

Inductive QuotaPresentationDirection : Type := DirUsed | DirRemaining | DirPace.

#[export] Instance QuotaPresentationDirection_eq_dec : EqDecision QuotaPresentationDirection.
Proof. solve_decision. Defined.

Inductive QuotaConfidence : Type := ConfHigh | ConfMedium | ConfLow | ConfUnknown.

#[export] Instance QuotaConfidence_eq_dec : EqDecision QuotaConfidence.
Proof. solve_decision. Defined.

Inductive QuotaSampleQuality : Type :=
| QualAuthoritative | QualPartial | QualConflict | QualUnknown.

#[export] Instance QuotaSampleQuality_eq_dec : EqDecision QuotaSampleQuality.
Proof. solve_decision. Defined.

Inductive QuotaEvidenceSource : Type :=
| SrcProviderLocal | SrcProviderOfficial | SrcLocalResetEvent | SrcManual | SrcUnknown.

#[export] Instance QuotaEvidenceSource_eq_dec : EqDecision QuotaEvidenceSource.
Proof. solve_decision. Defined.

Inductive QuotaResetEvidence : Type :=
| EvNone | EvExplicitProvider | EvExplicitLocal | EvManualOrBanked.

#[export] Instance QuotaResetEvidence_eq_dec : EqDecision QuotaResetEvidence.
Proof. solve_decision. Defined.

Record QuotaResetThresholds : Type := mkQuotaResetThresholds {
  th_maximum_post_reset_used_ratio : option Z;
  th_minimum_post_reset_remaining_ratio : option Z;
  th_minimum_used_ratio_drop : option Z
}.

#[export] Instance QuotaResetThresholds_eq_dec : EqDecision QuotaResetThresholds.
Proof. solve_decision. Defined.

Definition QuotaResetThresholds_new (maximum_post_reset_used_ratio
    minimum_post_reset_remaining_ratio minimum_used_ratio_drop : option Z)
  : result QuotaResetThresholds QuotaDomainError :=
  fail_if is_none maximum_post_reset_used_ratio && is_none minimum_post_reset_remaining_ratio
    with EmptyResetThresholds else
  fail_if is_some_and minimum_used_ratio_drop (fun ratio => ratio =? 0)
    with InvalidMinimumDrop else
  Ok (mkQuotaResetThresholds maximum_post_reset_used_ratio
        minimum_post_reset_remaining_ratio minimum_used_ratio_drop).

Record QuotaWindowDefinition : Type := mkQuotaWindowDefinition {
  wd_key : QuotaWindowKey;
  wd_revision : Z;
  wd_label_key : str;
  wd_presentation : QuotaPresentationDirection;
  wd_semantics : QuotaWindowSemantics;
  wd_nominal_duration_seconds : option Z;
  wd_reset_thresholds : option QuotaResetThresholds
}.

Definition QuotaWindowDefinition_new (parts : QuotaWindowDefinition)
  : result QuotaWindowDefinition QuotaDomainError :=
  fail_if wd_revision parts =? 0 with InvalidDefinitionRevision else
  fail_if negb (valid_quota_id (wd_label_key parts) MAX_QUOTA_LABEL_KEY_BYTES)
    with InvalidLabelKey else
  fail_if bool_decide (wd_nominal_duration_seconds parts = Some 0)
    with InvalidNominalDuration else
  fail_if is_some (wd_reset_thresholds parts) && negb (bool_decide (wd_semantics parts = SemFixed))
    with ThresholdsRequireFixedWindow else
  Ok parts.

Record QuotaSample : Type := mkQuotaSample {
  qs_key : QuotaWindowKey;
  qs_observation_id : list Z;
  qs_observed_at_ms : Z;
  qs_fresh_until_ms : Z;
  qs_stale_after_ms : Z;
  qs_provider_epoch_id : option str;
  qs_used_ratio : option Z;
  qs_remaining_ratio : option Z;
  qs_units : option QuotaUnits;
  qs_advertised_resets_at_ms : option Z;
  qs_quality : QuotaSampleQuality;
  qs_source : QuotaEvidenceSource;
  qs_confidence : QuotaConfidence;
  qs_reset_evidence : QuotaResetEvidence;
  qs_reset_occurred_at_ms : option Z
}.

#[export] Instance QuotaSample_eq_dec : EqDecision QuotaSample.
Proof. solve_decision. Defined.

Definition QuotaSample_new (parts : QuotaSample) : result QuotaSample QuotaDomainError :=
  fail_if (qs_observed_at_ms parts <=? 0)
          || (qs_fresh_until_ms parts <? qs_observed_at_ms parts)
          || (qs_stale_after_ms parts <? qs_fresh_until_ms parts)
    with InvalidSampleTimes else
  fail_if is_some_and (qs_advertised_resets_at_ms parts) (fun reset_time => reset_time <=? 0)
    with InvalidAdvertisedResetTime else
  let has_explicit_reset := negb (bool_decide (qs_reset_evidence parts = EvNone)) in
  fail_if is_none (qs_provider_epoch_id parts) && is_none (qs_used_ratio parts)
          && is_none (qs_remaining_ratio parts) && is_none (qs_units parts)
          && is_none (qs_advertised_resets_at_ms parts) && negb has_explicit_reset
    with EmptySample else
  fail_if is_some (qs_reset_occurred_at_ms parts) && negb has_explicit_reset
    with ResetTimeWithoutEvidence else
  fail_if is_some_and (qs_reset_occurred_at_ms parts)
            (fun occurred_at => (occurred_at <=? 0) || (qs_observed_at_ms parts <? occurred_at))
    with InvalidResetOccurredAt else
  Ok parts.

(** ** What the constructors guarantee *)

Definition QuotaUnits_ok (u : QuotaUnits) : Prop :=
  QuotaUnits_new (qu_unit_id u) (qu_used u) (qu_remaining u) (qu_capacity u) = Ok u.

(** A sample of the source: built by [QuotaSample::new] from units built by
    [QuotaUnits::new]. *)
Definition QuotaSample_ok (s : QuotaSample) : Prop :=
  QuotaSample_new s = Ok s /\
  match qs_units s with Some u => QuotaUnits_ok u | None => True end.

Definition QuotaWindowDefinition_ok (d : QuotaWindowDefinition) : Prop :=
  QuotaWindowDefinition_new d = Ok d /\ in_u64 (wd_revision d).

Lemma QuotaSample_times s : QuotaSample_new s = Ok s ->
  0 < qs_observed_at_ms s /\ qs_observed_at_ms s <= qs_fresh_until_ms s /\
  qs_fresh_until_ms s <= qs_stale_after_ms s.
Proof. unfold QuotaSample_new. intros H. split_in H; [done|]. to_prop. lia. Qed.

Lemma QuotaSample_advertised s v : QuotaSample_new s = Ok s ->
  qs_advertised_resets_at_ms s = Some v -> 0 < v.
Proof.
  unfold QuotaSample_new. intros H Hv. split_in H; [done|]. split_in H; [done|].
  rewrite Hv in E0. simpl in E0. lia.
Qed.

Lemma QuotaSample_occurred s v : QuotaSample_new s = Ok s ->
  qs_reset_occurred_at_ms s = Some v ->
  qs_reset_evidence s <> EvNone /\ 0 < v <= qs_observed_at_ms s.
Proof.
  unfold QuotaSample_new. intros H Hv. cbn zeta in H. do 5 (split_in H; [done|]).
  rewrite Hv in E2, E3. simpl in E2, E3. to_prop. split; [done|lia].
Qed.

Lemma QuotaWindowDefinition_revision d : QuotaWindowDefinition_ok d -> 0 < wd_revision d.
Proof.
  intros [H Hr]. unfold QuotaWindowDefinition_new in H. split_in H; [done|].
  unfold_ints. lia.
Qed.

(** A constructed quota sample has positive observation time ordered before
    its freshness and staleness limits, a positive advertised reset, at least one
    observable fact, and an exact reset time only with explicit evidence and never
    after the observation; each violation is refused with its own error, the first
    in source order. *)
Theorem QuotaSample_new_spec (p s : QuotaSample) :
  QuotaSample_new p = Ok s <->
  s = p /\
  0 < qs_observed_at_ms p <= qs_fresh_until_ms p /\ qs_fresh_until_ms p <= qs_stale_after_ms p /\
  (forall t, qs_advertised_resets_at_ms p = Some t -> 0 < t) /\
  (qs_provider_epoch_id p <> None \/ qs_used_ratio p <> None \/ qs_remaining_ratio p <> None \/
   qs_units p <> None \/ qs_advertised_resets_at_ms p <> None \/ qs_reset_evidence p <> EvNone) /\
  (forall t, qs_reset_occurred_at_ms p = Some t ->
     qs_reset_evidence p <> EvNone /\ 0 < t <= qs_observed_at_ms p).
Proof.
  unfold QuotaSample_new. cbn zeta. split.
  - intros H. do 5 (split_in H; [done|]). injection H as <-.
    split_and!; try done; try (to_prop; lia).
    + intros t Ht. rewrite Ht in E0. simpl in E0. lia.
    + clear - E1. unfold is_none in E1.
      destruct (qs_provider_epoch_id p); [by left|]. destruct (qs_used_ratio p); [by right; left|].
      destruct (qs_remaining_ratio p); [by do 2 right; left|].
      destruct (qs_units p); [by do 3 right; left|].
      destruct (qs_advertised_resets_at_ms p); [by do 4 right; left|].
      simpl in E1. to_prop. by do 5 right.
    + intros t Ht. rewrite Ht in E2, E3. simpl in E2, E3. to_prop. split; [done|lia].
  - intros (-> & ? & ? & Hadv & Hany & Hocc).
    replace (_ || _)%bool with false by lia.
    replace (is_some_and (qs_advertised_resets_at_ms p) _) with false.
    2: { destruct (qs_advertised_resets_at_ms p) as [t|]; simpl; [|done].
         specialize (Hadv t eq_refl). lia. }
    rewrite (bool_decide_decide (qs_reset_evidence p = EvNone)).
    destruct (decide (qs_reset_evidence p = EvNone)) as [He|He]; simpl.
    + destruct (qs_reset_occurred_at_ms p) as [t|]; [by destruct (Hocc t eq_refl)|]. simpl.
      unfold is_none. destruct (qs_provider_epoch_id p), (qs_used_ratio p), (qs_remaining_ratio p),
        (qs_units p), (qs_advertised_resets_at_ms p); try done. exfalso. tauto.
    + rewrite !andb_false_r. destruct (qs_reset_occurred_at_ms p) as [t|]; simpl; [|done].
      destruct (Hocc t eq_refl). by replace (_ || _)%bool with false by lia.
Qed.
