(* ===== verification/QuotaDetector.v ===== *)
(** * Quota epochs and reset detection ([crates/quota/src])

    [evaluate_sample] folds one provider sample into the durable epoch state of a
    quota window: it starts the first epoch, ignores duplicates and late samples,
    advances the running maxima, and decides when the allowance changed or a full
    reset opened a new epoch, each with a numbered transition. [...StateParts] and
    [...TransitionParts] of the source have the fields of the records they restore,
    so one record stands for both and [to_parts] is the identity. *)

From S2P Require Import Prelude Usage QuotaTypes.

(** ** Identities ([identity.rs]) *)

Definition SCOPE_DOMAIN : list Z := lit "tokenmaster.quota.scope.v1".
Definition EPOCH_DOMAIN : list Z := lit "tokenmaster.quota.epoch.v1".
Definition TRANSITION_DOMAIN : list Z := lit "tokenmaster.quota.transition.v1".

Definition update_field (hasher field : list Z) : list Z :=
  (hasher ++ be_bytes 8 (Z.of_nat (length field))) ++ field.

Definition quota_scope_id_input (scope : QuotaScope) : list Z :=
  let workspace_presence := [if is_some (sc_workspace_id scope) then 1 else 0] in
  let hasher := update_field [] SCOPE_DOMAIN in
  let hasher := update_field hasher (as_bytes (sc_provider_id scope)) in
  let hasher := update_field hasher (as_bytes (sc_account_id scope)) in
  let hasher := update_field hasher workspace_presence in
  match sc_workspace_id scope with
  | Some workspace_id => update_field hasher (as_bytes workspace_id)
  | None => hasher
  end.

Record TransitionIdentityInput : Type := mkTransitionIdentityInput {
  ti_key : QuotaWindowKey;
  ti_definition_revision : Z;
  ti_sequence : Z;
  ti_kind_code : Z;
  ti_previous_epoch_id : list Z;
  ti_current_epoch_id : list Z;
  ti_pre_observation_id : list Z;
  ti_post_observation_id : list Z
}.

(** ** Errors, transitions and epoch state ([detector.rs]) *)

Inductive QuotaErrorCode : Type :=
| UnexpectedPrevious
| MissingPrevious
| SampleWindowMismatch
| StateWindowMismatch
| PreviousWindowMismatch
| StatePreviousMismatch
| DefinitionRevisionRegressed
| DuplicateConflict
| InvalidTransitionSequence
| TransitionSequenceOverflow
| InvalidEpochState
| InvalidTransitionState.

Inductive QuotaTransitionKind : Type :=
| ScheduledReset | EarlyReset | ManualOrBankedReset | UnknownReset | AllowanceChangedKind.

#[export] Instance QuotaTransitionKind_eq_dec : EqDecision QuotaTransitionKind.
Proof. solve_decision. Defined.

Definition identity_code (kind : QuotaTransitionKind) : Z :=
  match kind with
  | ScheduledReset => 1
  | EarlyReset => 2
  | ManualOrBankedReset => 3
  | UnknownReset => 4
  | AllowanceChangedKind => 5
  end.

Inductive QuotaAllowanceChangeKind : Type := Increased | Decreased | UnitChanged.

Record QuotaAllowanceChange : Type := mkQuotaAllowanceChange {
  ch_kind : QuotaAllowanceChangeKind;
  ch_old_units : QuotaUnits;
  ch_new_units : QuotaUnits
}.

Definition QuotaAllowanceChange_restore (kind : QuotaAllowanceChangeKind)
    (old_units new_units : QuotaUnits) : result QuotaAllowanceChange QuotaErrorCode :=
  let? old_capacity := ok_or (qu_capacity old_units) InvalidTransitionState in
  let? new_capacity := ok_or (qu_capacity new_units) InvalidTransitionState in
  let valid :=
    match kind with
    | Increased => bool_decide (qu_unit_id old_units = qu_unit_id new_units)
                   && (old_capacity <? new_capacity)
    | Decreased => bool_decide (qu_unit_id old_units = qu_unit_id new_units)
                   && (new_capacity <? old_capacity)
    | UnitChanged => negb (bool_decide (qu_unit_id old_units = qu_unit_id new_units))
    end in
  fail_if negb valid with InvalidTransitionState else
  Ok (mkQuotaAllowanceChange kind old_units new_units).

Inductive QuotaDetectionTime : Type :=
| Exact (at_ms : Z)
| Interval (after_ms at_or_before_ms : Z).

Record QuotaEpochState : Type := mkQuotaEpochState {
  es_key : QuotaWindowKey;
  es_epoch_definition_revision : Z;
  es_definition_revision : Z;
  es_epoch_id : list Z;
  es_first_observation_id : list Z;
  es_last_observation_id : list Z;
  es_first_observed_at_ms : Z;
  es_last_observed_at_ms : Z;
  es_maximum_used_ratio : option Z;
  es_maximum_used_ratio_observation_id : option (list Z);
  es_maximum_used_units : option QuotaUnits;
  es_maximum_used_units_observation_id : option (list Z);
  es_provider_epoch_id : option str;
  es_advertised_resets_at_ms : option Z;
  es_last_transition_sequence : Z
}.

Record QuotaTransition : Type := mkQuotaTransition {
  tr_id : list Z;
  tr_definition_revision : Z;
  tr_sequence : Z;
  tr_key : QuotaWindowKey;
  tr_kind : QuotaTransitionKind;
  tr_previous_epoch_id : list Z;
  tr_current_epoch_id : list Z;
  tr_pre_observation_id : list Z;
  tr_post_observation_id : list Z;
  tr_maximum_used_ratio_before : option Z;
  tr_maximum_used_ratio_observation_id_before : option (list Z);
  tr_maximum_used_units_before : option QuotaUnits;
  tr_maximum_used_units_observation_id_before : option (list Z);
  tr_old_resets_at_ms : option Z;
  tr_new_resets_at_ms : option Z;
  tr_allowance_change : option QuotaAllowanceChange;
  tr_source : QuotaEvidenceSource;
  tr_confidence : QuotaConfidence;
  tr_detection_time : QuotaDetectionTime
}.

Inductive QuotaEvaluation : Type :=
| Started (state : QuotaEpochState)
| Duplicate
| Stale
| Advanced (state : QuotaEpochState)
| AllowanceChanged (state : QuotaEpochState) (transition : QuotaTransition)
| Reset (state : QuotaEpochState) (transition : QuotaTransition).

Inductive ResetSignal : Type :=
| SigManualOrBanked | SigProviderEpoch | SigExplicit | SigThresholdAdvanced | SigThresholdUnknown.

#[export] Instance ResetSignal_eq_dec : EqDecision ResetSignal.
Proof. solve_decision. Defined.

(** ** Running maxima *)

Definition maximum_ratio (current : option Z) (current_observation_id : option (list Z))
    (sample : option Z) (sample_observation_id : list Z) : option Z * option (list Z) :=
  match current, sample with
  | Some current, Some sample =>
      if current <? sample then (Some sample, Some sample_observation_id)
      else (Some current, current_observation_id)
  | Some current, None => (Some current, current_observation_id)
  | None, Some sample => (Some sample, Some sample_observation_id)
  | None, None => (None, None)
  end.

(** [sample.used() > current.used()] on [Option<u64>]: [None] is the least. *)
Definition option_gtb (a b : option Z) : bool :=
  match a, b with
  | Some a, Some b => b <? a
  | Some _, None => true
  | None, _ => false
  end.

Definition maximum_units (current : option QuotaUnits) (current_observation_id : option (list Z))
    (sample : option QuotaUnits) (sample_observation_id : list Z)
  : option QuotaUnits * option (list Z) :=
  let sample := option_filter sample (fun units => is_some (qu_used units)) in
  match current, sample with
  | Some current, Some sample =>
      if bool_decide (qu_unit_id current = qu_unit_id sample) then
        if option_gtb (qu_used sample) (qu_used current)
        then (Some sample, Some sample_observation_id)
        else (Some current, current_observation_id)
      else (None, None)
  | Some current, None => (Some current, current_observation_id)
  | None, Some sample => (Some sample, Some sample_observation_id)
  | None, None => (None, None)
  end.

(** ** Detection *)

Definition threshold_transition (thresholds : QuotaResetThresholds) (previous sample : QuotaSample)
  : bool :=
  let used_boundary :=
    is_none_or (th_maximum_post_reset_used_ratio thresholds)
      (fun maximum => is_some_and (qs_used_ratio sample) (fun used => used <=? maximum)) in
  let remaining_boundary :=
    is_none_or (th_minimum_post_reset_remaining_ratio thresholds)
      (fun minimum => is_some_and (qs_remaining_ratio sample)
                        (fun remaining => minimum <=? remaining)) in
  let drop_boundary :=
    is_none_or (th_minimum_used_ratio_drop thresholds)
      (fun minimum =>
         is_some_and
           (match option_zip (qs_used_ratio previous) (qs_used_ratio sample) with
            | Some (previous, current) => checked_sub previous current
            | None => None
            end)
           (fun drop => minimum <=? drop)) in
  let directional_recovery :=
    is_some_and (option_zip (qs_used_ratio previous) (qs_used_ratio sample))
      (fun '(previous, current) => current <? previous)
    || is_some_and (option_zip (qs_remaining_ratio previous) (qs_remaining_ratio sample))
         (fun '(previous, current) => previous <? current) in
  used_boundary && remaining_boundary && drop_boundary && directional_recovery.

Definition detect_reset_signal (definition : QuotaWindowDefinition) (previous sample : QuotaSample)
  : option ResetSignal :=
  if bool_decide (qs_reset_evidence sample = EvManualOrBanked) then Some SigManualOrBanked
  else if is_some_and (option_zip (qs_provider_epoch_id previous) (qs_provider_epoch_id sample))
            (fun '(previous, current) => negb (bool_decide (previous = current)))
  then Some SigProviderEpoch
  else if match qs_reset_evidence sample with
          | EvExplicitProvider | EvExplicitLocal => true | _ => false end
  then Some SigExplicit
  else if negb (bool_decide (wd_semantics definition = SemFixed))
          || match qs_quality sample with QualConflict | QualUnknown => true | _ => false end
          || match qs_confidence sample with ConfLow | ConfUnknown => true | _ => false end
  then None
  else match wd_reset_thresholds definition with
       | None => None
       | Some thresholds =>
           if negb (threshold_transition thresholds previous sample) then None
           else match qs_advertised_resets_at_ms previous, qs_advertised_resets_at_ms sample with
                | Some previous, Some current =>
                    if previous <? current then Some SigThresholdAdvanced else None
                | None, _ | _, None => Some SigThresholdUnknown
                end
       end.

Definition detect_allowance_change (previous sample : QuotaSample) : option QuotaAllowanceChange :=
  match option_zip (qs_units previous) (qs_units sample) with
  | None => None
  | Some (old_units, new_units) =>
      match option_zip (qu_capacity old_units) (qu_capacity new_units) with
      | None => None
      | Some (old_capacity, new_capacity) =>
          if negb (bool_decide (qu_unit_id old_units = qu_unit_id new_units))
          then Some (mkQuotaAllowanceChange UnitChanged old_units new_units)
          else if old_capacity <? new_capacity
          then Some (mkQuotaAllowanceChange Increased old_units new_units)
          else if new_capacity <? old_capacity
          then Some (mkQuotaAllowanceChange Decreased old_units new_units)
          else None
      end
  end.

Definition exact_next_sequence (current : QuotaEpochState) (next_transition_sequence : Z)
  : result Z QuotaErrorCode :=
  let? expected := ok_or (checked_add u64_max (es_last_transition_sequence current) 1)
                     TransitionSequenceOverflow in
  fail_if negb (next_transition_sequence =? expected) with InvalidTransitionSequence else
  Ok expected.

(** [sample.reset_occurred_at_ms().filter(|occurred| *occurred > previous.observed_at_ms())] *)
Definition later_occurrence (previous sample : QuotaSample) : option Z :=
  option_filter (qs_reset_occurred_at_ms sample)
    (fun occurred => qs_observed_at_ms previous <? occurred).

Definition reset_kind (signal : ResetSignal) (previous sample : QuotaSample)
  : QuotaTransitionKind :=
  if bool_decide (signal = SigManualOrBanked) then ManualOrBankedReset
  else if bool_decide (signal = SigThresholdUnknown) then UnknownReset
  else match qs_advertised_resets_at_ms previous with
       | None => UnknownReset
       | Some boundary =>
           let comparison_time :=
             unwrap_or (later_occurrence previous sample) (qs_observed_at_ms sample) in
           if boundary <=? comparison_time then ScheduledReset else EarlyReset
       end.

Definition reset_confidence (signal : ResetSignal) (sample : QuotaSample) : QuotaConfidence :=
  match signal with
  | SigThresholdUnknown => ConfLow
  | SigThresholdAdvanced =>
      if bool_decide (qs_quality sample = QualPartial) then ConfLow else qs_confidence sample
  | SigManualOrBanked | SigProviderEpoch | SigExplicit => qs_confidence sample
  end.

Definition reset_detection_time (previous sample : QuotaSample) : QuotaDetectionTime :=
  match later_occurrence previous sample with
  | Some occurred_at_ms => Exact occurred_at_ms
  | None => Interval (qs_observed_at_ms previous) (qs_observed_at_ms sample)
  end.

(** ** The evaluator *)

Section Sha256.
Context (sha256 : list Z -> list Z).

Definition quota_scope_id (scope : QuotaScope) : list Z := sha256 (quota_scope_id_input scope).

Definition quota_epoch_id_input (key : QuotaWindowKey) (definition_revision : Z)
    (first_observation_id : list Z) : list Z :=
  let scope_id := quota_scope_id (wk_scope key) in
  let hasher := update_field [] EPOCH_DOMAIN in
  let hasher := update_field hasher scope_id in
  let hasher := update_field hasher (as_bytes (wk_window_id key)) in
  let hasher := update_field hasher (be_bytes 8 definition_revision) in
  update_field hasher first_observation_id.

Definition quota_epoch_id (key : QuotaWindowKey) (definition_revision : Z)
    (first_observation_id : list Z) : list Z :=
  sha256 (quota_epoch_id_input key definition_revision first_observation_id).

Definition quota_transition_id (input : TransitionIdentityInput) : list Z :=
  let scope_id := quota_scope_id (wk_scope (ti_key input)) in
  let hasher := update_field [] TRANSITION_DOMAIN in
  let hasher := update_field hasher scope_id in
  let hasher := update_field hasher (as_bytes (wk_window_id (ti_key input))) in
  let hasher := update_field hasher (be_bytes 8 (ti_definition_revision input)) in
  let hasher := update_field hasher (be_bytes 8 (ti_sequence input)) in
  let hasher := update_field hasher [ti_kind_code input] in
  let hasher := update_field hasher (ti_previous_epoch_id input) in
  let hasher := update_field hasher (ti_current_epoch_id input) in
  let hasher := update_field hasher (ti_pre_observation_id input) in
  let hasher := update_field hasher (ti_post_observation_id input) in
  sha256 hasher.

Definition QuotaEpochState_restore (parts : QuotaEpochState)
  : result QuotaEpochState QuotaErrorCode :=
  fail_if (es_epoch_definition_revision parts =? 0)
          || (es_definition_revision parts <? es_epoch_definition_revision parts)
          || (es_first_observed_at_ms parts <=? 0)
          || (es_last_observed_at_ms parts <? es_first_observed_at_ms parts)
          || is_some_and (es_advertised_resets_at_ms parts) (fun value => value <=? 0)
          || negb (eqb (is_some (es_maximum_used_ratio parts))
                       (is_some (es_maximum_used_ratio_observation_id parts)))
          || negb (eqb (is_some (es_maximum_used_units parts))
                       (is_some (es_maximum_used_units_observation_id parts)))
          || is_some_and (es_maximum_used_units parts) (fun units => is_none (qu_used units))
          || negb (bool_decide (es_epoch_id parts =
                     quota_epoch_id (es_key parts) (es_epoch_definition_revision parts)
                       (es_first_observation_id parts)))
    with InvalidEpochState else
  Ok parts.

Definition QuotaTransition_restore (parts : QuotaTransition)
  : result QuotaTransition QuotaErrorCode :=
  let reset_epoch_shape :=
    negb (bool_decide (tr_previous_epoch_id parts = tr_current_epoch_id parts)) in
  let allowance_shape :=
    bool_decide (tr_kind parts = AllowanceChangedKind) && negb reset_epoch_shape
    && is_some (tr_allowance_change parts) in
  let reset_shape :=
    negb (bool_decide (tr_kind parts = AllowanceChangedKind)) && reset_epoch_shape in
  let valid_detection_time :=
    match tr_detection_time parts with
    | Exact at_ms => 0 <? at_ms
    | Interval after_ms at_or_before_ms => (0 <? after_ms) && (after_ms <? at_or_before_ms)
    end in
  let expected_id := quota_transition_id (mkTransitionIdentityInput
    (tr_key parts) (tr_definition_revision parts) (tr_sequence parts)
    (identity_code (tr_kind parts)) (tr_previous_epoch_id parts) (tr_current_epoch_id parts)
    (tr_pre_observation_id parts) (tr_post_observation_id parts)) in
  fail_if (tr_definition_revision parts =? 0)
          || (tr_sequence parts =? 0)
          || (negb allowance_shape && negb reset_shape)
          || bool_decide (tr_pre_observation_id parts = tr_post_observation_id parts)
          || negb (eqb (is_some (tr_maximum_used_ratio_before parts))
                       (is_some (tr_maximum_used_ratio_observation_id_before parts)))
          || negb (eqb (is_some (tr_maximum_used_units_before parts))
                       (is_some (tr_maximum_used_units_observation_id_before parts)))
          || is_some_and (tr_maximum_used_units_before parts) (fun units => is_none (qu_used units))
          || is_some_and (tr_old_resets_at_ms parts) (fun value => value <=? 0)
          || is_some_and (tr_new_resets_at_ms parts) (fun value => value <=? 0)
          || negb valid_detection_time
          || negb (bool_decide (tr_id parts = expected_id))
    with InvalidTransitionState else
  Ok parts.

Definition start_epoch_with_sequence (definition : QuotaWindowDefinition) (sample : QuotaSample)
    (last_transition_sequence : Z) : QuotaEpochState :=
  let maximum_used_ratio := qs_used_ratio sample in
  let maximum_used_ratio_observation_id :=
    option_map (fun _ => qs_observation_id sample) maximum_used_ratio in
  let maximum_used_units := option_filter (qs_units sample) (fun units => is_some (qu_used units)) in
  let maximum_used_units_observation_id :=
    option_map (fun _ => qs_observation_id sample) maximum_used_units in
  mkQuotaEpochState (qs_key sample) (wd_revision definition) (wd_revision definition)
    (quota_epoch_id (qs_key sample) (wd_revision definition) (qs_observation_id sample))
    (qs_observation_id sample) (qs_observation_id sample)
    (qs_observed_at_ms sample) (qs_observed_at_ms sample)
    maximum_used_ratio maximum_used_ratio_observation_id
    maximum_used_units maximum_used_units_observation_id
    (qs_provider_epoch_id sample) (qs_advertised_resets_at_ms sample)
    last_transition_sequence.

Definition start_epoch (definition : QuotaWindowDefinition) (sample : QuotaSample)
  : QuotaEpochState := start_epoch_with_sequence definition sample 0.

Definition advance_epoch (definition : QuotaWindowDefinition) (current : QuotaEpochState)
    (sample : QuotaSample) : QuotaEpochState :=
  let '(maximum_used_ratio, maximum_used_ratio_observation_id) :=
    maximum_ratio (es_maximum_used_ratio current) (es_maximum_used_ratio_observation_id current)
      (qs_used_ratio sample) (qs_observation_id sample) in
  let '(maximum_used_units, maximum_used_units_observation_id) :=
    maximum_units (es_maximum_used_units current) (es_maximum_used_units_observation_id current)
      (qs_units sample) (qs_observation_id sample) in
  mkQuotaEpochState (es_key current) (es_epoch_definition_revision current)
    (wd_revision definition) (es_epoch_id current)
    (es_first_observation_id current) (qs_observation_id sample)
    (es_first_observed_at_ms current) (qs_observed_at_ms sample)
    maximum_used_ratio maximum_used_ratio_observation_id
    maximum_used_units maximum_used_units_observation_id
    (qs_provider_epoch_id sample) (qs_advertised_resets_at_ms sample)
    (es_last_transition_sequence current).

(** [next_state.last_transition_sequence = sequence] *)
Definition set_last_transition_sequence (state : QuotaEpochState) (sequence : Z)
  : QuotaEpochState :=
  mkQuotaEpochState (es_key state) (es_epoch_definition_revision state)
    (es_definition_revision state) (es_epoch_id state)
    (es_first_observation_id state) (es_last_observation_id state)
    (es_first_observed_at_ms state) (es_last_observed_at_ms state)
    (es_maximum_used_ratio state) (es_maximum_used_ratio_observation_id state)
    (es_maximum_used_units state) (es_maximum_used_units_observation_id state)
    (es_provider_epoch_id state) (es_advertised_resets_at_ms state) sequence.

Definition make_transition (definition : QuotaWindowDefinition)
    (previous_state current_state : QuotaEpochState) (previous sample : QuotaSample)
    (sequence : Z) (kind : QuotaTransitionKind) (allowance_change : option QuotaAllowanceChange)
    (confidence : QuotaConfidence) (detection_time : QuotaDetectionTime) : QuotaTransition :=
  let id := quota_transition_id (mkTransitionIdentityInput
    (wd_key definition) (wd_revision definition) sequence (identity_code kind)
    (es_epoch_id previous_state) (es_epoch_id current_state)
    (qs_observation_id previous) (qs_observation_id sample)) in
  mkQuotaTransition id (wd_revision definition) sequence (wd_key definition) kind
    (es_epoch_id previous_state) (es_epoch_id current_state)
    (qs_observation_id previous) (qs_observation_id sample)
    (es_maximum_used_ratio previous_state) (es_maximum_used_ratio_observation_id previous_state)
    (es_maximum_used_units previous_state) (es_maximum_used_units_observation_id previous_state)
    (qs_advertised_resets_at_ms previous) (qs_advertised_resets_at_ms sample)
    allowance_change (qs_source sample) confidence detection_time.

Definition evaluate_sample (definition : QuotaWindowDefinition) (current : option QuotaEpochState)
    (previous : option QuotaSample) (sample : QuotaSample) (next_transition_sequence : Z)
  : result QuotaEvaluation QuotaErrorCode :=
  fail_if negb (bool_decide (qs_key sample = wd_key definition))
    with SampleWindowMismatch else
  match current with
  | None =>
      fail_if is_some previous with UnexpectedPrevious else
      Ok (Started (start_epoch definition sample))
  | Some current =>
      fail_if negb (bool_decide (es_key current = wd_key definition))
        with StateWindowMismatch else
      fail_if wd_revision definition <? es_definition_revision current
        with DefinitionRevisionRegressed else
      let? previous := ok_or previous MissingPrevious in
      fail_if negb (bool_decide (qs_key previous = wd_key definition))
        with PreviousWindowMismatch else
      fail_if negb (bool_decide (es_last_observation_id current = qs_observation_id previous))
              || negb (es_last_observed_at_ms current =? qs_observed_at_ms previous)
              || negb (bool_decide (es_provider_epoch_id current = qs_provider_epoch_id previous))
              || negb (bool_decide (es_advertised_resets_at_ms current =
                                    qs_advertised_resets_at_ms previous))
        with StatePreviousMismatch else
      if bool_decide (qs_observation_id sample = qs_observation_id previous) then
        if bool_decide (sample = previous) then Ok Duplicate else Err DuplicateConflict
      else if qs_observed_at_ms sample <=? qs_observed_at_ms previous then Ok Stale
      else
        let allowance_change := detect_allowance_change previous sample in
        match detect_reset_signal definition previous sample with
        | Some signal =>
            let? sequence := exact_next_sequence current next_transition_sequence in
            let next_state := start_epoch_with_sequence definition sample sequence in
            let kind := reset_kind signal previous sample in
            let transition := make_transition definition current next_state previous sample
              sequence kind allowance_change (reset_confidence signal sample)
              (reset_detection_time previous sample) in
            Ok (Reset next_state transition)
        | None =>
            let next_state := advance_epoch definition current sample in
            match allowance_change with
            | Some allowance_change =>
                let? sequence := exact_next_sequence current next_transition_sequence in
                let next_state := set_last_transition_sequence next_state sequence in
                let transition := make_transition definition current next_state previous sample
                  sequence AllowanceChangedKind (Some allowance_change) (qs_confidence sample)
                  (Interval (qs_observed_at_ms previous) (qs_observed_at_ms sample)) in
                Ok (AllowanceChanged next_state transition)
            | None => Ok (Advanced next_state)
            end
        end
  end.

End Sha256.

(** ** The evaluator's rules *)

(** The stored state is the one the previous sample produced, for this window and
    a revision no newer than the definition's. *)
Definition in_sync (def : QuotaWindowDefinition) (st : QuotaEpochState) (prev : QuotaSample) : Prop :=
  es_key st = wd_key def /\ es_definition_revision st <= wd_revision def /\
  qs_key prev = wd_key def /\
  es_last_observation_id st = qs_observation_id prev /\
  es_last_observed_at_ms st = qs_observed_at_ms prev /\
  es_provider_epoch_id st = qs_provider_epoch_id prev /\
  es_advertised_resets_at_ms st = qs_advertised_resets_at_ms prev.

(** A genuinely new observation. *)
Definition newer (prev sample : QuotaSample) : Prop :=
  qs_observation_id sample <> qs_observation_id prev /\
  qs_observed_at_ms prev < qs_observed_at_ms sample.

(** The sequence number the caller must supply for the next transition. *)
Definition next_sequence_ok (st : QuotaEpochState) (seq : Z) : Prop :=
  seq = es_last_transition_sequence st + 1 /\ seq <= u64_max.

Definition reset_transition (sha256 : list Z -> list Z) (def : QuotaWindowDefinition)
    (st : QuotaEpochState) (prev sample : QuotaSample) (seq : Z) (signal : ResetSignal)
  : QuotaTransition :=
  make_transition sha256 def st (start_epoch_with_sequence sha256 def sample seq) prev sample seq
    (reset_kind signal prev sample) (detect_allowance_change prev sample)
    (reset_confidence signal sample) (reset_detection_time prev sample).

Definition allowance_transition (sha256 : list Z -> list Z) (def : QuotaWindowDefinition)
    (st : QuotaEpochState) (prev sample : QuotaSample) (seq : Z) (change : QuotaAllowanceChange)
  : QuotaTransition :=
  make_transition sha256 def st
    (set_last_transition_sequence (advance_epoch def st sample) seq) prev sample seq
    AllowanceChangedKind (Some change) (qs_confidence sample)
    (Interval (qs_observed_at_ms prev) (qs_observed_at_ms sample)).

Inductive evaluates (sha256 : list Z -> list Z) (def : QuotaWindowDefinition) (sample : QuotaSample)
    (seq : Z) : option QuotaEpochState -> option QuotaSample -> QuotaEvaluation -> Prop :=
| eval_started :
    evaluates sha256 def sample seq None None (Started (start_epoch sha256 def sample))
| eval_duplicate st :
    in_sync def st sample ->
    evaluates sha256 def sample seq (Some st) (Some sample) Duplicate
| eval_stale st prev :
    in_sync def st prev -> qs_observation_id sample <> qs_observation_id prev ->
    qs_observed_at_ms sample <= qs_observed_at_ms prev ->
    evaluates sha256 def sample seq (Some st) (Some prev) Stale
| eval_reset st prev signal :
    in_sync def st prev -> newer prev sample -> next_sequence_ok st seq ->
    detect_reset_signal def prev sample = Some signal ->
    evaluates sha256 def sample seq (Some st) (Some prev)
      (Reset (start_epoch_with_sequence sha256 def sample seq)
         (reset_transition sha256 def st prev sample seq signal))
| eval_allowance st prev change :
    in_sync def st prev -> newer prev sample -> next_sequence_ok st seq ->
    detect_reset_signal def prev sample = None ->
    detect_allowance_change prev sample = Some change ->
    evaluates sha256 def sample seq (Some st) (Some prev)
      (AllowanceChanged (set_last_transition_sequence (advance_epoch def st sample) seq)
         (allowance_transition sha256 def st prev sample seq change))
| eval_advanced st prev :
    in_sync def st prev -> newer prev sample ->
    detect_reset_signal def prev sample = None ->
    detect_allowance_change prev sample = None ->
    evaluates sha256 def sample seq (Some st) (Some prev)
      (Advanced (advance_epoch def st sample)).

Lemma exact_next_sequence_ok st seq s :
  exact_next_sequence st seq = Ok s <-> s = seq /\ next_sequence_ok st seq.
Proof.
  unfold exact_next_sequence, checked_add, next_sequence_ok.
  destruct (es_last_transition_sequence st + 1 <=? u64_max) eqn:E; simpl.
  - destruct (seq =? es_last_transition_sequence st + 1) eqn:E2; simpl; to_prop.
    + split; [intros [= <-]; lia|intros [-> _]; f_equal; lia].
    + split; [done|]. intros (-> & ? & _). lia.
  - split; [done|]. intros (-> & ? & ?). to_prop. lia.
Qed.

Lemma evaluate_sample_key sha256 def cur prev sample seq ev :
  evaluate_sample sha256 def cur prev sample seq = Ok ev -> qs_key sample = wd_key def.
Proof. unfold evaluate_sample. intros H. split_in H; [done|]. by to_prop. Qed.

(** Every accepted evaluation follows one of the six rules. *)
Lemma evaluate_sample_evaluates sha256 def cur prev sample seq ev :
  evaluate_sample sha256 def cur prev sample seq = Ok ev -> evaluates sha256 def sample seq cur prev ev.
Proof.
  unfold evaluate_sample. intros H. split_in H; [done|].
  destruct cur as [st|]; [|destruct prev; [done|]; injection H as <-; constructor].
  do 2 (split_in H; [done|]). destruct prev as [prev|]; [|done]. simpl in H.
  do 2 (split_in H; [done|]). to_prop.
  assert (Hsync : in_sync def st prev) by (unfold in_sync; split_and!; done).
  split_in H.
  { to_prop. split_in H; [|done]. to_prop. subst prev. injection H as <-. by constructor. }
  split_in H; to_prop; [injection H as <-; by apply eval_stale|].
  assert (Hnew : newer prev sample) by done.
  destruct (detect_reset_signal def prev sample) as [signal|] eqn:Hs.
  - apply rbind_ok in H as (s & Hseq & H). injection H as <-.
    apply exact_next_sequence_ok in Hseq as [-> Hseq]. by apply eval_reset.
  - destruct (detect_allowance_change prev sample) as [change|] eqn:Hc.
    + apply rbind_ok in H as (s & Hseq & H). injection H as <-.
      apply exact_next_sequence_ok in Hseq as [-> Hseq]. by apply eval_allowance.
    + injection H as <-. by apply eval_advanced.
Qed.

Lemma in_sync_checks def st prev :
  in_sync def st prev ->
  bool_decide (es_key st = wd_key def) = true /\
  (wd_revision def <? es_definition_revision st) = false /\
  bool_decide (qs_key prev = wd_key def) = true /\
  (negb (bool_decide (es_last_observation_id st = qs_observation_id prev))
   || negb (es_last_observed_at_ms st =? qs_observed_at_ms prev)
   || negb (bool_decide (es_provider_epoch_id st = qs_provider_epoch_id prev))
   || negb (bool_decide (es_advertised_resets_at_ms st =
                         qs_advertised_resets_at_ms prev)))%bool = false.
Proof.
  intros (H1 & H2 & H3 & -> & -> & -> & ->). rewrite !bool_decide_eq_true_2, Z.eqb_refl by done.
  split_and!; try done. lia.
Qed.

(** Every rule is followed. *)
Lemma evaluates_evaluate_sample sha256 def cur prev sample seq ev :
  qs_key sample = wd_key def -> evaluates sha256 def sample seq cur prev ev ->
  evaluate_sample sha256 def cur prev sample seq = Ok ev.
Proof.
  intros Hk He. unfold evaluate_sample. rewrite bool_decide_eq_true_2 by done. cbn [negb].
  destruct He as [|st Hs|st p Hs Hid Ht|st p signal Hs [Hid Ht] Hq Hr|st p change Hs [Hid Ht] Hq Hr Ha
    |st p Hs [Hid Ht] Hr Ha]; [done|..].
  all: apply in_sync_checks in Hs as (-> & -> & E3 & E4); cbn [negb rbind ok_or];
    rewrite E3, E4; cbn [negb].
  1: by rewrite !bool_decide_eq_true_2.
  all: rewrite bool_decide_eq_false_2 by done.
  1: by replace (_ <=? _) with true by lia.
  all: replace (_ <=? _) with false by lia; rewrite Hr.
  - by rewrite (proj2 (exact_next_sequence_ok st seq seq) (conj eq_refl Hq)).
  - rewrite Ha. by rewrite (proj2 (exact_next_sequence_ok st seq seq) (conj eq_refl Hq)).
  - by rewrite Ha.
Qed.

(** [evaluate_sample] computes exactly the six rules of [evaluates]: it starts
    an epoch only without history, reports a duplicate only for the identical
    sample, a stale sample only when it is not newer, and otherwise resets, changes
    the allowance or advances according to the two detectors, with the transition
    sequence advanced by exactly one; every other combination of arguments is an
    error. *)
Theorem evaluate_sample_rules sha256 def cur prev sample seq ev :
  evaluate_sample sha256 def cur prev sample seq = Ok ev <->
  qs_key sample = wd_key def /\ evaluates sha256 def sample seq cur prev ev.
Proof.
  split; [|by intros []; apply evaluates_evaluate_sample].
  intros H. split; [by eapply evaluate_sample_key|by apply evaluate_sample_evaluates].
Qed.

(** ** The epoch-state invariant *)

Definition evaluation_state (ev : QuotaEvaluation) : option QuotaEpochState :=
  match ev with
  | Started st | Advanced st | AllowanceChanged st _ | Reset st _ => Some st
  | Duplicate | Stale => None
  end.

Definition evaluation_transition (ev : QuotaEvaluation) : option QuotaTransition :=
  match ev with
  | AllowanceChanged _ t | Reset _ t => Some t
  | _ => None
  end.

(** A state the durable store can hold: [restore] accepts it, and its sequence is
    a [u64]. *)
Definition epoch_ok (sha256 : list Z -> list Z) (st : QuotaEpochState) : Prop :=
  QuotaEpochState_restore sha256 st = Ok st /\
  0 <= es_epoch_definition_revision st /\ in_u64 (es_last_transition_sequence st).

Lemma restore_ok sha256 st :
  QuotaEpochState_restore sha256 st = Ok st <->
  es_epoch_definition_revision st <> 0 /\
  es_epoch_definition_revision st <= es_definition_revision st /\
  0 < es_first_observed_at_ms st <= es_last_observed_at_ms st /\
  (forall v, es_advertised_resets_at_ms st = Some v -> 0 < v) /\
  is_some (es_maximum_used_ratio st) = is_some (es_maximum_used_ratio_observation_id st) /\
  is_some (es_maximum_used_units st) = is_some (es_maximum_used_units_observation_id st) /\
  (forall u, es_maximum_used_units st = Some u -> qu_used u <> None) /\
  es_epoch_id st = quota_epoch_id sha256 (es_key st) (es_epoch_definition_revision st)
                     (es_first_observation_id st).
Proof.
  unfold QuotaEpochState_restore. split.
  - intros H. split_in H; [done|]. to_prop. split_and!; auto; try lia.
    + intros v Hv. rewrite Hv in *. simpl in *. lia.
    + intros u Hu. rewrite Hu in *. simpl in *. unfold is_none in *. by destruct (qu_used u).
  - intros (H1 & H2 & H3 & H4 & H5 & H6 & H7 & H8).
    rewrite H5, H6, !eqb_reflx, <- H8, bool_decide_eq_true_2 by done.
    replace (is_some_and (es_advertised_resets_at_ms st) _) with false.
    2: { destruct (es_advertised_resets_at_ms st) as [v|]; [|done].
         specialize (H4 v eq_refl). simpl. lia. }
    replace (is_some_and (es_maximum_used_units st) _) with false.
    2: { destruct (es_maximum_used_units st) as [u|]; [|done].
         specialize (H7 u eq_refl). simpl. unfold is_none. by destruct (qu_used u). }
    simpl. by replace (_ || _ || _ || _)%bool with false by lia.
Qed.

Lemma maximum_ratio_paired cur cid s sid :
  is_some cur = is_some cid ->
  is_some (maximum_ratio cur cid s sid).1 = is_some (maximum_ratio cur cid s sid).2.
Proof. unfold maximum_ratio. intros H. repeat split_goal; done. Qed.

Lemma maximum_units_paired cur cid s sid :
  is_some cur = is_some cid ->
  is_some (maximum_units cur cid s sid).1 = is_some (maximum_units cur cid s sid).2.
Proof. unfold maximum_units. intros H. repeat split_goal; done. Qed.

Lemma maximum_units_used cur cid s sid u :
  (forall u, cur = Some u -> qu_used u <> None) ->
  (maximum_units cur cid s sid).1 = Some u -> qu_used u <> None.
Proof.
  unfold maximum_units. intros H Hu. destruct (option_filter _ _) as [w|] eqn:Ef.
  - apply option_filter_Some in Ef as [_ Hw].
    destruct cur as [c|]; repeat (split_in Hu); simplify_eq/=; try (by apply H);
      by destruct (qu_used u).
  - destruct cur as [c|]; simplify_eq/=. by apply H.
Qed.

Lemma start_epoch_ok sha256 def sample seq :
  QuotaWindowDefinition_ok def -> QuotaSample_ok sample -> in_u64 seq ->
  epoch_ok sha256 (start_epoch_with_sequence sha256 def sample seq).
Proof.
  intros Hd [Hs _] Hseq. pose proof (QuotaWindowDefinition_revision _ Hd).
  pose proof (QuotaSample_times _ Hs). split; [|simpl; split; [lia|done]].
  apply restore_ok. simpl. split_and!; try done; try lia.
  - intros v Hv. by eapply QuotaSample_advertised.
  - by destruct (qs_used_ratio sample).
  - by destruct (option_filter _ _).
  - intros u [_ Hu]%option_filter_Some. by destruct (qu_used u).
Qed.

Lemma advance_epoch_ok sha256 def st prev sample :
  QuotaSample_ok sample -> in_sync def st prev -> newer prev sample -> epoch_ok sha256 st ->
  epoch_ok sha256 (advance_epoch def st sample).
Proof.
  intros [Hs _] (Hk & Hrev & _ & _ & Ht & _) [_ Hnew] [Hst [Hr Hseq]].
  apply restore_ok in Hst as (H1 & H2 & H3 & H4 & H5 & H6 & H7 & H8).
  pose proof (QuotaSample_times _ Hs).
  pose proof (maximum_ratio_paired _ _ (qs_used_ratio sample) (qs_observation_id sample) H5) as P1.
  pose proof (maximum_units_paired _ _ (qs_units sample) (qs_observation_id sample) H6) as P2.
  assert (P3 : forall u, (maximum_units (es_maximum_used_units st)
     (es_maximum_used_units_observation_id st) (qs_units sample) (qs_observation_id sample)).1
     = Some u -> qu_used u <> None) by (intros u; by apply maximum_units_used).
  unfold advance_epoch.
  destruct (maximum_ratio _ _ _ _) as [mr mri], (maximum_units _ _ _ _) as [mu mui].
  split; [|done]. apply restore_ok. simpl in *. split_and!; auto; try lia.
  intros v Hv. by eapply QuotaSample_advertised.
Qed.

Lemma set_sequence_ok sha256 st seq :
  in_u64 seq -> epoch_ok sha256 st -> epoch_ok sha256 (set_last_transition_sequence st seq).
Proof.
  intros Hseq [Hst [Hr _]]. split; [|done]. apply restore_ok in Hst. by apply restore_ok.
Qed.

Lemma next_sequence_in_u64 st seq :
  in_u64 (es_last_transition_sequence st) -> next_sequence_ok st seq -> in_u64 seq.
Proof. unfold next_sequence_ok. unfold_ints. lia. Qed.

(** Every state the evaluator produces is one the store accepts back: given
    constructed inputs and a restorable current state, the new state passes
    [QuotaEpochState::restore] (identity recomputed from its fields, paired maxima
    and observation ids, ordered times and revisions) and its sequence stays within
    [u64]. *)
Theorem evaluate_state_restorable sha256 def cur prev sample seq ev st :
  QuotaWindowDefinition_ok def -> QuotaSample_ok sample ->
  (forall c, cur = Some c -> epoch_ok sha256 c) ->
  evaluate_sample sha256 def cur prev sample seq = Ok ev ->
  evaluation_state ev = Some st -> epoch_ok sha256 st.
Proof.
  intros Hd Hs Hc He Hst. apply evaluate_sample_evaluates in He.
  destruct He as [|st0 Hsync|st0 p Hsync Hid Ht|st0 p sg Hsync Hn Hq Hr|st0 p ch Hsync Hn Hq Hr Ha
    |st0 p Hsync Hn Hr Ha]; simpl in Hst; try discriminate Hst; injection Hst as <-.
  - apply start_epoch_ok; [done..|]. unfold_ints. lia.
  - destruct (Hc _ eq_refl) as (_ & _ & ?). apply start_epoch_ok; eauto using next_sequence_in_u64.
  - pose proof (Hc _ eq_refl) as Hok. destruct Hok as (_ & _ & ?).
    apply set_sequence_ok; eauto using next_sequence_in_u64, advance_epoch_ok.
  - eauto using advance_epoch_ok.
Qed.

(** ** Transitions *)

Lemma later_occurrence_bounds prev sample t :
  QuotaSample_new sample = Ok sample -> later_occurrence prev sample = Some t ->
  qs_observed_at_ms prev < t <= qs_observed_at_ms sample.
Proof.
  unfold later_occurrence. intros Hs [Ht H]%option_filter_Some.
  destruct (QuotaSample_occurred _ _ Hs Ht). lia.
Qed.

(** The moment a transition claims: after the previous sample, not after this one. *)
Definition detection_within (prev sample : QuotaSample) (d : QuotaDetectionTime) : Prop :=
  match d with
  | Exact t => qs_observed_at_ms prev < t <= qs_observed_at_ms sample
  | Interval a b => a = qs_observed_at_ms prev /\ b = qs_observed_at_ms sample /\ a < b
  end.

Lemma reset_detection_within prev sample :
  QuotaSample_new sample = Ok sample -> newer prev sample ->
  detection_within prev sample (reset_detection_time prev sample).
Proof.
  intros Hs [_ Ht]. unfold reset_detection_time.
  destruct (later_occurrence prev sample) eqn:E; [by eapply later_occurrence_bounds|done].
Qed.

Lemma reset_kind_not_allowance signal prev sample :
  reset_kind signal prev sample <> AllowanceChangedKind.
Proof. unfold reset_kind. repeat split_goal; done. Qed.

(** When a transition record passes [QuotaTransition::restore]. *)
Lemma make_transition_restorable sha256 def st st' prev sample seq kind change conf d :
  QuotaWindowDefinition_ok def -> QuotaSample_ok prev -> QuotaSample_ok sample ->
  epoch_ok sha256 st -> newer prev sample -> 0 < seq -> detection_within prev sample d ->
  (if bool_decide (kind = AllowanceChangedKind)
   then es_epoch_id st = es_epoch_id st' /\ change <> None
   else es_epoch_id st <> es_epoch_id st') ->
  let t := make_transition sha256 def st st' prev sample seq kind change conf d in
  QuotaTransition_restore sha256 t = Ok t.
Proof.
  intros Hd [Hp _] [Hs _] [Hst _] [Hid Ht] Hseq Hdet Hshape.
  apply restore_ok in Hst as (_ & _ & _ & _ & H5 & H6 & H7 & _).
  pose proof (QuotaWindowDefinition_revision _ Hd). pose proof (QuotaSample_times _ Hp).
  unfold QuotaTransition_restore, make_transition; simpl.
  rewrite H5, H6, !eqb_reflx, (bool_decide_eq_true_2 (quota_transition_id _ _ = _)) by done.
  rewrite (bool_decide_eq_false_2 (qs_observation_id prev = _)) by congruence.
  replace (wd_revision def =? 0) with false by lia. replace (seq =? 0) with false by lia.
  assert (Hadv : forall x, QuotaSample_new x = Ok x ->
    is_some_and (qs_advertised_resets_at_ms x) (fun v => v <=? 0) = false).
  { intros x Hx. destruct (qs_advertised_resets_at_ms x) as [v|] eqn:E; [|done]. simpl.
    pose proof (QuotaSample_advertised x v Hx E). lia. }
  rewrite !Hadv by done.
  replace (is_some_and (es_maximum_used_units st) _) with false.
  2: { destruct (es_maximum_used_units st) as [u|]; [|done].
       specialize (H7 u eq_refl). simpl. unfold is_none. by destruct (qu_used u). }
  replace (match d with Exact at_ms => 0 <? at_ms | Interval a b => (0 <? a) && (a <? b) end)
    with true by (destruct d; simpl in Hdet; lia).
  case_bool_decide as Hk.
  - destruct Hshape as [-> Hc]. rewrite bool_decide_eq_true_2 by done. by destruct change.
  - rewrite bool_decide_eq_false_2 by done. done.
Qed.

Lemma advance_epoch_id def st sample : es_epoch_id (advance_epoch def st sample) = es_epoch_id st.
Proof.
  unfold advance_epoch. by destruct (maximum_ratio _ _ _ _), (maximum_units _ _ _ _).
Qed.

(** Transitions are numbered, anchored and restorable: a produced transition
    names the previous and the new observation, carries the previous state's maxima,
    dates itself within the interval between the two samples, and takes the exact
    next sequence number, which the new state records; without a transition the
    sequence is unchanged. It passes [QuotaTransition::restore] whenever a reset
    really changes the epoch id. *)
Theorem evaluate_transition_restorable sha256 def st prev sample seq ev t :
  QuotaWindowDefinition_ok def -> QuotaSample_ok prev -> QuotaSample_ok sample ->
  epoch_ok sha256 st ->
  evaluate_sample sha256 def (Some st) (Some prev) sample seq = Ok ev ->
  evaluation_transition ev = Some t ->
  tr_pre_observation_id t = qs_observation_id prev /\
  tr_post_observation_id t = qs_observation_id sample /\
  tr_maximum_used_ratio_before t = es_maximum_used_ratio st /\
  detection_within prev sample (tr_detection_time t) /\
  tr_sequence t = es_last_transition_sequence st + 1 /\
  (es_last_transition_sequence <$> evaluation_state ev) = Some (tr_sequence t) /\
  ((forall st', evaluation_state ev = Some st' -> tr_kind t <> AllowanceChangedKind ->
      es_epoch_id st <> es_epoch_id st') ->
   QuotaTransition_restore sha256 t = Ok t).
Proof.
  intros Hd Hp Hs Hst He Ht. apply evaluate_sample_evaluates in He.
  assert (Hpos : forall q, next_sequence_ok st q -> 0 < q).
  { intros q [-> _]. destruct Hst as (_ & _ & ?). unfold_ints. lia. }
  inversion He as [|st0 Hsync|st0 p Hsync Hid Hle|st0 p sg Hsync Hn Hq Hr|st0 p ch Hsync Hn Hq Hr Ha
    |st0 p Hsync Hn Hr Ha]; subst; simpl in Ht; try discriminate Ht; injection Ht as <-;
    split_and!; try done; try (by destruct Hq as [-> _]).
  - apply reset_detection_within; [by apply Hs|done].
  - intros Hne. apply make_transition_restorable; auto.
    + apply reset_detection_within; [by apply Hs|done].
    + rewrite bool_decide_eq_false_2 by apply reset_kind_not_allowance.
      apply Hne; [done|apply reset_kind_not_allowance].
  - by destruct Hn.
  - intros _. apply make_transition_restorable; auto; [by destruct Hn|].
    rewrite bool_decide_eq_true_2 by done. by rewrite <- (advance_epoch_id def st sample).
Qed.

(** The data a reset may rest on. *)
Definition reset_justified (def : QuotaWindowDefinition) (prev sample : QuotaSample) : Prop :=
  qs_reset_evidence sample <> EvNone \/
  (exists a b, qs_provider_epoch_id prev = Some a /\ qs_provider_epoch_id sample = Some b /\ a <> b) \/
  (wd_semantics def = SemFixed /\
   (qs_quality sample = QualAuthoritative \/ qs_quality sample = QualPartial) /\
   (qs_confidence sample = ConfHigh \/ qs_confidence sample = ConfMedium) /\
   (exists th, wd_reset_thresholds def = Some th /\
     (forall m, th_maximum_post_reset_used_ratio th = Some m ->
        exists u, qs_used_ratio sample = Some u /\ u <= m) /\
     (forall m, th_minimum_post_reset_remaining_ratio th = Some m ->
        exists r, qs_remaining_ratio sample = Some r /\ m <= r) /\
     (forall m, th_minimum_used_ratio_drop th = Some m ->
        exists u v, qs_used_ratio prev = Some u /\ qs_used_ratio sample = Some v /\ v + m <= u)) /\
   ((exists u v, qs_used_ratio prev = Some u /\ qs_used_ratio sample = Some v /\ v < u) \/
    (exists r s, qs_remaining_ratio prev = Some r /\ qs_remaining_ratio sample = Some s /\ r < s)) /\
   (forall a b, qs_advertised_resets_at_ms prev = Some a ->
      qs_advertised_resets_at_ms sample = Some b -> a < b)).

Lemma threshold_transition_inv th prev sample :
  threshold_transition th prev sample = true ->
  (forall m, th_maximum_post_reset_used_ratio th = Some m ->
     exists u, qs_used_ratio sample = Some u /\ u <= m) /\
  (forall m, th_minimum_post_reset_remaining_ratio th = Some m ->
     exists r, qs_remaining_ratio sample = Some r /\ m <= r) /\
  (forall m, th_minimum_used_ratio_drop th = Some m ->
     exists u v, qs_used_ratio prev = Some u /\ qs_used_ratio sample = Some v /\ v + m <= u) /\
  ((exists u v, qs_used_ratio prev = Some u /\ qs_used_ratio sample = Some v /\ v < u) \/
   (exists r s, qs_remaining_ratio prev = Some r /\ qs_remaining_ratio sample = Some s /\ r < s)).
Proof.
  unfold threshold_transition, checked_sub. cbn zeta. intros H.
  apply andb_prop in H as [H H0]. apply andb_prop in H as [H Hd]. apply andb_prop in H as [Hu Hr].
  apply orb_true_iff in H0.
  split_and!.
  - intros m Hm. rewrite Hm in Hu. simpl in Hu. destruct (qs_used_ratio sample) as [u|]; [|done].
    exists u. simpl in Hu. split; [done|lia].
  - intros m Hm. rewrite Hm in Hr. simpl in Hr.
    destruct (qs_remaining_ratio sample) as [r|]; [|done]. exists r. simpl in Hr. split; [done|lia].
  - intros m Hm. rewrite Hm in Hd. simpl in Hd.
    destruct (qs_used_ratio prev) as [u|], (qs_used_ratio sample) as [v|]; simpl in Hd; try done.
    destruct (v <=? u) eqn:E; [|done]. exists u, v. simpl in Hd. split_and!; [done..|lia].
  - destruct H0 as [H0|H0]; [left|right].
    + destruct (qs_used_ratio prev) as [u|], (qs_used_ratio sample) as [v|]; simpl in H0; try done.
      exists u, v. split_and!; [done..|lia].
    + destruct (qs_remaining_ratio prev) as [u|], (qs_remaining_ratio sample) as [v|];
        simpl in H0; try done. exists u, v. split_and!; [done..|lia].
Qed.

Lemma detect_reset_signal_evidence def prev sample signal :
  detect_reset_signal def prev sample = Some signal ->
  reset_justified def prev sample.
Proof.
  unfold detect_reset_signal, reset_justified. intros H.
  split_in H; [left; to_prop; congruence|].
  split_in H.
  { right; left. destruct (qs_provider_epoch_id prev) as [a|], (qs_provider_epoch_id sample) as [b|];
      try done. simpl in *. to_prop. eauto. }
  split_in H; [left; by destruct (qs_reset_evidence sample)|].
  split_in H; [done|]. right; right. to_prop.
  destruct (wd_reset_thresholds def) as [th|] eqn:Eth; [|done].
  destruct (threshold_transition th prev sample) eqn:Et; [|done]. cbn [negb] in H.
  apply threshold_transition_inv in Et as (T1 & T2 & T3 & T4).
  split_and!; auto.
  - destruct (qs_quality sample); auto; done.
  - destruct (qs_confidence sample); auto; done.
  - exists th. auto.
  - intros a b Ha Hb. rewrite Ha, Hb in H. destruct (a <? b) eqn:Eab; [lia|done].
Qed.

(** C27. Resets are never inferred from weak data: a reset is reported only on
    explicit or manual evidence, on a changed provider epoch, or on a fixed window
    with authoritative or partial quality and high or medium confidence whose usage
    moved in the recovering direction past every configured post-reset boundary,
    with the advertised reset time advanced when both samples carry one. *)
Theorem reset_requires_evidence sha256 def st prev sample seq st' t :
  evaluate_sample sha256 def (Some st) (Some prev) sample seq = Ok (Reset st' t) ->
  reset_justified def prev sample.
Proof.
  intros He%evaluate_sample_evaluates. inversion He; subst.
  by eapply detect_reset_signal_evidence.
Qed.

(** ** Refinement: an epoch is the history of its samples *)

(** [v], first reached by the sample with identity [id], is the largest used ratio
    of the history. *)
Definition first_maximum (hist : list QuotaSample) (v : Z) (id : list Z) : Prop :=
  exists pre s post, hist = pre ++ s :: post /\ qs_used_ratio s = Some v /\
    qs_observation_id s = id /\
    (forall x w, x ∈ pre -> qs_used_ratio x = Some w -> w < v) /\
    (forall x w, x ∈ post -> qs_used_ratio x = Some w -> w <= v).

(** The stored scalar state represents the history of an epoch, oldest sample
    first: its ends, its running maximum and who reached it. *)
Record represents (st : QuotaEpochState) (hist : list QuotaSample) : Prop := mkRepresents {
  rep_first : exists s, head hist = Some s /\
    es_first_observation_id st = qs_observation_id s /\
    es_first_observed_at_ms st = qs_observed_at_ms s;
  rep_last : exists s, last hist = Some s /\
    es_last_observation_id st = qs_observation_id s /\
    es_last_observed_at_ms st = qs_observed_at_ms s /\
    es_provider_epoch_id st = qs_provider_epoch_id s /\
    es_advertised_resets_at_ms st = qs_advertised_resets_at_ms s;
  rep_key : forall s, s ∈ hist -> qs_key s = es_key st;
  rep_maximum :
    match es_maximum_used_ratio st with
    | Some v => exists id, es_maximum_used_ratio_observation_id st = Some id /\
                  first_maximum hist v id
    | None => forall s, s ∈ hist -> qs_used_ratio s = None
    end
}.

(** What an evaluation does to the history of the current epoch. *)
Definition evaluation_history (hist : list QuotaSample) (sample : QuotaSample)
    (ev : QuotaEvaluation) : list QuotaSample :=
  match ev with
  | Started _ | Reset _ _ => [sample]
  | Advanced _ | AllowanceChanged _ _ => hist ++ [sample]
  | Duplicate | Stale => hist
  end.

Lemma start_represents sha256 def sample seq :
  represents (start_epoch_with_sequence sha256 def sample seq) [sample].
Proof.
  split; simpl.
  - eauto.
  - eauto 10.
  - intros s Hs. by apply list_elem_of_singleton in Hs as ->.
  - destruct (qs_used_ratio sample) as [v|] eqn:E; simpl.
    + exists (qs_observation_id sample). split; [done|]. exists [], sample, [].
      split_and!; try done; intros x w Hx; by apply not_elem_of_nil in Hx.
    + intros s Hs. by apply list_elem_of_singleton in Hs as ->.
Qed.

Lemma first_maximum_snoc_le hist v id sample :
  first_maximum hist v id -> (forall w, qs_used_ratio sample = Some w -> w <= v) ->
  first_maximum (hist ++ [sample]) v id.
Proof.
  intros (pre & s & post & -> & Hv & Hid & Hpre & Hpost) Hle.
  exists pre, s, (post ++ [sample]). rewrite <- app_assoc. split_and!; try done.
  intros x w [Hx| ->%list_elem_of_singleton]%elem_of_app; eauto.
Qed.

Lemma first_maximum_snoc_new hist sample v :
  qs_used_ratio sample = Some v ->
  (forall x w, x ∈ hist -> qs_used_ratio x = Some w -> w < v) ->
  first_maximum (hist ++ [sample]) v (qs_observation_id sample).
Proof.
  intros Hv Hlt. exists hist, sample, []. split_and!; try done.
  intros x w Hx. by apply not_elem_of_nil in Hx.
Qed.

Lemma first_maximum_bound hist v id x w :
  first_maximum hist v id -> x ∈ hist -> qs_used_ratio x = Some w -> w <= v.
Proof.
  intros (pre & s & post & -> & Hv & _ & Hpre & Hpost) Hx Hw.
  apply elem_of_app in Hx as [Hx|Hx]; [specialize (Hpre x w Hx Hw); lia|].
  apply elem_of_cons in Hx as [->|Hx]; [by simplify_eq|eauto].
Qed.

Lemma maximum_ratio_represents st hist sample :
  represents st hist ->
  match (maximum_ratio (es_maximum_used_ratio st) (es_maximum_used_ratio_observation_id st)
           (qs_used_ratio sample) (qs_observation_id sample)).1 with
  | Some v => exists id,
      (maximum_ratio (es_maximum_used_ratio st) (es_maximum_used_ratio_observation_id st)
           (qs_used_ratio sample) (qs_observation_id sample)).2 = Some id /\
      first_maximum (hist ++ [sample]) v id
  | None => forall s, s ∈ hist ++ [sample] -> qs_used_ratio s = None
  end.
Proof.
  intros [_ _ _ Hm]. unfold maximum_ratio.
  destruct (es_maximum_used_ratio st) as [c|], (qs_used_ratio sample) as [v|] eqn:Ev.
  - destruct Hm as (id & Hid & Hmax). destruct (c <? v) eqn:E; simpl.
    + exists (qs_observation_id sample). split; [done|]. apply first_maximum_snoc_new; [done|].
      intros x w Hx Hw. pose proof (first_maximum_bound _ _ _ _ _ Hmax Hx Hw). lia.
    + exists id. split; [done|]. apply first_maximum_snoc_le; [done|]. intros w Hw.
      simplify_eq. lia.
  - destruct Hm as (id & Hid & Hmax). simpl. exists id. split; [done|].
    apply first_maximum_snoc_le; [done|]. intros w Hw. congruence.
  - simpl. exists (qs_observation_id sample). split; [done|].
    apply first_maximum_snoc_new; [done|]. intros x w Hx Hw. by rewrite Hm in Hw.
  - simpl. intros s [Hs| ->%list_elem_of_singleton]%elem_of_app; auto.
Qed.

Lemma advance_represents def st sample hist :
  qs_key sample = es_key st -> represents st hist ->
  represents (advance_epoch def st sample) (hist ++ [sample]).
Proof.
  intros Hk Hrep. pose proof (maximum_ratio_represents st hist sample Hrep) as Hm.
  destruct Hrep as [[s [Hh Hf]] _ Hkeys _]. unfold advance_epoch.
  destruct (maximum_ratio _ _ _ _) as [mr mri], (maximum_units _ _ _ _) as [mu mui]. simpl in Hm.
  split; simpl.
  - exists s. split; [|done]. by destruct hist.
  - exists sample. split; [by rewrite last_snoc|done].
  - intros x [Hx| ->%list_elem_of_singleton]%elem_of_app; auto.
  - done.
Qed.

Lemma set_sequence_represents st seq hist :
  represents st hist -> represents (set_last_transition_sequence st seq) hist.
Proof. intros [H1 H2 H3 H4]. by split. Qed.

(** C1. The constant-size epoch state refines the full history of its samples:
    it knows the first and last observation, and its maximum used ratio is the
    largest ratio observed in the epoch, attributed to the earliest sample that
    reached it. A reset starts a fresh history, duplicates and late samples leave
    it unchanged, everything else appends. *)
Theorem evaluate_refines_history sha256 def cur prev sample seq ev hist :
  evaluate_sample sha256 def cur prev sample seq = Ok ev ->
  (forall c, cur = Some c -> represents c hist) ->
  forall st, from_option Some cur (evaluation_state ev) = Some st ->
  represents st (evaluation_history hist sample ev).
Proof.
  intros He Hc st Hst. pose proof (evaluate_sample_key _ _ _ _ _ _ _ He) as Hk.
  apply evaluate_sample_evaluates in He.
  destruct He as [|c Hsync|c p Hsync Hid Ht|c p sg Hsync Hn Hq Hr|c p ch Hsync Hn Hq Hr Ha
    |c p Hsync Hn Hr Ha]; simpl in Hst; injection Hst as <-; simpl; auto using start_represents.
  - apply start_represents.
  - destruct Hsync as [Hck _]. apply set_sequence_represents, advance_represents; [congruence|auto].
  - destruct Hsync as [Hck _]. apply advance_represents; [congruence|auto].
Qed.

(** Evaluation is idempotent: presenting the sample just accepted again, with
    the state it produced, is a duplicate whatever the outcome was, so a retried
    write changes nothing. *)
Theorem evaluate_again_is_duplicate sha256 def cur prev sample seq seq' ev st :
  evaluate_sample sha256 def cur prev sample seq = Ok ev -> evaluation_state ev = Some st ->
  evaluate_sample sha256 def (Some st) (Some sample) sample seq' = Ok Duplicate.
Proof.
  intros He Hst. pose proof (evaluate_sample_key _ _ _ _ _ _ _ He) as Hk.
  apply evaluate_sample_evaluates in He. apply evaluates_evaluate_sample; [done|].
  apply eval_duplicate. unfold in_sync.
  destruct He as [|c Hsync|c p Hsync Hid Ht|c p sg Hsync Hn Hq Hr|c p ch Hsync Hn Hq Hr Ha
    |c p Hsync Hn Hr Ha]; simpl in Hst; try discriminate Hst; injection Hst as <-;
    unfold advance_epoch; try destruct Hsync as (? & ? & _);
    try destruct (maximum_ratio _ _ _ _), (maximum_units _ _ _ _);
    simpl; split_and!; done || lia.
Qed.

(** A change of unit forgets usage: when a window's units change id, the
    sample that introduces the new unit leaves the maximum used units empty, so the
    amount it reports is not part of the epoch's maximum. *)
Theorem unit_change_drops_maximum def st sample u w :
  es_maximum_used_units st = Some u -> qs_units sample = Some w -> qu_used w <> None ->
  qu_unit_id u <> qu_unit_id w ->
  es_maximum_used_units (advance_epoch def st sample) = None /\
  es_maximum_used_units_observation_id (advance_epoch def st sample) = None.
Proof.
  intros Hu Hw Hused Hne. unfold advance_epoch.
  destruct (maximum_ratio _ _ _ _) as [mr mri]. unfold maximum_units. rewrite Hu, Hw. simpl.
  destruct (qu_used w) eqn:E; [|done]. simpl. by rewrite bool_decide_eq_false_2.
Qed.

(** ** Epoch identity *)

Definition QuotaWindowKey_ok (k : QuotaWindowKey) : Prop :=
  UsageProviderId_new (sc_provider_id (wk_scope k)) = Ok (sc_provider_id (wk_scope k)) /\
  QuotaAccountId_new (sc_account_id (wk_scope k)) = Ok (sc_account_id (wk_scope k)) /\
  QuotaWindowId_new (wk_window_id k) = Ok (wk_window_id k) /\
  str_ok (sc_provider_id (wk_scope k)) /\ str_ok (sc_account_id (wk_scope k)) /\
  str_ok (wk_window_id k) /\
  match sc_workspace_id (wk_scope k) with
  | Some w => QuotaWorkspaceId_new w = Ok w /\ str_ok w
  | None => True
  end.

Definition field_code (field : list Z) : list Z :=
  be_bytes 8 (Z.of_nat (length field)) ++ field.

Lemma update_field_app h field : update_field h field = h ++ field_code field.
Proof. unfold update_field, field_code. by rewrite app_assoc. Qed.

Lemma field_code_inj a b r1 r2 :
  Z.of_nat (length a) <= u64_max -> Z.of_nat (length b) <= u64_max ->
  field_code a ++ r1 = field_code b ++ r2 -> a = b /\ r1 = r2.
Proof.
  intros Ha Hb. unfold field_code. rewrite <- !app_assoc.
  apply length_prefixed_inj; unfold u64_max in *; lia.
Qed.

Lemma validate_quota_id_len value field max w :
  validate_quota_id value field max = Ok w -> str_len value <= max.
Proof.
  unfold validate_quota_id, valid_quota_id. intros H. split_in H; [done|]. to_prop. done.
Qed.

Lemma QuotaWindowKey_lengths k : QuotaWindowKey_ok k ->
  str_len (sc_provider_id (wk_scope k)) <= u64_max /\
  str_len (sc_account_id (wk_scope k)) <= u64_max /\
  str_len (wk_window_id k) <= u64_max /\
  (forall w, sc_workspace_id (wk_scope k) = Some w -> str_len w <= u64_max).
Proof.
  intros (H1 & H2 & H3 & _ & _ & _ & H4).
  apply validate_ascii_value_ok in H1 as (_ & _ & H1 & _).
  apply validate_quota_id_len in H2, H3.
  unfold MAX_PROVIDER_ID_BYTES, MAX_QUOTA_ID_BYTES, u64_max in *. split_and!; [lia..|].
  intros w Hw. rewrite Hw in H4. destruct H4 as [H4 _]. apply validate_quota_id_len in H4.
  unfold MAX_QUOTA_ID_BYTES in H4. lia.
Qed.

Lemma quota_scope_id_input_app scope :
  quota_scope_id_input scope =
  field_code SCOPE_DOMAIN ++ field_code (as_bytes (sc_provider_id scope)) ++
  field_code (as_bytes (sc_account_id scope)) ++
  field_code [if is_some (sc_workspace_id scope) then 1 else 0] ++
  match sc_workspace_id scope with Some w => field_code (as_bytes w) | None => [] end.
Proof.
  unfold quota_scope_id_input.
  destruct (sc_workspace_id scope); rewrite !update_field_app, <- !app_assoc, ?app_nil_r; done.
Qed.

Lemma quota_scope_id_input_inj k1 k2 :
  QuotaWindowKey_ok k1 -> QuotaWindowKey_ok k2 ->
  quota_scope_id_input (wk_scope k1) = quota_scope_id_input (wk_scope k2) ->
  wk_scope k1 = wk_scope k2.
Proof.
  intros H1 H2. destruct (QuotaWindowKey_lengths _ H1) as (L1 & L2 & _ & L3).
  destruct (QuotaWindowKey_lengths _ H2) as (M1 & M2 & _ & M3).
  destruct H1 as (_ & _ & _ & S1 & S2 & _ & S3), H2 as (_ & _ & _ & T1 & T2 & _ & T3).
  unfold str_len in *. rewrite !quota_scope_id_input_app.
  destruct (wk_scope k1) as [p1 a1 w1], (wk_scope k2) as [p2 a2 w2].
  cbn [sc_provider_id sc_account_id sc_workspace_id] in *. intros Hw%app_inv_head.
  apply field_code_inj in Hw as [Hp Hw]; [|done..]. apply as_bytes_inj in Hp; [|done..].
  apply field_code_inj in Hw as [Ha Hw]; [|done..]. apply as_bytes_inj in Ha; [|done..].
  apply field_code_inj in Hw as [Hpres Hw]; [|by vm_compute..].
  destruct w1 as [w1|], w2 as [w2|]; try discriminate Hpres; [|by subst].
  rewrite <- (app_nil_r (field_code (as_bytes w1))),
    <- (app_nil_r (field_code (as_bytes w2))) in Hw.
  apply field_code_inj in Hw as [Hww _]; [|eauto..].
  destruct S3, T3. apply as_bytes_inj in Hww; [by subst|done..].
Qed.

(** Epoch ids identify epochs: given 32-byte digests, two epochs of
    well-formed windows share an id only when window, definition revision and first
    observation agree, unless SHA-256 collides on the two messages hashed for the
    epochs or on those hashed for their scopes. *)
Theorem quota_epoch_id_identifies sha256 k1 k2 r1 r2 o1 o2 :
  (forall m, length (sha256 m) = 32%nat) ->
  QuotaWindowKey_ok k1 -> QuotaWindowKey_ok k2 -> in_u64 r1 -> in_u64 r2 ->
  length o1 = 32%nat -> length o2 = 32%nat ->
  quota_epoch_id sha256 k1 r1 o1 = quota_epoch_id sha256 k2 r2 o2 ->
  (k1 = k2 /\ r1 = r2 /\ o1 = o2) \/
  collision sha256 (quota_epoch_id_input sha256 k1 r1 o1) (quota_epoch_id_input sha256 k2 r2 o2) \/
  collision sha256 (quota_scope_id_input (wk_scope k1)) (quota_scope_id_input (wk_scope k2)).
Proof.
  intros Hsha H1 H2 Hr1 Hr2 Ho1 Ho2 E.
  destruct (decide (quota_epoch_id_input sha256 k1 r1 o1 = quota_epoch_id_input sha256 k2 r2 o2))
    as [Ei|]; [|by right; left].
  unfold quota_epoch_id_input in Ei. rewrite !update_field_app in Ei. rewrite <- !app_assoc in Ei.
  rewrite <- (app_nil_r (field_code o1)), <- (app_nil_r (field_code o2)) in Ei.
  apply app_inv_head, app_inv_head in Ei.
  destruct (QuotaWindowKey_lengths _ H1) as (_ & _ & L1 & _).
  destruct (QuotaWindowKey_lengths _ H2) as (_ & _ & L2 & _). unfold str_len in *.
  assert (Hbe : forall r, Z.of_nat (length (be_bytes 8 r)) <= u64_max)
    by (intros r; by rewrite be_bytes_length).
  unfold quota_scope_id in Ei.
  apply field_code_inj in Ei as [Es Ei]; [|by rewrite Hsha..].
  apply field_code_inj in Ei as [Ew Ei]; [|done..].
  apply field_code_inj in Ei as [Er Ei]; [|done..].
  apply field_code_inj in Ei as [Eo _]; [|by rewrite ?Ho1, ?Ho2..].
  apply be_bytes_inj in Er; [|unfold_ints; lia..].
  destruct (decide (quota_scope_id_input (wk_scope k1) = quota_scope_id_input (wk_scope k2)))
    as [Esc|]; [left|by right; right].
  apply quota_scope_id_input_inj in Esc; [|done..].
  destruct H1 as (_ & _ & _ & _ & _ & S1 & _), H2 as (_ & _ & _ & _ & _ & S2 & _).
  apply as_bytes_inj in Ew; [|done..].
  destruct k1, k2. simpl in *. by subst.
Qed.

(** ** Concrete instances *)

Definition key_example : QuotaWindowKey :=
  mkQuotaWindowKey (mkQuotaScope (lit "codex") (lit "account-1") None) (lit "primary").

Definition definition_example : QuotaWindowDefinition :=
  mkQuotaWindowDefinition key_example 1 (lit "quota.primary") DirUsed SemFixed (Some 18000)
    (Some (mkQuotaResetThresholds (Some 100000) None (Some 200000))).

Definition units_example (unit : string) (used capacity : Z) : QuotaUnits :=
  mkQuotaUnits (lit unit) (Some used) None (Some capacity).

Definition sample_example (id at_ms used : Z) (units : QuotaUnits) (resets : Z) : QuotaSample :=
  mkQuotaSample key_example (repeat id 32) at_ms at_ms at_ms None (Some used) None (Some units)
    (Some resets) QualAuthoritative SrcProviderOfficial ConfHigh EvNone None.

Definition sample_1 := sample_example 1 1000 700000 (units_example "tokens" 70 100) 5000.
Definition sample_2 := sample_example 2 2000 900000 (units_example "tokens" 90 120) 5000.
Definition sample_3 := sample_example 3 6000 10000 (units_example "tokens" 1 120) 9000.

Definition state_1 : QuotaEpochState := start_epoch toy_sha256 definition_example sample_1.

Lemma definition_example_ok : QuotaWindowDefinition_ok definition_example.
Proof. split; [reflexivity|unfold_ints; simpl; lia]. Qed.
Lemma sample_1_ok : QuotaSample_ok sample_1.
Proof. split; reflexivity. Qed.
Lemma sample_2_ok : QuotaSample_ok sample_2.
Proof. split; reflexivity. Qed.
Lemma sample_3_ok : QuotaSample_ok sample_3.
Proof. split; reflexivity. Qed.
Lemma state_1_ok : epoch_ok toy_sha256 state_1.
Proof. apply start_epoch_ok; [apply definition_example_ok|apply sample_1_ok|unfold_ints; lia]. Qed.

Lemma evaluate_state_restorable_witness :
  exists st t, evaluate_sample toy_sha256 definition_example (Some state_1) (Some sample_1) sample_2 1
    = Ok (AllowanceChanged st t) /\ epoch_ok toy_sha256 st.
Proof.
  eexists _, _. split; [vm_compute; reflexivity|].
  eapply (evaluate_state_restorable toy_sha256 definition_example (Some state_1) (Some sample_1)
            sample_2 1).
  - apply definition_example_ok.
  - apply sample_2_ok.
  - intros c [= <-]. apply state_1_ok.
  - vm_compute. reflexivity.
  - reflexivity.
Defined.

Lemma evaluate_transition_restorable_witness :
  exists st t, evaluate_sample toy_sha256 definition_example (Some state_1) (Some sample_1) sample_3 1
    = Ok (Reset st t) /\ tr_kind t = ScheduledReset /\ QuotaTransition_restore toy_sha256 t = Ok t.
Proof.
  eexists _, _. split_and!; [vm_compute; reflexivity|reflexivity|].
  eapply (evaluate_transition_restorable toy_sha256 definition_example state_1 sample_1 sample_3 1).
  - apply definition_example_ok.
  - apply sample_1_ok.
  - apply sample_3_ok.
  - apply state_1_ok.
  - vm_compute. reflexivity.
  - reflexivity.
  - intros st' [= <-] _. vm_compute. discriminate.
Defined.

Lemma reset_requires_evidence_witness : reset_justified definition_example sample_1 sample_3.
Proof.
  eapply (reset_requires_evidence toy_sha256 definition_example state_1 sample_1 sample_3 1).
  vm_compute. reflexivity.
Defined.

Lemma evaluate_refines_history_witness :
  exists st, represents st [sample_1; sample_2] /\ es_maximum_used_ratio st = Some 900000.
Proof.
  eexists. split.
  - apply (evaluate_refines_history toy_sha256 definition_example (Some state_1) (Some sample_1)
             sample_2 1 (AllowanceChanged
               (set_last_transition_sequence (advance_epoch definition_example state_1 sample_2) 1)
               (allowance_transition toy_sha256 definition_example state_1 sample_1 sample_2 1
                  (mkQuotaAllowanceChange Increased (units_example "tokens" 70 100)
                     (units_example "tokens" 90 120)))) [sample_1]).
    + vm_compute. reflexivity.
    + intros c [= <-]. apply start_represents.
    + reflexivity.
  - reflexivity.
Defined.

Lemma evaluate_again_is_duplicate_witness :
  evaluate_sample toy_sha256 definition_example (Some state_1) (Some sample_1) sample_1 1
  = Ok Duplicate.
Proof.
  apply (evaluate_again_is_duplicate toy_sha256 definition_example None None sample_1 0 1
           (Started state_1)); reflexivity.
Defined.

Lemma unit_change_drops_maximum_witness :
  es_maximum_used_units (advance_epoch definition_example state_1
    (sample_example 2 2000 900000 (units_example "credits" 90 120) 5000)) = None.
Proof.
  apply (unit_change_drops_maximum definition_example state_1
    (sample_example 2 2000 900000 (units_example "credits" 90 120) 5000)
    (units_example "tokens" 70 100) (units_example "credits" 90 120)); done.
Defined.

Lemma quota_epoch_id_identifies_witness :
  (key_example = key_example /\ 1 = 1 /\ repeat 1 32 = repeat 1 32) \/
  collision toy_sha256 (quota_epoch_id_input toy_sha256 key_example 1 (repeat 1 32))
    (quota_epoch_id_input toy_sha256 key_example 1 (repeat 1 32)) \/
  collision toy_sha256 (quota_scope_id_input (wk_scope key_example))
    (quota_scope_id_input (wk_scope key_example)).
Proof.
  assert (Hk : QuotaWindowKey_ok key_example).
  { unfold QuotaWindowKey_ok. split_and!; try reflexivity; try done;
      repeat constructor; unfold scalar; lia. }
  assert (Hr : in_u64 1) by (unfold_ints; lia).
  exact (quota_epoch_id_identifies toy_sha256 key_example key_example 1 1 (repeat 1 32)
           (repeat 1 32) toy_sha256_length Hk Hk Hr Hr eq_refl eq_refl eq_refl).
Defined.
