(* ===== verification/Coordinator.v ===== *)
(** * The refresh coordinator

    Models [crates/engine/src/coordinator.rs] with the time and error types of
    [crates/engine/src/time.rs] and [error.rs]: at most one refresh runs at a
    time, requests that arrive meanwhile are coalesced into one follow-up, and
    every request gets an identity of its own.

    An [Arc<AtomicBool>] is shared between the permit the caller keeps and the
    copy the coordinator keeps, so a token is the index of a cell in a heap
    threaded through the operations; dropping an [Arc] is not modelled, a cell
    stays allocated.  The last part gives the contract of the coordinator, a
    machine that remembers every waiting request, and shows that each
    operation implements it. *)

From stdpp Require Import sets.
From S2P Require Import Prelude.

(** ** [time.rs] and [error.rs] *)

Inductive EngineErrorCode := InvalidValue | CapacityExceeded | StaleRequest.

#[export] Instance EngineErrorCode_eq_dec : EqDecision EngineErrorCode.
Proof. solve_decision. Defined.

(** [MonotonicTime], [RefreshDeadline] and [RefreshRequestId] are [u64] newtypes. *)
Definition is_exceeded_at (deadline now : Z) : bool := deadline <=? now.

Definition RefreshRequestId_new (value : Z) : result Z EngineErrorCode :=
  fail_if value =? 0 with InvalidValue else Ok value.

(** ** Data *)

Inductive RefreshUrgency := Hint_ | Periodic | Interactive | Recovery.

#[export] Instance RefreshUrgency_eq_dec : EqDecision RefreshUrgency.
Proof. solve_decision. Defined.

(** The derived [Ord]: the order of declaration. *)
Definition urgency_rank (u : RefreshUrgency) : Z :=
  match u with Hint_ => 0 | Periodic => 1 | Interactive => 2 | Recovery => 3 end.

(** [Ord::max] returns its second argument when both are equal. *)
Definition urgency_max (a b : RefreshUrgency) : RefreshUrgency :=
  if urgency_rank b <? urgency_rank a then a else b.

Inductive RefreshOutcome := Completed | Busy | Cancelled | DeadlineExceeded | Failed.

#[export] Instance RefreshOutcome_eq_dec : EqDecision RefreshOutcome.
Proof. solve_decision. Defined.

(** The heap of [AtomicBool]s and a [CancellationToken] pointing into it *)
Abbreviation Heap := (list bool).
Abbreviation CancellationToken := nat.

Definition CancellationToken_new (h : Heap) : CancellationToken * Heap :=
  (length h, h ++ [false]).
Definition CancellationToken_cancel (t : CancellationToken) (h : Heap) : Heap :=
  <[t := true]> h.
Definition is_cancelled (t : CancellationToken) (h : Heap) : bool :=
  unwrap_or (h !! t) false.

Record RefreshPermit := {
  id : Z;
  urgency : RefreshUrgency;
  deadline : option Z;
  cancellation : CancellationToken
}.

Definition RefreshPermit_new (i : Z) (u : RefreshUrgency) (d : option Z) (h : Heap)
  : RefreshPermit * Heap :=
  let '(token, h) := CancellationToken_new h in
  ({| id := i; urgency := u; deadline := d; cancellation := token |}, h).

Definition permit_deadline_exceeded (p : RefreshPermit) (now : Z) : bool :=
  is_some_and (deadline p) (fun d => is_exceeded_at d now).

Inductive RefreshAdmission :=
| Started (permit : RefreshPermit)
| Coalesced (request_id active_request_id : Z)
| AdmissionDeadlineExceeded (request_id : Z).

Record RefreshResult := { request_id : Z; outcome : RefreshOutcome }.

Record FinishTransition := {
  completed : RefreshResult;
  follow_up : option RefreshPermit;
  pending_deadline_exceeded : bool;
  pending_capacity_exceeded : bool
}.

Record PendingRefresh := {
  pending_urgency : RefreshUrgency;
  pending_deadline : option Z
}.

Definition merge (p : PendingRefresh) (u : RefreshUrgency) (d : option Z) : PendingRefresh :=
  {| pending_urgency := urgency_max (pending_urgency p) u;
     pending_deadline :=
       match pending_deadline p, d with
       | None, _ | _, None => None
       | Some current, Some incoming => Some (Z.max current incoming)
       end |}.

Definition pending_exceeded (p : PendingRefresh) (now : Z) : bool :=
  is_some_and (pending_deadline p) (fun d => is_exceeded_at d now).

Record ActiveRefresh := {
  permit : RefreshPermit;
  pending : option PendingRefresh
}.

Record RefreshCoordinator := {
  next_request_id : option Z;
  active : option ActiveRefresh
}.

(** ** Operations *)

Definition RefreshCoordinator_new : RefreshCoordinator :=
  {| next_request_id := Some 1; active := None |}.

Definition allocate_request_id (c : RefreshCoordinator)
  : RefreshCoordinator * result Z EngineErrorCode :=
  match next_request_id c with
  | None => (c, Err CapacityExceeded)
  | Some value =>
      match RefreshRequestId_new value with
      | Err e => (c, Err e)
      | Ok i =>
          ({| next_request_id := checked_add u64_max value 1; active := active c |}, Ok i)
      end
  end.

Definition submit (u : RefreshUrgency) (d : option Z) (now : Z)
    (c : RefreshCoordinator) (h : Heap)
  : RefreshCoordinator * Heap * result RefreshAdmission EngineErrorCode :=
  match allocate_request_id c with
  | (c, Err e) => (c, h, Err e)
  | (c, Ok i) =>
      if is_some_and d (fun d => is_exceeded_at d now)
      then (c, h, Ok (AdmissionDeadlineExceeded i))
      else
        match active c with
        | Some a =>
            let pending' :=
              match pending a with
              | Some p => merge p u d
              | None => {| pending_urgency := u; pending_deadline := d |}
              end in
            ({| next_request_id := next_request_id c;
                active := Some {| permit := permit a; pending := Some pending' |} |},
             h, Ok (Coalesced i (id (permit a))))
        | None =>
            let '(p, h) := RefreshPermit_new i u d h in
            ({| next_request_id := next_request_id c;
                active := Some {| permit := p; pending := None |} |},
             h, Ok (Started p))
        end
  end.

Definition cancel (i : Z) (c : RefreshCoordinator) (h : Heap)
  : RefreshCoordinator * Heap * result unit EngineErrorCode :=
  match option_filter (active c) (fun a => id (permit a) =? i) with
  | None => (c, h, Err StaleRequest)
  | Some a => (c, CancellationToken_cancel (cancellation (permit a)) h, Ok tt)
  end.

(** The outcome recorded for the permit that finishes *)
Definition final_outcome (p : RefreshPermit) (o : RefreshOutcome) (now : Z) (h : Heap)
  : RefreshOutcome :=
  if is_cancelled (cancellation p) h then Cancelled
  else if bool_decide (o = Completed) && permit_deadline_exceeded p now
  then DeadlineExceeded
  else o.

Definition finish (i : Z) (o : RefreshOutcome) (now : Z)
    (c : RefreshCoordinator) (h : Heap)
  : RefreshCoordinator * Heap * result FinishTransition EngineErrorCode :=
  match active c with
  | None => (c, h, Err StaleRequest)
  | Some a =>
      let taken := {| next_request_id := next_request_id c; active := None |} in
      if negb (id (permit a) =? i)
      then ({| next_request_id := next_request_id taken; active := Some a |}, h,
            Err StaleRequest)
      else
        let result := {| request_id := i; outcome := final_outcome (permit a) o now h |} in
        let transition f dl cap :=
          {| completed := result; follow_up := f;
             pending_deadline_exceeded := dl; pending_capacity_exceeded := cap |} in
        match pending a with
        | None => (taken, h, Ok (transition None false false))
        | Some p =>
            if pending_exceeded p now
            then (taken, h, Ok (transition None true false))
            else
              match allocate_request_id taken with
              | (c, Ok follow_up_id) =>
                  let '(f, h) :=
                    RefreshPermit_new follow_up_id (pending_urgency p) (pending_deadline p) h in
                  ({| next_request_id := next_request_id c;
                      active := Some {| permit := f; pending := None |} |},
                   h, Ok (transition (Some f) false false))
              | (c, Err CapacityExceeded) => (c, h, Ok (transition None false true))
              | (c, Err e) => (c, h, Err e)
              end
        end
  end.

Definition active_request_id (c : RefreshCoordinator) : option Z :=
  match active c with Some a => Some (id (permit a)) | None => None end.

Definition pending_count (c : RefreshCoordinator) : Z :=
  if is_some_and (active c) (fun a => is_some (pending a)) then 1 else 0.

(** ** Runs: the operations a caller performs and the replies it sees *)

Inductive Command :=
| Submit (u : RefreshUrgency) (d : option Z) (now : Z)
| Cancel (i : Z)
| Finish (i : Z) (o : RefreshOutcome) (now : Z).

Inductive Reply :=
| SubmitReply (r : result RefreshAdmission EngineErrorCode)
| CancelReply (r : result unit EngineErrorCode)
| FinishReply (r : result FinishTransition EngineErrorCode).

Definition System := (RefreshCoordinator * Heap)%type.

Definition step (cmd : Command) (s : System) : System * Reply :=
  let '(c, h) := s in
  match cmd with
  | Submit u d now => let '(c, h, r) := submit u d now c h in (c, h, SubmitReply r)
  | Cancel i => let '(c, h, r) := cancel i c h in (c, h, CancelReply r)
  | Finish i o now => let '(c, h, r) := finish i o now c h in (c, h, FinishReply r)
  end.

Fixpoint run (cmds : list Command) (s : System) : System * list (Command * Reply) :=
  match cmds with
  | [] => (s, [])
  | cmd :: cmds =>
      let '(s, r) := step cmd s in
      let '(s, trace) := run cmds s in
      (s, (cmd, r) :: trace)
  end.

Definition initial : System := (RefreshCoordinator_new, []).

(** The identities and the permits a reply hands out *)
Definition reply_ids (r : Reply) : list Z :=
  match r with
  | SubmitReply (Ok (Started p)) => [id p]
  | SubmitReply (Ok (Coalesced i _)) | SubmitReply (Ok (AdmissionDeadlineExceeded i)) => [i]
  | FinishReply (Ok t) => match follow_up t with Some p => [id p] | None => [] end
  | _ => []
  end.

Definition reply_permits (r : Reply) : list RefreshPermit :=
  match r with
  | SubmitReply (Ok (Started p)) => [p]
  | FinishReply (Ok t) => match follow_up t with Some p => [p] | None => [] end
  | _ => []
  end.

Definition issued_ids (trace : list (Command * Reply)) : list Z :=
  mjoin (map (fun cr => reply_ids (cr.2)) trace).
Definition issued_permits (trace : list (Command * Reply)) : list RefreshPermit :=
  mjoin (map (fun cr => reply_permits (cr.2)) trace).

(** ** The contract: a machine that remembers every waiting request *)

Record Waiting := { w_urgency : RefreshUrgency; w_deadline : option Z }.

Record Running := {
  r_id : Z;
  r_urgency : RefreshUrgency;
  r_deadline : option Z;
  r_cancelled : bool;
  r_waiting : list Waiting
}.

(** [issued] identities have been handed out: [1 .. issued]. *)
Record Spec := { issued : Z; running : option Running }.

Definition expired (d : option Z) (now : Z) : Prop :=
  match d with Some t => t <= now | None => False end.

(** [covers ws u d]: urgency [u] and deadline [d] serve every request of [ws]:
    [u] is the greatest urgency among them, and [d] is the latest deadline,
    unlimited as soon as one of them is unlimited. *)
Definition covers (ws : list Waiting) (u : RefreshUrgency) (d : option Z) : Prop :=
  (exists w, w ∈ ws /\ w_urgency w = u) /\
  (forall w, w ∈ ws -> urgency_rank (w_urgency w) <= urgency_rank u) /\
  (exists w, w ∈ ws /\ w_deadline w = d) /\
  (forall w, w ∈ ws ->
     match d, w_deadline w with
     | None, _ => True
     | Some t, Some t' => t' <= t
     | Some _, None => False
     end).

Definition idle (n : Z) : Spec := {| issued := n; running := None |}.

(** The outcome the contract reports for a running request *)
Definition spec_outcome (r : Running) (o : RefreshOutcome) (now : Z) (o' : RefreshOutcome) : Prop :=
  (r_cancelled r = true /\ o' = Cancelled) \/
  (r_cancelled r = false /\ o = Completed /\ expired (r_deadline r) now /\ o' = DeadlineExceeded) \/
  (r_cancelled r = false /\ ~ (o = Completed /\ expired (r_deadline r) now) /\ o' = o).

Definition start (i : Z) (p : RefreshPermit) : Running :=
  {| r_id := i; r_urgency := urgency p; r_deadline := deadline p;
     r_cancelled := false; r_waiting := [] |}.

Definition enqueue (r : Running) (w : Waiting) : Running :=
  {| r_id := r_id r; r_urgency := r_urgency r; r_deadline := r_deadline r;
     r_cancelled := r_cancelled r; r_waiting := r_waiting r ++ [w] |}.

Definition cancelled_run (r : Running) : Running :=
  {| r_id := r_id r; r_urgency := r_urgency r; r_deadline := r_deadline r;
     r_cancelled := true; r_waiting := r_waiting r |}.

Definition plain (i : Z) (o : RefreshOutcome) : RefreshResult := {| request_id := i; outcome := o |}.

Inductive spec_step : Spec -> Command -> Reply -> Spec -> Prop :=
| spec_exhausted a u d now :
    issued a = u64_max ->
    spec_step a (Submit u d now) (SubmitReply (Err CapacityExceeded)) a
| spec_too_late a u d now :
    issued a < u64_max -> expired d now ->
    spec_step a (Submit u d now)
      (SubmitReply (Ok (AdmissionDeadlineExceeded (issued a + 1))))
      {| issued := issued a + 1; running := running a |}
| spec_coalesce a r u d now :
    issued a < u64_max -> ~ expired d now -> running a = Some r ->
    spec_step a (Submit u d now)
      (SubmitReply (Ok (Coalesced (issued a + 1) (r_id r))))
      {| issued := issued a + 1;
         running := Some (enqueue r {| w_urgency := u; w_deadline := d |}) |}
| spec_start a u d now p :
    issued a < u64_max -> ~ expired d now -> running a = None ->
    id p = issued a + 1 -> urgency p = u -> deadline p = d ->
    spec_step a (Submit u d now) (SubmitReply (Ok (Started p)))
      {| issued := issued a + 1; running := Some (start (issued a + 1) p) |}
| spec_cancel a r :
    running a = Some r ->
    spec_step a (Cancel (r_id r)) (CancelReply (Ok tt))
      {| issued := issued a; running := Some (cancelled_run r) |}
| spec_cancel_stale a i :
    (forall r, running a = Some r -> r_id r <> i) ->
    spec_step a (Cancel i) (CancelReply (Err StaleRequest)) a
| spec_finish_stale a i o now :
    (forall r, running a = Some r -> r_id r <> i) ->
    spec_step a (Finish i o now) (FinishReply (Err StaleRequest)) a
| spec_finish_alone a r o now o' :
    running a = Some r -> spec_outcome r o now o' -> r_waiting r = [] ->
    spec_step a (Finish (r_id r) o now)
      (FinishReply (Ok {| completed := plain (r_id r) o'; follow_up := None;
         pending_deadline_exceeded := false; pending_capacity_exceeded := false |}))
      (idle (issued a))
| spec_finish_late a r o now o' :
    running a = Some r -> spec_outcome r o now o' -> r_waiting r <> [] ->
    Forall (fun w => expired (w_deadline w) now) (r_waiting r) ->
    spec_step a (Finish (r_id r) o now)
      (FinishReply (Ok {| completed := plain (r_id r) o'; follow_up := None;
         pending_deadline_exceeded := true; pending_capacity_exceeded := false |}))
      (idle (issued a))
| spec_finish_exhausted a r o now o' :
    running a = Some r -> spec_outcome r o now o' ->
    ~ Forall (fun w => expired (w_deadline w) now) (r_waiting r) ->
    issued a = u64_max ->
    spec_step a (Finish (r_id r) o now)
      (FinishReply (Ok {| completed := plain (r_id r) o'; follow_up := None;
         pending_deadline_exceeded := false; pending_capacity_exceeded := true |}))
      (idle (issued a))
| spec_finish_follow_up a r o now o' p :
    running a = Some r -> spec_outcome r o now o' ->
    ~ Forall (fun w => expired (w_deadline w) now) (r_waiting r) ->
    issued a < u64_max ->
    id p = issued a + 1 -> covers (r_waiting r) (urgency p) (deadline p) ->
    spec_step a (Finish (r_id r) o now)
      (FinishReply (Ok {| completed := plain (r_id r) o'; follow_up := Some p;
         pending_deadline_exceeded := false; pending_capacity_exceeded := false |}))
      {| issued := issued a + 1; running := Some (start (issued a + 1) p) |}.

Inductive spec_run : Spec -> list (Command * Reply) -> Spec -> Prop :=
| spec_run_nil a : spec_run a [] a
| spec_run_cons a cmd r b trace c :
    spec_step a cmd r b -> spec_run b trace c -> spec_run a ((cmd, r) :: trace) c.

(** ** The simulation relation *)

Definition pending_matches (p : option PendingRefresh) (ws : list Waiting) : Prop :=
  match p with
  | None => ws = []
  | Some p => ws <> [] /\ covers ws (pending_urgency p) (pending_deadline p)
  end.

Definition active_matches (h : Heap) (a : ActiveRefresh) (r : Running) : Prop :=
  id (permit a) = r_id r /\ urgency (permit a) = r_urgency r /\
  deadline (permit a) = r_deadline r /\
  h !! cancellation (permit a) = Some (r_cancelled r) /\
  pending_matches (pending a) (r_waiting r).

Definition implements (s : System) (a : Spec) : Prop :=
  0 <= issued a <= u64_max /\
  next_request_id (fst s) = checked_add u64_max (issued a) 1 /\
  match active (fst s), running a with
  | None, None => True
  | Some x, Some r => active_matches (snd s) x r
  | _, _ => False
  end.

(** ** Lemmas *)

Lemma is_exceeded_expired d now :
  is_some_and d (fun d => is_exceeded_at d now) = true <-> expired d now.
Proof. destruct d; simpl; [apply Z.leb_le|done]. Qed.

Lemma not_exceeded_expired d now :
  is_some_and d (fun d => is_exceeded_at d now) = false <-> ~ expired d now.
Proof. rewrite <- is_exceeded_expired. symmetry. apply not_true_iff_false. Qed.

Lemma urgency_max_spec a b :
  (urgency_max a b = a \/ urgency_max a b = b) /\
  urgency_rank a <= urgency_rank (urgency_max a b) /\
  urgency_rank b <= urgency_rank (urgency_max a b).
Proof. destruct a, b; cbv; intuition congruence. Qed.

Lemma covers_single u d : covers [{| w_urgency := u; w_deadline := d |}] u d.
Proof.
  repeat split.
  - eexists; split; [apply list_elem_of_singleton; reflexivity|done].
  - intros w ->%list_elem_of_singleton. simpl. lia.
  - eexists; split; [apply list_elem_of_singleton; reflexivity|done].
  - intros w ->%list_elem_of_singleton. simpl. destruct d; [lia|done].
Qed.

Lemma covers_merge ws p u d :
  covers ws (pending_urgency p) (pending_deadline p) ->
  let q := merge p u d in
  covers (ws ++ [{| w_urgency := u; w_deadline := d |}])
    (pending_urgency q) (pending_deadline q).
Proof.
  intros ((w1 & Hw1 & E1) & Hu & (w2 & Hw2 & E2) & Hd); simpl.
  destruct (urgency_max_spec (pending_urgency p) u) as (Hm & Hl & Hr).
  repeat split.
  - destruct Hm as [->| ->].
    + exists w1. split; [set_solver|done].
    + eexists. split; [apply elem_of_app; right; apply list_elem_of_singleton; reflexivity|done].
  - intros w [Hw| ->%list_elem_of_singleton]%elem_of_app; [specialize (Hu _ Hw); lia|done].
  - destruct (pending_deadline p) as [t|]; [destruct d as [t'|]|].
    + destruct (Z.max_spec t t') as [[_ ->]|[_ ->]].
      * eexists. split; [apply elem_of_app; right; apply list_elem_of_singleton; reflexivity|done].
      * exists w2. split; [set_solver|done].
    + eexists. split; [apply elem_of_app; right; apply list_elem_of_singleton; reflexivity|done].
    + exists w2. split; [set_solver|done].
  - intros w [Hw| ->%list_elem_of_singleton]%elem_of_app.
    + specialize (Hd _ Hw). destruct (pending_deadline p), d, (w_deadline w); auto; lia.
    + simpl. destruct (pending_deadline p), d; auto; lia.
Qed.

(** The merged deadline has passed exactly when every waiting one has. *)
Lemma covers_expired ws u d now :
  covers ws u d -> (expired d now <-> Forall (fun w => expired (w_deadline w) now) ws).
Proof.
  intros (_ & _ & (w & Hw & E) & Hd). rewrite Forall_forall. split.
  - intros He w' Hw'. specialize (Hd _ Hw').
    destruct d, (w_deadline w'); simpl in *; try done. lia.
  - intros H. rewrite <- E. auto.
Qed.

Lemma allocate_cases c n :
  0 <= n <= u64_max -> next_request_id c = checked_add u64_max n 1 ->
  (n = u64_max /\ allocate_request_id c = (c, Err CapacityExceeded)) \/
  (n < u64_max /\
   allocate_request_id c =
     ({| next_request_id := checked_add u64_max (n + 1) 1; active := active c |}, Ok (n + 1))).
Proof.
  intros Hn E. unfold checked_add in E. unfold allocate_request_id. rewrite E.
  destruct (n + 1 <=? u64_max) eqn:L; to_prop; [right|left; split; [lia|done]].
  split; [lia|]. unfold RefreshRequestId_new.
  destruct (n + 1 =? 0) eqn:Z0; to_prop; [lia|done].
Qed.

Lemma final_outcome_spec h a r o now :
  active_matches h a r -> spec_outcome r o now (final_outcome (permit a) o now h).
Proof.
  intros (_ & _ & Ed & Ec & _). unfold final_outcome, is_cancelled, spec_outcome, permit_deadline_exceeded.
  rewrite Ec, Ed. simpl. destruct (r_cancelled r); [by left|right].
  destruct (is_some_and (r_deadline r) _) eqn:E; rewrite ?andb_true_r, ?andb_false_r.
  - apply is_exceeded_expired in E. case_bool_decide; [by left|right; naive_solver].
  - apply not_exceeded_expired in E. right. naive_solver.
Qed.

Lemma new_token_matches i u d h n :
  active_matches (h ++ [false])
    {| permit := {| id := i; urgency := u; deadline := d; cancellation := length h |};
       pending := None |}
    (start i {| id := n; urgency := u; deadline := d; cancellation := length h |}).
Proof. repeat split. simpl. by apply list_lookup_middle. Qed.

Lemma pending_matches_submit p ws u d :
  pending_matches p ws ->
  pending_matches
    (Some match p with Some p => merge p u d
                  | None => {| pending_urgency := u; pending_deadline := d |} end)
    (ws ++ [{| w_urgency := u; w_deadline := d |}]).
Proof.
  destruct p as [p|]; simpl.
  - intros (_ & Hc). split; [by destruct ws|]. by apply covers_merge.
  - intros ->. split; [done|]. apply covers_single.
Qed.

Lemma submit_implements u d now c h a :
  implements (c, h) a ->
  let '(c', h', r) := submit u d now c h in
  exists a', spec_step a (Submit u d now) (SubmitReply r) a' /\ implements (c', h') a'.
Proof.
  intros (Hn & En & Ha). simpl in *. unfold submit.
  destruct (allocate_cases c (issued a) Hn En) as [[Hi ->]|[Hi ->]].
  { exists a. split; [by apply spec_exhausted|done]. }
  destruct (is_some_and d _) eqn:Ed; [apply is_exceeded_expired in Ed|apply not_exceeded_expired in Ed].
  { eexists. split; [by apply spec_too_late|]. repeat split; simpl; auto; lia. }
  simpl. destruct (active c) as [x|], (running a) as [r|] eqn:Er; try done.
  - destruct Ha as (Hid & Hur & Hde & Hca & Hpe). rewrite Hid.
    eexists. split; [by eapply spec_coalesce|].
    split; [simpl; lia|]. split; [done|]. simpl.
    unfold active_matches; simpl. do 4 (split; [done|]). by apply (pending_matches_submit (pending x)).
  - eexists. split; [by eapply spec_start|].
    split; [simpl; lia|]. split; [done|]. simpl. apply new_token_matches.
Qed.

Lemma cancel_implements i c h a :
  implements (c, h) a ->
  let '(c', h', r) := cancel i c h in
  exists a', spec_step a (Cancel i) (CancelReply r) a' /\ implements (c', h') a'.
Proof.
  intros (Hn & En & Ha). simpl in *. unfold cancel.
  destruct (active c) as [x|] eqn:Ec, (running a) as [r|] eqn:Er; try done; simpl.
  - destruct Ha as (Hid & Hur & Hde & Hca & Hpe).
    destruct (id (permit x) =? i) eqn:E; to_prop.
    + rewrite <- E, Hid. eexists. split; [by apply spec_cancel|].
      split; [done|]. split; [done|]. simpl. rewrite Ec. repeat split; auto.
      simpl. apply list_lookup_insert_eq. by eapply lookup_lt_Some.
    + exists a. split; [constructor; naive_solver|].
      repeat split; try done; [lia|lia|]. simpl. rewrite Ec, Er. by repeat split.
  - exists a. split; [constructor; naive_solver|].
    repeat split; try done; [lia|lia|]. simpl. by rewrite Ec, Er.
Qed.

Lemma finish_implements i o now c h a :
  implements (c, h) a ->
  let '(c', h', r) := finish i o now c h in
  exists a', spec_step a (Finish i o now) (FinishReply r) a' /\ implements (c', h') a'.
Proof.
  intros (Hn & En & Ha). simpl in *. unfold finish.
  destruct (active c) as [x|] eqn:Ec, (running a) as [r|] eqn:Er; try done; simpl.
  2: { exists a. split; [constructor; naive_solver|].
       repeat split; try done; [lia|lia|]. simpl. by rewrite Ec, Er. }
  pose proof (final_outcome_spec h x r o now Ha) as Ho.
  pose proof Ha as (Hid & _ & _ & _ & Hpe).
  destruct (id (permit x) =? i) eqn:E; to_prop; simpl.
  2: { exists a. split; [constructor; naive_solver|]. split; [done|]. split; [done|].
       simpl. by rewrite Er. }
  rewrite <- E, Hid.
  destruct (pending x) as [p|] eqn:Ep; simpl in Hpe.
  2: { eexists. split; [by eapply spec_finish_alone|]. by split. }
  destruct Hpe as [Hne Hco].
  destruct (pending_exceeded p now) eqn:Ex;
    [apply is_exceeded_expired in Ex|apply not_exceeded_expired in Ex];
    rewrite (covers_expired _ _ _ _ Hco) in Ex.
  { eexists. split; [by eapply spec_finish_late|]. by split. }
  destruct (allocate_cases {| next_request_id := next_request_id c; active := None |} _ Hn En)
    as [[Hi ->]|[Hi ->]]; simpl.
  { eexists. split; [by eapply spec_finish_exhausted|]. by split. }
  eexists. split; [by eapply spec_finish_follow_up|].
  split; [simpl; lia|]. split; [done|]. simpl. apply new_token_matches.
Qed.

Lemma step_implements cmd s a s' r :
  implements s a -> step cmd s = (s', r) ->
  exists a', spec_step a cmd r a' /\ implements s' a'.
Proof.
  intros H E. destruct s as [c h]. destruct cmd as [u d now|i|i o now]; simpl in E.
  - pose proof (submit_implements u d now c h a H). destruct (submit _ _ _ _ _) as [[] ?]. naive_solver.
  - pose proof (cancel_implements i c h a H). destruct (cancel _ _ _) as [[] ?]. naive_solver.
  - pose proof (finish_implements i o now c h a H). destruct (finish _ _ _ _ _) as [[] ?]. naive_solver.
Qed.

Lemma run_implements cmds s a s' trace :
  implements s a -> run cmds s = (s', trace) ->
  exists a', spec_run a trace a' /\ implements s' a'.
Proof.
  revert s a trace. induction cmds as [|cmd cmds IH]; intros s a trace H E; simpl in E.
  { simplify_eq. exists a. split; [constructor|done]. }
  destruct (step cmd s) as [s1 r] eqn:Es, (run cmds s1) as [s2 tr] eqn:Er. simplify_eq.
  destruct (step_implements _ _ _ _ _ H Es) as (a1 & Hs & H1).
  destruct (IH _ _ _ H1 Er) as (a2 & Hr & H2).
  exists a2. split; [by econstructor|done].
Qed.

Lemma initial_implements : implements initial (idle 0).
Proof. repeat split; simpl; unfold u64_max; lia. Qed.

(** Identities over a run of the contract *)
Lemma issued_ids_cons cmd r trace :
  issued_ids ((cmd, r) :: trace) = reply_ids r ++ issued_ids trace.
Proof. done. Qed.

Lemma spec_step_ids a cmd r b :
  spec_step a cmd r b ->
  reply_ids r = seqZ (issued a + 1) (issued b - issued a) /\ issued a <= issued b.
Proof.
  destruct 1; simpl; rewrite ?Z.sub_diag, ?Z.add_simpl_l;
    repeat match goal with H : id _ = _ |- _ => rewrite H end; split; auto; lia.
Qed.

Lemma spec_run_ids a trace b :
  spec_run a trace b ->
  issued_ids trace = seqZ (issued a + 1) (issued b - issued a) /\ issued a <= issued b.
Proof.
  induction 1 as [a|a cmd r b trace c Hs Hr [IH Hle]].
  - rewrite Z.sub_diag. split; [done|lia].
  - apply spec_step_ids in Hs as [E H]. rewrite issued_ids_cons, E, IH. split; [|lia].
    replace (issued c - issued a) with ((issued b - issued a) + (issued c - issued b)) by lia.
    rewrite seqZ_app by lia. do 2 f_equal. lia.
Qed.

(** *** Tokens over a run *)

Definition cancel_accepted (i : Z) (trace : list (Command * Reply)) : Prop :=
  (Cancel i, CancelReply (Ok tt)) ∈ trace.

(** What a run has established: the [k]-th permit handed out owns cell [k], the
    cell is set exactly when a cancellation of that permit was accepted. *)
Record tokens_ok (trace : list (Command * Reply)) (s : System) (n : Z) : Prop := {
  tokens_length : length (snd s) = length (issued_permits trace);
  tokens_cell : forall k p, issued_permits trace !! k = Some p ->
    cancellation p = k /\ id p <= n /\
    (snd s !! k = Some true <-> cancel_accepted (id p) trace);
  tokens_inj : forall k l p q, issued_permits trace !! k = Some p ->
    issued_permits trace !! l = Some q -> id p = id q -> k = l;
  tokens_active : forall a, active (fst s) = Some a ->
    exists k, issued_permits trace !! k = Some (permit a);
  tokens_cancelled : forall i, cancel_accepted i trace -> i <= n
}.

Lemma issued_permits_snoc trace cmd r :
  issued_permits (trace ++ [(cmd, r)]) = issued_permits trace ++ reply_permits r.
Proof.
  induction trace as [|x trace IH]; simpl.
  - unfold issued_permits. simpl. by rewrite app_nil_r.
  - unfold issued_permits in *. simpl. rewrite IH. by rewrite app_assoc.
Qed.

Lemma cancel_accepted_snoc i trace cmd r :
  cancel_accepted i (trace ++ [(cmd, r)]) <->
  cancel_accepted i trace \/ (cmd = Cancel i /\ r = CancelReply (Ok tt)).
Proof.
  unfold cancel_accepted. rewrite elem_of_app, list_elem_of_singleton. naive_solver.
Qed.

Lemma allocate_active c c' r : allocate_request_id c = (c', r) -> active c' = active c.
Proof.
  unfold allocate_request_id. intros E. repeat (split_in E; simplify_eq/=); done.
Qed.

Ltac same_permit :=
  left; split_and!; [done|done|done|]; intros ? ?; simplify_eq/=;
  first
    [ congruence
    | eexists; split;
      [first [eassumption | by etrans; [symmetry; eassumption|eassumption]]|done] ].
Ltac new_permit := right; left; eexists; split_and!; [done..|by eexists].

(** How one step acts on the heap and on the permit that runs *)
Lemma step_cases cmd s s' r :
  step cmd s = (s', r) ->
  (reply_permits r = [] /\ snd s' = snd s /\ r <> CancelReply (Ok tt) /\
   forall a', active (fst s') = Some a' ->
     exists a, active (fst s) = Some a /\ permit a' = permit a) \/
  (exists p, reply_permits r = [p] /\ reply_ids r = [id p] /\ r <> CancelReply (Ok tt) /\
   snd s' = snd s ++ [false] /\ cancellation p = length (snd s) /\
   exists a', active (fst s') = Some a' /\ permit a' = p) \/
  (exists a, active (fst s) = Some a /\ cmd = Cancel (id (permit a)) /\
   r = CancelReply (Ok tt) /\ fst s' = fst s /\
   snd s' = <[cancellation (permit a) := true]> (snd s)).
Proof.
  destruct s as [c h], cmd as [u d now|i|i o now]; simpl.
  - destruct (submit u d now c h) as [[c' h'] r'] eqn:E. intros [= <- <-].
    unfold submit in E.
    repeat (split_in E; simplify_eq/=);
      repeat match goal with H : allocate_request_id _ = _ |- _ => apply allocate_active in H end;
      simpl in *;
      first [same_permit|new_permit].
  - unfold cancel. destruct (option_filter _ _) as [a|] eqn:E; intros; simplify_eq; simpl.
    + apply option_filter_Some in E as [E Hi]. to_prop. right; right. exists a. by subst.
    + same_permit.
  - destruct (finish i o now c h) as [[c' h'] r'] eqn:E. intros [= <- <-].
    unfold finish in E.
    repeat (split_in E; simplify_eq/=);
      repeat match goal with H : allocate_request_id _ = _ |- _ => apply allocate_active in H end;
      simpl in *;
      first [same_permit|new_permit].
Qed.

Lemma issued_grows_step cmd s a s' r :
  implements s a -> step cmd s = (s', r) ->
  exists a', implements s' a' /\ issued a <= issued a' /\
    Forall (fun i => issued a < i <= issued a') (reply_ids r).
Proof.
  intros H E. destruct (step_implements _ _ _ _ _ H E) as (a' & Hs & H').
  apply spec_step_ids in Hs as [Ei Hl]. exists a'. do 2 (split; [done|]).
  rewrite Ei. apply Forall_forall. intros i [? ?]%elem_of_seqZ. lia.
Qed.

Lemma tokens_same trace cmd s n s' r n' :
  tokens_ok trace s n -> n <= n' ->
  reply_permits r = [] -> snd s' = snd s -> r <> CancelReply (Ok tt) ->
  (forall a', active (fst s') = Some a' ->
     exists a, active (fst s) = Some a /\ permit a' = permit a) ->
  tokens_ok (trace ++ [(cmd, r)]) s' n'.
Proof.
  intros [Hlen Hcell Hinj Hact Hcan] Hn Ep Eh Hr Ha.
  constructor; rewrite ?issued_permits_snoc, ?Ep, ?app_nil_r; auto; try congruence.
  - intros k p Hk. rewrite cancel_accepted_snoc, ?Eh.
    destruct (Hcell k p Hk) as (? & ? & ?). repeat split; auto; [lia|naive_solver..].
  - intros a' (a & Ha' & ->)%Ha. eauto.
  - intros i. rewrite cancel_accepted_snoc. intros [Hi%Hcan|[_ ?]]; [lia|done].
Qed.

Lemma tokens_issue trace cmd s n s' r n' p a' :
  tokens_ok trace s n -> n <= n' -> Forall (fun i => n < i <= n') (reply_ids r) ->
  reply_permits r = [p] -> reply_ids r = [id p] -> r <> CancelReply (Ok tt) ->
  snd s' = snd s ++ [false] -> cancellation p = length (snd s) ->
  active (fst s') = Some a' -> permit a' = p ->
  tokens_ok (trace ++ [(cmd, r)]) s' n'.
Proof.
  intros [Hlen Hcell Hinj Hact Hcan] Hn Hids Ep Ei Hr Eh Hp Ea Hpa.
  rewrite Ei in Hids. rewrite Forall_singleton in Hids. simpl in Hids.
  constructor; rewrite ?issued_permits_snoc, ?Ep, ?Eh.
  - rewrite !length_app. simpl. lia.
  - intros k q [Hk|[Hge Hk]]%lookup_app_Some; rewrite cancel_accepted_snoc, ?Eh.
    + destruct (Hcell k q Hk) as (? & ? & Hiff). split; [done|]. split; [lia|].
      rewrite lookup_app_l by (rewrite Hlen; by eapply lookup_lt_Some). naive_solver.
    + apply list_lookup_singleton_Some in Hk as [Hk <-].
      assert (k = length (snd s)) as -> by lia. split; [done|]. split; [lia|].
      rewrite list_lookup_middle by done. split; [done|].
      intros [Hc%Hcan|[_ ?]]; [lia|done].
  - intros k l q q' [Hk|[Hgk Hk]]%lookup_app_Some [Hl|[Hgl Hl]]%lookup_app_Some E; eauto;
      rewrite ?list_lookup_singleton_Some in *; destruct_and?; subst.
    + apply Hcell in Hk. lia.
    + apply Hcell in Hl. lia.
    + lia.
  - intros a. rewrite Ea. intros [= <-]. exists (length (issued_permits trace)).
    by rewrite Hpa, list_lookup_middle.
  - intros i. rewrite cancel_accepted_snoc. intros [Hi%Hcan|[_ ?]]; [lia|done].
Qed.

Lemma tokens_cancel trace s n s' n' a :
  tokens_ok trace s n -> n <= n' ->
  active (fst s) = Some a -> fst s' = fst s ->
  snd s' = <[cancellation (permit a) := true]> (snd s) ->
  tokens_ok (trace ++ [(Cancel (id (permit a)), CancelReply (Ok tt))]) s' n'.
Proof.
  intros [Hlen Hcell Hinj Hact Hcan] Hn Ea Ec Eh.
  destruct (Hact _ Ea) as (k & Hk). destruct (Hcell _ _ Hk) as (Hck & Hle & _).
  constructor; rewrite ?issued_permits_snoc, ?app_nil_r, ?Eh, ?Ec, ?Hck; simpl; rewrite ?app_nil_r.
  - by rewrite length_insert.
  - intros l q Hl. rewrite cancel_accepted_snoc, ?Eh, ?Hck.
    destruct (Hcell _ _ Hl) as (? & ? & Hiff). split; [done|]. split; [lia|].
    destruct (decide (k = l)) as [->|Hne].
    + simplify_eq. rewrite list_lookup_insert_eq by (rewrite Hlen; by eapply lookup_lt_Some).
      naive_solver.
    + rewrite list_lookup_insert_ne by done. rewrite Hiff. split; [by left|].
      intros [?|[[= Ei] _]]; [done|]. by destruct Hne; eauto.
  - eauto.
  - eauto.
  - intros i. rewrite cancel_accepted_snoc. intros [Hi%Hcan|[[= <-] _]]; lia.
Qed.

Lemma tokens_step trace cmd s n s' r n' :
  tokens_ok trace s n -> step cmd s = (s', r) -> n <= n' ->
  Forall (fun i => n < i <= n') (reply_ids r) ->
  tokens_ok (trace ++ [(cmd, r)]) s' n'.
Proof.
  intros Ht Hs Hn Hids.
  destruct (step_cases _ _ _ _ Hs)
    as [(Ep & Eh & Hr & Ha)|[(p & Ep & Ei & Hr & Eh & Hp & a' & Ea & Hpa)|(a & Ea & -> & -> & Ec & Eh)]].
  - by eapply tokens_same.
  - by eapply tokens_issue.
  - by eapply tokens_cancel.
Qed.

Lemma tokens_run cmds trace s a s' tr :
  tokens_ok trace s (issued a) -> implements s a -> run cmds s = (s', tr) ->
  exists a', tokens_ok (trace ++ tr) s' (issued a') /\ implements s' a'.
Proof.
  revert trace s a tr. induction cmds as [|cmd cmds IH]; intros trace s a tr Ht Hi E; simpl in E.
  { simplify_eq. exists a. by rewrite app_nil_r. }
  destruct (step cmd s) as [s1 r] eqn:Es, (run cmds s1) as [s2 tr'] eqn:Er. simplify_eq.
  destruct (issued_grows_step _ _ _ _ _ Hi Es) as (a1 & H1 & Hle & Hids).
  pose proof (tokens_step _ _ _ _ _ _ _ Ht Es Hle Hids) as Ht1.
  destruct (IH _ _ _ _ Ht1 H1 Er) as (a2 & Ht2 & H2).
  exists a2. by rewrite <- app_assoc in Ht2.
Qed.

Lemma tokens_initial : tokens_ok [] initial 0.
Proof. constructor; simpl; try done. intros i H. by apply not_elem_of_nil in H. Qed.

(** ** The properties *)

(** C2. Whatever sequence of submissions, cancellations and completions a
    caller performs on a new coordinator, each reply and each new state is one
    the contract allows: one refresh at a time, a submission that arrives
    meanwhile waits, and when the running one finishes every waiting request
    is either served by one follow-up of the greatest waiting urgency and the
    latest waiting deadline, or is reported as expired (only if all of them
    are) or as unserved because all [u64] identities are used. *)
Theorem coordinator_implements_contract (cmds : list Command) :
  let '(s, trace) := run cmds initial in
  exists a, spec_run (idle 0) trace a /\ implements s a.
Proof.
  destruct (run cmds initial) as [s trace] eqn:E.
  exact (run_implements cmds _ _ _ _ initial_implements E).
Qed.

(** C34. Over any run the identities handed out, follow-ups included, are
    exactly [1, 2, ..., n] in this order with [n <= u64::MAX]: an identity
    never repeats and never wraps around. *)
Theorem request_ids_never_repeat (cmds : list Command) :
  exists n, 0 <= n <= u64_max /\ issued_ids (run cmds initial).2 = seqZ 1 n.
Proof.
  destruct (run cmds initial) as [s trace] eqn:E.
  destruct (run_implements cmds _ _ _ _ initial_implements E) as (a & Hr & Hi).
  destruct (spec_run_ids _ _ _ Hr) as [Ei _]. destruct Hi as [Hn _].
  exists (issued a). split; [done|]. simpl in *. rewrite Ei. f_equal; lia.
Qed.

(** C35. Over any run every permit handed out has a cancellation token of its
    own, and the token reads as cancelled at the end exactly when a
    cancellation of that permit's identity was accepted: cancelling one
    request never disturbs another, past or future. *)
Theorem cancellation_is_isolated (cmds : list Command) c h trace k l p q :
  run cmds initial = ((c, h), trace) ->
  issued_permits trace !! k = Some p -> issued_permits trace !! l = Some q ->
  (cancellation p = cancellation q -> k = l) /\
  (is_cancelled (cancellation p) h = true <->
   (Cancel (id p), CancelReply (Ok tt)) ∈ trace).
Proof.
  intros E Hk Hl.
  destruct (tokens_run _ [] _ (idle 0) _ _ tokens_initial initial_implements E)
    as (a & [Hlen Hcell Hinj _ _] & _).
  simpl in *. destruct (Hcell _ _ Hk) as (Ek & _ & Hiff).
  destruct (Hcell _ _ Hl) as (El & _ & _). split; [congruence|].
  unfold cancel_accepted in Hiff. rewrite <- Hiff, Ek. unfold is_cancelled.
  destruct (h !! k) as [[]|] eqn:Eh; simpl; naive_solver.
Qed.

(** A run with a coalesced request, an accepted cancellation and a follow-up *)
Definition sample_run : list Command :=
  [Submit Hint_ (Some 50) 0; Submit Recovery None 10; Cancel 1; Finish 1 Completed 20].

Lemma cancellation_is_isolated_witness :
  exists c h trace p, run sample_run initial = ((c, h), trace) /\
    issued_permits trace !! 0%nat = Some p /\ is_cancelled (cancellation p) h = true.
Proof.
  do 4 eexists. split; [vm_compute; reflexivity|]. split; [reflexivity|].
  apply (cancellation_is_isolated sample_run _ _ _ 0 0 _ _ eq_refl eq_refl eq_refl).
  vm_compute. right. right. left.
Defined.
