(* ===== verification/Hints.v ===== *)
(** * Refresh hints

    Models [crates/runtime/src/hints.rs] and the language both halves of the refresh
    scheduler are written in here.  The scheduler thread, the hint sinks and the
    callers of [pause], [resume] and [shutdown] share atomics, a wake channel of
    capacity one and the scheduler's thread handle.  A thread is a program: a tree of
    shared-memory operations ([op]) with their continuations; [exec] is the effect of
    one operation.  Threads interleave operation by operation. *)

From S2P Require Import Prelude Coordinator.

Open Scope Z_scope.

Definition FLAG_DIRTY : Z := Z.shiftl 1 0.
Definition FLAG_FORCE : Z := Z.shiftl 1 1.
Definition FLAG_URGENCY_HINT : Z := Z.shiftl 1 2.
Definition FLAG_URGENCY_PERIODIC : Z := Z.shiftl 1 3.
Definition FLAG_URGENCY_INTERACTIVE : Z := Z.shiftl 1 4.
Definition FLAG_URGENCY_RECOVERY : Z := Z.shiftl 1 5.
Definition FLAG_WATCHER_OVERFLOW : Z := Z.shiftl 1 6.
Definition FLAG_CLOCK_DISCONTINUITY : Z := Z.shiftl 1 7.
Definition INITIAL_FLAGS : Z := Z.lor (Z.lor FLAG_DIRTY FLAG_FORCE) FLAG_URGENCY_RECOVERY.

Definition PHASE_RUNNING : Z := 0.
Definition PHASE_PAUSED : Z := 1.
Definition PHASE_STOPPING : Z := 2.
Definition PHASE_STOPPED : Z := 3.
Definition PHASE_FAULTED : Z := 4.

Definition WATCHER_HEALTHY : Z := 0.
Definition WATCHER_DEGRADED : Z := 1.

Inductive SchedulerPhase := PhaseRunning | PhasePaused | PhaseStopping | PhaseStopped | PhaseFaulted.
#[export] Instance SchedulerPhase_eq_dec : EqDecision SchedulerPhase.
Proof. solve_decision. Defined.

Inductive WatcherHealth := Healthy | Degraded.

Definition encode_phase (phase : SchedulerPhase) : Z :=
  match phase with
  | PhaseRunning => PHASE_RUNNING
  | PhasePaused => PHASE_PAUSED
  | PhaseStopping => PHASE_STOPPING
  | PhaseStopped => PHASE_STOPPED
  | PhaseFaulted => PHASE_FAULTED
  end.

Definition decode_phase (value : Z) : SchedulerPhase :=
  if value =? PHASE_RUNNING then PhaseRunning
  else if value =? PHASE_PAUSED then PhasePaused
  else if value =? PHASE_STOPPING then PhaseStopping
  else if value =? PHASE_STOPPED then PhaseStopped
  else PhaseFaulted.

Definition decode_health (value : Z) : WatcherHealth :=
  if value =? WATCHER_HEALTHY then Healthy else Degraded.

Definition flags_urgency (flags : Z) : RefreshUrgency :=
  if negb (Z.land flags FLAG_URGENCY_RECOVERY =? 0) then Recovery
  else if negb (Z.land flags FLAG_URGENCY_INTERACTIVE =? 0) then Interactive
  else if negb (Z.land flags FLAG_URGENCY_PERIODIC =? 0) then Periodic
  else Hint_.

Definition urgency_flag (urgency : RefreshUrgency) : Z :=
  match urgency with
  | Hint_ => FLAG_URGENCY_HINT
  | Periodic => FLAG_URGENCY_PERIODIC
  | Interactive => FLAG_URGENCY_INTERACTIVE
  | Recovery => FLAG_URGENCY_RECOVERY
  end.

(** ** Shared memory *)

(** The atomics of [HintState]; a boolean is 0 or 1. *)
Inductive Cell := Flags | LatestHintTick | Watcher | Phase | AcceptedHints | Submitted | ForcePending.
#[export] Instance Cell_eq_dec : EqDecision Cell.
Proof. solve_decision. Defined.

(** The atomics, the message in the wake channel, whether the receiver is alive,
    whether the handle of the thread was taken, and the accepted submissions, newest
    first *)
Record Shared := {
  atomics : Cell -> Z;
  wake_token : bool;
  thread_alive : bool;
  thread_handle : bool;
  submissions : list RefreshUrgency
}.

Inductive SubmitAnswer := SubmitOk | SubmitErr | SubmitPanic.
Inductive SendAnswer := Sent | Full | Disconnected.
Inductive RecvAnswer := Received | TimedOut.

(** [fetch_update(|value| value.checked_add(1)).is_ok()] is [CheckedIncrement]. *)
Inductive op : Type -> Type :=
| Load (c : Cell) : op Z
| Store (c : Cell) (v : Z) : op unit
| Swap (c : Cell) (v : Z) : op Z
| FetchOr (c : Cell) (v : Z) : op Z
| FetchMax (c : Cell) (v : Z) : op Z
| CheckedIncrement (c : Cell) : op bool
| CompareExchange (c : Cell) (current next : Z) : op bool
| Now : op Z
| TrySend : op SendAnswer
| Recv : op unit
| RecvTimeout (millis : Z) : op RecvAnswer
| Submit (urgency : RefreshUrgency) : op SubmitAnswer
| HasThread : op bool
| TakeThread : op bool
| JoinThread : op unit.

Inductive prog (A : Type) : Type :=
| Ret (a : A)
| Do {B : Type} (o : op B) (k : B -> prog A).
Arguments Ret {A} a.
Arguments Do {A B} o k.

Fixpoint pbind {A B} (p : prog A) (f : A -> prog B) : prog B :=
  match p with
  | Ret a => f a
  | Do o k => Do o (fun r => pbind (k r) f)
  end.

Declare Scope prog_scope.
Delimit Scope prog_scope with prog.
Open Scope prog_scope.
Notation "'do' x := o 'then' k" := (Do o (fun x => k))
  (at level 10, x name, o at level 200, k at level 200) : prog_scope.
Notation "'call' x := p 'then' k" := (pbind p (fun x => k))
  (at level 10, x name, p at level 200, k at level 200) : prog_scope.

(** What the environment decides: the clock, the answer of [submit], and whether a
    [recv_timeout] times out. *)
Record Choice := { ch_now : Z; ch_submit : SubmitAnswer; ch_timeout : bool }.

Definition set_cell (s : Shared) (c : Cell) (v : Z) : Shared :=
  {| atomics := fun c' => if bool_decide (c' = c) then v else atomics s c'; wake_token := wake_token s;
     thread_alive := thread_alive s; thread_handle := thread_handle s; submissions := submissions s |}.

Definition set_token (s : Shared) (b : bool) : Shared :=
  {| atomics := atomics s; wake_token := b; thread_alive := thread_alive s;
     thread_handle := thread_handle s; submissions := submissions s |}.

(** The effect of an operation; [None] where it blocks.  The wake channel cannot be
    disconnected from the sending side: the scheduler object keeps a sender. *)
Definition exec {B} (o : op B) (c : Choice) (s : Shared) : option (B * Shared) :=
  match o in op B return option (B * Shared) with
  | Load x => Some (atomics s x, s)
  | Store x v => Some (tt, set_cell s x v)
  | Swap x v => Some (atomics s x, set_cell s x v)
  | FetchOr x v => Some (atomics s x, set_cell s x (Z.lor (atomics s x) v))
  | FetchMax x v => Some (atomics s x, set_cell s x (Z.max (atomics s x) v))
  | CheckedIncrement x =>
      match checked_add u64_max (atomics s x) 1 with
      | Some v => Some (true, set_cell s x v)
      | None => Some (false, s)
      end
  | CompareExchange x current next =>
      if atomics s x =? current then Some (true, set_cell s x next) else Some (false, s)
  | Now => Some (ch_now c, s)
  | TrySend =>
      if negb (thread_alive s) then Some (Disconnected, s)
      else if wake_token s then Some (Full, s)
      else Some (Sent, set_token s true)
  | Recv => if wake_token s then Some (tt, set_token s false) else None
  | RecvTimeout _ =>
      if ch_timeout c then Some (TimedOut, s)
      else if wake_token s then Some (Received, set_token s false) else None
  | Submit u =>
      Some (ch_submit c,
        match ch_submit c with
        | SubmitOk => {| atomics := atomics s; wake_token := wake_token s; thread_alive := thread_alive s;
                         thread_handle := thread_handle s; submissions := u :: submissions s |}
        | _ => s
        end)
  | HasThread => Some (thread_handle s, s)
  | TakeThread =>
      Some (thread_handle s, {| atomics := atomics s; wake_token := wake_token s; thread_alive := thread_alive s;
        thread_handle := false; submissions := submissions s |})
  | JoinThread => if thread_alive s then None else Some (tt, s)
  end.

(** ** [HintState] *)

Definition HintState_new (phase : SchedulerPhase) : Shared :=
  {| atomics := fun c =>
       match c with
       | Flags => if bool_decide (phase = PhaseRunning) then INITIAL_FLAGS else 0
       | Watcher => WATCHER_HEALTHY
       | Phase => encode_phase phase
       | ForcePending => if bool_decide (phase = PhaseRunning) then 1 else 0
       | LatestHintTick | AcceptedHints | Submitted => 0
       end;
     wake_token := false; thread_alive := true; thread_handle := true; submissions := [] |}.

Definition load_phase : prog SchedulerPhase := do v := Load Phase then Ret (decode_phase v).
Definition set_phase (phase : SchedulerPhase) : prog unit := do _ := Store Phase (encode_phase phase) then Ret tt.
Definition transition_phase (current next : SchedulerPhase) : prog bool :=
  do done := CompareExchange Phase (encode_phase current) (encode_phase next) then Ret done.

Definition force_clock_discontinuity : prog unit :=
  do _ := Store ForcePending 1 then
  do _ := FetchOr Flags (Z.lor (Z.lor (Z.lor FLAG_DIRTY FLAG_FORCE) FLAG_CLOCK_DISCONTINUITY) FLAG_URGENCY_RECOVERY) then
  Ret tt.

(** ** [RefreshHintSink] *)

Definition wake : prog bool :=
  do sent := TrySend then
  Ret (match sent with Sent | Full => true | Disconnected => false end).

Definition signal (flags : Z) (record_tick : bool) : prog bool :=
  call phase := load_phase then
  if negb (bool_decide (phase = PhaseRunning)) then Ret false
  else
    call flags :=
      (if record_tick then
         do tick := Now then
         do previous := FetchMax LatestHintTick tick then
         Ret (if tick <? previous
              then Z.lor flags (Z.lor (Z.lor FLAG_FORCE FLAG_CLOCK_DISCONTINUITY) FLAG_URGENCY_RECOVERY)
              else flags)
       else Ret flags) then
    do counted := CheckedIncrement AcceptedHints then
    let flags := if counted then flags else Z.lor flags (Z.lor FLAG_FORCE FLAG_URGENCY_RECOVERY) in
    call _ :=
      (if negb (Z.land flags FLAG_FORCE =? 0) then do _ := Store ForcePending 1 then Ret tt else Ret tt) then
    do _ := FetchOr Flags flags then
    wake.

Definition filesystem_changed : prog bool := signal (Z.lor FLAG_DIRTY FLAG_URGENCY_HINT) true.

Definition force_reconcile (urgency : RefreshUrgency) : prog bool :=
  signal (Z.lor (Z.lor FLAG_DIRTY FLAG_FORCE) (urgency_flag urgency)) true.

(** The guard and the store that start every watcher call *)
Definition watcher_call (health : Z) (k : prog bool) : prog bool :=
  call phase := load_phase then
  if negb (bool_decide (phase = PhaseRunning)) then Ret false
  else do _ := Store Watcher health then k.

Definition watcher_error : prog bool :=
  watcher_call WATCHER_DEGRADED (signal (Z.lor (Z.lor FLAG_DIRTY FLAG_FORCE) FLAG_URGENCY_RECOVERY) true).

Definition watcher_rescan_required : prog bool :=
  watcher_call WATCHER_DEGRADED
    (signal (Z.lor (Z.lor (Z.lor FLAG_DIRTY FLAG_FORCE) FLAG_WATCHER_OVERFLOW) FLAG_URGENCY_RECOVERY) true).

Definition watcher_healthy : prog bool := watcher_call WATCHER_HEALTHY wake.

Definition set_poll_health (health : WatcherHealth) : prog bool :=
  watcher_call (match health with Healthy => WATCHER_HEALTHY | Degraded => WATCHER_DEGRADED end) wake.

(** ** Flag words *)

(** Every flag of [w] is set in [v]. *)
Definition flags_in (w v : Z) : Prop := Z.land w v = w.

Lemma flags_in_refl w : flags_in w w.
Proof. apply Z.land_diag. Qed.

Lemma flags_in_lor_l w v u : flags_in w v -> flags_in w (Z.lor v u).
Proof.
  unfold flags_in. intros H. rewrite Z.land_lor_distr_r, H. apply Z.bits_inj'. intros n Hn.
  rewrite Z.lor_spec, Z.land_spec. by destruct (Z.testbit w n), (Z.testbit u n).
Qed.

Lemma flags_in_lor_r w v u : flags_in w u -> flags_in w (Z.lor v u).
Proof. rewrite Z.lor_comm. apply flags_in_lor_l. Qed.

Lemma flags_in_trans w v u : flags_in w v -> flags_in v u -> flags_in w u.
Proof. unfold flags_in. intros <- H. rewrite <- Z.land_assoc. by rewrite H. Qed.

(** A flag of [w] is a flag of every word that contains [w]. *)
Lemma flag_in w v f : flags_in w v -> Z.land w f <> 0 -> Z.land v f <> 0.
Proof.
  unfold flags_in. intros Hw H E. apply H. rewrite <- Hw, <- Z.land_assoc, E. apply Z.land_0_r.
Qed.

(** A word is at least as urgent as every word it contains. *)
Lemma flags_urgency_mono w v : flags_in w v ->
  urgency_rank (flags_urgency w) <= urgency_rank (flags_urgency v).
Proof.
  intros H. unfold flags_urgency.
  pose proof (flag_in w v FLAG_URGENCY_RECOVERY H) as H1.
  pose proof (flag_in w v FLAG_URGENCY_INTERACTIVE H) as H2.
  pose proof (flag_in w v FLAG_URGENCY_PERIODIC H) as H3.
  destruct (Z.eqb_spec (Z.land w FLAG_URGENCY_RECOVERY) 0), (Z.eqb_spec (Z.land v FLAG_URGENCY_RECOVERY) 0);
  destruct (Z.eqb_spec (Z.land w FLAG_URGENCY_INTERACTIVE) 0), (Z.eqb_spec (Z.land v FLAG_URGENCY_INTERACTIVE) 0);
  destruct (Z.eqb_spec (Z.land w FLAG_URGENCY_PERIODIC) 0), (Z.eqb_spec (Z.land v FLAG_URGENCY_PERIODIC) 0);
  simpl; try lia; exfalso; auto.
Qed.

Lemma decode_encode_phase p : decode_phase (encode_phase p) = p.
Proof. by destruct p. Qed.

Lemma set_cell_eq s c v : atomics (set_cell s c v) c = v.
Proof. simpl. by rewrite bool_decide_true. Qed.

Lemma set_cell_ne s c c' v : c' <> c -> atomics (set_cell s c v) c' = atomics s c'.
Proof. intros H. simpl. by rewrite bool_decide_false. Qed.
