(* ===== verification/Scheduler.v ===== *)
(** * The refresh scheduler

    Models [crates/runtime/src/scheduler.rs]: the loop of the scheduler thread
    ([iteration] is one round of it), [pause], [resume] and [shutdown], and the system
    of one scheduler thread with any number of callers.  [clock.now()] may return
    anything: the code makes no assumption on it.

    The proofs follow each thread's remaining program.  A predicate on programs says
    what the rest of a program does with the flags it has taken ([pays]), what it
    knows when it blocks ([calm]), how long it sleeps ([timely]) and that a caller
    that changes the flags or the phase goes on to wake the scheduler ([polite]);
    each is shown of the source's programs and carried along runs. *)

From S2P Require Import Prelude Coordinator Hints.

Open Scope Z_scope.

Definition QUIET_WINDOW_MILLIS : Z := 250.
Definition HEALTHY_POLL_MILLIS : Z := 15 * 60 * 1000.
Definition DEGRADED_POLL_MILLIS : Z := 60 * 1000.

Inductive SchedulerErrorCode := SchedClosed | SchedFaulted | SchedCapacityExceeded | SchedUnavailable | SchedInternal.

Record SchedulerSnapshot := {
  ss_phase : SchedulerPhase;
  ss_dirty : bool;
  ss_force_reconcile : bool;
  ss_watcher_health : WatcherHealth;
  ss_accepted_hint_count : Z;
  ss_submitted_count : Z
}.

(** ** The scheduler thread *)

Inductive SubmitStatus := StatusSubmitted | StatusDeferred | StatusFaulted.

(** The variables of the loop *)
Record Local := { last_now : Z; last_submit : Z }.

(** A round ends with [continue] or [return]. *)
Definition round := prog (Local + unit).
Definition continue_with (l : Local) : round := Ret (inl l).
Definition return_ : round := Ret (inr tt).

(** [submit_one].  A panic of [submit] unwinds to the thread's entry, which stores
    [Faulted]: the same as an error, but for the status that is returned. *)
Definition submit_one (urgency : RefreshUrgency) : prog SubmitStatus :=
  call phase := load_phase then
  if negb (bool_decide (phase = PhaseRunning)) then Ret StatusDeferred
  else
    do answer := Submit urgency then
    match answer with
    | SubmitErr | SubmitPanic => call _ := set_phase PhaseFaulted then Ret StatusFaulted
    | SubmitOk =>
        do counted := CheckedIncrement Submitted then
        if counted then Ret StatusSubmitted
        else call _ := set_phase PhaseFaulted then Ret StatusFaulted
    end.

(** [match submit_one(.., flags_urgency(taken)) { .. } continue], after the flags were taken *)
Definition submit_taken (l : Local) (now taken : Z) : round :=
  call status := submit_one (flags_urgency taken) then
  match status with
  | StatusSubmitted => continue_with {| last_now := last_now l; last_submit := now |}
  | StatusDeferred => do _ := FetchOr Flags taken then continue_with l
  | StatusFaulted => return_
  end.

(** The end of a round: the periodic refresh, or sleep *)
Definition poll (l : Local) (now : Z) (quiet_deadline : option Z) : round :=
  do health := Load Watcher then
  let interval :=
    match decode_health health with Healthy => HEALTHY_POLL_MILLIS | Degraded => DEGRADED_POLL_MILLIS end in
  match checked_add u64_max (last_submit l) interval with
  | None => call _ := set_phase PhaseFaulted then return_
  | Some periodic_deadline =>
      if periodic_deadline <=? now then
        call status := submit_one Periodic then
        match status with
        | StatusSubmitted => continue_with {| last_now := last_now l; last_submit := now |}
        | StatusDeferred => continue_with l
        | StatusFaulted => return_
        end
      else
        let next_deadline :=
          match quiet_deadline with
          | Some deadline => Z.min deadline periodic_deadline
          | None => periodic_deadline
          end in
        do _ := RecvTimeout (saturating_sub next_deadline now) then continue_with l
  end.

(** Dirty flags: wait for a quiet window after the latest hint, then submit. *)
Definition quiet_window (l : Local) (now latest : Z) : round :=
  match checked_add u64_max latest QUIET_WINDOW_MILLIS with
  | None => call _ := force_clock_discontinuity then continue_with l
  | Some deadline =>
      if deadline <=? now then
        do taken := Swap Flags 0 then
        do latest_after := Load LatestHintTick then
        if latest <? latest_after then do _ := FetchOr Flags taken then continue_with l
        else submit_taken l now taken
      else poll l now (Some deadline)
  end.

(** A round in phase [Running] *)
Definition running_round (l : Local) : round :=
  do now := Now then
  call _ := (if now <? last_now l then force_clock_discontinuity else Ret tt) then
  let l := {| last_now := now; last_submit := last_submit l |} in
  do flags := Load Flags then
  if negb (Z.land flags FLAG_FORCE =? 0) then
    do taken := Swap Flags 0 then submit_taken l now taken
  else if negb (Z.land flags FLAG_DIRTY =? 0) then
    do latest := Load LatestHintTick then
    if now <? latest then
      do now := Now then
      if (now <? last_now l) || (now <? latest) then
        call _ := force_clock_discontinuity then continue_with l
      else quiet_window {| last_now := now; last_submit := last_submit l |} now latest
    else quiet_window l now latest
  else poll l now None.

(** One round of [run_scheduler] *)
Definition iteration (l : Local) : round :=
  call phase := load_phase then
  match phase with
  | PhaseStopping => call _ := set_phase PhaseStopped then return_
  | PhaseStopped | PhaseFaulted => return_
  | PhasePaused => do _ := Recv then continue_with l
  | PhaseRunning => running_round l
  end.

(** [run_scheduler] up to its loop *)
Definition start_round : round :=
  do now := Now then continue_with {| last_now := now; last_submit := now |}.

(** ** The callers *)

Inductive CallResult :=
| Accepted (accepted : bool)
| PhaseIs (result : result SchedulerPhase SchedulerErrorCode).

(** A round of [pause], [resume] or [shutdown] ends with another round or a result. *)
Definition caller := prog (unit + CallResult).
Definition again : caller := Ret (inl tt).
Definition return_phase (r : result SchedulerPhase SchedulerErrorCode) : caller := Ret (inr (PhaseIs r)).

Definition pause : caller :=
  call phase := load_phase then
  match phase with
  | PhaseRunning =>
      call changed := transition_phase PhaseRunning PhasePaused then
      if (changed : bool) then call _ := wake then return_phase (Ok PhasePaused) else again
  | PhasePaused => return_phase (Ok PhasePaused)
  | PhaseFaulted => return_phase (Err SchedFaulted)
  | PhaseStopping | PhaseStopped => return_phase (Err SchedClosed)
  end.

Definition resume : caller :=
  call phase := load_phase then
  match phase with
  | PhasePaused =>
      call changed := transition_phase PhasePaused PhaseRunning then
      if (changed : bool) then
        call accepted := force_reconcile Recovery then
        if negb accepted then return_phase (Err SchedClosed) else return_phase (Ok PhaseRunning)
      else again
  | PhaseRunning => return_phase (Ok PhaseRunning)
  | PhaseFaulted => return_phase (Err SchedFaulted)
  | PhaseStopping | PhaseStopped => return_phase (Err SchedClosed)
  end.

(** The end of [shutdown], after the loop *)
Definition shutdown_join : caller :=
  call _ := wake then
  do taken := TakeThread then
  if negb taken then return_phase (Err SchedInternal)
  else
    do _ := JoinThread then
    call phase := load_phase then
    call _ := (if negb (bool_decide (phase = PhaseFaulted)) then set_phase PhaseStopped else Ret tt) then
    call phase := load_phase then
    return_phase (Ok phase).

Definition shutdown : caller :=
  do has_thread := HasThread then
  if negb has_thread then call phase := load_phase then return_phase (Ok phase)
  else
    call phase := load_phase then
    match phase with
    | PhaseRunning =>
        call changed := transition_phase PhaseRunning PhaseStopping then
        if (changed : bool) then shutdown_join else again
    | PhasePaused =>
        call changed := transition_phase PhasePaused PhaseStopping then
        if (changed : bool) then shutdown_join else again
    | PhaseStopping | PhaseStopped | PhaseFaulted => shutdown_join
    end.

Definition scheduler_snapshot : prog SchedulerSnapshot :=
  do flags := Load Flags then
  call phase := load_phase then
  do health := Load Watcher then
  do accepted := Load AcceptedHints then
  do submitted := Load Submitted then
  Ret {| ss_phase := phase; ss_dirty := negb (Z.land flags FLAG_DIRTY =? 0);
         ss_force_reconcile := negb (Z.land flags FLAG_FORCE =? 0); ss_watcher_health := decode_health health;
         ss_accepted_hint_count := accepted; ss_submitted_count := submitted |}.

(** ** The system *)

Inductive Call :=
| CallFilesystemChanged | CallForceReconcile (urgency : RefreshUrgency) | CallWatcherError
| CallWatcherRescanRequired | CallWatcherHealthy | CallSetPollHealth (health : WatcherHealth)
| CallPause | CallResume | CallShutdown.

Definition hint_call (p : prog bool) : caller := call accepted := p then Ret (inr (Accepted accepted)).

Definition body (c : Call) : caller :=
  match c with
  | CallFilesystemChanged => hint_call filesystem_changed
  | CallForceReconcile urgency => hint_call (force_reconcile urgency)
  | CallWatcherError => hint_call watcher_error
  | CallWatcherRescanRequired => hint_call watcher_rescan_required
  | CallWatcherHealthy => hint_call watcher_healthy
  | CallSetPollHealth health => hint_call (set_poll_health health)
  | CallPause => pause
  | CallResume => resume
  | CallShutdown => shutdown
  end.

Record System := {
  shared : Shared;
  scheduler : round;
  callers : list (Call * caller)
}.

(** [spawn_with_phase] *)
Definition spawn (phase : SchedulerPhase) : System :=
  {| shared := HintState_new phase; scheduler := start_round; callers := [] |}.

Inductive Label :=
| StepScheduler (c : Choice)
| StepCaller (i : nat) (c : Choice)
| StartCall (c : Call).

Definition set_dead (s : Shared) : Shared :=
  {| atomics := atomics s; wake_token := wake_token s; thread_alive := false;
     thread_handle := thread_handle s; submissions := submissions s |}.

(** One operation of one thread; [None] where it cannot be made. *)
Definition step (sys : System) (l : Label) : option System :=
  match l with
  | StepScheduler c =>
      match scheduler sys with
      | Ret (inl local) =>
          Some {| shared := shared sys; scheduler := iteration local; callers := callers sys |}
      | Ret (inr _) =>
          if thread_alive (shared sys)
          then Some {| shared := set_dead (shared sys); scheduler := scheduler sys; callers := callers sys |}
          else None
      | Do o k =>
          '(r, s) ← exec o c (shared sys);
          Some {| shared := s; scheduler := k r; callers := callers sys |}
      end
  | StepCaller i c =>
      '(fn, p) ← callers sys !! i;
      match p with
      | Ret (inl _) =>
          Some {| shared := shared sys; scheduler := scheduler sys; callers := <[i := (fn, body fn)]> (callers sys) |}
      | Ret (inr _) => None
      | Do o k =>
          '(r, s) ← exec o c (shared sys);
          Some {| shared := s; scheduler := scheduler sys; callers := <[i := (fn, k r)]> (callers sys) |}
      end
  | StartCall fn =>
      Some {| shared := shared sys; scheduler := scheduler sys; callers := callers sys ++ [(fn, body fn)] |}
  end.

Fixpoint run (sys : System) (ls : list Label) : option System :=
  match ls with
  | [] => Some sys
  | l :: ls => sys ← step sys l; run sys ls
  end.

Definition reachable (sys : System) : Prop := exists phase ls, run (spawn phase) ls = Some sys.

(** ** What the scheduler does with the flags it has taken *)

Definition has (flags f : Z) : bool := negb (Z.land flags f =? 0).

(** The rest of the round gives the flags of [w] back, submits a refresh at least as
    urgent as they ask for, or ends the thread; and it does not block before. *)
Fixpoint pays (w : Z) (p : round) : Prop :=
  match p with
  | Ret (inl _) => False
  | Ret (inr _) => True
  | Do o k =>
      match o in op B return (B -> Prop) -> Prop with
      | FetchOr Flags v => fun _ => flags_in w v
      | Submit u => fun rest =>
          urgency_rank (flags_urgency w) <= urgency_rank u /\ rest SubmitErr /\ rest SubmitPanic
      | Recv | RecvTimeout _ => fun _ => False
      | _ => fun rest => forall r, rest r
      end (fun r => pays w (k r))
  end.

(** Flags are cleared only by taking them, and what was taken is paid. *)
Fixpoint careful (p : round) : Prop :=
  match p with
  | Ret _ => True
  | Do o k =>
      match o in op B return (B -> Prop) -> (Z -> B -> Prop) -> Prop with
      | Swap Flags _ => fun rest paid => forall r, rest r /\ forall w, flags_in w r -> paid w r
      | Store Flags _ | CompareExchange Flags _ _ | FetchMax Flags _ | CheckedIncrement Flags => fun _ _ => False
      | _ => fun rest _ => forall r, rest r
      end (fun r => careful (k r)) (fun w r => pays w (k r))
  end.

(** ** What the scheduler knows when it blocks

    [f] and [ph] are the flags and the phase while no other thread changes them. *)

Fixpoint calm (f ph : Z) (p : round) : Prop :=
  match p with
  | Ret _ => True
  | Do o k =>
      match o in op B return (Z -> Z -> B -> Prop) -> Prop with
      | Load Flags => fun rest => rest f ph f
      | Load Phase => fun rest => rest f ph ph
      | Store Phase v => fun rest => rest f v tt
      | Swap Flags v => fun rest => rest v ph f
      | FetchOr Flags v => fun rest => rest (Z.lor f v) ph f
      | Recv => fun _ => decode_phase ph <> PhaseRunning /\ decode_phase ph <> PhaseStopping
      | RecvTimeout w => fun _ =>
          decode_phase ph = PhaseRunning /\ has f FLAG_FORCE = false /\
          (has f FLAG_DIRTY = true -> w <= QUIET_WINDOW_MILLIS)
      | Store Flags _ | Swap Phase _ | FetchOr Phase _ | FetchMax Flags _ | FetchMax Phase _
      | CheckedIncrement Flags | CheckedIncrement Phase
      | CompareExchange Flags _ _ | CompareExchange Phase _ _ => fun _ => False
      | _ => fun rest => forall r, rest f ph r
      end (fun f ph r => calm f ph (k r))
  end.

(** A message ends the round, and so does a change of the phase. *)
Fixpoint settles (p : round) : Prop :=
  match p with
  | Ret _ => True
  | Do o k =>
      match o in op B return (B -> Prop) -> (B -> Prop) -> Prop with
      | Recv | RecvTimeout _ | Store Phase _ => fun _ ends => forall r, ends r
      | Swap Phase _ | FetchOr Phase _ | FetchMax Phase _ | CheckedIncrement Phase | CompareExchange Phase _ _ =>
          fun _ _ => False
      | _ => fun rest _ => forall r, rest r
      end (fun r => settles (k r)) (fun r => exists a, k r = Ret a)
  end.

(** ** How long the scheduler sleeps

    [forced] says that a forced refresh is known to be flagged. *)

Fixpoint timely (forced : bool) (p : round) : Prop :=
  match p with
  | Ret (inl l) => last_submit l <= last_now l \/ forced = true
  | Ret (inr _) => True
  | Do o k =>
      match o in op B return (bool -> B -> Prop) -> Prop with
      | Load Flags => fun rest =>
          forall r, (forced = true -> has r FLAG_FORCE = true) -> rest (forced || has r FLAG_FORCE) r
      | Swap Flags _ => fun rest => forall r, (forced = true -> has r FLAG_FORCE = true) -> rest false r
      | FetchOr Flags v => fun rest => forall r, rest (forced || has v FLAG_FORCE) r
      | RecvTimeout w => fun rest => w <= HEALTHY_POLL_MILLIS /\ forall r, rest forced r
      | Store Flags _ | CompareExchange Flags _ _ | FetchMax Flags _ | CheckedIncrement Flags => fun _ => False
      | _ => fun rest => forall r, rest forced r
      end (fun forced r => timely forced (k r))
  end.

(** ** How callers behave *)

(** The caller wakes the scheduler next, as long as the phase stays what it is. *)
Fixpoint wakes (ph : Z) (p : caller) : Prop :=
  match p with
  | Ret _ => False
  | Do o k =>
      match o in op B return (B -> Prop) -> Prop with
      | TrySend => fun _ => True
      | Load Phase => fun rest => rest ph
      | Load _ | Now => fun rest => forall r, rest r
      | Store (Watcher | ForcePending) _ => fun rest => forall r, rest r
      | FetchOr Flags _ => fun rest => forall r, rest r
      | FetchMax LatestHintTick _ => fun rest => forall r, rest r
      | CheckedIncrement AcceptedHints => fun rest => forall r, rest r
      | _ => fun _ => False
      end (fun r => wakes ph (k r))
  end.

(** Until it has joined the thread, a caller changes the flags only by adding to them
    and the phase only by a transition, and goes on to wake the scheduler. *)
Fixpoint polite (p : caller) : Prop :=
  match p with
  | Ret _ => True
  | Do o k =>
      match o in op B return (B -> Prop) -> (Z -> B -> Prop) -> Prop with
      | FetchOr Flags _ => fun rest wake => forall r, rest r /\ forall ph, wake ph r
      | CompareExchange Phase _ next => fun rest wake => rest true /\ wake next true /\ rest false
      | JoinThread => fun _ _ => True
      | Load _ | Now | TrySend | HasThread | TakeThread => fun rest _ => forall r, rest r
      | Store (Watcher | ForcePending) _ => fun rest _ => forall r, rest r
      | FetchMax LatestHintTick _ => fun rest _ => forall r, rest r
      | CheckedIncrement AcceptedHints => fun rest _ => forall r, rest r
      | _ => fun _ _ => False
      end (fun r => polite (k r)) (fun ph r => wakes ph (k r))
  end.

(** ** The programs of the source satisfy them *)

Ltac fold_has :=
  repeat match goal with |- context [negb (Z.land ?f ?g =? 0)] => change (negb (Z.land f g =? 0)) with (has f g) end.

Ltac walk :=
  repeat first
    [ progress intros
    | progress cbn [pbind load_phase set_phase transition_phase force_clock_discontinuity wake continue_with
        return_ again return_phase pays careful calm settles timely wakes polite negb andb orb fst snd] in *
    | match goal with |- _ /\ _ => split end
    | exact I
    | assumption
    | match goal with |- exists _, _ = Ret _ => eexists; reflexivity end ].

Lemma submit_taken_pays l now taken w : flags_in w taken -> pays w (submit_taken l now taken).
Proof.
  intros H. unfold submit_taken, submit_one. walk.
  destruct (negb (bool_decide (decode_phase r = PhaseRunning))); walk.
  by apply flags_urgency_mono.
Qed.

Lemma submit_taken_careful l now taken : careful (submit_taken l now taken).
Proof.
  unfold submit_taken, submit_one. walk. destruct (negb (bool_decide _)); walk.
  destruct r0; walk. by destruct r0; walk.
Qed.

Lemma poll_careful l now q : careful (poll l now q).
Proof.
  unfold poll, submit_one. walk. destruct (checked_add _ _ _); walk. destruct (_ <=? _); walk.
  destruct (negb (bool_decide _)); walk. destruct r1; walk. by destruct r1; walk.
Qed.

Lemma quiet_window_careful l now latest : careful (quiet_window l now latest).
Proof.
  unfold quiet_window. destruct (checked_add _ _ _); walk. destruct (_ <=? _); walk; [| |apply poll_careful].
  - destruct (latest <? r0); walk. apply submit_taken_careful.
  - destruct (latest <? r0); walk. by apply submit_taken_pays.
Qed.

Lemma iteration_careful l : careful (iteration l).
Proof.
  unfold iteration. walk. destruct (decode_phase r); walk. unfold running_round. walk.
  destruct (_ <? _); walk.
  all: destruct (negb (Z.land _ FLAG_FORCE =? 0)); walk; [apply submit_taken_careful|by apply submit_taken_pays|].
  all: destruct (negb (Z.land _ FLAG_DIRTY =? 0)); walk; [|apply poll_careful].
  all: destruct (_ <? _); walk; [|apply quiet_window_careful].
  all: destruct (_ || _); walk; apply quiet_window_careful.
Qed.

Lemma submit_taken_settles l now taken : settles (submit_taken l now taken).
Proof.
  unfold submit_taken, submit_one. walk. destruct (negb (bool_decide _)); walk. destruct r0; walk. by destruct r0; walk.
Qed.

Lemma poll_settles l now q : settles (poll l now q).
Proof.
  unfold poll, submit_one. walk. destruct (checked_add _ _ _); walk. destruct (_ <=? _); walk.
  destruct (negb (bool_decide _)); walk. destruct r1; walk. by destruct r1; walk.
Qed.

Lemma quiet_window_settles l now latest : settles (quiet_window l now latest).
Proof.
  unfold quiet_window. destruct (checked_add _ _ _); walk. destruct (_ <=? _); walk; [|apply poll_settles].
  destruct (latest <? r0); walk. apply submit_taken_settles.
Qed.

Lemma iteration_settles l : settles (iteration l).
Proof.
  unfold iteration. walk. destruct (decode_phase r); walk. unfold running_round. walk.
  destruct (_ <? _); walk.
  all: destruct (negb (Z.land _ FLAG_FORCE =? 0)); walk; [apply submit_taken_settles|].
  all: destruct (negb (Z.land _ FLAG_DIRTY =? 0)); walk; [|apply poll_settles].
  all: destruct (_ <? _); walk; [|apply quiet_window_settles].
  all: destruct (_ || _); walk; apply quiet_window_settles.
Qed.

(** *** Blocking *)

Lemma submit_taken_calm f ph l now taken : calm f ph (submit_taken l now taken).
Proof.
  unfold submit_taken, submit_one. walk. destruct (negb (bool_decide _)); walk. destruct r; walk. by destruct r; walk.
Qed.

Lemma poll_calm f ph l now q :
  decode_phase ph = PhaseRunning -> has f FLAG_FORCE = false ->
  (has f FLAG_DIRTY = true -> exists d, q = Some d /\ d <= now + QUIET_WINDOW_MILLIS) -> calm f ph (poll l now q).
Proof.
  intros Hp Hf Hq. unfold poll, submit_one. walk. destruct (checked_add _ _ _) as [d|]; walk. destruct (_ <=? _); walk.
  - destruct (negb (bool_decide _)); walk. destruct r0; walk. by destruct r0; walk.
  - destruct Hq as (d' & -> & Hd); [done|]. unfold saturating_sub. unfold QUIET_WINDOW_MILLIS in *. lia.
Qed.

Lemma quiet_window_calm f ph l now latest :
  decode_phase ph = PhaseRunning -> has f FLAG_FORCE = false -> latest <= now -> calm f ph (quiet_window l now latest).
Proof.
  intros Hp Hf Hl. unfold quiet_window. destruct (checked_add _ _ _) as [d|] eqn:Ed; walk. destruct (_ <=? _); walk.
  - destruct (_ <? _); walk. apply submit_taken_calm.
  - apply poll_calm; [done..|]. intros _. exists d. apply checked_add_Some in Ed as [-> _]. split; [done|lia].
Qed.

Lemma iteration_calm f ph l : calm f ph (iteration l).
Proof.
  unfold iteration. walk. destruct (decode_phase ph) eqn:Eph; walk; try congruence. unfold running_round. walk.
  destruct (_ <? _); walk.
  all: fold_has; destruct (has _ FLAG_FORCE) eqn:Ef; walk; [apply submit_taken_calm|].
  all: destruct (has _ FLAG_DIRTY) eqn:Ed; walk; [|apply poll_calm; [done..|]; congruence].
  all: destruct (r <? _) eqn:E1; walk; [|to_prop; by apply quiet_window_calm].
  all: destruct (_ || _) eqn:E2; walk; to_prop; by apply quiet_window_calm.
Qed.

(** *** Sleeping *)

Lemma has_lor_r a b f : has b f = true -> has (Z.lor a b) f = true.
Proof.
  unfold has. rewrite !negb_true_iff, !Z.eqb_neq, Z.land_lor_distr_l.
  intros H E. apply H. by apply Z.lor_eq_0_iff in E as [_ ->].
Qed.

Lemma has_lor_l a b f : has a f = true -> has (Z.lor a b) f = true.
Proof. rewrite Z.lor_comm. apply has_lor_r. Qed.

Lemma submit_taken_timely l now taken b :
  last_now l = now -> (last_submit l <= last_now l \/ has taken FLAG_FORCE = true) -> timely b (submit_taken l now taken).
Proof.
  intros Hn Hl. unfold submit_taken, submit_one. walk. destruct (negb (bool_decide _)); walk.
  - destruct Hl as [Hl|Hl]; [by left|]. right. by rewrite Hl, orb_true_r.
  - destruct r0; walk. destruct r0; walk. left. simpl. lia.
Qed.

Lemma poll_timely l now q b : last_now l = now -> last_submit l <= now -> timely b (poll l now q).
Proof.
  intros Hn Hl. unfold poll, submit_one. walk.
  set (interval := match decode_health r with Healthy => _ | Degraded => _ end).
  assert (interval <= HEALTHY_POLL_MILLIS) as Hi.
  { unfold interval, HEALTHY_POLL_MILLIS, DEGRADED_POLL_MILLIS. destruct (decode_health r); lia. }
  destruct (checked_add _ _ _) as [d|] eqn:Ed; walk. apply checked_add_Some in Ed as [-> _].
  destruct (_ <=? _) eqn:E; walk.
  - destruct (negb (bool_decide _)); walk; [left; lia|]. destruct r1; walk. destruct r1; walk. left. simpl. lia.
  - unfold saturating_sub, HEALTHY_POLL_MILLIS in *. to_prop. destruct q; lia.
  - left. lia.
Qed.

Lemma quiet_window_timely l now latest b : last_now l = now -> last_submit l <= now -> timely b (quiet_window l now latest).
Proof.
  intros Hn Hl. unfold quiet_window. destruct (checked_add _ _ _); walk; [|by right; rewrite orb_true_r].
  destruct (_ <=? _); walk; [|by apply poll_timely].
  destruct (latest <? r0); walk; [left; lia|]. apply submit_taken_timely; [done|left; lia].
Qed.

Lemma iteration_timely l b : last_submit l <= last_now l \/ b = true -> timely b (iteration l).
Proof.
  intros Hl. unfold iteration. walk. destruct (decode_phase r); walk. unfold running_round. walk.
  destruct (r0 <? last_now l) eqn:En; walk; fold_has.
  - match goal with |- context [has (Z.lor ?a ?b) FLAG_FORCE] => change (has (Z.lor a b) FLAG_FORCE) with true in * end.
    rewrite orb_true_r in *.
    match goal with H : true = true -> has ?f _ = true |- _ => rewrite (H eq_refl); specialize (H eq_refl) end. walk.
    apply submit_taken_timely; [done|]. right. auto.
  - match goal with H : b = true -> has ?f _ = true |- _ => rename H into Hb; rename f into fl end.
    to_prop. destruct (has fl FLAG_FORCE) eqn:Ef; walk.
    { apply submit_taken_timely; [done|]. right. rewrite orb_true_r in *. auto. }
    assert (b = false) as -> by (destruct b; [by discriminate Hb|done]).
    assert (last_submit l <= r0) by (destruct Hl; [lia|done]).
    destruct (has fl FLAG_DIRTY); walk; [|by apply poll_timely].
    destruct (r0 <? _) eqn:E1; walk; [|by apply quiet_window_timely].
    destruct (_ || _) eqn:E2; walk; [left; simpl; lia|]. to_prop. simpl in *.
    apply quiet_window_timely; simpl; lia.
Qed.

(** *** Callers *)

Lemma signal_polite flags (k : bool -> caller) :
  (forall b, polite (k b)) -> polite (call b := signal flags true then k b).
Proof.
  intros Hk. unfold signal. walk. destruct (negb (bool_decide _)); walk; [auto|].
  destruct (negb _); walk; auto.
Qed.

Lemma signal_wakes flags ph (k : bool -> caller) :
  decode_phase ph = PhaseRunning -> wakes ph (call b := signal flags true then k b).
Proof.
  intros Hp. unfold signal. walk. rewrite bool_decide_true by done. walk. destruct (negb (Z.land _ _ =? 0)); walk.
Qed.

Lemma body_polite c : polite (body c).
Proof.
  assert (forall flags, polite (hint_call (signal flags true))) as Hs by (intros; by apply signal_polite).
  assert (forall h p, polite (hint_call p) -> polite (hint_call (watcher_call h p))) as Hw.
  { intros h p Hp. unfold hint_call, watcher_call in *. walk. destruct (negb (bool_decide _)); walk. }
  destruct c; cbn [body]; try apply Hs; try (apply Hw; try apply Hs; by walk).
  - unfold pause. walk. destruct (decode_phase r); walk.
  - unfold resume. walk. destruct (decode_phase r); walk.
    + apply signal_polite. by intros [].
    + by apply signal_wakes.
  - assert (polite shutdown_join) by (unfold shutdown_join; walk; destruct r0; walk).
    unfold shutdown. walk. destruct r; walk. destruct (decode_phase r); walk.
Qed.

(** ** One operation *)

Ltac run_op o H :=
  destruct o as [x|x ?|x ?|x ?|x ?|x|x ? ?| | | |?|?| | |]; simpl in H;
  repeat match type of H with
  | context [checked_add ?a ?b ?d] => destruct (checked_add a b d); simpl in H
  | context [if ?b then _ else _] => destruct b eqn:?; simpl in H
  | context [match ?a with SubmitOk => _ | SubmitErr => _ | SubmitPanic => _ end] => destruct a eqn:?; simpl in H
  end; try discriminate H; injection H as <- <-; simpl in *.

Lemma careful_next {B} (o : op B) k r : careful (Do o k) -> careful (k r).
Proof. intros H. destruct o as [c|c v|c v|c v|c v|c|c ? ?| | | | | | | |]; simpl in H; try destruct c; try done; apply H. Qed.

Lemma settles_next {B} (o : op B) k r : settles (Do o k) -> settles (k r).
Proof.
  intros H. destruct o as [c|c v|c v|c v|c v|c|c ? ?| | | | | | | |]; simpl in H; try destruct c; try done;
    try (by destruct (H r) as [? ->]); apply H.
Qed.

Lemma timely_next {B} (o : op B) k r b c s s' :
  timely b (Do o k) -> (b = true -> has (atomics s Flags) FLAG_FORCE = true) -> exec o c s = Some (r, s') ->
  exists b', timely b' (k r) /\ (b' = true -> has (atomics s' Flags) FLAG_FORCE = true).
Proof.
  intros Ht Hb H. run_op o H; try destruct x; simpl in *; try done; try (exists b; split; [apply Ht|exact Hb]).
  - eexists. split; [by apply Ht|]. intros [->|?]%orb_true_iff; auto.
  - exists false. split; [by apply Ht|done].
  - eexists. split; [by apply Ht|]. intros [->|?]%orb_true_iff; [apply has_lor_l; auto|by apply has_lor_r].
Qed.

(** After an operation of the scheduler it is calm, if it was; it loses a message only
    by ending its round. *)
Lemma calm_next {B} (o : op B) k r c s s' :
  settles (Do o k) -> exec o c s = Some (r, s') -> calm (atomics s Flags) (atomics s Phase) (Do o k) ->
  calm (atomics s' Flags) (atomics s' Phase) (k r).
Proof.
  intros Hs H Hc. run_op o H; try destruct x; simpl in *; try done; try apply Hc;
    match goal with |- calm _ _ (k ?r) => by destruct (Hs r) as [? ->] end.
Qed.

Lemma token_next {B} (o : op B) k r c s s' :
  settles (Do o k) -> exec o c s = Some (r, s') -> wake_token s = true ->
  wake_token s' = true \/ exists a, k r = Ret a.
Proof. intros Hs H Ht. run_op o H; auto. Qed.

(** The scheduler changes the phase only to end its round. *)
Lemma phase_next {B} (o : op B) k r c s s' :
  settles (Do o k) -> exec o c s = Some (r, s') ->
  atomics s' Phase = atomics s Phase \/ exists a, k r = Ret a.
Proof. intros Hs H. run_op o H; try destruct x; simpl in *; auto; done. Qed.

(** An operation of a caller *)
Lemma polite_next {B} (o : op B) k r c s s' :
  polite (Do o k) -> exec o c s = Some (r, s') -> thread_alive s = true -> polite (k r).
Proof.
  intros Hp H Ha. run_op o H; try destruct x; simpl in *; try done; try apply Hp; congruence.
Qed.

Lemma polite_effect {B} (o : op B) k r c s s' :
  polite (Do o k) -> exec o c s = Some (r, s') -> thread_alive s = true ->
  (atomics s' Flags = atomics s Flags /\ atomics s' Phase = atomics s Phase) \/ wakes (atomics s' Phase) (k r).
Proof.
  intros Hp H Ha. run_op o H; try destruct x; simpl in *; auto; try done; try congruence; right; apply Hp.
Qed.

(** Callers only add to the flags. *)
Lemma polite_flags {B} (o : op B) k r c s s' w :
  polite (Do o k) -> exec o c s = Some (r, s') -> thread_alive s = true ->
  flags_in w (atomics s Flags) -> flags_in w (atomics s' Flags).
Proof.
  intros Hp H Ha Hw. run_op o H; try destruct x; simpl in *; auto; try done. by apply flags_in_lor_l.
Qed.

Lemma polite_has {B} (o : op B) k r c s s' f :
  polite (Do o k) -> exec o c s = Some (r, s') -> has (atomics s Flags) f = true -> has (atomics s' Flags) f = true.
Proof. intros Hp H Hf. run_op o H; try destruct x; simpl in *; auto; try done. by apply has_lor_l. Qed.

Lemma exec_alive {B} (o : op B) r c s s' : exec o c s = Some (r, s') -> thread_alive s' = thread_alive s.
Proof. intros H. by run_op o H. Qed.

Lemma wakes_next {B} (o : op B) k r c s s' :
  wakes (atomics s Phase) (Do o k) -> exec o c s = Some (r, s') -> thread_alive s = true ->
  wake_token s' = true \/ (atomics s' Phase = atomics s Phase /\ wakes (atomics s Phase) (k r)).
Proof.
  intros Hw H Ha. run_op o H; try destruct x; simpl in *; auto; try done.
  by rewrite Ha in *.
Qed.

Lemma polite_token {B} (o : op B) k r c s s' :
  polite (Do o k) -> exec o c s = Some (r, s') -> wake_token s = true -> wake_token s' = true.
Proof. intros Hp H Ht. run_op o H; try destruct x; simpl in *; auto; done. Qed.

Lemma polite_submissions {B} (o : op B) k r c s s' :
  polite (Do o k) -> exec o c s = Some (r, s') -> submissions s' = submissions s.
Proof. intros Hp H. run_op o H; try destruct x; simpl in *; auto; done. Qed.

(** ** The invariant of the system *)

Definition awake (sys : System) : Prop :=
  calm (atomics (shared sys) Flags) (atomics (shared sys) Phase) (scheduler sys) \/
  wake_token (shared sys) = true \/
  Exists (fun x => wakes (atomics (shared sys) Phase) x.2) (callers sys).

Record system_ok (sys : System) : Prop := {
  sy_careful : careful (scheduler sys);
  sy_settles : settles (scheduler sys);
  sy_timely : exists b, timely b (scheduler sys) /\ (b = true -> has (atomics (shared sys) Flags) FLAG_FORCE = true);
  sy_polite : thread_alive (shared sys) = true -> Forall (fun x => polite x.2) (callers sys);
  sy_dead : thread_alive (shared sys) = false -> exists u, scheduler sys = Ret (inr u);
  sy_awake : thread_alive (shared sys) = true -> awake sys
}.

Lemma spawn_ok phase : system_ok (spawn phase).
Proof.
  split; simpl; try done.
  - exists false. split; [|done]. intros. left. simpl. lia.
  - intros _. left. simpl. done.
Qed.

(** Steps of the scheduler *)
Lemma scheduler_step_ok sys c sys' : system_ok sys -> step sys (StepScheduler c) = Some sys' -> system_ok sys'.
Proof.
  intros [Hcar Hset (b & Ht & Hb) Hpol Hdead Haw] H. simpl in H.
  destruct (scheduler sys) as [[l|u]|B o k] eqn:Esch.
  - injection H as <-. split; simpl; try done.
    + apply iteration_careful.
    + apply iteration_settles.
    + exists b. split; [|done]. by apply iteration_timely.
    + intros Hd. destruct (Hdead Hd) as [u Hu]. done.
    + intros Ha. left. apply iteration_calm.
  - destruct (thread_alive (shared sys)) eqn:Ea; [|done]. injection H as <-. split; simpl; eauto; try done.
  - destruct (exec o c (shared sys)) as [[r s']|] eqn:Ex; [|done]. injection H as <-.
    pose proof (exec_alive _ _ _ _ _ Ex) as Ealive.
    split; simpl; try rewrite Ealive; try done.
    + by eapply careful_next.
    + by eapply settles_next.
    + by eapply timely_next.
    + intros Hd. destruct (Hdead Hd) as [u Hu]. done.
    + intros Ha. destruct (Haw Ha) as [Hc|[Htok|Hex]].
      * left. simpl. rewrite Esch in Hc. by eapply calm_next.
      * destruct (token_next _ _ _ _ _ _ Hset Ex Htok) as [H|[a H]]; [by right; left|left; simpl; by rewrite H].
      * destruct (phase_next _ _ _ _ _ _ Hset Ex) as [H|[a H]]; [|left; simpl; by rewrite H].
        right. right. simpl. by rewrite H.
Qed.

Lemma Exists_insert {A} (P : A -> Prop) l i x : (i < length l)%nat -> P x -> Exists P (<[i:=x]> l).
Proof.
  intros Hi Hx. apply Exists_exists. exists x. split; [|done]. apply list_elem_of_lookup. exists i.
  by rewrite list_lookup_insert_eq.
Qed.

Lemma Exists_insert_other {A} (P : A -> Prop) l i x y :
  l !! i = Some y -> (P y -> P x) -> Exists P l -> Exists P (<[i:=x]> l).
Proof.
  intros Hi Hxy (z & Hz & HP)%Exists_exists. apply list_elem_of_lookup in Hz as [j Hj].
  apply Exists_exists. destruct (decide (i = j)) as [<-|Hne].
  - assert (z = y) as -> by congruence. exists x. split; [|auto]. apply list_elem_of_lookup. exists i.
    apply list_lookup_insert_eq. by eapply lookup_lt_Some.
  - exists z. split; [|done]. apply list_elem_of_lookup. exists j. by rewrite list_lookup_insert_ne.
Qed.

(** Steps of a caller, while the scheduler runs *)
Lemma caller_awake sys i c fn {B} (o : op B) k r s' :
  system_ok sys -> thread_alive (shared sys) = true -> callers sys !! i = Some (fn, Do o k) ->
  exec o c (shared sys) = Some (r, s') ->
  awake {| shared := s'; scheduler := scheduler sys; callers := <[i := (fn, k r)]> (callers sys) |}.
Proof.
  intros Hok Ha Hi Ex. pose proof (sy_polite _ Hok Ha) as Hpol. rewrite Forall_lookup in Hpol. specialize (Hpol i _ Hi). cbn [snd] in Hpol.
  pose proof (lookup_lt_Some _ _ _ Hi) as Hlt.
  destruct (polite_effect _ _ _ _ _ _ Hpol Ex Ha) as [[Hf Hp]|Hw].
  2: { right. right. simpl. by apply Exists_insert. }
  destruct (sy_awake _ Hok Ha) as [Hc|[Htok|Hex]]; unfold awake; simpl.
  - left. by rewrite Hf, Hp.
  - right. left. by eapply polite_token.
  - right. apply Exists_exists in Hex as (z & Hz & Hzw).
    destruct (decide (wake_token s' = true)) as [|Hno]; [by left|]. right.
    apply (Exists_insert_other _ (callers sys) i (fn, k r) (fn, Do o k)); [done| |].
    + simpl. rewrite Hp. intros Hw'. destruct (wakes_next _ _ _ _ _ _ Hw' Ex Ha) as [?|[_ ?]]; done.
    + apply Exists_exists. exists z. split; [done|]. by rewrite Hp.
Qed.

Lemma caller_step_ok sys i c sys' : system_ok sys -> step sys (StepCaller i c) = Some sys' -> system_ok sys'.
Proof.
  intros Hok H. simpl in H. destruct (callers sys !! i) as [[fn p]|] eqn:Ei; [|done]. simpl in H.
  destruct p as [[[]|res]|B o k]; [|done|].
  - injection H as <-. destruct Hok as [Hcar Hset Ht Hpol Hdead Haw]. split; simpl; try done.
    + intros Ha. apply Forall_insert; [auto|apply body_polite].
    + intros Ha. destruct (Haw Ha) as [Hc|[Htok|Hex]]; unfold awake; simpl; auto. right. right.
      by eapply Exists_insert_other.
  - destruct (exec o c (shared sys)) as [[r s']|] eqn:Ex; [|done]. injection H as <-.
    pose proof (exec_alive _ _ _ _ _ Ex) as Ealive. destruct (thread_alive (shared sys)) eqn:Ea.
    + pose proof (sy_polite _ Hok Ea) as Hpol. rewrite Forall_lookup in Hpol. pose proof (Hpol i _ Ei) as Hp. cbn [snd] in Hp.
      split; simpl; try apply Hok.
      * destruct (sy_timely _ Hok) as (b & Hb1 & Hb2). exists b. split; [done|]. intros Hb.
        specialize (Hb2 Hb). by eapply polite_has.
      * intros _. apply Forall_insert; [by apply Forall_lookup|]. cbn [snd]. by eapply polite_next; [exact Hp|exact Ex|].
      * rewrite Ealive. done.
      * intros _. by eapply caller_awake.
    + split; simpl; try apply Hok; try (rewrite Ealive; done).
      * destruct (sy_dead _ Hok Ea) as [u Hu]. rewrite Hu. by exists false.
      * rewrite Ealive. intros _. by apply Hok.
Qed.

Lemma step_ok sys l sys' : system_ok sys -> step sys l = Some sys' -> system_ok sys'.
Proof.
  destruct l as [c|i c|fn]; [apply scheduler_step_ok|apply caller_step_ok|].
  intros [Hcar Hset Ht Hpol Hdead Haw] [= <-]. split; simpl; try done.
  - intros Ha. apply Forall_app. split; [auto|]. constructor; [apply body_polite|constructor].
  - intros Ha. destruct (Haw Ha) as [Hc|[Htok|Hex]]; unfold awake; simpl; auto. right. right. apply Exists_app. auto.
Qed.

Lemma run_ok sys ls sys' : system_ok sys -> run sys ls = Some sys' -> system_ok sys'.
Proof.
  revert sys. induction ls as [|l ls IH]; intros sys Hok H; simpl in H; [by injection H as <-|].
  destruct (step sys l) as [s1|] eqn:E; [|done]. simpl in H. eauto using step_ok.
Qed.

Lemma reachable_ok sys : reachable sys -> system_ok sys.
Proof. intros (phase & ls & H). eauto using run_ok, spawn_ok. Qed.

(** ** Hints are not lost *)

(** The hint [w] is flagged, or the scheduler is about to deal with it. *)
Definition owed (w : Z) (sys : System) : Prop :=
  flags_in w (atomics (shared sys) Flags) \/ pays w (scheduler sys).

(** Since [before], a refresh was submitted that is as urgent as [w] asks for. *)
Definition served (w : Z) (before : list RefreshUrgency) (sys : System) : Prop :=
  exists u new, submissions (shared sys) = new ++ before /\ u ∈ new /\
    urgency_rank (flags_urgency w) <= urgency_rank u.

Lemma pays_next {B} (o : op B) k r c s s' w :
  pays w (Do o k) -> exec o c s = Some (r, s') ->
  pays w (k r) \/ flags_in w (atomics s' Flags) \/
  exists u, submissions s' = u :: submissions s /\ urgency_rank (flags_urgency w) <= urgency_rank u.
Proof.
  intros Hp H. run_op o H; try destruct x; simpl in *; auto; try done.
  - right. left. by apply flags_in_lor_r.
  - right. right. eexists. split; [done|]. apply Hp.
  - left. apply Hp.
  - left. apply Hp.
Qed.

Lemma careful_flags {B} (o : op B) k r c s s' w :
  careful (Do o k) -> exec o c s = Some (r, s') -> flags_in w (atomics s Flags) ->
  flags_in w (atomics s' Flags) \/ pays w (k r).
Proof.
  intros Hc H Hw. run_op o H; try destruct x; simpl in *; auto; try done.
  - right. by apply Hc.
  - left. by apply flags_in_lor_l.
Qed.

Lemma exec_submissions {B} (o : op B) r c s s' : exec o c s = Some (r, s') ->
  exists new, submissions s' = new ++ submissions s.
Proof. intros H. run_op o H; try (by exists []). by eexists [_]. Qed.

Lemma step_submissions sys l sys' : step sys l = Some sys' ->
  exists new, submissions (shared sys') = new ++ submissions (shared sys).
Proof.
  intros H. destruct l as [c|i c|fn]; simpl in H; [|destruct (callers sys !! i) as [[fn p]|]; [|done]; simpl in H|].
  - destruct (scheduler sys) as [[l|u]|B o k]; [injection H as <-; by exists []| |].
    + destruct (thread_alive _); [|done]. injection H as <-. by exists [].
    + destruct (exec o c (shared sys)) as [[r s']|] eqn:E; [|done]. injection H as <-. by eapply exec_submissions.
  - destruct p as [[u|res]|B o k]; [injection H as <-; by exists []|done|].
    destruct (exec o c (shared sys)) as [[r s']|] eqn:E; [|done]. injection H as <-. by eapply exec_submissions.
  - injection H as <-. by exists [].
Qed.

Lemma served_step w before sys l sys' : served w before sys -> step sys l = Some sys' -> served w before sys'.
Proof.
  intros (u & new & H & Hu & Hr) (new' & H')%step_submissions. exists u, (new' ++ new).
  split_and!; [by rewrite H', H, app_assoc|apply elem_of_app; auto|done].
Qed.

Lemma owed_step w sys l sys' : system_ok sys -> owed w sys -> step sys l = Some sys' ->
  owed w sys' \/ served w (submissions (shared sys)) sys'.
Proof.
  intros Hok Ho H. destruct l as [c|i c|fn]; [| |by injection H as <-; left].
  - simpl in H. destruct (scheduler sys) as [[l|u]|B o k] eqn:Esch; unfold owed in *; rewrite ?Esch in Ho.
    + injection H as <-. left. left. by destruct Ho.
    + destruct (thread_alive _); [|done]. injection H as <-. simpl. rewrite ?Esch. auto.
    + destruct (exec o c (shared sys)) as [[r s']|] eqn:E; [|done]. injection H as <-. simpl.
      pose proof (sy_careful _ Hok) as Hc. rewrite Esch in Hc. destruct Ho as [Hw|Hp].
      * left. by eapply careful_flags.
      * destruct (pays_next _ _ _ _ _ _ _ Hp E) as [?|[?|(u & Hu & Hr)]]; auto.
        right. exists u, [u]. split_and!; [exact Hu|apply list_elem_of_singleton; done|done].
  - simpl in H. destruct (callers sys !! i) as [[fn p]|] eqn:Ei; [|done]. simpl in H.
    destruct p as [[u|res]|B o k]; [by injection H as <-; left|done|].
    destruct (exec o c (shared sys)) as [[r s']|] eqn:E; [|done]. injection H as <-. left.
    destruct (thread_alive (shared sys)) eqn:Ea.
    + pose proof (sy_polite _ Hok Ea) as Hpol. rewrite Forall_lookup in Hpol. specialize (Hpol i _ Ei). cbn [snd] in Hpol.
      destruct Ho as [Hw|Hp]; [|by right]. left. simpl. eapply polite_flags; [exact Hpol|exact E|done|done].
    + right. simpl. destruct (sy_dead _ Hok Ea) as [u Hu]. by rewrite Hu.
Qed.

(** A caller answers [true] only after it has flagged [w]. *)
Fixpoint raises (w : Z) (p : caller) : Prop :=
  match p with
  | Ret (inl _) => False
  | Ret (inr res) => res <> Accepted true
  | Do o k =>
      match o in op B return (B -> Prop) -> Prop with
      | FetchOr Flags v => fun _ => flags_in w v
      | _ => fun rest => forall r, rest r
      end (fun r => raises w (k r))
  end.

(** The flags a hint asks for *)
Definition hint_word (c : Call) : option Z :=
  match c with
  | CallFilesystemChanged => Some (Z.lor FLAG_DIRTY FLAG_URGENCY_HINT)
  | CallForceReconcile urgency => Some (Z.lor (Z.lor FLAG_DIRTY FLAG_FORCE) (urgency_flag urgency))
  | CallWatcherError => Some (Z.lor (Z.lor FLAG_DIRTY FLAG_FORCE) FLAG_URGENCY_RECOVERY)
  | CallWatcherRescanRequired =>
      Some (Z.lor (Z.lor (Z.lor FLAG_DIRTY FLAG_FORCE) FLAG_WATCHER_OVERFLOW) FLAG_URGENCY_RECOVERY)
  | CallWatcherHealthy | CallSetPollHealth _ | CallPause | CallResume | CallShutdown => None
  end.

Lemma signal_raises w : raises w (hint_call (signal w true)).
Proof.
  unfold hint_call, signal. cbn [pbind load_phase raises]. intros r.
  destruct (negb _); cbn [pbind raises]; [done|]. intros t p counted. cbv zeta.
  set (v := if counted then _ else _). assert (flags_in w v) as Hv.
  { unfold v. destruct counted, (t <? p); try apply flags_in_refl; repeat apply flags_in_lor_l; apply flags_in_refl. }
  clearbody v. destruct (negb (Z.land v FLAG_FORCE =? 0)); cbn [pbind raises]; done.
Qed.

Lemma body_raises c w : hint_word c = Some w -> raises w (body c).
Proof.
  destruct c; intros [= <-]; cbn [body]; try apply signal_raises.
  all: unfold watcher_error, watcher_rescan_required, watcher_call, hint_call;
       cbn [pbind load_phase raises]; intros r; destruct (negb _); cbn [pbind raises]; [done|]; intros _;
       apply signal_raises.
Qed.

Lemma raises_next {B} (o : op B) k r c s s' w :
  raises w (Do o k) -> exec o c s = Some (r, s') -> raises w (k r) \/ flags_in w (atomics s' Flags).
Proof.
  intros Hp H. run_op o H; try destruct x; simpl in *; auto. right. by apply flags_in_lor_r.
Qed.

(** A call in progress *)
Definition call_status (w : Z) (before : list RefreshUrgency) (i : nat) (fn : Call) (sys : System) : Prop :=
  (exists p, callers sys !! i = Some (fn, p) /\ raises w p) \/ owed w sys \/ served w before sys.

Lemma call_status_step w before i fn sys l sys' :
  system_ok sys -> (exists new, submissions (shared sys) = new ++ before) ->
  call_status w before i fn sys -> step sys l = Some sys' -> call_status w before i fn sys'.
Proof.
  intros Hok [new Hnew] [(p & Hi & Hr)|[Ho|Hs]] H.
  - destruct l as [c|j c|fn']; simpl in H.
    + left. exists p. split; [|done]. destruct (scheduler sys) as [[?|?]|B o k]; [by injection H as <-| |].
      * destruct (thread_alive _); [|done]. by injection H as <-.
      * destruct (exec o c (shared sys)) as [[r s']|]; [|done]. by injection H as <-.
    + destruct (callers sys !! j) as [[fn' p']|] eqn:Ej; [|done]. simpl in H. destruct (decide (i = j)) as [<-|Hne].
      * pose proof (eq_trans (eq_sym Hi) Ej) as Epp. injection Epp as <- <-. destruct p as [[?|?]|B o k]; [done|done|].
        destruct (exec o c (shared sys)) as [[r s']|] eqn:E; [|done]. injection H as <-.
        destruct (raises_next _ _ _ _ _ _ _ Hr E) as [Hr'|Hf]; [left|right; left; by left].
        exists (k r). split; [|done]. simpl. apply list_lookup_insert_eq. by eapply lookup_lt_Some.
      * left. exists p. split; [|done]. destruct p' as [[?|?]|B o k]; [injection H as <-|done|].
        -- simpl. by rewrite list_lookup_insert_ne.
        -- destruct (exec o c (shared sys)) as [[r s']|]; [|done]. injection H as <-. simpl.
           by rewrite list_lookup_insert_ne.
    + injection H as <-. left. exists p. split; [|done]. simpl. by apply lookup_app_l_Some.
  - destruct (owed_step w sys l sys' Hok Ho H) as [?|(u & new' & Hu)]; [right; by left|].
    right. right. exists u, (new' ++ new). destruct Hu as (E & Hin & Hrank). rewrite E, Hnew, app_assoc.
    split_and!; [done|apply elem_of_app; auto|done].
  - right. right. by eapply served_step.
Qed.

Lemma call_status_run w before i fn sys ls sys' :
  system_ok sys -> (exists new, submissions (shared sys) = new ++ before) ->
  call_status w before i fn sys -> run sys ls = Some sys' -> call_status w before i fn sys'.
Proof.
  revert sys. induction ls as [|l ls IH]; intros sys Hok Hnew Hc H; simpl in H; [by injection H as <-|].
  destruct (step sys l) as [s1|] eqn:E; [|done]. simpl in H. eapply IH; [by eapply step_ok| | |exact H].
  - destruct Hnew as [new Hn]. apply step_submissions in E as [new' E]. exists (new' ++ new).
    by rewrite E, Hn, app_assoc.
  - by eapply call_status_step.
Qed.

(** ** Phases *)

Definition closed (ph : Z) : Prop :=
  decode_phase ph = PhaseStopping \/ decode_phase ph = PhaseStopped \/ decode_phase ph = PhaseFaulted.

(** The phase is stored only to close, and changed otherwise only while open. *)
Fixpoint closing {A} (p : prog A) : Prop :=
  match p with
  | Ret _ => True
  | Do o k =>
      match o in op B return (B -> Prop) -> Prop with
      | Store Phase v => fun rest => closed v /\ forall r, rest r
      | CompareExchange Phase current _ => fun rest => ~ closed current /\ forall r, rest r
      | Swap Phase _ | FetchOr Phase _ | FetchMax Phase _ | CheckedIncrement Phase => fun _ => False
      | _ => fun rest => forall r, rest r
      end (fun r => closing (k r))
  end.

Lemma closing_bind {A B} (p : prog A) (f : A -> prog B) :
  closing p -> (forall a, closing (f a)) -> closing (pbind p f).
Proof.
  intros Hp Hf. induction p as [a|C o k IH]; [apply Hf|]. cbn [pbind].
  destruct o as [x|x ?|x ?|x ?|x ?|x|x ? ?| | | |?|?| | |]; simpl in *; try destruct x; try done; try (intros r; by apply IH).
  - destruct Hp as [Hc Hp]. split; [done|]. intros r. by apply IH.
  - destruct Hp as [Hc Hp]. split; [done|]. intros r. by apply IH.
Qed.

Lemma set_phase_closing ph : closed (encode_phase ph) -> closing (set_phase ph).
Proof. done. Qed.

Lemma transition_closing a b : ~ closed (encode_phase a) -> closing (transition_phase a b).
Proof. done. Qed.

Ltac solve_closed := unfold closed; rewrite decode_encode_phase; intuition discriminate.

Ltac close :=
  repeat first
    [ progress intros
    | exact I
    | apply set_phase_closing; solve_closed
    | apply transition_closing; solve_closed
    | apply closing_bind
    | match goal with
      | |- closing (if ?b then _ else _) => destruct b
      | |- closing (match ?a with _ => _ end) => destruct a
      | |- closing (Do _ _) => cbn [closing]
      end
    | progress unfold load_phase, force_clock_discontinuity, wake, continue_with, return_, again, return_phase ].

Lemma submit_taken_closing l now taken : closing (submit_taken l now taken).
Proof. unfold submit_taken, submit_one. close. Qed.

Lemma poll_closing l now q : closing (poll l now q).
Proof. unfold poll, submit_one. close. Qed.

Lemma quiet_window_closing l now latest : closing (quiet_window l now latest).
Proof. unfold quiet_window. close; apply poll_closing. Qed.

Lemma iteration_closing l : closing (iteration l).
Proof.
  unfold iteration, running_round. close;
    first [apply submit_taken_closing|apply poll_closing|apply quiet_window_closing].
Qed.

Lemma signal_closing flags t : closing (signal flags t).
Proof. unfold signal. close. Qed.

Lemma body_closing c : closing (body c).
Proof.
  destruct c; cbn [body]; unfold hint_call, watcher_error, watcher_rescan_required, watcher_healthy,
    set_poll_health, watcher_call, filesystem_changed, force_reconcile, pause, resume, shutdown, shutdown_join;
    close; apply signal_closing.
Qed.

Lemma closing_next {A B} (o : op B) (k : B -> prog A) r c s s' :
  closing (Do o k) -> exec o c s = Some (r, s') ->
  closing (k r) /\ (closed (atomics s Phase) -> closed (atomics s' Phase)).
Proof.
  intros Hc H. run_op o H; try destruct x; simpl in *; try done; try (split; [apply Hc|tauto]).
  - split; [apply Hc|]. intros Hcl. destruct Hc as [Hc _]. to_prop. congruence.
Qed.

Definition all_closing (sys : System) : Prop :=
  closing (scheduler sys) /\ Forall (fun x => closing x.2) (callers sys).

Lemma closing_step sys l sys' : all_closing sys -> step sys l = Some sys' ->
  all_closing sys' /\ (closed (atomics (shared sys) Phase) -> closed (atomics (shared sys') Phase)).
Proof.
  intros [Hs Hcs] H. destruct l as [c|i c|fn]; simpl in H.
  - destruct (scheduler sys) as [[l|u]|B o k] eqn:Esch.
    + injection H as <-. split; [|done]. split; [apply iteration_closing|done].
    + destruct (thread_alive _); [|done]. injection H as <-. split; [|done]. by split.
    + destruct (exec o c (shared sys)) as [[r s']|] eqn:E; [|done]. injection H as <-.
      destruct (closing_next _ _ _ _ _ _ Hs E) as [H1 H2]. by split.
  - destruct (callers sys !! i) as [[fn p]|] eqn:Ei; [|done]. simpl in H.
    rewrite Forall_lookup in Hcs. pose proof (Hcs i _ Ei) as Hp. cbn [snd] in Hp. rewrite <- Forall_lookup in Hcs.
    destruct p as [[u|res]|B o k]; [injection H as <-|done|].
    + split; [|done]. split; [done|]. simpl. apply Forall_insert; [done|apply body_closing].
    + destruct (exec o c (shared sys)) as [[r s']|] eqn:E; [|done]. injection H as <-.
      destruct (closing_next _ _ _ _ _ _ Hp E) as [H1 H2]. split; [|done]. split; [done|]. simpl.
      by apply Forall_insert.
  - injection H as <-. split; [|done]. split; [done|]. simpl. apply Forall_app. split; [done|].
    constructor; [apply body_closing|constructor].
Qed.

Lemma closing_run sys ls sys' : all_closing sys -> run sys ls = Some sys' ->
  all_closing sys' /\ (closed (atomics (shared sys) Phase) -> closed (atomics (shared sys') Phase)).
Proof.
  revert sys. induction ls as [|l ls IH]; intros sys Hok H; simpl in H; [by injection H as <-|].
  destruct (step sys l) as [s1|] eqn:E; [|done]. simpl in H. destruct (closing_step _ _ _ Hok E) as [H1 H2].
  destruct (IH _ H1 H) as [H3 H4]. auto.
Qed.

Lemma spawn_closing phase : all_closing (spawn phase).
Proof. by split. Qed.

(** ** A round on its own *)

(** The program run without interference, every operation with the same choice *)
Fixpoint solo {A} (c : Choice) (p : prog A) (s : Shared) : option (A * Shared) :=
  match p with
  | Ret a => Some (a, s)
  | Do o k => '(r, s) ← exec o c s; solo c (k r) s
  end.

Lemma solo_bind {A B} c (p : prog A) (f : A -> prog B) s :
  solo c (pbind p f) s = ('(a, s) ← solo c p s; solo c (f a) s).
Proof.
  revert s. induction p as [a|C o k IH]; intros s; simpl; [done|]. destruct (exec o c s) as [[r s']|]; simpl; auto.
Qed.

Definition poll_interval (s : Shared) : Z :=
  match decode_health (atomics s Watcher) with Healthy => HEALTHY_POLL_MILLIS | Degraded => DEGRADED_POLL_MILLIS end.

(** The flags are to be submitted at time [now]. *)
Definition ripe (s : Shared) (now : Z) : bool :=
  has (atomics s Flags) FLAG_FORCE
  || (has (atomics s Flags) FLAG_DIRTY && (atomics s LatestHintTick + QUIET_WINDOW_MILLIS <=? now)).

(** What a round of the scheduler submits at time [now] *)
Definition due (s : Shared) (l : Local) (now : Z) : option RefreshUrgency :=
  if ripe s now then Some (flags_urgency (atomics s Flags))
  else if last_submit l + poll_interval s <=? now then Some Periodic
  else None.

Lemma solo_submit c s u :
  atomics s Phase = PHASE_RUNNING -> atomics s Submitted < u64_max -> ch_submit c = SubmitOk ->
  exists s', solo c (submit_one u) s = Some (StatusSubmitted, s') /\
    submissions s' = u :: submissions s /\ (forall x, x <> Submitted -> atomics s' x = atomics s x).
Proof.
  intros Hp Hs Hc. unfold submit_one. rewrite solo_bind. cbn [load_phase solo exec mbind option_bind fst snd]. rewrite Hp.
  rewrite bool_decide_true by done. cbn. rewrite Hc. cbn. unfold checked_add.
  rewrite (proj2 (Z.leb_le _ _)) by lia. cbn.
  eexists. split_and!; [reflexivity|done|]. intros x Hx. simpl. by rewrite bool_decide_false.
Qed.

Lemma solo_taken c s l now :
  atomics s Phase = PHASE_RUNNING -> atomics s Submitted < u64_max -> ch_submit c = SubmitOk ->
  exists s', solo c (do taken := Swap Flags 0 then submit_taken l now taken) s
      = Some (inl {| last_now := last_now l; last_submit := now |}, s') /\
    submissions s' = flags_urgency (atomics s Flags) :: submissions s /\ atomics s' Flags = 0.
Proof.
  intros Hp Hs Hc. cbn [solo exec mbind option_bind]. unfold submit_taken. rewrite solo_bind.
  destruct (solo_submit c (set_cell s Flags 0) (flags_urgency (atomics s Flags))) as (s' & -> & Hsub & Hx); [done..|].
  exists s'. split_and!; [done|exact Hsub|]. rewrite Hx by done. apply set_cell_eq.
Qed.

Lemma solo_poll c s l q :
  atomics s Phase = PHASE_RUNNING -> atomics s Submitted < u64_max -> ch_submit c = SubmitOk -> ch_timeout c = true ->
  last_submit l + poll_interval s <= u64_max ->
  exists s', atomics s' Flags = atomics s Flags /\
    if last_submit l + poll_interval s <=? ch_now c
    then solo c (poll l (ch_now c) q) s = Some (inl {| last_now := last_now l; last_submit := ch_now c |}, s') /\
         submissions s' = Periodic :: submissions s
    else solo c (poll l (ch_now c) q) s = Some (inl l, s') /\ submissions s' = submissions s.
Proof.
  intros Hp Hs Hc Ht Hl. unfold poll. cbn [solo exec mbind option_bind]. fold (poll_interval s).
  assert (checked_add u64_max (last_submit l) (poll_interval s) = Some (last_submit l + poll_interval s)) as ->
    by (by apply checked_add_Some).
  destruct (last_submit l + poll_interval s <=? ch_now c).
  - rewrite solo_bind. destruct (solo_submit c s Periodic) as (s' & -> & Hsub & Hx); [done..|].
    exists s'. split; [by apply Hx|]. by split.
  - cbn [solo exec]. rewrite Ht. by exists s.
Qed.

(** ** Claims *)

(** C11. An accepted hint is never lost: when a hint call has answered [true], then in
    every interleaving with other hints, pauses, resumes, shutdowns, failing
    submissions and jumps of the clock, a refresh at least as urgent as the hint asked
    for was submitted since the call began, or the hint's flags are still set, or the
    scheduler is about to submit or restore them without blocking (or has ended). *)
Theorem accepted_hint_served sys fn w sys0 ls sys' :
  reachable sys -> hint_word fn = Some w -> step sys (StartCall fn) = Some sys0 -> run sys0 ls = Some sys' ->
  callers sys' !! length (callers sys) = Some (fn, Ret (inr (Accepted true))) ->
  served w (submissions (shared sys)) sys' \/ owed w sys'.
Proof.
  intros Hr Hw Hs Hrun Hi. pose proof (reachable_ok _ Hr) as Hok. pose proof (step_ok _ _ _ Hok Hs) as Hok0.
  simpl in Hs. injection Hs as <-.
  eapply (call_status_run w (submissions (shared sys)) (length (callers sys)) fn) in Hrun
    as [(p & Hp & Hraise)|[Ho|Hserved]]; [|by right|by left|exact Hok0|by exists []|].
  - pose proof (eq_trans (eq_sym Hi) Hp) as Epp. injection Epp as <-. done.
  - left. exists (body fn). split; [|by apply body_raises]. simpl. by rewrite lookup_app_r, Nat.sub_diag.
Qed.

(** C12. No wake-up is missed and no sleep is too long: whenever the scheduler thread
    is about to wait, a message is in the channel, or a caller will send one next, or
    there is nothing to react to: while running no forced refresh is flagged and with
    a plain hint flagged the wait is at most the quiet window; while paused the phase
    is neither running nor stopping.  No wait exceeds fifteen minutes, whatever the
    clock does. *)
Theorem no_missed_wakeup sys :
  reachable sys -> thread_alive (shared sys) = true ->
  match scheduler sys with
  | Do (RecvTimeout w) _ =>
      w <= HEALTHY_POLL_MILLIS /\
      (wake_token (shared sys) = true \/ Exists (fun x => wakes (atomics (shared sys) Phase) x.2) (callers sys) \/
       (decode_phase (atomics (shared sys) Phase) = PhaseRunning /\
        has (atomics (shared sys) Flags) FLAG_FORCE = false /\
        (has (atomics (shared sys) Flags) FLAG_DIRTY = true -> w <= QUIET_WINDOW_MILLIS)))
  | Do Recv _ =>
      wake_token (shared sys) = true \/ Exists (fun x => wakes (atomics (shared sys) Phase) x.2) (callers sys) \/
      (decode_phase (atomics (shared sys) Phase) <> PhaseRunning /\
       decode_phase (atomics (shared sys) Phase) <> PhaseStopping)
  | _ => True
  end.
Proof.
  intros Hr Ha. pose proof (reachable_ok _ Hr) as [_ _ (b & Ht & _) _ _ Haw]. specialize (Haw Ha). unfold awake in Haw.
  destruct (scheduler sys) as [a|B o k]; [done|]. destruct o; try done; simpl in *.
  - destruct Haw as [Hc|[Htok|Hex]]; auto.
  - split; [by destruct Ht|]. destruct Haw as [Hc|[Htok|Hex]]; auto.
Qed.

(** C13. What one round of the scheduler does when nothing interferes: forced flags, or
    dirty flags whose latest hint is at least the quiet window old, are submitted once
    with the urgency they ask for and cleared; otherwise a periodic refresh is
    submitted when the poll interval of the watcher's health has passed, and the flags
    stay; otherwise the round only waits. *)
Theorem scheduler_round c s l :
  atomics s Phase = PHASE_RUNNING -> atomics s Submitted < u64_max -> ch_submit c = SubmitOk -> ch_timeout c = true ->
  last_now l <= ch_now c -> atomics s LatestHintTick <= ch_now c -> ch_now c + QUIET_WINDOW_MILLIS <= u64_max ->
  last_submit l + poll_interval s <= u64_max ->
  exists s',
    atomics s' Flags = (if ripe s (ch_now c) then 0 else atomics s Flags) /\
    match due s l (ch_now c) with
    | Some u =>
        solo c (iteration l) s = Some (inl {| last_now := ch_now c; last_submit := ch_now c |}, s') /\
        submissions s' = u :: submissions s
    | None =>
        solo c (iteration l) s = Some (inl {| last_now := ch_now c; last_submit := last_submit l |}, s') /\
        submissions s' = submissions s
    end.
Proof.
  intros Hp Hs Hc Hto Hn Ht Hmax Hl. unfold iteration. rewrite solo_bind. cbn [load_phase solo exec mbind option_bind].
  rewrite Hp. change (decode_phase PHASE_RUNNING) with PhaseRunning. cbv iota beta. unfold running_round.
  cbn [solo exec mbind option_bind]. rewrite solo_bind, (proj2 (Z.ltb_ge _ _) Hn). cbn [solo exec mbind option_bind].
  fold_has. set (l' := {| last_now := ch_now c; last_submit := last_submit l |}).
  pose proof (solo_taken c s l' (ch_now c) Hp Hs Hc) as (s1 & H1 & H2 & H3).
  unfold due, ripe. destruct (has (atomics s Flags) FLAG_FORCE); [exists s1; simpl; auto|].
  destruct (has (atomics s Flags) FLAG_DIRTY); cbn [orb andb].
  - cbn [solo exec mbind option_bind]. rewrite (proj2 (Z.ltb_ge _ _) Ht). unfold quiet_window.
    assert (checked_add u64_max (atomics s LatestHintTick) QUIET_WINDOW_MILLIS
      = Some (atomics s LatestHintTick + QUIET_WINDOW_MILLIS)) as -> by (apply checked_add_Some; split; [done|lia]).
    destruct (_ <=? ch_now c) eqn:E.
    + exists s1. cbn [solo exec mbind option_bind] in H1 |- *. cbn [set_cell atomics].
      rewrite bool_decide_false, Z.ltb_irrefl by done. auto.
    + destruct (solo_poll c s l' (Some (atomics s LatestHintTick + QUIET_WINDOW_MILLIS))) as (s2 & Hf & H); [done..|].
      exists s2. cbn [last_submit l'] in H.
      destruct (last_submit l + poll_interval s <=? ch_now c); destruct H; auto.
  - destruct (solo_poll c s l' None) as (s2 & Hf & H); [done..|].
    exists s2. cbn [last_submit l'] in H.
      destruct (last_submit l + poll_interval s <=? ch_now c); destruct H; auto.
Qed.

(** Closing is final: once the phase is stopping, stopped or faulted, no caller and
    no scheduler step ever opens it again, so that from then on hints are refused. *)
Theorem closed_stays_closed sys ls sys' :
  reachable sys -> closed (atomics (shared sys) Phase) -> run sys ls = Some sys' ->
  closed (atomics (shared sys') Phase) /\
  (forall flags c, solo c (signal flags true) (shared sys') = Some (false, shared sys')).
Proof.
  intros (phase & ls0 & H0) Hc H. destruct (closing_run _ _ _ (spawn_closing phase) H0) as [Hcl _].
  destruct (closing_run _ _ _ Hcl H) as [_ H1]. specialize (H1 Hc). split; [done|]. intros flags c.
  unfold signal. rewrite solo_bind. cbn [load_phase solo exec mbind option_bind].
  assert (decode_phase (atomics (shared sys') Phase) <> PhaseRunning) as Hne by (destruct H1 as [H1|[H1|H1]]; by rewrite H1).
  by rewrite (bool_decide_false _ Hne).
Qed.

(** ** The claims at concrete runs *)

Definition quiet_choice (now : Z) : Choice := {| ch_now := now; ch_submit := SubmitOk; ch_timeout := true |}.

Definition run_from (sys : System) (ls : list Label) : System := unwrap_or (run sys ls) sys.

(** The scheduler starts, submits the initial refresh and goes to sleep. *)
Definition sleeping_system : System :=
  run_from (spawn PhaseRunning) (replicate 14 (StepScheduler (quiet_choice 1000))).

Lemma sleeping_reachable : reachable sleeping_system.
Proof. exists PhaseRunning, (replicate 14 (StepScheduler (quiet_choice 1000))). vm_compute. reflexivity. Qed.

Definition hinted_start : System := run_from sleeping_system [StartCall CallFilesystemChanged].
Definition hinted_system : System := run_from hinted_start (replicate 6 (StepCaller 0 (quiet_choice 1500))).

Lemma accepted_hint_served_witness :
  served (Z.lor FLAG_DIRTY FLAG_URGENCY_HINT) (submissions (shared sleeping_system)) hinted_system \/
  owed (Z.lor FLAG_DIRTY FLAG_URGENCY_HINT) hinted_system.
Proof.
  apply (accepted_hint_served sleeping_system CallFilesystemChanged (Z.lor FLAG_DIRTY FLAG_URGENCY_HINT) hinted_start
    (replicate 6 (StepCaller 0 (quiet_choice 1500)))).
  - exact sleeping_reachable.
  - reflexivity.
  - vm_compute. reflexivity.
  - vm_compute. reflexivity.
  - vm_compute. reflexivity.
Defined.

Lemma no_missed_wakeup_witness :
  match scheduler sleeping_system with
  | Do (RecvTimeout w) _ => w <= HEALTHY_POLL_MILLIS
  | _ => False
  end.
Proof.
  pose proof (no_missed_wakeup sleeping_system sleeping_reachable eq_refl) as H.
  vm_compute in H |- *. exact (proj1 H).
Defined.

(** A plain hint at time 1500, seen at time 1750 *)
Lemma scheduler_round_witness :
  exists s', solo (quiet_choice 1750) (iteration {| last_now := 1000; last_submit := 1000 |}) (shared hinted_system)
    = Some (inl {| last_now := 1750; last_submit := 1750 |}, s') /\
    submissions s' = [Hint_; Recovery] /\ atomics s' Flags = 0.
Proof.
  destruct (scheduler_round (quiet_choice 1750) (shared hinted_system) {| last_now := 1000; last_submit := 1000 |})
    as (s' & Hf & H); [vm_compute; reflexivity|vm_compute; reflexivity|reflexivity|reflexivity|vm_compute; discriminate..|].
  assert (due (shared hinted_system) {| last_now := 1000; last_submit := 1000 |} (ch_now (quiet_choice 1750)) = Some Hint_)
    as Ed by (vm_compute; reflexivity).
  assert (ripe (shared hinted_system) (ch_now (quiet_choice 1750)) = true) as Er by (vm_compute; reflexivity).
  rewrite Ed in H. rewrite Er in Hf. destruct H as [H1 H2]. exists s'. split_and!; [exact H1| |exact Hf].
  rewrite H2. vm_compute. reflexivity.
Defined.

Definition closed_system : System :=
  run_from sleeping_system (StartCall CallShutdown :: replicate 3 (StepCaller 0 (quiet_choice 2000))).

Lemma closed_stays_closed_witness :
  closed (atomics (shared (run_from closed_system [StepCaller 0 (quiet_choice 2001)])) Phase).
Proof.
  apply (closed_stays_closed closed_system [StepCaller 0 (quiet_choice 2001)]).
  - exists PhaseRunning, (replicate 14 (StepScheduler (quiet_choice 1000))
      ++ StartCall CallShutdown :: replicate 3 (StepCaller 0 (quiet_choice 2000))). vm_compute. reflexivity.
  - left. vm_compute. reflexivity.
  - vm_compute. reflexivity.
Defined.
