(* ===== verification/Pricing.v ===== *)
(** * Token prices

    Models [crates/pricing/src/lib.rs]: decimal rates, the token counts a price
    is based on, the cost of a basis in whole micro-dollars and the embedded
    price catalog. *)

From stdpp Require Import sets.
From S2P Require Import Prelude.

(** ** Data *)

Definition u128_max : Z := 2 ^ 128 - 1.

Definition CATALOG_ID : str := lit "openai-api-2026-07-16-v1".
Definition MAX_RATE_MICROS_PER_MILLION : Z := 1000000000000.
Definition TOKENS_PER_MILLION : Z := 1000000.
Definition HALF_TOKEN_MILLION : Z := TOKENS_PER_MILLION / 2.

Inductive ServiceTier := StandardReported | StandardAssumed | Priority | UnknownTier.
#[export] Instance ServiceTier_eq_dec : EqDecision ServiceTier.
Proof. solve_decision. Defined.

Inductive ContextClass := Short | Long | UnavailableContext.

Inductive PriceErrorCode :=
| ModelUnpriced
| TierUnknown
| ContextUnavailable
| TierContextUnsupported
| TokenBasisUnavailable
| InconsistentTokenBasis
| InvalidRate
| ArithmeticOverflow
| InvalidPriceRow
| TooManyPriceRows.
#[export] Instance PriceErrorCode_eq_dec : EqDecision PriceErrorCode.
Proof. solve_decision. Defined.

(** [UsdMicros] and [UsdPerMillion] are [u64] newtypes. *)

(** ** [UsdPerMillion::parse] *)

(** [str::split_once] at a character *)
Fixpoint split_once (c : Z) (s : str) : option (str * str) :=
  match s with
  | [] => None
  | x :: s =>
      if x =? c then Some ([], s)
      else match split_once c s with
           | Some (before, after) => Some (x :: before, after)
           | None => None
           end
  end.

(** [value.matches(c).count()] *)
Definition count_char (c : Z) (s : str) : Z :=
  Z.of_nat (length (List.filter (fun x => x =? c) s)).

Fixpoint parse_ascii_from (acc : Z) (bytes : list Z) : result Z PriceErrorCode :=
  match bytes with
  | [] => Ok acc
  | byte :: bytes =>
      match checked_mul u64_max acc 10 with
      | None => Err InvalidRate
      | Some current =>
          match checked_add u64_max current (byte - 48) with
          | None => Err InvalidRate
          | Some acc => parse_ascii_from acc bytes
          end
      end
  end.

Definition parse_ascii_u64 (value : str) : result Z PriceErrorCode :=
  parse_ascii_from 0 (as_bytes value).

Definition all_ascii_digits (s : str) : bool := forallb is_ascii_digit (as_bytes s).

Definition UsdPerMillion_parse (value : str) : result Z PriceErrorCode :=
  let '(whole, fractional) :=
    match split_once 46 value with
    | Some (before, after) => (before, Some after)
    | None => (value, None)
    end in
  fail_if bool_decide (whole = [])
    || negb (all_ascii_digits whole)
    || (1 <? count_char 46 value)
    || is_some_and fractional (fun digits =>
         bool_decide (digits = []) || (6 <? str_len digits) || negb (all_ascii_digits digits))
  with InvalidRate else
  let? whole := parse_ascii_u64 whole in
  let? whole_micros := ok_or (checked_mul u64_max whole 1000000) InvalidRate in
  let? fractional_micros :=
    match fractional with
    | Some digits =>
        let? parsed := parse_ascii_u64 digits in
        ok_or (checked_mul u64_max parsed (10 ^ (saturating_sub 6 (str_len digits)))) InvalidRate
    | None => Ok 0
    end in
  ok_or
    (option_filter (checked_add u64_max whole_micros fractional_micros)
       (fun value => value <=? MAX_RATE_MICROS_PER_MILLION))
    InvalidRate.

(** ** The price basis of observed token counts *)

Record TokenPriceBasis := {
  uncached_input_tokens : Z;
  cached_input_tokens : Z;
  billable_output_tokens : Z
}.

Record ObservedTokens := {
  ot_input : option Z;
  ot_cached_input : option Z;
  ot_output : option Z;
  ot_reasoning : option Z;
  ot_total : option Z
}.

Definition derive_price_basis (t : ObservedTokens) : result TokenPriceBasis PriceErrorCode :=
  let? input := ok_or (ot_input t) TokenBasisUnavailable in
  let? cached := ok_or (ot_cached_input t) TokenBasisUnavailable in
  let? uncached := ok_or (checked_sub input cached) InconsistentTokenBasis in
  let? observed_output :=
    match ot_output t, ot_reasoning t with
    | Some output, Some reasoning =>
        let? sum := ok_or (checked_add u64_max output reasoning) ArithmeticOverflow in
        Ok (Some sum)
    | _, _ => Ok None
    end in
  let? billable_output :=
    match ot_total t with
    | Some total =>
        let? derived := ok_or (checked_sub total input) InconsistentTokenBasis in
        fail_if is_some_and observed_output (fun observed => negb (observed =? derived))
        with InconsistentTokenBasis else
        Ok derived
    | None => ok_or observed_output TokenBasisUnavailable
    end in
  Ok {| uncached_input_tokens := uncached;
        cached_input_tokens := cached;
        billable_output_tokens := billable_output |}.

(** ** Cost *)

Record PriceRates := {
  uncached_input : Z;
  cached_input : Z;
  billable_output : Z
}.
#[export] Instance PriceRates_eq_dec : EqDecision PriceRates.
Proof. solve_decision. Defined.

Fixpoint accumulate (numerator : Z) (pairs : list (Z * Z)) : result Z PriceErrorCode :=
  match pairs with
  | [] => Ok numerator
  | (tokens, rate) :: pairs =>
      let? component := ok_or (checked_mul u128_max tokens rate) ArithmeticOverflow in
      let? numerator := ok_or (checked_add u128_max numerator component) ArithmeticOverflow in
      accumulate numerator pairs
  end.

Definition calculate_numerator (rates : PriceRates) (basis : TokenPriceBasis)
  : result Z PriceErrorCode :=
  accumulate 0
    [(uncached_input_tokens basis, uncached_input rates);
     (cached_input_tokens basis, cached_input rates);
     (billable_output_tokens basis, billable_output rates)].

Definition round_numerator (numerator : Z) : result Z PriceErrorCode :=
  let? sum := ok_or (checked_add u128_max numerator HALF_TOKEN_MILLION) ArithmeticOverflow in
  let rounded := sum / TOKENS_PER_MILLION in
  if rounded <=? u64_max then Ok rounded else Err ArithmeticOverflow.

Definition calculate_cost (rates : PriceRates) (basis : TokenPriceBasis) : result Z PriceErrorCode :=
  let? numerator := calculate_numerator rates basis in
  round_numerator numerator.

(** ** The embedded catalog *)

Record ModelRule := {
  canonical_model : str;
  aliases : list str;
  standard_short : PriceRates;
  standard_long : option PriceRates;
  priority_short : option PriceRates;
  priority_long : option PriceRates
}.

Definition select_rule_rates (rule : ModelRule) (tier : ServiceTier) (context : ContextClass)
  : result PriceRates PriceErrorCode :=
  match tier, context with
  | UnknownTier, _ => Err TierUnknown
  | _, UnavailableContext => Err ContextUnavailable
  | (StandardReported | StandardAssumed), Short => Ok (standard_short rule)
  | (StandardReported | StandardAssumed), Long => ok_or (standard_long rule) TierContextUnsupported
  | Priority, Short => ok_or (priority_short rule) TierContextUnsupported
  | Priority, Long => ok_or (priority_long rule) TierContextUnsupported
  end.

Definition rates (input cached output : Z) : PriceRates :=
  {| uncached_input := input; cached_input := cached; billable_output := output |}.

Definition CATALOG : list ModelRule := [
  {| canonical_model := lit "gpt-5.6-sol";
     aliases := [lit "gpt-5.6"];
     standard_short := rates 5000000 500000 30000000;
     standard_long := Some (rates 10000000 1000000 45000000);
     priority_short := Some (rates 10000000 1000000 60000000);
     priority_long := None |};
  {| canonical_model := lit "gpt-5.6-terra";
     aliases := [];
     standard_short := rates 2500000 250000 15000000;
     standard_long := Some (rates 5000000 500000 22500000);
     priority_short := Some (rates 5000000 500000 30000000);
     priority_long := None |};
  {| canonical_model := lit "gpt-5.6-luna";
     aliases := [];
     standard_short := rates 1000000 100000 6000000;
     standard_long := Some (rates 2000000 200000 9000000);
     priority_short := Some (rates 2000000 200000 12000000);
     priority_long := None |};
  {| canonical_model := lit "gpt-5.5";
     aliases := [lit "gpt-5.5-2026-04-23"];
     standard_short := rates 5000000 500000 30000000;
     standard_long := Some (rates 10000000 1000000 45000000);
     priority_short := Some (rates 12500000 1250000 75000000);
     priority_long := None |};
  {| canonical_model := lit "gpt-5.5-pro";
     aliases := [lit "gpt-5.5-pro-2026-04-23"];
     standard_short := rates 30000000 30000000 180000000;
     standard_long := None;
     priority_short := None;
     priority_long := None |};
  {| canonical_model := lit "gpt-5.4";
     aliases := [lit "gpt-5.4-2026-03-05"];
     standard_short := rates 2500000 250000 15000000;
     standard_long := Some (rates 5000000 500000 22500000);
     priority_short := Some (rates 5000000 500000 30000000);
     priority_long := None |};
  {| canonical_model := lit "gpt-5.4-pro";
     aliases := [lit "gpt-5.4-pro-2026-03-05"];
     standard_short := rates 30000000 30000000 180000000;
     standard_long := Some (rates 60000000 60000000 270000000);
     priority_short := None;
     priority_long := None |};
  {| canonical_model := lit "gpt-5.4-mini";
     aliases := [lit "gpt-5.4-mini-2026-03-17"];
     standard_short := rates 750000 75000 4500000;
     standard_long := None;
     priority_short := Some (rates 1500000 150000 9000000);
     priority_long := None |};
  {| canonical_model := lit "gpt-5.4-nano";
     aliases := [lit "gpt-5.4-nano-2026-03-17"];
     standard_short := rates 200000 20000 1250000;
     standard_long := None;
     priority_short := None;
     priority_long := None |};
  {| canonical_model := lit "gpt-5.3-codex";
     aliases := [];
     standard_short := rates 1750000 175000 14000000;
     standard_long := None;
     priority_short := None;
     priority_long := None |};
  {| canonical_model := lit "gpt-5.2";
     aliases := [lit "gpt-5.2-2025-12-11"; lit "gpt-5.2-codex"];
     standard_short := rates 1750000 175000 14000000;
     standard_long := None;
     priority_short := Some (rates 3500000 350000 28000000);
     priority_long := None |};
  {| canonical_model := lit "gpt-5.1";
     aliases := [lit "gpt-5.1-codex"; lit "gpt-5.1-codex-max"];
     standard_short := rates 1250000 125000 10000000;
     standard_long := None;
     priority_short := Some (rates 2500000 250000 20000000);
     priority_long := None |};
  {| canonical_model := lit "gpt-5";
     aliases := [lit "gpt-5-2025-08-07"; lit "gpt-5-codex"];
     standard_short := rates 1250000 125000 10000000;
     standard_long := None;
     priority_short := Some (rates 2500000 250000 20000000);
     priority_long := None |};
  {| canonical_model := lit "gpt-5-mini";
     aliases := [lit "gpt-5-mini-2025-08-07"];
     standard_short := rates 250000 25000 2000000;
     standard_long := None;
     priority_short := Some (rates 450000 45000 3600000);
     priority_long := None |};
  {| canonical_model := lit "gpt-5-nano";
     aliases := [lit "gpt-5-nano-2025-08-07"];
     standard_short := rates 50000 5000 400000;
     standard_long := None;
     priority_short := None;
     priority_long := None |}
].

Record PriceQuote := {
  pq_amount : Z;
  pq_canonical_model : str;
  pq_assumed_standard : bool
}.

Definition rule_names (rule : ModelRule) (model : str) : bool :=
  bool_decide (canonical_model rule = model) || bool_decide (model ∈ aliases rule).

Definition EmbeddedCatalog_price (model : str) (tier : ServiceTier) (context : ContextClass)
    (basis : TokenPriceBasis) : result PriceQuote PriceErrorCode :=
  let? rule := ok_or (List.find (fun rule => rule_names rule model) CATALOG) ModelUnpriced in
  let? rates := select_rule_rates rule tier context in
  let? amount := calculate_cost rates basis in
  Ok {| pq_amount := amount;
        pq_canonical_model := canonical_model rule;
        pq_assumed_standard := bool_decide (tier = StandardAssumed) |}.

(** ** Well-formedness *)

Definition rate_ok (r : Z) : Prop := 0 <= r <= MAX_RATE_MICROS_PER_MILLION.
Definition rates_ok (r : PriceRates) : Prop :=
  rate_ok (uncached_input r) /\ rate_ok (cached_input r) /\ rate_ok (billable_output r).
Definition basis_ok (b : TokenPriceBasis) : Prop :=
  in_u64 (uncached_input_tokens b) /\ in_u64 (cached_input_tokens b) /\
  in_u64 (billable_output_tokens b).

(** The exact cost, in micro-dollars times one million *)
Definition exact_numerator (r : PriceRates) (b : TokenPriceBasis) : Z :=
  uncached_input_tokens b * uncached_input r
  + cached_input_tokens b * cached_input r
  + billable_output_tokens b * billable_output r.

(** ** Rates *)

(** The text of a decimal number and its value *)
Definition decimal_text (whole : str) (fraction : option str) : str :=
  match fraction with Some digits => whole ++ 46 :: digits | None => whole end.

Definition digits_value (acc : Z) (digits : str) : Z :=
  fold_left (fun acc d => acc * 10 + (d - 48)) digits acc.

Definition all_digits (s : str) : Prop := Forall (fun c => 48 <= c <= 57) s.

Definition decimal_micros (whole : str) (fraction : option str) : Z :=
  digits_value 0 whole * 1000000
  + match fraction with
    | Some digits => digits_value 0 digits * 10 ^ (6 - Z.of_nat (length digits))
    | None => 0
    end.

Lemma is_ascii_digit_iff c : is_ascii_digit c = true <-> 48 <= c <= 57.
Proof. unfold is_ascii_digit. rewrite andb_true_iff, !Z.leb_le. lia. Qed.

Lemma utf8_char_digits c :
  forallb is_ascii_digit (utf8_char c) = true <-> 48 <= c <= 57.
Proof.
  unfold utf8_char. destruct (c <? 128) eqn:E1; to_prop.
  { simpl. rewrite andb_true_r. apply is_ascii_digit_iff. }
  split; [|lia]. intros H. exfalso.
  assert (2 <= c / 64) by (apply Z.div_le_lower_bound; lia).
  assert (0 <= c / 4096) by (apply Z.div_pos; lia).
  assert (0 <= c / 262144) by (apply Z.div_pos; lia).
  repeat split_in H; simpl in H; apply andb_prop in H as [H _];
    apply is_ascii_digit_iff in H; lia.
Qed.

Lemma all_ascii_digits_iff s : all_ascii_digits s = true <-> all_digits s.
Proof.
  unfold all_ascii_digits, all_digits. induction s as [|c s IH]; simpl; [done|].
  rewrite forallb_app, andb_true_iff, utf8_char_digits, IH, Forall_cons. done.
Qed.

Lemma as_bytes_digits s : all_digits s -> as_bytes s = s.
Proof.
  induction 1 as [|c s Hc Hs IH]; simpl; [done|]. rewrite IH. unfold utf8_char.
  destruct (c <? 128) eqn:E; to_prop; [done|lia].
Qed.

Lemma digits_value_cons acc c s :
  digits_value acc (c :: s) = digits_value (acc * 10 + (c - 48)) s.
Proof. done. Qed.

Lemma digits_value_mono acc s : all_digits s -> 0 <= acc -> acc <= digits_value acc s.
Proof.
  intros Hs. revert acc. induction Hs as [|c s Hc Hs IH]; intros acc Ha; [cbn; lia|].
  rewrite digits_value_cons. specialize (IH (acc * 10 + (c - 48))). lia.
Qed.

(** Overflow of an intermediate value means overflow of the result. *)
Lemma parse_ascii_from_spec acc s v :
  all_digits s -> 0 <= acc <= u64_max ->
  parse_ascii_from acc s = Ok v <-> v = digits_value acc s /\ digits_value acc s <= u64_max.
Proof.
  intros Hs. revert acc. induction Hs as [|c s Hc Hs IH]; intros acc Ha.
  { cbn. split; [intros [= <-]; split; [done|lia]|by intros [-> _]]. }
  rewrite digits_value_cons. cbn [parse_ascii_from].
  pose proof (digits_value_mono (acc * 10 + (c - 48)) s Hs) as Hm.
  unfold checked_mul. destruct (acc * 10 <=? u64_max) eqn:E1; to_prop.
  - unfold checked_add. destruct (acc * 10 + (c - 48) <=? u64_max) eqn:E2; to_prop.
    + apply IH. lia.
    + split; [done|]. intros [_ H]. lia.
  - split; [done|]. intros [_ H]. lia.
Qed.

Lemma parse_ascii_u64_spec s v :
  all_digits s -> parse_ascii_u64 s = Ok v <-> v = digits_value 0 s /\ digits_value 0 s <= u64_max.
Proof.
  intros Hs. unfold parse_ascii_u64. rewrite as_bytes_digits by done.
  apply parse_ascii_from_spec; [done|]. unfold u64_max. lia.
Qed.

Lemma split_once_Some c s a b : split_once c s = Some (a, b) <-> s = a ++ c :: b /\ c ∉ a.
Proof.
  revert a b. induction s as [|x s IH]; intros a b; simpl.
  { split; [done|]. intros [H _]. by destruct a. }
  destruct (x =? c) eqn:E; to_prop.
  - subst x. split.
    + intros [= <- <-]. split; [done|apply not_elem_of_nil].
    + intros [H Hn]. destruct a as [|y a]; simplify_eq/=; [done|]. set_solver.
  - destruct (split_once c s) as [[a' b']|] eqn:Es.
    + destruct (proj1 (IH a' b')) as [-> Hn]; [done|]. split.
      * intros [= <- <-]. split; [done|]. apply not_elem_of_cons. auto.
      * intros [H Hn']. destruct a as [|y a]; simplify_eq/=.
        apply not_elem_of_cons in Hn' as [_ Hn'].
        assert (Some (a', b') = Some (a, b)) as Heq by (by apply IH). congruence.
    + split; [done|]. intros [H Hn]. destruct a as [|y a]; simplify_eq/=.
      apply not_elem_of_cons in Hn as [_ Hn].
      assert (None = Some (a, b)) as Heq by (by apply IH). done.
Qed.

Lemma split_once_None c s : split_once c s = None <-> c ∉ s.
Proof.
  induction s as [|x s IH]; simpl; [split; [intros _; apply not_elem_of_nil|done]|].
  rewrite not_elem_of_cons. destruct (x =? c) eqn:E; to_prop; [split; [done|naive_solver]|].
  destruct (split_once c s) as [[]|]; naive_solver.
Qed.

Lemma count_char_zero c s : c ∉ s -> count_char c s = 0.
Proof.
  unfold count_char. induction s as [|x s IH]; simpl; [done|].
  rewrite not_elem_of_cons. intros [Hx Hs]. destruct (x =? c) eqn:E; to_prop; [by subst|auto].
Qed.

Lemma count_char_app c s t : count_char c (s ++ t) = count_char c s + count_char c t.
Proof. unfold count_char. rewrite List.filter_app, length_app. lia. Qed.

Lemma digits_no_dot s : all_digits s -> 46 ∉ s.
Proof. unfold all_digits. rewrite Forall_forall. intros H Hin. specialize (H _ Hin). simpl in H. lia. Qed.

(** The guard of [parse], clause by clause *)
Definition rate_guard (whole : str) (fractional : option str) (value : str) : bool :=
  bool_decide (whole = [])
  || negb (all_ascii_digits whole)
  || (1 <? count_char 46 value)
  || is_some_and fractional (fun digits =>
       bool_decide (digits = []) || (6 <? str_len digits) || negb (all_ascii_digits digits)).

Definition rate_shape (whole : str) (fraction : option str) : Prop :=
  whole <> [] /\ all_digits whole /\
  forall digits, fraction = Some digits ->
    digits <> [] /\ (length digits <= 6)%nat /\ all_digits digits.

Lemma rate_guard_passes w f :
  rate_guard w f (decimal_text w f) = false <-> rate_shape w f.
Proof.
  unfold rate_guard, rate_shape. rewrite !orb_false_iff, negb_false_iff, all_ascii_digits_iff.
  rewrite bool_decide_eq_false, Z.ltb_ge. destruct f as [d|]; simpl.
  - rewrite !orb_false_iff, negb_false_iff, all_ascii_digits_iff, bool_decide_eq_false, Z.ltb_ge.
    rewrite count_char_app. split.
    + intros (((Hw & Hd) & _) & ((Hne & Hl) & Hdd)). split_and!; auto. intros d' [= <-].
      unfold str_len in Hl. rewrite as_bytes_digits in Hl by done. split_and!; auto. lia.
    + intros (Hw & Hd & H). destruct (H d eq_refl) as (Hne & Hl & Hdd).
      unfold str_len. rewrite as_bytes_digits by done.
      rewrite (count_char_zero 46 w) by (by apply digits_no_dot).
      change (46 :: d) with ([46] ++ d). rewrite count_char_app.
      rewrite (count_char_zero 46 d) by (by apply digits_no_dot).
      split_and!; auto; try lia. done.
  - split; [intros (((Hw & Hd) & _) & _); by split_and!|].
    intros (Hw & Hd & _). split_and!; auto.
    rewrite count_char_zero by (by apply digits_no_dot). lia.
Qed.

(** Splitting at the first dot inverts [decimal_text] on digit strings. *)
Lemma split_decimal_text w f :
  all_digits w ->
  (forall digits, f = Some digits -> all_digits digits) ->
  match split_once 46 (decimal_text w f) with
  | Some (before, after) => (before, Some after)
  | None => (decimal_text w f, None)
  end = (w, f).
Proof.
  intros Hw Hf. destruct f as [d|]; simpl.
  - rewrite (proj2 (split_once_Some 46 _ w d)); [done|]. split; [done|by apply digits_no_dot].
  - rewrite (proj2 (split_once_None 46 w)); [done|by apply digits_no_dot].
Qed.

Lemma decimal_text_split v :
  exists w f, v = decimal_text w f /\
    match split_once 46 v with
    | Some (before, after) => (before, Some after)
    | None => (v, None)
    end = (w, f).
Proof.
  destruct (split_once 46 v) as [[a b]|] eqn:E.
  - apply split_once_Some in E as [-> _]. by exists a, (Some b).
  - by exists v, None.
Qed.

(** The arithmetic of [parse] once its guard has passed *)
Definition rate_value (whole : str) (fractional : option str) : result Z PriceErrorCode :=
  let? whole := parse_ascii_u64 whole in
  let? whole_micros := ok_or (checked_mul u64_max whole 1000000) InvalidRate in
  let? fractional_micros :=
    match fractional with
    | Some digits =>
        let? parsed := parse_ascii_u64 digits in
        ok_or (checked_mul u64_max parsed (10 ^ (saturating_sub 6 (str_len digits)))) InvalidRate
    | None => Ok 0
    end in
  ok_or
    (option_filter (checked_add u64_max whole_micros fractional_micros)
       (fun value => value <=? MAX_RATE_MICROS_PER_MILLION))
    InvalidRate.

Lemma parse_split v w f :
  match split_once 46 v with
  | Some (before, after) => (before, Some after)
  | None => (v, None)
  end = (w, f) ->
  UsdPerMillion_parse v = if rate_guard w f v then Err InvalidRate else rate_value w f.
Proof. intros E. unfold UsdPerMillion_parse. by rewrite E. Qed.

Lemma digits_value_bound acc s :
  all_digits s -> 0 <= acc ->
  digits_value acc s < (acc + 1) * 10 ^ Z.of_nat (length s).
Proof.
  intros Hs. revert acc. induction Hs as [|c s Hc Hs IH]; intros acc Ha; [cbn; lia|].
  rewrite digits_value_cons. cbn [length]. rewrite Nat2Z.inj_succ, Z.pow_succ_r by lia.
  specialize (IH (acc * 10 + (c - 48)) ltac:(lia)).
  pose proof (Z.pow_pos_nonneg 10 (Z.of_nat (length s))). nia.
Qed.

(** A fraction of at most six digits never overflows. *)
Lemma fraction_value d :
  (length d <= 6)%nat -> all_digits d ->
  (let? parsed := parse_ascii_u64 d in
   ok_or (checked_mul u64_max parsed (10 ^ (saturating_sub 6 (str_len d)))) InvalidRate)
  = Ok (digits_value 0 d * 10 ^ (6 - Z.of_nat (length d))) /\
  0 <= digits_value 0 d * 10 ^ (6 - Z.of_nat (length d)) < 1000000.
Proof.
  intros Hl Hd. pose proof (digits_value_bound 0 d Hd ltac:(lia)) as Hb.
  pose proof (digits_value_mono 0 d Hd ltac:(lia)) as Hm.
  assert (10 ^ Z.of_nat (length d) <= 10 ^ 6) by (apply Z.pow_le_mono_r; lia).
  assert (10 ^ Z.of_nat (length d) * 10 ^ (6 - Z.of_nat (length d)) = 1000000) as Hp.
  { rewrite <- Z.pow_add_r by lia. replace (_ + _) with 6 by lia. done. }
  assert (0 < 10 ^ (6 - Z.of_nat (length d))) by (apply Z.pow_pos_nonneg; lia).
  assert (0 <= digits_value 0 d * 10 ^ (6 - Z.of_nat (length d)) < 1000000) as Hr by nia.
  split; [|done].
  rewrite (proj2 (parse_ascii_u64_spec d _ Hd)) by (split; [done|unfold u64_max; lia]).
  unfold str_len. rewrite as_bytes_digits by done. cbn [rbind]. apply ok_or_Ok, checked_mul_Some.
  unfold saturating_sub. rewrite Z.max_r by lia. unfold u64_max. split; [done|lia].
Qed.

Lemma rate_value_spec w f m :
  rate_shape w f ->
  rate_value w f = Ok m <->
  m = decimal_micros w f /\ m <= MAX_RATE_MICROS_PER_MILLION.
Proof.
  intros (Hw & Hd & Hf). unfold rate_value, decimal_micros.
  pose proof (digits_value_mono 0 w Hd ltac:(lia)) as Hw0.
  set (fr := match f with Some digits => _ | None => 0 end).
  assert (match f with
          | Some digits => let? parsed := parse_ascii_u64 digits in
              ok_or (checked_mul u64_max parsed (10 ^ (saturating_sub 6 (str_len digits)))) InvalidRate
          | None => Ok 0 end = Ok fr /\ 0 <= fr < 1000000) as [-> Hfr].
  { destruct f as [d|]; [|split; [done|subst fr; lia]].
    destruct (Hf d eq_refl) as (_ & Hl & Hdd). by apply fraction_value. }
  clearbody fr. unfold MAX_RATE_MICROS_PER_MILLION, u64_max. split.
  - intros (W & [-> _]%parse_ascii_u64_spec & H)%rbind_ok; [|done].
    apply rbind_ok in H as (x & [-> _]%ok_or_Ok%checked_mul_Some & H).
    cbn [rbind] in H. apply ok_or_Ok, option_filter_Some in H as [[-> _]%checked_add_Some H]. to_prop. done.
  - intros [-> Hm].
    rewrite (proj2 (parse_ascii_u64_spec w _ Hd)) by (split; [done|unfold u64_max; lia]).
    cbn [rbind]. rewrite (proj2 (checked_mul_Some _ _ _ _)) by (split; [done|lia]).
    cbn [rbind ok_or]. apply ok_or_Ok, option_filter_Some.
    rewrite checked_add_Some, Z.leb_le. split_and!; [done|lia|done].
Qed.

(** [UsdPerMillion::parse] accepts exactly the decimal notations with at least
    one digit before an optional dot followed by one to six digits whose value
    does not exceed the maximum rate, and returns that value in millionths,
    without rounding; everything else, overflow included, is refused. *)
Theorem parse_rate_exact (v : str) (m : Z) :
  UsdPerMillion_parse v = Ok m <->
  exists w f, v = decimal_text w f /\ rate_shape w f /\
    m = decimal_micros w f /\ m <= MAX_RATE_MICROS_PER_MILLION.
Proof.
  split.
  - intros H. destruct (decimal_text_split v) as (w & f & -> & E).
    rewrite (parse_split _ w f E) in H.
    destruct (rate_guard w f (decimal_text w f)) eqn:G; [done|].
    apply rate_guard_passes in G. exists w, f.
    apply rate_value_spec in H as [-> Hm]; [|done]. done.
  - intros (w & f & -> & Hs & Hm). pose proof Hs as (_ & Hd & Hf).
    rewrite (parse_split _ w f) by (apply split_decimal_text; [done|naive_solver]).
    rewrite (proj2 (rate_guard_passes w f) Hs). by apply rate_value_spec.
Qed.

(** ** Price basis and cost *)

(** [derive_price_basis] succeeds exactly when input, cached input and either
    a total or both output and reasoning counts are present and consistent
    (cached within input, input within total, the output parts adding up to the
    rest of the total, no [u64] overflow), and then splits the input into
    uncached and cached tokens and bills everything that is not input. *)
Theorem derive_price_basis_spec (t : ObservedTokens) (b : TokenPriceBasis) :
  derive_price_basis t = Ok b <->
  exists input cached, ot_input t = Some input /\ ot_cached_input t = Some cached /\
    cached <= input /\
    uncached_input_tokens b = input - cached /\ cached_input_tokens b = cached /\
    (forall output reasoning, ot_output t = Some output -> ot_reasoning t = Some reasoning ->
       output + reasoning <= u64_max /\ billable_output_tokens b = output + reasoning) /\
    match ot_total t with
    | Some total => input <= total /\ billable_output_tokens b = total - input
    | None => ot_output t <> None /\ ot_reasoning t <> None
    end.
Proof.
  destruct t as [[input|] [cached|] out rea tot], b as [u c o]; unfold derive_price_basis; simpl;
    [|by split; [|naive_solver]..].
  unfold checked_sub. destruct (cached <=? input) eqn:E1; simpl; to_prop.
  2: { split; [done|]. intros (i & k & [= <-] & [= <-] & ?). lia. }
  destruct out as [out|], rea as [rea|], tot as [tot|]; simpl; unfold checked_sub, checked_add;
    repeat (match goal with |- context [?a <=? ?b] => destruct (a <=? b) eqn:? end; simpl; to_prop);
    repeat (match goal with |- context [?a =? ?b] => destruct (a =? b) eqn:? end; simpl; to_prop);
    (split;
     [ intros [= <- <- <-] || done;
       exists input, cached; split_and!; try done; naive_solver lia
     | intros (i & k & [= <-] & [= <-] & ? & -> & -> & Ho & Ht);
       try specialize (Ho _ _ eq_refl eq_refl);
       repeat (f_equal || lia || naive_solver) ]).
Qed.

Lemma exact_numerator_bound r b :
  rates_ok r -> basis_ok b ->
  0 <= exact_numerator r b <= 3 * (u64_max * MAX_RATE_MICROS_PER_MILLION).
Proof.
  intros (H1 & H2 & H3) (G1 & G2 & G3). unfold exact_numerator, rate_ok, in_u64 in *.
  assert (forall x y, 0 <= x <= u64_max -> 0 <= y <= MAX_RATE_MICROS_PER_MILLION ->
    0 <= x * y <= u64_max * MAX_RATE_MICROS_PER_MILLION) as Hm by (intros; nia).
  pose proof (Hm _ _ G1 H1). pose proof (Hm _ _ G2 H2). pose proof (Hm _ _ G3 H3). lia.
Qed.

(** The [u128] accumulator never overflows. *)
Lemma calculate_numerator_exact r b :
  rates_ok r -> basis_ok b -> calculate_numerator r b = Ok (exact_numerator r b).
Proof.
  intros Hr Hb. pose proof (exact_numerator_bound r b Hr Hb) as Hn.
  destruct Hr as (H1 & H2 & H3), Hb as (G1 & G2 & G3).
  unfold exact_numerator, rate_ok, in_u64 in *.
  assert (3 * (u64_max * MAX_RATE_MICROS_PER_MILLION) <= u128_max) by (by vm_compute).
  assert (0 <= uncached_input_tokens b * uncached_input r) by nia.
  assert (0 <= cached_input_tokens b * cached_input r) by nia.
  assert (0 <= billable_output_tokens b * billable_output r) by nia.
  unfold calculate_numerator. cbn [accumulate].
  repeat (rewrite (proj2 (checked_mul_Some _ _ _ _)) by (split; [reflexivity|lia]); cbn [ok_or rbind];
          rewrite (proj2 (checked_add_Some _ _ _ _)) by (split; [reflexivity|lia]); cbn [ok_or rbind]); f_equal; lia.
Qed.

Lemma round_numerator_Ok n a :
  0 <= n <= u128_max - HALF_TOKEN_MILLION ->
  round_numerator n = Ok a <->
  0 <= a <= u64_max /\ TOKENS_PER_MILLION * a - HALF_TOKEN_MILLION <= n
    < TOKENS_PER_MILLION * a + HALF_TOKEN_MILLION.
Proof.
  intros Hn. unfold round_numerator.
  rewrite (proj2 (checked_add_Some _ _ _ _)) by (split; [reflexivity|lia]). cbn [ok_or rbind].
  unfold HALF_TOKEN_MILLION, TOKENS_PER_MILLION in *. change (1000000 / 2) with 500000 in *.
  pose proof (Z.div_mod (n + 500000) 1000000). pose proof (Z.mod_pos_bound (n + 500000) 1000000).
  destruct (_ <=? u64_max) eqn:E; to_prop; split.
  - intros [= <-]. lia.
  - intros Ha. f_equal. lia.
  - done.
  - intros Ha. lia.
Qed.

Lemma round_numerator_Err n e :
  0 <= n <= u128_max - HALF_TOKEN_MILLION ->
  round_numerator n = Err e <->
  e = ArithmeticOverflow /\ TOKENS_PER_MILLION * u64_max + HALF_TOKEN_MILLION <= n.
Proof.
  intros Hn. unfold round_numerator.
  rewrite (proj2 (checked_add_Some _ _ _ _)) by (split; [reflexivity|lia]). cbn [ok_or rbind].
  unfold HALF_TOKEN_MILLION, TOKENS_PER_MILLION in *. change (1000000 / 2) with 500000 in *.
  pose proof (Z.div_mod (n + 500000) 1000000). pose proof (Z.mod_pos_bound (n + 500000) 1000000).
  destruct (_ <=? u64_max) eqn:E; to_prop; split; try done.
  - intros [_ ?]. lia.
  - intros [= <-]. split; [done|lia].
  - by intros [-> _].
Qed.

(** C40. For rates and counts in range the cost is the exact sum of tokens times
    rates rounded to the nearest micro-dollar, halves upwards; the [u128]
    arithmetic never overflows, and the only error is an amount that does not
    fit in [u64]. *)
Theorem calculate_cost_exact (r : PriceRates) (b : TokenPriceBasis) :
  rates_ok r -> basis_ok b ->
  (forall a, calculate_cost r b = Ok a <->
     0 <= a <= u64_max /\
     TOKENS_PER_MILLION * a - HALF_TOKEN_MILLION <= exact_numerator r b
       < TOKENS_PER_MILLION * a + HALF_TOKEN_MILLION) /\
  (forall e, calculate_cost r b = Err e <->
     e = ArithmeticOverflow /\
     TOKENS_PER_MILLION * u64_max + HALF_TOKEN_MILLION <= exact_numerator r b).
Proof.
  intros Hr Hb. unfold calculate_cost. rewrite calculate_numerator_exact by done. cbn [rbind].
  pose proof (exact_numerator_bound r b Hr Hb) as Hn.
  assert (3 * (u64_max * MAX_RATE_MICROS_PER_MILLION) <= u128_max - HALF_TOKEN_MILLION) by (by vm_compute).
  split; intros; [apply round_numerator_Ok|apply round_numerator_Err]; lia.
Qed.

Lemma calculate_cost_exact_witness :
  calculate_cost (rates 5000000 500000 30000000)
    {| uncached_input_tokens := 1; cached_input_tokens := 3; billable_output_tokens := 7 |}
  = Ok 217.
Proof.
  apply (calculate_cost_exact (rates 5000000 500000 30000000)
    {| uncached_input_tokens := 1; cached_input_tokens := 3; billable_output_tokens := 7 |});
    vm_compute; repeat split; congruence.
Defined.

(** ** The catalog *)

Definition rule_rates (rule : ModelRule) : list PriceRates :=
  standard_short rule
  :: omap (fun r => r) [standard_long rule; priority_short rule; priority_long rule].

Definition catalog_names : list str :=
  mjoin (map (fun rule => canonical_model rule :: aliases rule) CATALOG).

Definition rates_okb (r : PriceRates) : bool :=
  forallb (fun x => (0 <=? x) && (x <=? MAX_RATE_MICROS_PER_MILLION))
    [uncached_input r; cached_input r; billable_output r].

Lemma rates_okb_ok r : rates_okb r = true -> rates_ok r.
Proof. unfold rates_okb, rates_ok, rate_ok. simpl. intros H. to_prop. lia. Qed.

Lemma catalog_names_unique : NoDup catalog_names.
Proof. apply (bool_decide_unpack _). by vm_compute. Qed.

Lemma catalog_rates_ok rule r : rule ∈ CATALOG -> r ∈ rule_rates rule -> rates_ok r.
Proof.
  intros Hrule Hr. apply rates_okb_ok.
  assert (forallb (fun rule => forallb rates_okb (rule_rates rule)) CATALOG = true) as H by (by vm_compute).
  rewrite forallb_forall in H. specialize (H rule). rewrite <- list_elem_of_In in H.
  specialize (H Hrule). rewrite forallb_forall in H. apply H. by apply list_elem_of_In.
Qed.

Lemma select_rule_rates_in rule tier context r :
  select_rule_rates rule tier context = Ok r -> r ∈ rule_rates rule.
Proof.
  intros H. unfold rule_rates. rewrite elem_of_cons, list_elem_of_omap.
  destruct tier, context; simpl in H; try discriminate H;
    first [ injection H as <-; by left
          | apply ok_or_Ok in H; right; exists (Some r); rewrite <- H; split; [|done];
            rewrite !elem_of_cons; auto ].
Qed.
