(* ===== verification/PriceOverrides.v ===== *)
(** * Price overrides

    Models [crates/pricing/src/overrides.rs]: user drafts are validated into an
    immutable, sorted snapshot with a content revision, and the pricing engine
    resolves a model name through the snapshot and the embedded catalog.
    SHA-256 is the section variable [sha256]. *)

From stdpp Require Import sets.
From S2P Require Import Prelude Collections Pricing.

Open Scope Z_scope.

(** ** Data *)

Definition MAX_OVERRIDE_ENTRIES : nat := 512.
Definition MAX_OVERRIDE_MODEL_BYTES : Z := 64.

Inductive OverrideErrorCode :=
| TooManyEntries
| InvalidKey
| DuplicateKey
| KeyConflict
| IncompleteRule
| AliasChain
| AliasTargetUnknown.

Record PriceRatesOverride := {
  po_uncached_input : option Z;
  po_cached_input : option Z;
  po_billable_output : option Z
}.

Definition has_value (p : PriceRatesOverride) : bool :=
  is_some (po_uncached_input p) || is_some (po_cached_input p) || is_some (po_billable_output p).

Record ModelOverrideDraft := {
  md_model : str;
  md_standard_short : option PriceRatesOverride;
  md_standard_long : option PriceRatesOverride;
  md_priority_short : option PriceRatesOverride;
  md_priority_long : option PriceRatesOverride
}.

Record AliasOverrideDraft := { ad_alias : str; ad_target : str }.

Inductive OverrideDraft :=
| ModelDraft (draft : ModelOverrideDraft)
| AliasDraft (draft : AliasOverrideDraft).

Definition draft_key (d : OverrideDraft) : str :=
  match d with ModelDraft d => md_model d | AliasDraft d => ad_alias d end.

Record EffectiveModelRule := {
  er_canonical_model : str;
  er_standard_short : PriceRates;
  er_standard_long : option PriceRates;
  er_priority_short : option PriceRates;
  er_priority_long : option PriceRates
}.

Record AliasRule := { ar_alias : str; ar_target : str }.

Record OverrideSnapshot := {
  os_models : list EffectiveModelRule;
  os_aliases : list AliasRule;
  os_entry_count : nat;
  os_revision : list Z
}.

(** ** Building a snapshot *)

Definition key_byte (byte : Z) : bool :=
  is_ascii_alphanumeric byte
  || (byte =? 46) || (byte =? 95) || (byte =? 45) || (byte =? 47) || (byte =? 58).

Definition is_valid_model_key (value : str) : bool :=
  negb (bool_decide (value = []))
  && (str_len value <=? MAX_OVERRIDE_MODEL_BYTES)
  && forallb key_byte (as_bytes value).

Definition embedded_rule (model : str) : option ModelRule :=
  List.find (fun rule => bool_decide (canonical_model rule = model)) CATALOG.

Fixpoint alias_target_in (rules : list ModelRule) (alias : str) : option str :=
  match rules with
  | [] => None
  | rule :: rules =>
      if bool_decide (alias ∈ aliases rule) then Some (canonical_model rule)
      else alias_target_in rules alias
  end.
Definition embedded_alias_target (alias : str) : option str := alias_target_in CATALOG alias.

Definition merge_rates (base : option PriceRates) (patch : option PriceRatesOverride)
  : result (option PriceRates) OverrideErrorCode :=
  match patch with
  | None => Ok base
  | Some patch =>
      let or_base (p : option Z) (f : PriceRates -> Z) :=
        match p with Some x => Some x | None => option_map f base end in
      match or_base (po_uncached_input patch) uncached_input,
            or_base (po_cached_input patch) cached_input,
            or_base (po_billable_output patch) billable_output with
      | Some u, Some c, Some o =>
          Ok (Some {| uncached_input := u; cached_input := c; billable_output := o |})
      | _, _, _ => Err IncompleteRule
      end
  end.

(** The first loop of [build]: every key valid, new, and free in the catalog *)
Definition check_draft (seen : list str) (d : OverrideDraft) : result unit OverrideErrorCode :=
  fail_if negb (is_valid_model_key (draft_key d)) with InvalidKey else
  fail_if bool_decide (draft_key d ∈ seen) with DuplicateKey else
  match d with
  | ModelDraft m =>
      fail_if is_some (embedded_alias_target (md_model m)) with KeyConflict else Ok tt
  | AliasDraft a =>
      fail_if is_some (embedded_rule (ad_alias a)) || is_some (embedded_alias_target (ad_alias a))
      with KeyConflict else
      fail_if negb (is_valid_model_key (ad_target a)) with InvalidKey else Ok tt
  end.

Fixpoint check_drafts (seen : list str) (drafts : list OverrideDraft)
  : result unit OverrideErrorCode :=
  match drafts with
  | [] => Ok tt
  | d :: drafts =>
      let? _ := check_draft seen d in
      check_drafts (draft_key d :: seen) drafts
  end.

(** The body of the second loop: patch the embedded rule, if there is one *)
Definition effective_rule (d : ModelOverrideDraft) : result EffectiveModelRule OverrideErrorCode :=
  let has_patch :=
    existsb (fun p => is_some_and p has_value)
      [md_standard_short d; md_standard_long d; md_priority_short d; md_priority_long d] in
  fail_if negb has_patch with IncompleteRule else
  let base := embedded_rule (md_model d) in
  let? short := merge_rates (option_map standard_short base) (md_standard_short d) in
  let? short := ok_or short IncompleteRule in
  let? long := merge_rates (base ≫= standard_long) (md_standard_long d) in
  let? pshort := merge_rates (base ≫= priority_short) (md_priority_short d) in
  let? plong := merge_rates (base ≫= priority_long) (md_priority_long d) in
  Ok {| er_canonical_model := md_model d;
        er_standard_short := short;
        er_standard_long := long;
        er_priority_short := pshort;
        er_priority_long := plong |}.

Fixpoint build_models (drafts : list OverrideDraft)
  : result (list EffectiveModelRule) OverrideErrorCode :=
  match drafts with
  | [] => Ok []
  | AliasDraft _ :: drafts => build_models drafts
  | ModelDraft d :: drafts =>
      let? rule := effective_rule d in
      let? rules := build_models drafts in
      Ok (rule :: rules)
  end.

Definition alias_keys (drafts : list OverrideDraft) : list str :=
  omap (fun d => match d with AliasDraft a => Some (ad_alias a) | ModelDraft _ => None end) drafts.

Definition alias_rule (keys : list str) (models : list EffectiveModelRule) (d : AliasOverrideDraft)
  : result AliasRule OverrideErrorCode :=
  fail_if bool_decide (ad_target d ∈ keys) || is_some (embedded_alias_target (ad_target d))
  with AliasChain else
  let known_target :=
    is_some (embedded_rule (ad_target d))
    || is_some (binary_search_by (fun rule => str_cmp (er_canonical_model rule) (ad_target d)) models) in
  fail_if negb known_target with AliasTargetUnknown else
  Ok {| ar_alias := ad_alias d; ar_target := ad_target d |}.

Fixpoint build_aliases (keys : list str) (models : list EffectiveModelRule)
    (drafts : list OverrideDraft) : result (list AliasRule) OverrideErrorCode :=
  match drafts with
  | [] => Ok []
  | ModelDraft _ :: drafts => build_aliases keys models drafts
  | AliasDraft d :: drafts =>
      let? rule := alias_rule keys models d in
      let? rules := build_aliases keys models drafts in
      Ok (rule :: rules)
  end.

(** ** The revision of a snapshot *)

Definition hash_string (value : str) : list Z :=
  [str_len value mod 256] ++ as_bytes value.

Definition hash_rates (r : option PriceRates) : list Z :=
  match r with
  | None => [0]
  | Some r =>
      [1] ++ le_bytes 8 (uncached_input r) ++ le_bytes 8 (cached_input r)
        ++ le_bytes 8 (billable_output r)
  end.

Definition hash_model (rule : EffectiveModelRule) : list Z :=
  lit "model" ++ [0] ++ hash_string (er_canonical_model rule)
  ++ hash_rates (Some (er_standard_short rule)) ++ hash_rates (er_standard_long rule)
  ++ hash_rates (er_priority_short rule) ++ hash_rates (er_priority_long rule).

Definition hash_alias (rule : AliasRule) : list Z :=
  lit "alias" ++ [0] ++ hash_string (ar_alias rule) ++ hash_string (ar_target rule).

Definition revision_input (models : list EffectiveModelRule) (als : list AliasRule) : list Z :=
  lit "tokenmaster-pricing-overrides-v1" ++ [0]
  ++ mjoin (map hash_model models) ++ mjoin (map hash_alias als).

Inductive RuleSource := Embedded | Override.
#[export] Instance RuleSource_eq_dec : EqDecision RuleSource.
Proof. solve_decision. Defined.

Record ResolvedPriceRule := {
  rr_canonical_model : str;
  rr_rates : PriceRates;
  rr_source : RuleSource;
  rr_assumed_standard : bool
}.

Record EngineQuote := {
  eq_amount : Z;
  eq_canonical_model : str;
  eq_source : RuleSource;
  eq_override_revision : list Z
}.

Definition select_effective_rates (rule : EffectiveModelRule) (tier : ServiceTier)
    (context : ContextClass) : result PriceRates PriceErrorCode :=
  match tier, context with
  | UnknownTier, _ => Err TierUnknown
  | _, UnavailableContext => Err ContextUnavailable
  | (StandardReported | StandardAssumed), Short => Ok (er_standard_short rule)
  | (StandardReported | StandardAssumed), Long => ok_or (er_standard_long rule) TierContextUnsupported
  | Priority, Short => ok_or (er_priority_short rule) TierContextUnsupported
  | Priority, Long => ok_or (er_priority_long rule) TierContextUnsupported
  end.

(** [PricingEngine::resolve]; an engine is its snapshot. *)
Definition resolve (s : OverrideSnapshot) (model : str) (tier : ServiceTier)
    (context : ContextClass) : result ResolvedPriceRule PriceErrorCode :=
  let canonical :=
    match find_key ar_alias model (os_aliases s) with
    | Some rule => ar_target rule
    | None => model
    end in
  let canonical := unwrap_or (embedded_alias_target canonical) canonical in
  match find_key er_canonical_model canonical (os_models s) with
  | Some rule =>
      let? r := select_effective_rates rule tier context in
      Ok {| rr_canonical_model := er_canonical_model rule;
            rr_rates := r;
            rr_source := Override;
            rr_assumed_standard := bool_decide (tier = StandardAssumed) |}
  | None =>
      let? rule := ok_or (embedded_rule canonical) ModelUnpriced in
      let? r := select_rule_rates rule tier context in
      Ok {| rr_canonical_model := canonical_model rule;
            rr_rates := r;
            rr_source := Embedded;
            rr_assumed_standard := bool_decide (tier = StandardAssumed) |}
  end.

Definition engine_price (s : OverrideSnapshot) (model : str) (tier : ServiceTier)
    (context : ContextClass) (basis : TokenPriceBasis) : result EngineQuote PriceErrorCode :=
  let? resolved := resolve s model tier context in
  let? amount := calculate_cost (rr_rates resolved) basis in
  Ok {| eq_amount := amount;
        eq_canonical_model := rr_canonical_model resolved;
        eq_source := rr_source resolved;
        eq_override_revision := os_revision s |}.

Section snapshot.
Context (sha256 : list Z -> list Z).

Definition revision_for (models : list EffectiveModelRule) (als : list AliasRule) : list Z :=
  sha256 (revision_input models als).

Definition from_validated (models : list EffectiveModelRule) (als : list AliasRule)
    (entry_count : nat) : OverrideSnapshot :=
  {| os_models := models;
     os_aliases := als;
     os_entry_count := entry_count;
     os_revision := revision_for models als |}.

Definition empty : OverrideSnapshot := from_validated [] [] 0.

Definition build (drafts : list OverrideDraft) : result OverrideSnapshot OverrideErrorCode :=
  fail_if (MAX_OVERRIDE_ENTRIES <? length drafts)%nat with TooManyEntries else
  let? _ := check_drafts [] drafts in
  let? models := build_models drafts in
  let models := sort_by_cmp (cmp_by er_canonical_model str_cmp) models in
  let? als := build_aliases (alias_keys drafts) models drafts in
  let als := sort_by_cmp (cmp_by ar_alias str_cmp) als in
  Ok (from_validated models als (length drafts)).
End snapshot.

(** ** Keys *)

(** A string whose bytes are all ASCII is the sequence of these bytes. *)
Lemma ascii_chars (P : Z -> bool) s :
  (forall b, P b = true -> 0 <= b < 128) -> forallb P (as_bytes s) = true ->
  Forall (fun c => 0 <= c < 128) s.
Proof.
  intros HP. induction s as [|c s IH]; simpl; [constructor|].
  rewrite forallb_app, andb_true_iff. intros [Hc Hs]. constructor; [|by apply IH].
  unfold utf8_char in Hc. destruct (c <? 128) eqn:E1; to_prop.
  { simpl in Hc. rewrite andb_true_r in Hc. by apply HP. }
  assert (2 <= c / 64) by (apply Z.div_le_lower_bound; lia).
  assert (0 <= c / 4096) by (apply Z.div_pos; lia).
  assert (0 <= c / 262144) by (apply Z.div_pos; lia).
  exfalso. repeat split_in Hc; simpl in Hc; apply andb_prop in Hc as [Hc _];
    apply HP in Hc; lia.
Qed.

Lemma valid_key_ok k : is_valid_model_key k = true -> str_ok k /\ 0 < str_len k <= 64.
Proof.
  unfold is_valid_model_key, MAX_OVERRIDE_MODEL_BYTES. intros H. to_prop.
  assert (Forall (fun c => 0 <= c < 128) k) as Hf.
  { eapply ascii_chars; [|done]. unfold key_byte, is_ascii_alphanumeric, is_ascii_digit,
      is_ascii_uppercase, is_ascii_lowercase. intros b Hb. to_prop. naive_solver lia. }
  split; [|split; [|done]].
  - unfold str_ok, scalar. eapply Forall_impl; [done|]. intros c Hc. simpl in *. lia.
  - unfold str_len. destruct k as [|c k]; [done|]. inversion Hf; subst. simpl. unfold utf8_char.
    destruct (c <? 128) eqn:E; to_prop; simpl; lia.
Qed.

Lemma bs_is_some {A} (key : A -> str) k (l : list A) :
  is_some (binary_search_by (fun a => str_cmp (key a) k) l) = is_some (find_key key k l).
Proof.
  unfold find_key, binary_search_by. destruct (length l =? 0)%nat; [done|].
  destruct (probe _ l _) eqn:E; [|done..]. unfold probe in E. by destruct (l !! _).
Qed.

Lemma embedded_rule_Some m r : embedded_rule m = Some r -> r ∈ CATALOG /\ canonical_model r = m.
Proof.
  unfold embedded_rule. intros [H E]%find_some. to_prop. split; [|done]. by apply list_elem_of_In.
Qed.

Lemma alias_target_Some rules a t :
  alias_target_in rules a = Some t -> exists r, r ∈ rules /\ canonical_model r = t /\ a ∈ aliases r.
Proof.
  induction rules as [|r rules IH]; simpl; [done|].
  case_bool_decide; [|intros (r' & ? & ?)%IH; exists r'; set_solver].
  intros [= <-]. exists r. set_solver.
Qed.

(** No canonical name of the catalog is also an alias in it. *)
Lemma canonical_not_alias r a t : r ∈ CATALOG -> embedded_alias_target a = Some t -> canonical_model r <> a.
Proof.
  intros Hr Ha Heq.
  assert (forallb (fun r => is_none (embedded_alias_target (canonical_model r))) CATALOG = true) as H
    by (by vm_compute).
  rewrite forallb_forall in H. specialize (H r (proj1 (list_elem_of_In _ _) Hr)).
  rewrite Heq, Ha in H. done.
Qed.

Lemma embedded_alias_target_rule a t : embedded_alias_target a = Some t -> is_some (embedded_rule t) = true.
Proof.
  intros (r & Hr & <- & _)%alias_target_Some.
  assert (forallb (fun r => is_some (embedded_rule (canonical_model r))) CATALOG = true) as H
    by (by vm_compute).
  rewrite forallb_forall in H. apply H. by apply list_elem_of_In.
Qed.

(** ** Validation *)

Definition draft_valid (d : OverrideDraft) : Prop :=
  is_valid_model_key (draft_key d) = true /\
  embedded_alias_target (draft_key d) = None /\
  match d with
  | ModelDraft _ => True
  | AliasDraft a => embedded_rule (ad_alias a) = None /\ is_valid_model_key (ad_target a) = true
  end.

Lemma is_some_false {A} (o : option A) : is_some o = false <-> o = None.
Proof. by destruct o. Qed.

Lemma check_draft_ok seen d :
  check_draft seen d = Ok tt <-> draft_valid d /\ draft_key d ∉ seen.
Proof.
  unfold check_draft, draft_valid. destruct d as [m|a]; simpl.
  - destruct (is_valid_model_key _); simpl; [|naive_solver].
    case_bool_decide; [naive_solver|].
    destruct (embedded_alias_target _); simpl; naive_solver.
  - destruct (is_valid_model_key (ad_alias a)); simpl; [|naive_solver].
    case_bool_decide; [naive_solver|].
    destruct (embedded_rule _), (embedded_alias_target _); simpl; [naive_solver..|].
    destruct (is_valid_model_key (ad_target a)); simpl; naive_solver.
Qed.

Lemma check_drafts_ok seen drafts :
  check_drafts seen drafts = Ok tt <->
  Forall draft_valid drafts /\ NoDup (map draft_key drafts) /\
  Forall (fun d => draft_key d ∉ seen) drafts.
Proof.
  revert seen. induction drafts as [|d drafts IH]; intros seen; simpl.
  { split; [intros _; repeat constructor|done]. }
  rewrite rbind_ok, !Forall_cons, NoDup_cons. split.
  - intros ([] & Hd & Hr). apply check_draft_ok in Hd as [Hv Hn].
    apply IH in Hr as (Hf & Hnd & Hs). split_and!; auto.
    + rewrite list_elem_of_fmap. intros (d' & E & Hin). rewrite Forall_forall in Hs.
      specialize (Hs d' Hin). rewrite E in Hs. set_solver.
    + eapply Forall_impl; [done|]. simpl. set_solver.
  - intros ((Hv & Hf) & (Hnk & Hnd) & Hn & Hs). exists tt. rewrite check_draft_ok, IH.
    split_and!; auto. rewrite Forall_forall in *. intros d' Hd'.
    apply not_elem_of_cons. split; [|by apply Hs].
    intros E. apply Hnk. rewrite <- E. apply list_elem_of_fmap. by exists d'.
Qed.

(** ** What the two passes collect *)

Lemma effective_rule_key d r : effective_rule d = Ok r -> er_canonical_model r = md_model d.
Proof. unfold effective_rule. intros H. by inv_ok H. Qed.

Lemma build_models_elem drafts ms r :
  build_models drafts = Ok ms ->
  r ∈ ms <-> exists d, ModelDraft d ∈ drafts /\ effective_rule d = Ok r.
Proof.
  revert ms. induction drafts as [|[d|a] drafts IH]; intros ms; simpl.
  - intros [= <-]. set_solver.
  - intros (r1 & H1 & (rs & Hrs & [= <-])%rbind_ok)%rbind_ok.
    rewrite elem_of_cons, (IH _ Hrs). split.
    + intros [->|(d' & Hd' & E)]; [exists d; set_solver|exists d'; set_solver].
    + intros (d' & [[= ->]|Hd']%elem_of_cons & E); [left; congruence|eauto].
  - intros H. rewrite (IH _ H). split; intros (d' & Hd' & E); exists d'; set_solver.
Qed.

Lemma build_aliases_elem keys models drafts als r :
  build_aliases keys models drafts = Ok als ->
  r ∈ als <-> exists d, AliasDraft d ∈ drafts /\ alias_rule keys models d = Ok r.
Proof.
  revert als. induction drafts as [|[d|a] drafts IH]; intros als; simpl.
  - intros [= <-]. set_solver.
  - intros H. rewrite (IH _ H). split; intros (d' & Hd' & E); exists d'; set_solver.
  - intros (r1 & H1 & (rs & Hrs & [= <-])%rbind_ok)%rbind_ok.
    rewrite elem_of_cons, (IH _ Hrs). split.
    + intros [->|(d' & Hd' & E)]; [exists a; set_solver|exists d'; set_solver].
    + intros (d' & [[= ->]|Hd']%elem_of_cons & E); [left; congruence|eauto].
Qed.

Lemma alias_rule_fields keys models d r :
  alias_rule keys models d = Ok r -> r = {| ar_alias := ad_alias d; ar_target := ad_target d |}.
Proof. unfold alias_rule. intros H. by inv_ok H. Qed.

Lemma build_models_keys drafts ms :
  build_models drafts = Ok ms -> map er_canonical_model ms `sublist_of` map draft_key drafts.
Proof.
  revert ms. induction drafts as [|[d|a] drafts IH]; intros ms; simpl.
  - intros [= <-]. constructor.
  - intros (r1 & H1%effective_rule_key & (rs & Hrs & [= <-])%rbind_ok)%rbind_ok.
    simpl. rewrite H1. by constructor; apply IH.
  - intros H. by constructor; apply IH.
Qed.

Lemma build_aliases_keys keys models drafts als :
  build_aliases keys models drafts = Ok als -> map ar_alias als `sublist_of` map draft_key drafts.
Proof.
  revert als. induction drafts as [|[d|a] drafts IH]; intros als; simpl.
  - intros [= <-]. constructor.
  - intros H. by constructor; apply IH.
  - intros (r1 & ->%alias_rule_fields & (rs & Hrs & [= <-])%rbind_ok)%rbind_ok.
    simpl. by constructor; apply IH.
Qed.

Lemma build_counts keys models drafts ms als :
  build_models drafts = Ok ms -> build_aliases keys models drafts = Ok als ->
  (length ms + length als = length drafts)%nat.
Proof.
  revert ms als. induction drafts as [|[d|a] drafts IH]; intros ms als; simpl.
  - intros [= <-] [= <-]. done.
  - intros (r1 & _ & (rs & Hrs & [= <-])%rbind_ok)%rbind_ok H. simpl. by rewrite (IH _ _ Hrs H).
  - intros H (r1 & _ & (rs & Hrs & [= <-])%rbind_ok)%rbind_ok. simpl.
    rewrite Nat.add_succ_r. by rewrite (IH _ _ H Hrs).
Qed.

(** Every draft of a successful pass has its rule. *)
Lemma build_aliases_all keys models drafts als :
  build_aliases keys models drafts = Ok als ->
  forall d, AliasDraft d ∈ drafts -> {| ar_alias := ad_alias d; ar_target := ad_target d |} ∈ als.
Proof.
  revert als. induction drafts as [|[d|a] drafts IH]; intros als; simpl.
  - intros _ d Hd. set_solver.
  - intros H d' [|Hd]%elem_of_cons; [done|eauto].
  - intros (r1 & ->%alias_rule_fields & (rs & Hrs & [= <-])%rbind_ok)%rbind_ok d'.
    intros [[= ->]|Hd]%elem_of_cons; [by left|right; eauto].
Qed.

Lemma build_models_all drafts ms :
  build_models drafts = Ok ms ->
  forall d, ModelDraft d ∈ drafts -> exists r, effective_rule d = Ok r /\ r ∈ ms.
Proof.
  revert ms. induction drafts as [|[d|a] drafts IH]; intros ms; simpl.
  - intros _ d Hd. set_solver.
  - intros (r1 & H1 & (rs & Hrs & [= <-])%rbind_ok)%rbind_ok d'.
    intros [[= ->]|Hd]%elem_of_cons; [exists r1; set_solver|].
    destruct (IH _ Hrs _ Hd) as (r & ? & ?). exists r. set_solver.
  - intros H d' [|Hd]%elem_of_cons; [done|eauto].
Qed.

(** ** The invariant of a snapshot *)

Definition effective_rates (r : EffectiveModelRule) : list PriceRates :=
  er_standard_short r
  :: omap (fun r => r) [er_standard_long r; er_priority_short r; er_priority_long r].

Record snapshot_ok (s : OverrideSnapshot) : Prop := {
  so_models_sorted : strictly_sorted (cmp_by er_canonical_model str_cmp) (os_models s);
  so_aliases_sorted : strictly_sorted (cmp_by ar_alias str_cmp) (os_aliases s);
  so_model : forall r, r ∈ os_models s ->
    is_valid_model_key (er_canonical_model r) = true /\
    embedded_alias_target (er_canonical_model r) = None;
  so_alias : forall a, a ∈ os_aliases s ->
    is_valid_model_key (ar_alias a) = true /\ is_valid_model_key (ar_target a) = true /\
    embedded_rule (ar_alias a) = None /\ embedded_alias_target (ar_alias a) = None /\
    ar_alias a ∉ map er_canonical_model (os_models s);
  so_target : forall a, a ∈ os_aliases s ->
    ar_target a ∉ map ar_alias (os_aliases s) /\ embedded_alias_target (ar_target a) = None /\
    (is_some (embedded_rule (ar_target a)) = true \/
     ar_target a ∈ map er_canonical_model (os_models s));
  so_rates : forall r rates, r ∈ os_models s -> rates ∈ effective_rates r -> rates_ok rates
}.

(** Draft rates are values of [UsdPerMillion]. *)
Definition patch_ok (p : PriceRatesOverride) : Prop :=
  forall x, Some x ∈ [po_uncached_input p; po_cached_input p; po_billable_output p] -> rate_ok x.
Definition draft_ok (d : OverrideDraft) : Prop :=
  match d with
  | AliasDraft _ => True
  | ModelDraft d =>
      forall p, Some p ∈ [md_standard_short d; md_standard_long d; md_priority_short d; md_priority_long d] ->
        patch_ok p
  end.

Lemma merge_rates_ok base patch r :
  (forall b, base = Some b -> rates_ok b) -> (forall p, patch = Some p -> patch_ok p) ->
  merge_rates base patch = Ok (Some r) -> rates_ok r.
Proof.
  intros Hb Hp. unfold merge_rates. destruct patch as [p|]; [|intros [= ->]; by apply Hb].
  specialize (Hp p eq_refl). unfold patch_ok in Hp.
  assert (forall (q : option Z) f x,
    q ∈ [po_uncached_input p; po_cached_input p; po_billable_output p] ->
    (forall b, base = Some b -> rate_ok (f b)) ->
    match q with Some x => Some x | None => option_map f base end = Some x -> rate_ok x) as Hor.
  { intros [q|] f x Hq Hf E; [injection E as <-; by apply Hp|].
    destruct base as [b|]; simplify_eq/=. by apply Hf. }
  intros E. repeat (split_in E; try done). injection E as <-.
  split_and!; simpl; eapply Hor; try done; try set_solver; naive_solver.
Qed.

Lemma effective_rule_rates d r rates :
  draft_ok (ModelDraft d) -> effective_rule d = Ok r -> rates ∈ effective_rates r -> rates_ok rates.
Proof.
  intros Hd H. unfold effective_rule in H.
  destruct (negb _); [done|]. cbv zeta in H.
  apply rbind_ok in H as (so & Hso & H). apply rbind_ok in H as (s & ->%ok_or_Ok & H).
  apply rbind_ok in H as (l & Hl & H). apply rbind_ok in H as (ps & Hps & H).
  apply rbind_ok in H as (pl & Hpl & [= <-]).
  unfold effective_rates. simpl er_standard_short.
  rewrite elem_of_cons, list_elem_of_omap. simpl in Hd.
  assert (forall r0, embedded_rule (md_model d) = Some r0 -> forall x, x ∈ rule_rates r0 -> rates_ok x) as Hbase.
  { intros r0 [Hr0 _]%embedded_rule_Some x. by apply catalog_rates_ok. }
  assert (forall f patch x,
    (forall r0 b, f r0 = Some b -> b ∈ rule_rates r0) ->
    patch ∈ [md_standard_short d; md_standard_long d; md_priority_short d; md_priority_long d] ->
    merge_rates (embedded_rule (md_model d) ≫= f) patch = Ok (Some x) -> rates_ok x) as Hmerge.
  { intros f patch x Hf Hin Hm. eapply merge_rates_ok; [| |exact Hm].
    - intros b (r0 & Hr0 & Hb)%bind_Some. by eapply Hbase, Hf.
    - intros p ->. by apply Hd. }
  intros [->|(o & Ho & ->)].
  - eapply (Hmerge (fun r => Some (standard_short r)) (md_standard_short d)); [|apply list_elem_of_here|].
    + intros r0 b [= <-]. apply list_elem_of_here.
    + by destruct (embedded_rule (md_model d)).
  - unfold rule_rates in Hmerge. simpl in Ho.
    apply elem_of_cons in Ho as [<-|[<-|[<-|[]%not_elem_of_nil]%elem_of_cons]%elem_of_cons].
    + eapply Hmerge; [|by right; left|exact Hl]. intros r0 b Hb.
      apply elem_of_cons; right. apply list_elem_of_omap. exists (Some b). rewrite <- Hb. set_solver.
    + eapply Hmerge; [|by right; right; left|exact Hps]. intros r0 b Hb.
      apply elem_of_cons; right. apply list_elem_of_omap. exists (Some b). rewrite <- Hb. set_solver.
    + eapply Hmerge; [|by right; right; right; left|exact Hpl]. intros r0 b Hb.
      apply elem_of_cons; right. apply list_elem_of_omap. exists (Some b). rewrite <- Hb. set_solver.
Qed.

(** Sorting rules with distinct valid keys leaves no ties. *)
Lemma sort_by_key_strict {A} (key : A -> str) (l : list A) :
  NoDup (map key l) -> (forall a, a ∈ l -> str_ok (key a)) ->
  strictly_sorted (cmp_by key str_cmp) (sort_by_cmp (cmp_by key str_cmp) l).
Proof.
  intros Hnd Hok. apply (sort_strictly_sorted (cmp_by key str_cmp)).
  - intros a b Ha Hb E. unfold cmp_by in E. apply str_cmp_Eq in E; [|by apply Hok..].
    apply list_elem_of_lookup in Ha as [i Hi], Hb as [j Hj].
    assert (i = j) as ->; [|congruence].
    eapply (NoDup_lookup (map key l) i j (key a)); [done|..];
      rewrite list_lookup_fmap; [by rewrite Hi|by rewrite Hj, E].
  - by eapply NoDup_fmap_1.
Qed.

Lemma map_sorted_elem {A} (key : A -> str) cmp l k :
  k ∈ map key (sort_by_cmp cmp l) <-> k ∈ map key l.
Proof. by rewrite sort_permutation. Qed.

Lemma build_parts sha256 drafts s :
  build sha256 drafts = Ok s ->
  exists ms als,
    Forall draft_valid drafts /\ NoDup (map draft_key drafts) /\
    build_models drafts = Ok ms /\
    build_aliases (alias_keys drafts) (sort_by_cmp (cmp_by er_canonical_model str_cmp) ms) drafts = Ok als /\
    s = from_validated sha256 (sort_by_cmp (cmp_by er_canonical_model str_cmp) ms)
          (sort_by_cmp (cmp_by ar_alias str_cmp) als) (length drafts).
Proof.
  unfold build. destruct (_ <? _)%nat; [done|].
  intros ([] & (Hv & Hnd & _)%check_drafts_ok & (ms & Hms & (als & Hals & [= <-])%rbind_ok)%rbind_ok)%rbind_ok.
  by exists ms, als.
Qed.

Lemma draft_key_inj drafts d d' :
  NoDup (map draft_key drafts) -> d ∈ drafts -> d' ∈ drafts -> draft_key d = draft_key d' -> d = d'.
Proof.
  intros Hnd [i Hi]%list_elem_of_lookup [j Hj]%list_elem_of_lookup E.
  assert (i = j) as ->; [|congruence].
  eapply (NoDup_lookup (map draft_key drafts) i j (draft_key d)); [done|..];
    rewrite list_lookup_fmap; [by rewrite Hi|by rewrite Hj, E].
Qed.

Lemma build_snapshot_ok sha256 drafts s :
  Forall draft_ok drafts -> build sha256 drafts = Ok s -> snapshot_ok s.
Proof.
  intros Hok (ms & als & Hv & Hnd & Hms & Hals & ->)%build_parts.
  rewrite Forall_forall in Hok, Hv.
  assert (forall r, r ∈ ms -> exists d, ModelDraft d ∈ drafts /\ effective_rule d = Ok r /\
    er_canonical_model r = md_model d) as Hm.
  { intros r (d & Hd & E)%(build_models_elem _ _ _ Hms). eauto using effective_rule_key. }
  assert (forall a, a ∈ als -> exists d, AliasDraft d ∈ drafts /\
    alias_rule (alias_keys drafts) (sort_by_cmp (cmp_by er_canonical_model str_cmp) ms) d = Ok a /\
    a = {| ar_alias := ad_alias d; ar_target := ad_target d |}) as Ha.
  { intros a (d & Hd & E)%(build_aliases_elem _ _ _ _ _ Hals). eauto using alias_rule_fields. }
  assert (strictly_sorted (cmp_by er_canonical_model str_cmp)
            (sort_by_cmp (cmp_by er_canonical_model str_cmp) ms)) as Hsm.
  { apply sort_by_key_strict; [by eapply sublist_NoDup, build_models_keys|].
    intros r (d & Hd & _ & ->)%Hm. apply (valid_key_ok (draft_key (ModelDraft d))), Hv, Hd. }
  constructor; simpl; [done| |setoid_rewrite elem_of_sort..].
  - apply sort_by_key_strict; [by eapply sublist_NoDup, build_aliases_keys|].
    intros a (d & Hd & _ & ->)%Ha. apply (valid_key_ok (draft_key (AliasDraft d))), Hv, Hd.
  - intros r (d & Hd & _ & ->)%Hm. destruct (Hv _ Hd) as (? & ? & _). done.
  - intros a (d & Hd & _ & ->)%Ha. destruct (Hv _ Hd) as (? & ? & ? & ?). simpl. split_and!; auto.
    rewrite map_sorted_elem, list_elem_of_fmap. intros (r & E & (d' & Hd' & _ & Hk)%Hm).
    assert (AliasDraft d = ModelDraft d'); [|done].
    eapply draft_key_inj; eauto. simpl. congruence.
  - intros a (d & Hd & E & ->)%Ha. simpl. unfold alias_rule in E.
    destruct (bool_decide _ || _) eqn:E1; [done|]. destruct (negb _) eqn:E2; [done|]. to_prop.
    rewrite map_sorted_elem. split_and!.
    + rewrite list_elem_of_fmap. intros (a & Ea & (d' & Hd' & _ & ->)%Ha).
      apply H. apply list_elem_of_omap. exists (AliasDraft d'). by rewrite Ea.
    + by apply is_some_false.
    + destruct E2 as [E2|E2]; [by left|right].
      rewrite bs_is_some in E2. destruct (find_key _ _ _) as [r|] eqn:Ef; [|done].
      apply find_key_spec in Ef as [Hr Hk]; [|done| |].
      * rewrite <- Hk. apply list_elem_of_fmap. eauto.
      * intros x Hx. rewrite elem_of_sort in Hx. destruct (Hm x Hx) as (dx & Hdx & _ & ->).
        apply (valid_key_ok (draft_key (ModelDraft dx))), Hv, Hdx.
      * apply valid_key_ok. by destruct (Hv _ Hd) as (_ & _ & _ & ?).
  - intros r rates (d & Hd & Er & _)%Hm. eapply effective_rule_rates; eauto.
Qed.

(** ** Resolution *)

(** Names after aliases of the snapshot and of the catalog *)
Definition rename (s : OverrideSnapshot) (model : str) : str :=
  let canonical :=
    match find_key ar_alias model (os_aliases s) with
    | Some rule => ar_target rule
    | None => model
    end in
  unwrap_or (embedded_alias_target canonical) canonical.

(** Resolution of a name that no alias renames *)
Definition resolve_name (s : OverrideSnapshot) (canonical : str) (tier : ServiceTier)
    (context : ContextClass) : result ResolvedPriceRule PriceErrorCode :=
  match find_key er_canonical_model canonical (os_models s) with
  | Some rule =>
      let? r := select_effective_rates rule tier context in
      Ok {| rr_canonical_model := er_canonical_model rule; rr_rates := r; rr_source := Override;
            rr_assumed_standard := bool_decide (tier = StandardAssumed) |}
  | None =>
      let? rule := ok_or (embedded_rule canonical) ModelUnpriced in
      let? r := select_rule_rates rule tier context in
      Ok {| rr_canonical_model := canonical_model rule; rr_rates := r; rr_source := Embedded;
            rr_assumed_standard := bool_decide (tier = StandardAssumed) |}
  end.

Lemma resolve_rename s model tier context :
  resolve s model tier context = resolve_name s (rename s model) tier context.
Proof. done. Qed.

Section resolution.
Context (s : OverrideSnapshot) (Hs : snapshot_ok s).

Lemma alias_ok a : a ∈ os_aliases s -> str_ok (ar_alias a) /\ str_ok (ar_target a).
Proof.
  intros Ha. destruct (so_alias _ Hs a Ha) as (H1 & H2 & _).
  split; by apply valid_key_ok.
Qed.

Lemma model_ok r : r ∈ os_models s -> str_ok (er_canonical_model r).
Proof. intros Hr. apply valid_key_ok, (so_model _ Hs r Hr). Qed.

Lemma find_alias m a :
  str_ok m -> find_key ar_alias m (os_aliases s) = Some a <-> a ∈ os_aliases s /\ ar_alias a = m.
Proof.
  intros Hm. apply find_key_spec; [apply (so_aliases_sorted _ Hs)| |done].
  intros x Hx. by apply alias_ok.
Qed.

Lemma find_model m r :
  str_ok m ->
  find_key er_canonical_model m (os_models s) = Some r <-> r ∈ os_models s /\ er_canonical_model r = m.
Proof. intros Hm. apply find_key_spec; [apply (so_models_sorted _ Hs)|apply model_ok|done]. Qed.

Lemma find_model_None m :
  str_ok m ->
  find_key er_canonical_model m (os_models s) = None <-> m ∉ map er_canonical_model (os_models s).
Proof. intros Hm. apply find_key_None; [apply (so_models_sorted _ Hs)|apply model_ok|done]. Qed.

Lemma find_alias_None m :
  str_ok m -> m ∉ map ar_alias (os_aliases s) -> find_key ar_alias m (os_aliases s) = None.
Proof.
  intros Hm. apply find_key_None; [apply (so_aliases_sorted _ Hs)| |done].
  intros x Hx. by apply alias_ok.
Qed.

Lemma rename_alias a : a ∈ os_aliases s -> rename s (ar_alias a) = ar_target a.
Proof.
  intros Ha. unfold rename. rewrite (proj2 (find_alias (ar_alias a) a (proj1 (alias_ok a Ha)))) by done.
  destruct (so_target _ Hs a Ha) as (_ & -> & _). done.
Qed.

Lemma rename_target a : a ∈ os_aliases s -> rename s (ar_target a) = ar_target a.
Proof.
  intros Ha. unfold rename. destruct (so_target _ Hs a Ha) as (Hn & He & _).
  rewrite find_alias_None; [by rewrite He|by apply alias_ok|done].
Qed.

Lemma rename_model r : r ∈ os_models s -> rename s (er_canonical_model r) = er_canonical_model r.
Proof.
  intros Hr. unfold rename. destruct (so_model _ Hs r Hr) as (_ & He).
  rewrite find_alias_None; [by rewrite He|by apply model_ok|].
  rewrite list_elem_of_fmap. intros (a & Ea & Ha).
  destruct (so_alias _ Hs a Ha) as (_ & _ & _ & _ & Hn). apply Hn. rewrite <- Ea.
  apply list_elem_of_fmap. eauto.
Qed.

Lemma resolve_known m tier context :
  str_ok m ->
  is_some (embedded_rule m) = true \/ m ∈ map er_canonical_model (os_models s) ->
  resolve_name s m tier context <> Err ModelUnpriced.
Proof.
  intros Hm Hk. unfold resolve_name. destruct (find_key er_canonical_model m _) as [r|] eqn:E.
  - destruct tier, context; simpl; try done;
      repeat match goal with |- context [ok_or ?o _] => destruct o; simpl end; done.
  - apply find_model_None in E; [|done]. destruct Hk as [Hk|Hk]; [|done].
    destruct (embedded_rule m) as [r|]; [|done]. destruct tier, context; simpl; try done;
      repeat match goal with |- context [ok_or ?o _] => destruct o; simpl end; done.
Qed.
End resolution.

(** ** The properties *)

(** After a successful build every alias draft is one hop away from a rule:
    for every tier and context the alias resolves exactly as its target does,
    the target is renamed by no further alias, and the model is never unpriced. *)
Theorem alias_resolves_in_one_hop sha256 drafts s a tier context :
  Forall draft_ok drafts -> build sha256 drafts = Ok s -> AliasDraft a ∈ drafts ->
  resolve s (ad_alias a) tier context = resolve s (ad_target a) tier context /\
  rename s (ad_target a) = ad_target a /\
  resolve s (ad_alias a) tier context <> Err ModelUnpriced.
Proof.
  intros Hok Hb Ha. pose proof (build_snapshot_ok _ _ _ Hok Hb) as Hs.
  assert ({| ar_alias := ad_alias a; ar_target := ad_target a |} ∈ os_aliases s) as Hin.
  { apply build_parts in Hb as (ms & als & _ & _ & _ & Hals & ->). simpl. apply elem_of_sort.
    apply (build_aliases_all _ _ _ _ Hals _ Ha). }
  pose proof (rename_alias s Hs _ Hin) as E1. pose proof (rename_target s Hs _ Hin) as E2.
  simpl in *. rewrite !resolve_rename, E1, E2. split_and!; [done..|].
  apply resolve_known; [done|apply (alias_ok s Hs _ Hin)|apply (so_target _ Hs _ Hin)].
Qed.

(** A draft for the witnesses: one new model, one patched model, one alias *)
Definition sample_drafts : list OverrideDraft :=
  [ModelDraft {| md_model := lit "local/model";
      md_standard_short := Some {| po_uncached_input := Some 7; po_cached_input := Some 1;
                                   po_billable_output := Some 9 |};
      md_standard_long := None; md_priority_short := None; md_priority_long := None |};
   AliasDraft {| ad_alias := lit "mine"; ad_target := lit "local/model" |};
   ModelDraft {| md_model := lit "gpt-5";
      md_standard_short := Some {| po_uncached_input := Some 5; po_cached_input := None;
                                   po_billable_output := None |};
      md_standard_long := None; md_priority_short := None; md_priority_long := None |}].

Lemma sample_drafts_ok : Forall draft_ok sample_drafts.
Proof.
  unfold sample_drafts. constructor; [|constructor; [exact I|constructor; [|constructor]]];
    simpl; intros p Hp; rewrite !elem_of_cons, elem_of_nil in Hp;
    destruct Hp as [[= ->]|[Hp|[Hp|[Hp|[]]]]]; try done;
    intros x Hx; simpl in Hx; rewrite !elem_of_cons, elem_of_nil in Hx;
    destruct Hx as [Hx|[Hx|[Hx|[]]]]; simplify_eq; by vm_compute.
Qed.

Definition sample_snapshot : OverrideSnapshot :=
  match build toy_sha256 sample_drafts with Ok s => s | Err _ => empty toy_sha256 end.

Lemma alias_resolves_in_one_hop_witness :
  resolve sample_snapshot (lit "mine") StandardReported Short
  = resolve sample_snapshot (lit "local/model") StandardReported Short.
Proof.
  apply (alias_resolves_in_one_hop toy_sha256 sample_drafts sample_snapshot
    {| ad_alias := lit "mine"; ad_target := lit "local/model" |} StandardReported Short
    sample_drafts_ok).
  - vm_compute. reflexivity.
  - right. left.
Defined.

(** *** Rates of an overridden model *)

(** The price slot a tier and context select *)
Inductive Slot := SlotStandardShort | SlotStandardLong | SlotPriorityShort | SlotPriorityLong.

Definition slot_of (tier : ServiceTier) (context : ContextClass) : option Slot :=
  match tier, context with
  | UnknownTier, _ | _, UnavailableContext => None
  | (StandardReported | StandardAssumed), Short => Some SlotStandardShort
  | (StandardReported | StandardAssumed), Long => Some SlotStandardLong
  | Priority, Short => Some SlotPriorityShort
  | Priority, Long => Some SlotPriorityLong
  end.

Definition draft_slot (d : ModelOverrideDraft) (slot : Slot) : option PriceRatesOverride :=
  match slot with
  | SlotStandardShort => md_standard_short d
  | SlotStandardLong => md_standard_long d
  | SlotPriorityShort => md_priority_short d
  | SlotPriorityLong => md_priority_long d
  end.

Definition base_slot (model : str) (slot : Slot) : option PriceRates :=
  rule ← embedded_rule model;
  match slot with
  | SlotStandardShort => Some (standard_short rule)
  | SlotStandardLong => standard_long rule
  | SlotPriorityShort => priority_short rule
  | SlotPriorityLong => priority_long rule
  end.

(** Each component of the patch that is present, the base's otherwise *)
Definition patched_component (p : option Z) (base : option PriceRates) (f : PriceRates -> Z) (x : Z) : Prop :=
  match p with
  | Some y => x = y
  | None => exists b, base = Some b /\ x = f b
  end.

Definition patched (base : option PriceRates) (patch : option PriceRatesOverride) (r : PriceRates) : Prop :=
  match patch with
  | None => base = Some r
  | Some p =>
      patched_component (po_uncached_input p) base uncached_input (uncached_input r) /\
      patched_component (po_cached_input p) base cached_input (cached_input r) /\
      patched_component (po_billable_output p) base billable_output (billable_output r)
  end.

Lemma merge_rates_patched base patch merged :
  merge_rates base patch = Ok merged ->
  match merged with Some r => patched base patch r | None => patch = None /\ base = None end.
Proof.
  unfold merge_rates, patched. destruct patch as [[u c o]|].
  - simpl. destruct base as [b|]; simpl; intros H;
      destruct u, c, o; simpl in *; try discriminate H; injection H as <-; simpl; split_and!; eauto.
  - intros [= <-]. by destruct base.
Qed.

Definition rule_slot (rule : EffectiveModelRule) (slot : Slot) : option PriceRates :=
  match slot with
  | SlotStandardShort => Some (er_standard_short rule)
  | SlotStandardLong => er_standard_long rule
  | SlotPriorityShort => er_priority_short rule
  | SlotPriorityLong => er_priority_long rule
  end.

Lemma effective_rule_slot d rule slot : effective_rule d = Ok rule ->
  merge_rates (base_slot (md_model d) slot) (draft_slot d slot) = Ok (rule_slot rule slot).
Proof.
  unfold effective_rule. destruct (negb _); [done|]. cbv zeta. intros H.
  apply rbind_ok in H as (so & Hso & H). apply rbind_ok in H as (x & ->%ok_or_Ok & H).
  apply rbind_ok in H as (l & Hl & H). apply rbind_ok in H as (ps & Hps & H).
  apply rbind_ok in H as (pl & Hpl & [= <-]).
  unfold base_slot. destruct slot; simpl; [|done..]. by destruct (embedded_rule (md_model d)).
Qed.

(** The error for a tier and context that select no slot *)
Definition slot_error (tier : ServiceTier) : PriceErrorCode :=
  match tier with UnknownTier => TierUnknown | _ => ContextUnavailable end.

Lemma select_effective_slot rule tier context :
  select_effective_rates rule tier context =
  match slot_of tier context with
  | Some slot => ok_or (rule_slot rule slot) TierContextUnsupported
  | None => Err (slot_error tier)
  end.
Proof. by destruct tier, context. Qed.

Lemma built_model sha256 drafts s d :
  build sha256 drafts = Ok s -> ModelDraft d ∈ drafts ->
  exists rule, effective_rule d = Ok rule /\ rule ∈ os_models s /\ er_canonical_model rule = md_model d.
Proof.
  intros (ms & als & _ & _ & Hms & _ & ->)%build_parts Hd.
  destruct (build_models_all _ _ Hms d Hd) as (r & Hr & Hin). exists r.
  split_and!; [done| |by apply effective_rule_key]. simpl. by apply elem_of_sort.
Qed.

Lemma built_names sha256 drafts s :
  build sha256 drafts = Ok s ->
  (forall k, k ∈ map er_canonical_model (os_models s) -> k ∈ map draft_key drafts) /\
  (forall k, k ∈ map ar_alias (os_aliases s) -> k ∈ map draft_key drafts).
Proof.
  intros (ms & als & _ & _ & Hms & Hals & ->)%build_parts. simpl. split; intros k.
  - rewrite map_sorted_elem. intros Hk.
    eapply elem_of_sublist; [exact Hk|by eapply build_models_keys].
  - rewrite map_sorted_elem. intros Hk.
    eapply elem_of_sublist; [exact Hk|by eapply build_aliases_keys].
Qed.

Lemma catalog_names_ok : forall r n, r ∈ CATALOG -> n = canonical_model r \/ n ∈ aliases r -> str_ok n.
Proof.
  assert (forallb (fun r => forallb (fun n => forallb (fun c => (0 <=? c) && (c <? 128)) n)
    (canonical_model r :: aliases r)) CATALOG = true) as H by (by vm_compute).
  intros r n Hr Hn. rewrite forallb_forall in H. specialize (H r (proj1 (list_elem_of_In _ _) Hr)).
  rewrite forallb_forall in H. specialize (H n). rewrite forallb_forall in H.
  assert (In n (canonical_model r :: aliases r)) as Hin.
  { destruct Hn as [->|Hn]; [by left|right]. by apply list_elem_of_In. }
  specialize (H Hin). unfold str_ok, scalar. apply Forall_forall. intros c Hc.
  specialize (H c (proj1 (list_elem_of_In _ _) Hc)). to_prop. lia.
Qed.

Lemma unwrap_alias_ok m : str_ok m -> str_ok (unwrap_or (embedded_alias_target m) m).
Proof.
  intros Hm. destruct (embedded_alias_target m) as [t|] eqn:E; [|done]. simpl.
  apply alias_target_Some in E as (r & Hr & <- & _). by eapply catalog_names_ok; [done|left].
Qed.

(** The rule an overridden model resolves to *)
Definition overridden (d : ModelOverrideDraft) (tier : ServiceTier) (r : PriceRates) : ResolvedPriceRule :=
  {| rr_canonical_model := md_model d; rr_rates := r; rr_source := Override;
     rr_assumed_standard := bool_decide (tier = StandardAssumed) |}.

(** C37. An override changes exactly what it names.  An overridden model resolves from
    the snapshot, for every tier and context that have a price slot: to rates whose
    components are the draft's where it gives one and the catalog's otherwise, so that
    a slot the draft leaves alone keeps the catalog's rates; it is unsupported only
    when neither the draft nor the catalog has rates for the slot.  A model that no
    draft names, directly or through its catalog alias, resolves as without overrides. *)
Theorem override_is_local sha256 drafts s tier context :
  Forall draft_ok drafts -> build sha256 drafts = Ok s ->
  (forall d, ModelDraft d ∈ drafts ->
     match slot_of tier context with
     | Some slot =>
         (exists r, patched (base_slot (md_model d) slot) (draft_slot d slot) r /\
            resolve s (md_model d) tier context = Ok (overridden d tier r)) \/
         (draft_slot d slot = None /\ base_slot (md_model d) slot = None /\
            resolve s (md_model d) tier context = Err TierContextUnsupported)
     | None => resolve s (md_model d) tier context = Err (slot_error tier)
     end) /\
  (forall m, str_ok m -> m ∉ map draft_key drafts ->
     unwrap_or (embedded_alias_target m) m ∉ map draft_key drafts ->
     resolve s m tier context = resolve (empty sha256) m tier context).
Proof.
  intros Hok Hb. pose proof (build_snapshot_ok _ _ _ Hok Hb) as Hs. split.
  - intros d Hd. destruct (built_model _ _ _ _ Hb Hd) as (rule & He & Hin & Hk).
    rewrite resolve_rename, <- Hk, (rename_model s Hs rule Hin). unfold resolve_name.
    rewrite (proj2 (find_model s Hs (er_canonical_model rule) rule (model_ok s Hs rule Hin))) by done.
    rewrite select_effective_slot, Hk. destruct (slot_of tier context) as [slot|]; [|done].
    pose proof (merge_rates_patched _ _ _ (effective_rule_slot d rule slot He)) as Hp.
    destruct (rule_slot rule slot) as [r|]; [left|right; by destruct Hp]. exists r. split; [done|].
    unfold overridden. by rewrite <- Hk.
  - intros m Hm H1 H2. destruct (built_names _ _ _ Hb) as [Hmn Han].
    rewrite !resolve_rename. unfold rename.
    rewrite (find_alias_None s Hs m Hm) by naive_solver. simpl.
    unfold resolve_name. rewrite (proj2 (find_model_None s Hs _ (unwrap_alias_ok m Hm))) by naive_solver.
    done.
Qed.

(** The draft patches one component of one slot of a catalog model. *)
Definition sample_patch : ModelOverrideDraft :=
  {| md_model := lit "gpt-5";
     md_standard_short := Some {| po_uncached_input := Some 5; po_cached_input := None; po_billable_output := None |};
     md_standard_long := None; md_priority_short := None; md_priority_long := None |}.

Lemma override_is_local_witness :
  resolve sample_snapshot (lit "gpt-5-codex") StandardReported Short
  = Ok {| rr_canonical_model := lit "gpt-5"; rr_rates := rates 5 125000 10000000;
          rr_source := Override; rr_assumed_standard := false |} /\
  (exists r, base_slot (lit "gpt-5") SlotPriorityShort = Some r /\
     resolve sample_snapshot (lit "gpt-5") Priority Short = Ok (overridden sample_patch Priority r)) /\
  resolve sample_snapshot (lit "gpt-5.1") Priority Short
  = resolve (empty toy_sha256) (lit "gpt-5.1") Priority Short.
Proof.
  destruct (override_is_local toy_sha256 sample_drafts sample_snapshot Priority Short sample_drafts_ok) as [Hm Ho].
  { vm_compute. reflexivity. }
  split_and!.
  - vm_compute. reflexivity.
  - destruct (Hm sample_patch) as [(r & Hp & Hr)|(_ & Hn & _)].
    + unfold sample_drafts, sample_patch. apply list_elem_of_In. simpl. right. right. left. reflexivity.
    + exists r. split; [exact Hp|exact Hr].
    + vm_compute in Hn. discriminate Hn.
  - apply Ho; apply (bool_decide_unpack _); vm_compute; exact I.
Defined.

(** *** Order of the drafts *)

Lemma build_models_permutation d1 d2 m1 :
  d1 ≡ₚ d2 -> build_models d1 = Ok m1 -> exists m2, build_models d2 = Ok m2 /\ m1 ≡ₚ m2.
Proof.
  intros Hp. revert m1. induction Hp as [|x d1 d2 _ IH|x y d|d1 d2 d3 _ IH1 _ IH2]; intros m1.
  - intros [= <-]. by exists [].
  - destruct x as [x|x]; simpl; [|by apply IH].
    intros (r & Hr & (rs & Hrs & [= <-])%rbind_ok)%rbind_ok.
    destruct (IH _ Hrs) as (m2 & -> & Hm). rewrite Hr. exists (r :: m2). split; [done|]. by constructor.
  - destruct x as [x|x], y as [y|y]; simpl; eauto.
    intros (r & Hr & (rs & (r' & Hr' & (rs' & Hrs & [= <-])%rbind_ok)%rbind_ok & [= <-])%rbind_ok)%rbind_ok.
    rewrite Hr, Hr', Hrs. simpl. eexists. split; [done|]. apply perm_swap.
  - intros H. destruct (IH1 _ H) as (m2 & H2 & E2). destruct (IH2 _ H2) as (m3 & H3 & E3).
    exists m3. split; [done|]. by transitivity m2.
Qed.

Lemma build_aliases_permutation keys models d1 d2 m1 :
  d1 ≡ₚ d2 -> build_aliases keys models d1 = Ok m1 ->
  exists m2, build_aliases keys models d2 = Ok m2 /\ m1 ≡ₚ m2.
Proof.
  intros Hp. revert m1. induction Hp as [|x d1 d2 _ IH|x y d|d1 d2 d3 _ IH1 _ IH2]; intros m1.
  - intros [= <-]. by exists [].
  - destruct x as [x|x]; simpl; [by apply IH|].
    intros (r & Hr & (rs & Hrs & [= <-])%rbind_ok)%rbind_ok.
    destruct (IH _ Hrs) as (m2 & -> & Hm). rewrite Hr. exists (r :: m2). split; [done|]. by constructor.
  - destruct x as [x|x], y as [y|y]; simpl; eauto.
    intros (r & Hr & (rs & (r' & Hr' & (rs' & Hrs & [= <-])%rbind_ok)%rbind_ok & [= <-])%rbind_ok)%rbind_ok.
    rewrite Hr, Hr', Hrs. simpl. eexists. split; [done|]. apply perm_swap.
  - intros H. destruct (IH1 _ H) as (m2 & H2 & E2). destruct (IH2 _ H2) as (m3 & H3 & E3).
    exists m3. split; [done|]. by transitivity m2.
Qed.

Lemma build_aliases_keys_ext k1 k2 models drafts :
  (forall x, x ∈ k1 <-> x ∈ k2) -> build_aliases k1 models drafts = build_aliases k2 models drafts.
Proof.
  intros Hk. induction drafts as [|[d|a] drafts IH]; simpl; [done..|].
  rewrite IH. unfold alias_rule.
  by rewrite (bool_decide_ext (ad_target a ∈ k1) (ad_target a ∈ k2)).
Qed.

(** Two orders of rules with distinct keys sort to the same sequence. *)
Lemma sort_by_key_canonical {A} (key : A -> str) (l k : list A) :
  NoDup (map key l) -> (forall a, a ∈ l -> str_ok (key a)) -> l ≡ₚ k ->
  sort_by_cmp (cmp_by key str_cmp) l = sort_by_cmp (cmp_by key str_cmp) k.
Proof.
  intros Hnd Hok Hp. apply (strictly_sorted_unique (cmp_by key str_cmp)).
  - by apply sort_by_key_strict.
  - apply sort_by_key_strict; [by rewrite <- Hp|]. intros a. rewrite <- Hp. apply Hok.
  - by rewrite !sort_permutation.
Qed.

Lemma models_valid_keys drafts ms :
  Forall draft_valid drafts -> build_models drafts = Ok ms ->
  forall r, r ∈ ms -> str_ok (er_canonical_model r).
Proof.
  intros Hv Hms r (d & Hd & ->%effective_rule_key)%(build_models_elem _ _ _ Hms).
  rewrite Forall_forall in Hv. apply (valid_key_ok (draft_key (ModelDraft d))), Hv, Hd.
Qed.

Lemma aliases_valid_keys keys models drafts als :
  Forall draft_valid drafts -> build_aliases keys models drafts = Ok als ->
  forall a, a ∈ als -> str_ok (ar_alias a).
Proof.
  intros Hv Hals a (d & Hd & ->%alias_rule_fields)%(build_aliases_elem _ _ _ _ _ Hals).
  rewrite Forall_forall in Hv. apply (valid_key_ok (draft_key (AliasDraft d))), Hv, Hd.
Qed.

(** A snapshot is a function of the set of its drafts: reordering the drafts
    of a successful build yields the identical snapshot, revision included. *)
Theorem build_order_irrelevant sha256 d1 d2 s :
  d1 ≡ₚ d2 -> build sha256 d1 = Ok s -> build sha256 d2 = Ok s.
Proof.
  intros Hp Hb. pose proof Hb as (ms & als & Hv & Hnd & Hms & Hals & ->)%build_parts.
  destruct (build_models_permutation _ _ _ Hp Hms) as (ms2 & Hms2 & Pm).
  assert (sort_by_cmp (cmp_by er_canonical_model str_cmp) ms
          = sort_by_cmp (cmp_by er_canonical_model str_cmp) ms2) as Em.
  { apply sort_by_key_canonical; [|by eapply models_valid_keys|done].
    by eapply sublist_NoDup, build_models_keys. }
  destruct (build_aliases_permutation _ _ _ _ _ Hp Hals) as (als2 & Hals2 & Pa).
  assert (sort_by_cmp (cmp_by ar_alias str_cmp) als = sort_by_cmp (cmp_by ar_alias str_cmp) als2) as Ea.
  { apply sort_by_key_canonical; [|by eapply aliases_valid_keys|done].
    by eapply sublist_NoDup, build_aliases_keys. }
  unfold build in *. rewrite <- (Permutation_length Hp).
  destruct (_ <? _)%nat; [done|].
  rewrite (proj2 (check_drafts_ok [] d2)).
  2: { rewrite <- Hp. split_and!; [done..|]. apply Forall_forall. set_solver. }
  cbn [rbind]. rewrite Hms2. cbn [rbind]. rewrite <- Em.
  rewrite (build_aliases_keys_ext (alias_keys d2) (alias_keys d1)), Hals2.
  - cbn [rbind]. by rewrite Em, Ea.
  - intros x. unfold alias_keys. by rewrite Hp.
Qed.

Lemma build_order_irrelevant_witness :
  build toy_sha256 (reverse sample_drafts) = Ok sample_snapshot.
Proof.
  apply (build_order_irrelevant toy_sha256 sample_drafts); [|vm_compute; reflexivity].
  symmetry. apply reverse_Permutation.
Defined.

(** *** The revision *)

Lemma hash_string_inj a b r1 r2 :
  is_valid_model_key a = true -> is_valid_model_key b = true ->
  hash_string a ++ r1 = hash_string b ++ r2 -> a = b /\ r1 = r2.
Proof.
  intros [Ha La]%valid_key_ok [Hb Lb]%valid_key_ok. unfold hash_string. simpl. intros E.
  apply cons_split in E as [El E]. unfold str_len in *.
  rewrite !Z.mod_small in El by lia. apply app_split in E as [E ->]; [|lia].
  split; [by apply as_bytes_inj|done].
Qed.

Lemma le8_rate_inj x y r1 r2 :
  rate_ok x -> rate_ok y -> le_bytes 8 x ++ r1 = le_bytes 8 y ++ r2 -> x = y /\ r1 = r2.
Proof.
  unfold rate_ok, MAX_RATE_MICROS_PER_MILLION. intros Hx Hy E.
  apply app_split in E as [E ->]; [|by rewrite !le_bytes_length].
  split; [|done]. eapply (le_bytes_inj 8); [..|done]; simpl; lia.
Qed.

Lemma hash_rates_inj a b r1 r2 :
  (forall r, a = Some r -> rates_ok r) -> (forall r, b = Some r -> rates_ok r) ->
  hash_rates a ++ r1 = hash_rates b ++ r2 -> a = b /\ r1 = r2.
Proof.
  intros Ha Hb. destruct a as [[u c o]|], b as [[u' c' o']|]; unfold hash_rates;
    rewrite <- ?app_assoc; intros E; (apply app_split in E as [E1 E]; [|done]);
    try discriminate E1; [|done].
  destruct (Ha _ eq_refl) as (? & ? & ?), (Hb _ eq_refl) as (? & ? & ?); cbn [uncached_input cached_input billable_output] in *.
  apply le8_rate_inj in E as [-> E]; [|done..]. apply le8_rate_inj in E as [-> E]; [|done..].
  by apply le8_rate_inj in E as [-> ->].
Qed.

Definition rule_ok (r : EffectiveModelRule) : Prop :=
  is_valid_model_key (er_canonical_model r) = true /\
  forall rates, rates ∈ effective_rates r -> rates_ok rates.
Definition alias_entry_ok (a : AliasRule) : Prop :=
  is_valid_model_key (ar_alias a) = true /\ is_valid_model_key (ar_target a) = true.

Lemma effective_rates_slot r o rates :
  o ∈ [er_standard_long r; er_priority_short r; er_priority_long r] -> o = Some rates ->
  rates ∈ effective_rates r.
Proof.
  intros Ho ->. unfold effective_rates. apply elem_of_cons. right.
  apply list_elem_of_omap. by exists (Some rates).
Qed.

Lemma hash_model_inj a b r1 r2 :
  rule_ok a -> rule_ok b -> hash_model a ++ r1 = hash_model b ++ r2 -> a = b /\ r1 = r2.
Proof.
  intros [Ka Ra] [Kb Rb]. unfold hash_model. rewrite <- !app_assoc. intros E.
  apply app_split in E as [_ E]; [|done]. apply app_split in E as [_ E]; [|done].
  apply hash_string_inj in E as [E1 E]; [|done..].
  apply hash_rates_inj in E as [E2 E]; [|intros r [= <-]; first [by apply Ra; left|by apply Rb; left]..].
  apply hash_rates_inj in E as [E3 E];
    [|intros r Hr; first
      [ apply Ra; eapply effective_rates_slot; [|exact Hr]; set_solver
      | apply Rb; eapply effective_rates_slot; [|exact Hr]; set_solver ]..].
  apply hash_rates_inj in E as [E4 E];
    [|intros r Hr; first
      [ apply Ra; eapply effective_rates_slot; [|exact Hr]; set_solver
      | apply Rb; eapply effective_rates_slot; [|exact Hr]; set_solver ]..].
  apply hash_rates_inj in E as [E5 ->];
    [|intros r Hr; first
      [ apply Ra; eapply effective_rates_slot; [|exact Hr]; set_solver
      | apply Rb; eapply effective_rates_slot; [|exact Hr]; set_solver ]..].
  split; [|done]. destruct a, b; simpl in *. by simplify_eq.
Qed.

Lemma hash_alias_inj a b r1 r2 :
  alias_entry_ok a -> alias_entry_ok b -> hash_alias a ++ r1 = hash_alias b ++ r2 -> a = b /\ r1 = r2.
Proof.
  intros [A1 A2] [B1 B2]. unfold hash_alias. rewrite <- !app_assoc. intros E.
  apply app_split in E as [_ E]; [|done]. apply app_split in E as [_ E]; [|done].
  apply hash_string_inj in E as [E1 E]; [|done..].
  apply hash_string_inj in E as [E2 ->]; [|done..].
  split; [|done]. destruct a, b; simpl in *. by simplify_eq.
Qed.

Lemma hash_aliases_inj l k :
  Forall alias_entry_ok l -> Forall alias_entry_ok k ->
  mjoin (map hash_alias l) = mjoin (map hash_alias k) -> l = k.
Proof.
  intros Hl. revert k. induction Hl as [|a l Ha Hl IH]; intros [|b k] Hk;
    rewrite ?mjoin_map_cons; try done.
  intros E. inversion Hk; subst. apply hash_alias_inj in E as [-> E]; [|done..].
  f_equal. by apply IH.
Qed.

Lemma revision_body_inj m1 m2 a1 a2 :
  Forall rule_ok m1 -> Forall rule_ok m2 -> Forall alias_entry_ok a1 -> Forall alias_entry_ok a2 ->
  mjoin (map hash_model m1) ++ mjoin (map hash_alias a1)
  = mjoin (map hash_model m2) ++ mjoin (map hash_alias a2) -> m1 = m2 /\ a1 = a2.
Proof.
  intros H1. revert m2. induction H1 as [|r m1 Hr H1 IH]; intros [|r' m2] H2 Ha1 Ha2;
    rewrite ?mjoin_map_cons.
  - intros E. split; [done|]. by apply hash_aliases_inj.
  - by destruct a1.
  - by destruct a2.
  - rewrite <- !app_assoc. intros E. inversion H2; subst.
    apply hash_model_inj in E as [-> E]; [|done..].
    apply IH in E as [-> ->]; [done..].
Qed.

Lemma snapshot_entries_ok s :
  snapshot_ok s -> Forall rule_ok (os_models s) /\ Forall alias_entry_ok (os_aliases s).
Proof.
  intros Hs. split; apply Forall_forall.
  - intros r Hr. split; [by apply (so_model _ Hs r Hr)|]. intros. by eapply (so_rates _ Hs).
  - intros a Ha. destruct (so_alias _ Hs a Ha) as (? & ? & _). by split.
Qed.

(** The revision identifies the rules: two built snapshots with the same
    revision have the same model rules and the same aliases, unless SHA-256
    collides on their two encodings. *)
Theorem revision_identifies sha256 d1 d2 s1 s2 :
  Forall draft_ok d1 -> Forall draft_ok d2 ->
  build sha256 d1 = Ok s1 -> build sha256 d2 = Ok s2 -> os_revision s1 = os_revision s2 ->
  (os_models s1 = os_models s2 /\ os_aliases s1 = os_aliases s2) \/
  collision sha256 (revision_input (os_models s1) (os_aliases s1))
    (revision_input (os_models s2) (os_aliases s2)).
Proof.
  intros Ok1 Ok2 B1 B2 E.
  destruct (snapshot_entries_ok s1 (build_snapshot_ok _ _ _ Ok1 B1)) as [M1 A1].
  destruct (snapshot_entries_ok s2 (build_snapshot_ok _ _ _ Ok2 B2)) as [M2 A2].
  apply build_parts in B1 as (? & ? & _ & _ & _ & _ & ->), B2 as (? & ? & _ & _ & _ & _ & ->).
  cbn [from_validated os_models os_aliases os_revision] in *. unfold revision_for in E.
  match type of E with sha256 ?a = sha256 ?b => destruct (decide (a = b)) as [Ei|Ei] end;
    [left|by right].
  unfold revision_input in Ei. apply app_split in Ei as [_ Ei]; [|done].
  apply app_split in Ei as [_ Ei]; [|done]. by apply revision_body_inj in Ei.
Qed.

Lemma revision_identifies_witness :
  (os_models sample_snapshot = os_models sample_snapshot /\
   os_aliases sample_snapshot = os_aliases sample_snapshot) \/
  collision toy_sha256 (revision_input (os_models sample_snapshot) (os_aliases sample_snapshot))
    (revision_input (os_models sample_snapshot) (os_aliases sample_snapshot)).
Proof.
  apply (revision_identifies toy_sha256 sample_drafts (reverse sample_drafts)).
  - exact sample_drafts_ok.
  - rewrite reverse_Permutation. exact sample_drafts_ok.
  - vm_compute. reflexivity.
  - vm_compute. reflexivity.
  - reflexivity.
Defined.

(** *** The engine without overrides *)

#[export] Instance ModelRule_eq_dec : EqDecision ModelRule.
Proof. solve_decision. Defined.

Lemma in_catalog_names rule m :
  rule ∈ CATALOG -> rule_names rule m = true -> m ∈ catalog_names.
Proof.
  intros Hr Hm. unfold catalog_names. apply list_elem_of_join.
  exists (canonical_model rule :: aliases rule). split.
  - unfold rule_names in Hm. to_prop. apply elem_of_cons.
    destruct Hm as [Hm|Hm]; to_prop; auto.
  - apply list_elem_of_fmap. eauto.
Qed.

(** Looking a name up by canonical name or alias is renaming it, then looking
    the canonical name up. *)
Lemma find_rule_names m :
  List.find (fun rule => rule_names rule m) CATALOG
  = embedded_rule (unwrap_or (embedded_alias_target m) m).
Proof.
  destruct (decide (m ∈ catalog_names)) as [Hm|Hm].
  - assert (forallb (fun m => bool_decide (List.find (fun rule => rule_names rule m) CATALOG
      = embedded_rule (unwrap_or (embedded_alias_target m) m))) catalog_names = true) as H
      by (by vm_compute).
    rewrite forallb_forall in H. specialize (H m (proj1 (list_elem_of_In _ _) Hm)). by to_prop.
  - destruct (List.find _ _) as [rule|] eqn:E.
    { apply find_some in E as [Hr%list_elem_of_In E]. by destruct Hm; eapply in_catalog_names. }
    destruct (embedded_alias_target m) as [t|] eqn:Et; simpl.
    { apply alias_target_Some in Et as (r & Hr & _ & Ha). destruct Hm.
      eapply in_catalog_names; [done|]. unfold rule_names.
      rewrite (bool_decide_eq_true_2 _ Ha). apply orb_true_r. }
    destruct (embedded_rule m) as [r|] eqn:Er; [|done].
    apply embedded_rule_Some in Er as [Hr <-]. destruct Hm.
    eapply in_catalog_names; [done|]. unfold rule_names. by rewrite bool_decide_eq_true_2.
Qed.

(** The two ways to price from the catalog agree: an engine without overrides
    and the embedded catalog itself give the same amount under the same
    canonical model for every name, tier, context and basis, or fail with the
    same error. *)
Theorem embedded_engine_agrees sha256 model tier context basis :
  match engine_price (empty sha256) model tier context basis,
        EmbeddedCatalog_price model tier context basis with
  | Ok e, Ok q =>
      eq_amount e = pq_amount q /\ eq_canonical_model e = pq_canonical_model q /\
      eq_source e = Embedded
  | Err e, Err e' => e = e'
  | _, _ => False
  end.
Proof.
  unfold engine_price, EmbeddedCatalog_price. rewrite find_rule_names, resolve_rename.
  unfold rename, resolve_name. simpl.
  destruct (embedded_rule _) as [rule|]; simpl; [|done].
  destruct (select_rule_rates rule tier context) as [r|]; simpl; [|done].
  by destruct (calculate_cost r basis).
Qed.
