(* ===== verification/CostSelection.v ===== *)
(** * Cost selection

    Models [crates/pricing/src/selection.rs]: the cost of a set of usage rows,
    taken from reported amounts or calculated from rates, with counters that
    account for every event and a bounded list of what is missing.  The pricing
    engine is the snapshot of [PriceOverrides]. *)

From stdpp Require Import sets.
From S2P Require Import Prelude Collections Pricing PriceOverrides.

Open Scope Z_scope.

(** ** Data *)

Definition MAX_PRICE_BASIS_ROWS : nat := 512.
Definition MAX_MISSING_COST_DETAILS : nat := 32.

Inductive CostMode := Auto | CalculatedMode | ReportedMode.
#[export] Instance CostMode_eq_dec : EqDecision CostMode.
Proof. solve_decision. Defined.

Inductive CostAvailability := Complete | Partial | UnavailableCost | Zero.
Inductive CostComposition := NoCost | Calculated | Reported | Mixed.

Record PriceBasisRow := {
  row_model : str;
  row_tier : ServiceTier;
  row_context : ContextClass;
  row_event_count : Z;
  row_calculable_event_count : Z;
  row_basis : TokenPriceBasis;
  row_reported_event_count : Z;
  row_reported_cost : option Z
}.

Inductive MissingReasonCode :=
| MissingModelUnpriced
| MissingTierUnknown
| MissingContextUnavailable
| MissingTierContextUnsupported
| MissingTokenBasisUnavailable
| MissingReportedCostMissing
| MissingKeyLimitReached
| MissingArithmeticOverflow.
#[export] Instance MissingReasonCode_eq_dec : EqDecision MissingReasonCode.
Proof. solve_decision. Defined.

(** The derived [Ord] of [MissingReasonCode] *)
Definition reason_rank (r : MissingReasonCode) : Z :=
  match r with
  | MissingModelUnpriced => 0
  | MissingTierUnknown => 1
  | MissingContextUnavailable => 2
  | MissingTierContextUnsupported => 3
  | MissingTokenBasisUnavailable => 4
  | MissingReportedCostMissing => 5
  | MissingKeyLimitReached => 6
  | MissingArithmeticOverflow => 7
  end.

Record MissingCost := { mc_reason : MissingReasonCode; mc_key : option str }.
#[export] Instance MissingCost_eq_dec : EqDecision MissingCost.
Proof. solve_decision. Defined.

Record CostCounters := {
  total_events : Z;
  priced_events : Z;
  reported_events : Z;
  assumed_events : Z;
  unpriced_events : Z;
  omitted_events : Z;
  conflict_events : Z
}.

Record CostResult := {
  cr_mode : CostMode;
  cr_availability : CostAvailability;
  cr_amount : option Z;
  cr_composition : CostComposition;
  cr_counters : CostCounters;
  cr_missing : list MissingCost;
  cr_omitted_missing_details : Z;
  cr_calculated_catalog_id : option str;
  cr_override_revision : option (list Z);
  cr_used_override : bool
}.

Record CalculatedRow := {
  calc_numerator : Z;
  calc_rounded : option Z;
  calc_source : RuleSource;
  calc_assumed_standard : bool
}.

(** ** One row *)

Definition validate_row (row : PriceBasisRow) : result unit PriceErrorCode :=
  let reported_is_coherent :=
    match row_reported_cost row with
    | None => row_reported_event_count row =? 0
    | Some _ => row_reported_event_count row =? row_event_count row
    end in
  fail_if negb (is_valid_model_key (row_model row))
    || (row_event_count row =? 0)
    || (row_event_count row <? row_calculable_event_count row)
    || negb reported_is_coherent
  with InvalidPriceRow else Ok tt.

Definition result_ok {A E} (r : result A E) : option A :=
  match r with Ok a => Some a | Err _ => None end.

Definition calculate_row (engine : OverrideSnapshot) (row : PriceBasisRow)
  : result CalculatedRow PriceErrorCode :=
  fail_if row_calculable_event_count row =? 0 with TokenBasisUnavailable else
  let? resolved := resolve engine (row_model row) (row_tier row) (row_context row) in
  let? numerator := calculate_numerator (rr_rates resolved) (row_basis row) in
  Ok {| calc_numerator := numerator;
        calc_rounded := result_ok (round_numerator numerator);
        calc_source := rr_source resolved;
        calc_assumed_standard := rr_assumed_standard resolved |}.

(** [checked_add] of the module: [u64] addition with the module's error *)
Definition add_events (left right : Z) : result Z PriceErrorCode :=
  ok_or (checked_add u64_max left right) ArithmeticOverflow.

Definition missing_reason (code : PriceErrorCode) : MissingReasonCode :=
  match code with
  | ModelUnpriced => MissingModelUnpriced
  | TierUnknown => MissingTierUnknown
  | ContextUnavailable => MissingContextUnavailable
  | TierContextUnsupported => MissingTierContextUnsupported
  | TokenBasisUnavailable | InconsistentTokenBasis => MissingTokenBasisUnavailable
  | InvalidRate | ArithmeticOverflow | InvalidPriceRow | TooManyPriceRows =>
      MissingArithmeticOverflow
  end.

Definition cost_values_conflict (left right : Z) : bool :=
  let delta := Z.abs (left - right) in
  let larger := Z.max left right in
  (10000 <? delta) && (larger * 2 <? delta * 100).

(** The accumulators of the loop *)
Record Selection := {
  sel_counters : CostCounters;
  sel_numerator : Z;
  sel_missing : list MissingCost;
  sel_used_calculated : bool;
  sel_used_override : bool;
  sel_numeric_failure : bool
}.

Definition push_missing (s : Selection) (reason : MissingReasonCode) (key : option str) : Selection :=
  {| sel_counters := sel_counters s;
     sel_numerator := sel_numerator s;
     sel_missing := sel_missing s ++ [{| mc_reason := reason; mc_key := key |}];
     sel_used_calculated := sel_used_calculated s;
     sel_used_override := sel_used_override s;
     sel_numeric_failure := sel_numeric_failure s |}.

Definition with_counters (s : Selection) (c : CostCounters) : Selection :=
  {| sel_counters := c;
     sel_numerator := sel_numerator s;
     sel_missing := sel_missing s;
     sel_used_calculated := sel_used_calculated s;
     sel_used_override := sel_used_override s;
     sel_numeric_failure := sel_numeric_failure s |}.

Definition with_numerator (s : Selection) (n : Z) : Selection :=
  {| sel_counters := sel_counters s;
     sel_numerator := n;
     sel_missing := sel_missing s;
     sel_used_calculated := sel_used_calculated s;
     sel_used_override := sel_used_override s;
     sel_numeric_failure := sel_numeric_failure s |}.

Definition fail_numeric (s : Selection) : Selection :=
  {| sel_counters := sel_counters s;
     sel_numerator := sel_numerator s;
     sel_missing := sel_missing s;
     sel_used_calculated := sel_used_calculated s;
     sel_used_override := sel_used_override s;
     sel_numeric_failure := true |}.

Definition mark_calculated (s : Selection) (source : RuleSource) : Selection :=
  {| sel_counters := sel_counters s;
     sel_numerator := sel_numerator s;
     sel_missing := sel_missing s;
     sel_used_calculated := true;
     sel_used_override := sel_used_override s || bool_decide (source = Override);
     sel_numeric_failure := sel_numeric_failure s |}.

Definition set_total (c : CostCounters) (v : Z) : CostCounters :=
  {| total_events := v; priced_events := priced_events c; reported_events := reported_events c;
     assumed_events := assumed_events c; unpriced_events := unpriced_events c;
     omitted_events := omitted_events c; conflict_events := conflict_events c |}.
Definition set_priced (c : CostCounters) (v : Z) : CostCounters :=
  {| total_events := total_events c; priced_events := v; reported_events := reported_events c;
     assumed_events := assumed_events c; unpriced_events := unpriced_events c;
     omitted_events := omitted_events c; conflict_events := conflict_events c |}.
Definition set_reported (c : CostCounters) (v : Z) : CostCounters :=
  {| total_events := total_events c; priced_events := priced_events c; reported_events := v;
     assumed_events := assumed_events c; unpriced_events := unpriced_events c;
     omitted_events := omitted_events c; conflict_events := conflict_events c |}.
Definition set_assumed (c : CostCounters) (v : Z) : CostCounters :=
  {| total_events := total_events c; priced_events := priced_events c;
     reported_events := reported_events c;
     assumed_events := v; unpriced_events := unpriced_events c;
     omitted_events := omitted_events c; conflict_events := conflict_events c |}.
Definition set_unpriced (c : CostCounters) (v : Z) : CostCounters :=
  {| total_events := total_events c; priced_events := priced_events c;
     reported_events := reported_events c;
     assumed_events := assumed_events c; unpriced_events := v;
     omitted_events := omitted_events c; conflict_events := conflict_events c |}.
Definition set_conflict (c : CostCounters) (v : Z) : CostCounters :=
  {| total_events := total_events c; priced_events := priced_events c;
     reported_events := reported_events c;
     assumed_events := assumed_events c; unpriced_events := unpriced_events c;
     omitted_events := omitted_events c; conflict_events := v |}.

(** The amounts reported for and calculated for a row disagree. *)
Definition row_conflicts (row : PriceBasisRow) (calculated : result CalculatedRow PriceErrorCode) : bool :=
  (row_reported_event_count row =? row_event_count row)
  && (row_calculable_event_count row =? row_event_count row)
  && match row_reported_cost row, calculated with
     | Some reported, Ok calculated =>
         is_some_and (calc_rounded calculated) (fun amount => cost_values_conflict reported amount)
     | _, _ => false
     end.

Definition select_reported (s : Selection) (row : PriceBasisRow) : result Selection PriceErrorCode :=
  let c := sel_counters s in
  match row_reported_cost row with
  | Some amount =>
      let? numerator := ok_or (checked_mul u128_max amount TOKENS_PER_MILLION) ArithmeticOverflow in
      match checked_add u128_max (sel_numerator s) numerator with
      | Some sum =>
          let? n := add_events (reported_events c) (row_reported_event_count row) in
          Ok (with_counters (with_numerator s sum) (set_reported c n))
      | None => Ok (fail_numeric s)
      end
  | None =>
      let? n := add_events (unpriced_events c) (row_event_count row) in
      Ok (push_missing (with_counters s (set_unpriced c n)) MissingReportedCostMissing
            (Some (row_model row)))
  end.

Definition select_calculated (s : Selection) (row : PriceBasisRow)
    (calculated : result CalculatedRow PriceErrorCode) : result Selection PriceErrorCode :=
  let c := sel_counters s in
  match calculated with
  | Ok calc =>
      match checked_add u128_max (sel_numerator s) (calc_numerator calc) with
      | Some sum =>
          let? n := add_events (priced_events c) (row_calculable_event_count row) in
          let c := set_priced c n in
          let? c :=
            if calc_assumed_standard calc
            then let? n := add_events (assumed_events c) (row_calculable_event_count row) in
                 Ok (set_assumed c n)
            else Ok c in
          let s := with_counters (with_numerator s sum) c in
          let? s :=
            if row_calculable_event_count row <? row_event_count row
            then
              let unavailable := row_event_count row - row_calculable_event_count row in
              let? n := add_events (unpriced_events c) unavailable in
              Ok (push_missing (with_counters s (set_unpriced c n)) MissingTokenBasisUnavailable
                    (Some (row_model row)))
            else Ok s in
          Ok (mark_calculated s (calc_source calc))
      | None => Ok (fail_numeric s)
      end
  | Err error =>
      let? n := add_events (unpriced_events c) (row_event_count row) in
      Ok (push_missing (with_counters s (set_unpriced c n)) (missing_reason error)
            (Some (row_model row)))
  end.

(** The body of the loop *)
Definition select_row (engine : OverrideSnapshot) (mode : CostMode) (s : Selection)
    (row : PriceBasisRow) : result Selection PriceErrorCode :=
  let? _ := validate_row row in
  let? total := add_events (total_events (sel_counters s)) (row_event_count row) in
  let s := with_counters s (set_total (sel_counters s) total) in
  let calculated := calculate_row engine row in
  let? s :=
    if row_conflicts row calculated
    then let? n := add_events (conflict_events (sel_counters s)) (row_event_count row) in
         Ok (with_counters s (set_conflict (sel_counters s) n))
    else Ok s in
  if bool_decide (mode = ReportedMode)
     || (bool_decide (mode = Auto) && is_some (row_reported_cost row))
  then select_reported s row
  else select_calculated s row calculated.

Fixpoint select_rows (engine : OverrideSnapshot) (mode : CostMode) (s : Selection)
    (rows : list PriceBasisRow) : result Selection PriceErrorCode :=
  match rows with
  | [] => Ok s
  | row :: rows =>
      let? s := select_row engine mode s row in
      select_rows engine mode s rows
  end.

(** ** The result *)

Definition missing_cmp : MissingCost -> MissingCost -> comparison :=
  cmp_then (cmp_by (fun m => reason_rank (mc_reason m)) Z.compare)
           (cmp_by mc_key (option_cmp str_cmp)).

Definition initial_selection (omitted_event_count : Z) : Selection :=
  {| sel_counters :=
       {| total_events := omitted_event_count; priced_events := 0; reported_events := 0;
          assumed_events := 0; unpriced_events := 0; omitted_events := omitted_event_count;
          conflict_events := 0 |};
     sel_numerator := 0;
     sel_missing :=
       if 0 <? omitted_event_count
       then [{| mc_reason := MissingKeyLimitReached; mc_key := None |}] else [];
     sel_used_calculated := false;
     sel_used_override := false;
     sel_numeric_failure := false |}.

(** The amount of the selected numerators, or a numeric failure *)
Definition round_selection (s : Selection) : result (option Z * Selection) PriceErrorCode :=
  let c := sel_counters s in
  let? selected_events := add_events (priced_events c) (reported_events c) in
  Ok (if (0 <? selected_events) || (total_events c =? 0)
      then match round_numerator (sel_numerator s) with
           | Ok amount => (Some amount, s)
           | Err _ => (None, fail_numeric s)
           end
      else (None, s)).

(** [if numeric_failure { .. }] *)
Definition discard_failed (amount : option Z) (s : Selection) : option Z * Selection :=
  if sel_numeric_failure s then
    let c := sel_counters s in
    let s := push_missing s MissingArithmeticOverflow None in
    (None,
     {| sel_counters :=
          {| total_events := total_events c; priced_events := 0; reported_events := 0;
             assumed_events := 0; unpriced_events := total_events c - omitted_events c;
             omitted_events := omitted_events c; conflict_events := conflict_events c |};
        sel_numerator := sel_numerator s;
        sel_missing := sel_missing s;
        sel_used_calculated := false;
        sel_used_override := false;
        sel_numeric_failure := true |})
  else (amount, s).

Definition availability_of (amount : option Z) (s : Selection) (selected_events : Z)
  : CostAvailability :=
  let c := sel_counters s in
  if sel_numeric_failure s then UnavailableCost
  else if total_events c =? 0 then Zero
  else if selected_events =? 0 then UnavailableCost
  else if (unpriced_events c =? 0) && (omitted_events c =? 0)
  then if is_some_and amount (fun value => value =? 0) then Zero else Complete
  else Partial.

Definition composition_of (c : CostCounters) : CostComposition :=
  match 0 <? priced_events c, 0 <? reported_events c with
  | false, false => NoCost
  | true, false => Calculated
  | false, true => Reported
  | true, true => Mixed
  end.

Definition finish_selection (engine : OverrideSnapshot) (mode : CostMode) (s : Selection)
  : result CostResult PriceErrorCode :=
  let? rounded := round_selection s in
  let '(amount, s) := rounded in
  let '(amount, s) := discard_failed amount s in
  let missing := dedup (sort_by_cmp missing_cmp (sel_missing s)) in
  let omitted_missing_details :=
    saturating_sub (Z.of_nat (length missing)) (Z.of_nat MAX_MISSING_COST_DETAILS) in
  let c := sel_counters s in
  let? selected_events := add_events (priced_events c) (reported_events c) in
  Ok {| cr_mode := mode;
        cr_availability := availability_of amount s selected_events;
        cr_amount := amount;
        cr_composition := composition_of c;
        cr_counters := c;
        cr_missing := take MAX_MISSING_COST_DETAILS missing;
        cr_omitted_missing_details := omitted_missing_details;
        cr_calculated_catalog_id := if sel_used_calculated s then Some CATALOG_ID else None;
        cr_override_revision := if sel_used_calculated s then Some (os_revision engine) else None;
        cr_used_override := sel_used_override s |}.

Definition select_cost (engine : OverrideSnapshot) (mode : CostMode) (rows : list PriceBasisRow)
    (omitted_event_count : Z) : result CostResult PriceErrorCode :=
  fail_if (MAX_PRICE_BASIS_ROWS <? length rows)%nat with TooManyPriceRows else
  let? s := select_rows engine mode (initial_selection omitted_event_count) rows in
  finish_selection engine mode s.

(** ** What a row contributes *)

Section contributions.
Context (engine : OverrideSnapshot) (mode : CostMode).

Definition uses_reported (row : PriceBasisRow) : bool :=
  bool_decide (mode = ReportedMode)
  || (bool_decide (mode = Auto) && is_some (row_reported_cost row)).

Definition row_numerator (row : PriceBasisRow) : Z :=
  if uses_reported row then unwrap_or (row_reported_cost row) 0 * TOKENS_PER_MILLION
  else match calculate_row engine row with Ok calc => calc_numerator calc | Err _ => 0 end.

Definition row_reported (row : PriceBasisRow) : Z :=
  if uses_reported row && is_some (row_reported_cost row) then row_event_count row else 0.

Definition row_priced (row : PriceBasisRow) : Z :=
  if uses_reported row then 0
  else match calculate_row engine row with Ok _ => row_calculable_event_count row | Err _ => 0 end.

Definition row_assumed (row : PriceBasisRow) : Z :=
  if uses_reported row then 0
  else match calculate_row engine row with
       | Ok calc => if calc_assumed_standard calc then row_calculable_event_count row else 0
       | Err _ => 0
       end.

Definition row_conflict (row : PriceBasisRow) : Z :=
  if row_conflicts row (calculate_row engine row) then row_event_count row else 0.

(** What the row leaves to explain *)
Definition row_missing (row : PriceBasisRow) : list MissingCost :=
  let missing reason := [{| mc_reason := reason; mc_key := Some (row_model row) |}] in
  if uses_reported row
  then if is_some (row_reported_cost row) then [] else missing MissingReportedCostMissing
  else match calculate_row engine row with
       | Ok _ => if row_calculable_event_count row <? row_event_count row
                 then missing MissingTokenBasisUnavailable else []
       | Err error => missing (missing_reason error)
       end.
End contributions.

(** Rows as the query layer produces them: counts and amounts are [u64] values. *)
Definition row_ok (row : PriceBasisRow) : Prop :=
  in_u64 (row_event_count row) /\ in_u64 (row_calculable_event_count row) /\
  in_u64 (row_reported_event_count row) /\ basis_ok (row_basis row) /\
  forall c, row_reported_cost row = Some c -> in_u64 c.

Definition row_valid (row : PriceBasisRow) : Prop :=
  is_valid_model_key (row_model row) = true /\ row_event_count row <> 0 /\
  row_calculable_event_count row <= row_event_count row /\
  match row_reported_cost row with
  | None => row_reported_event_count row = 0
  | Some _ => row_reported_event_count row = row_event_count row
  end.

Lemma validate_row_ok row : validate_row row = Ok tt <-> row_valid row.
Proof.
  unfold validate_row, row_valid. destruct (is_valid_model_key _); simpl; [|naive_solver].
  destruct (row_event_count row =? 0) eqn:E1; simpl; to_prop; [naive_solver|].
  destruct (_ <? _) eqn:E2; simpl; to_prop; [split; [done|intros (_ & _ & ? & _); lia]|].
  destruct (row_reported_cost row); destruct (_ =? _) eqn:E3; simpl; to_prop; naive_solver.
Qed.

(** Every rate the engine resolves is in range. *)
Lemma select_effective_rates_in rule tier context r :
  select_effective_rates rule tier context = Ok r -> r ∈ effective_rates rule.
Proof.
  intros H. unfold effective_rates. rewrite elem_of_cons, list_elem_of_omap.
  destruct tier, context; simpl in H; try discriminate H;
    first [ injection H as <-; by left
          | apply ok_or_Ok in H; right; exists (Some r); rewrite <- H; split; [|done];
            rewrite !elem_of_cons; auto ].
Qed.

Lemma resolve_rates_ok engine m tier context rr :
  snapshot_ok engine -> str_ok m -> resolve engine m tier context = Ok rr -> rates_ok (rr_rates rr).
Proof.
  intros Hs Hm. rewrite resolve_rename. unfold resolve_name, rename.
  assert (str_ok match find_key ar_alias m (os_aliases engine) with
                 | Some rule => ar_target rule | None => m end) as Hn.
  { destruct (find_key ar_alias m _) as [a|] eqn:E; [|done].
    apply (find_alias engine Hs m a Hm) in E as [Ha _]. by apply (alias_ok engine Hs a). }
  apply unwrap_alias_ok in Hn. revert Hn. generalize (unwrap_or (embedded_alias_target
    match find_key ar_alias m (os_aliases engine) with
    | Some rule => ar_target rule | None => m end)
    match find_key ar_alias m (os_aliases engine) with
    | Some rule => ar_target rule | None => m end). intros n Hn.
  destruct (find_key er_canonical_model n _) as [rule|] eqn:E.
  - apply (find_model engine Hs n rule Hn) in E as [Hr _].
    intros (r & Hsel%select_effective_rates_in & [= <-])%rbind_ok. by eapply (so_rates _ Hs).
  - intros (rule & Hrule%ok_or_Ok & (r & Hsel%select_rule_rates_in & [= <-])%rbind_ok)%rbind_ok.
    apply embedded_rule_Some in Hrule as [Hc _]. by eapply catalog_rates_ok.
Qed.

(** The most one row can add to the numerator *)
Definition row_bound : Z := 3 * (u64_max * MAX_RATE_MICROS_PER_MILLION).

Lemma calculate_row_bound engine row calc :
  snapshot_ok engine -> row_ok row -> row_valid row ->
  calculate_row engine row = Ok calc -> 0 <= calc_numerator calc <= row_bound.
Proof.
  intros Hs (_ & _ & _ & Hb & _) (Hk & _) H. unfold calculate_row in H.
  destruct (_ =? 0); [done|].
  apply rbind_ok in H as (rr & Hrr & (n & Hn & [= <-])%rbind_ok).
  assert (rates_ok (rr_rates rr)) as Hr by (eapply resolve_rates_ok; [done|by apply valid_key_ok|done]).
  rewrite (calculate_numerator_exact _ _ Hr Hb) in Hn. injection Hn as <-. simpl.
  by apply exact_numerator_bound.
Qed.

Lemma row_numerator_bound engine mode row :
  snapshot_ok engine -> row_ok row -> row_valid row -> 0 <= row_numerator engine mode row <= row_bound.
Proof.
  intros Hs Hr Hv. unfold row_numerator. destruct (uses_reported mode row).
  - destruct Hr as (_ & _ & _ & _ & Hc). unfold row_bound.
    destruct (row_reported_cost row) as [c|]; simpl.
    + specialize (Hc c eq_refl). unfold in_u64, u64_max, TOKENS_PER_MILLION, MAX_RATE_MICROS_PER_MILLION in *. lia.
    + unfold u64_max, MAX_RATE_MICROS_PER_MILLION. lia.
  - destruct (calculate_row engine row) as [calc|] eqn:E; [by eapply calculate_row_bound|].
    unfold row_bound, u64_max, MAX_RATE_MICROS_PER_MILLION. lia.
Qed.

(** ** The loop computes sums *)

Section exact.
Context (engine : OverrideSnapshot) (mode : CostMode) (omitted : Z).

Definition row_unpriced (row : PriceBasisRow) : Z :=
  row_event_count row - row_priced engine mode row - row_reported mode row.

Definition row_calculated (row : PriceBasisRow) : option RuleSource :=
  if uses_reported mode row then None
  else match calculate_row engine row with Ok calc => Some (calc_source calc) | Err _ => None end.

(** The accumulators after a sequence of rows, as sums *)
Definition exact_selection (rows : list PriceBasisRow) : Selection :=
  {| sel_counters :=
       {| total_events := omitted + zsum row_event_count rows;
          priced_events := zsum (row_priced engine mode) rows;
          reported_events := zsum (row_reported mode) rows;
          assumed_events := zsum (row_assumed engine mode) rows;
          unpriced_events := zsum row_unpriced rows;
          omitted_events := omitted;
          conflict_events := zsum (row_conflict engine) rows |};
     sel_numerator := zsum (row_numerator engine mode) rows;
     sel_missing :=
       sel_missing (initial_selection omitted) ++ mjoin (map (row_missing engine mode) rows);
     sel_used_calculated := existsb (fun row => is_some (row_calculated row)) rows;
     sel_used_override :=
       existsb (fun row => bool_decide (row_calculated row = Some Override)) rows;
     sel_numeric_failure := false |}.

Definition rows_ok (rows : list PriceBasisRow) : Prop :=
  Forall row_ok rows /\ Forall row_valid rows.

Definition in_budget (rows : list PriceBasisRow) : Prop :=
  (length rows <= MAX_PRICE_BASIS_ROWS)%nat /\ omitted + zsum row_event_count rows <= u64_max.

Context (Hengine : snapshot_ok engine) (Homitted : 0 <= omitted).

Lemma row_counts row :
  row_ok row -> row_valid row ->
  0 <= row_priced engine mode row /\ 0 <= row_reported mode row /\ 0 <= row_unpriced row /\
  0 <= row_assumed engine mode row <= row_priced engine mode row /\
  0 <= row_conflict engine row <= row_event_count row.
Proof.
  intros (H1 & H2 & H3 & _) (_ & _ & Hc & _).
  unfold row_unpriced, row_priced, row_reported, row_assumed, row_conflict, in_u64 in *.
  destruct (uses_reported mode row), (row_reported_cost row), (calculate_row engine row) as [calc|]; simpl;
    try destruct (calc_assumed_standard calc); destruct (row_conflicts _ _); lia.
Qed.

(** A per-row count that is at most the row's events sums to at most the total. *)
Lemma count_bound (f : PriceBasisRow -> Z) rows :
  rows_ok rows -> in_budget rows ->
  (forall row, row_ok row -> row_valid row -> f row <= row_event_count row) ->
  zsum f rows <= u64_max.
Proof.
  intros [Ho Hv] [_ Hb] Hf. rewrite Forall_forall in Ho, Hv.
  assert (zsum f rows <= zsum row_event_count rows) by (apply zsum_le; auto). lia.
Qed.

Lemma add_events_exact (f : PriceBasisRow -> Z) rows row x :
  rows_ok (rows ++ [row]) -> in_budget (rows ++ [row]) ->
  (forall row, row_ok row -> row_valid row -> f row <= row_event_count row) ->
  x = f row -> add_events (zsum f rows) x = Ok (zsum f (rows ++ [row])).
Proof.
  intros Ho Hb Hf ->. pose proof (count_bound f _ Ho Hb Hf) as H. rewrite zsum_snoc in *.
  unfold add_events. apply ok_or_Ok, checked_add_Some. done.
Qed.

Lemma numerator_exact rows row x :
  rows_ok (rows ++ [row]) -> in_budget (rows ++ [row]) -> x = row_numerator engine mode row ->
  checked_add u128_max (zsum (row_numerator engine mode) rows) x
  = Some (zsum (row_numerator engine mode) (rows ++ [row])).
Proof.
  intros [Ho Hv] [Hl _] ->. rewrite Forall_forall in Ho, Hv.
  apply checked_add_Some. rewrite zsum_snoc. split; [done|].
  rewrite <- zsum_snoc.
  transitivity (zsum (fun _ => row_bound) (rows ++ [row])).
  - apply zsum_le. intros r Hr. apply row_numerator_bound; auto.
  - rewrite zsum_const. unfold MAX_PRICE_BASIS_ROWS in Hl.
    transitivity (row_bound * 512); [|by vm_compute].
    apply Z.mul_le_mono_nonneg_l; [by vm_compute|lia].
Qed.

Lemma missing_snoc rows row :
  mjoin (map (row_missing engine mode) (rows ++ [row]))
  = mjoin (map (row_missing engine mode) rows) ++ row_missing engine mode row.
Proof. rewrite map_app, join_app. simpl. by rewrite app_nil_r. Qed.

Lemma priced_le row : row_ok row -> row_valid row -> row_priced engine mode row <= row_event_count row.
Proof. intros Ho Hv. pose proof (row_counts row Ho Hv). unfold row_unpriced in *. lia. Qed.
Lemma reported_le row : row_ok row -> row_valid row -> row_reported mode row <= row_event_count row.
Proof. intros Ho Hv. pose proof (row_counts row Ho Hv). unfold row_unpriced in *. lia. Qed.
Lemma unpriced_le row : row_ok row -> row_valid row -> row_unpriced row <= row_event_count row.
Proof. intros Ho Hv. pose proof (row_counts row Ho Hv). unfold row_unpriced in *. lia. Qed.
Lemma assumed_le row : row_ok row -> row_valid row -> row_assumed engine mode row <= row_event_count row.
Proof. intros Ho Hv. pose proof (row_counts row Ho Hv). unfold row_unpriced in *. lia. Qed.
Lemma conflict_le row : row_ok row -> row_valid row -> row_conflict engine row <= row_event_count row.
Proof. intros Ho Hv. pose proof (row_counts row Ho Hv). lia. Qed.

(** The accumulators once the row's total and conflict are counted *)
Definition counted (rows : list PriceBasisRow) (row : PriceBasisRow) : Selection :=
  with_counters (exact_selection rows)
    (set_conflict (set_total (sel_counters (exact_selection rows))
                     (omitted + zsum row_event_count (rows ++ [row])))
       (zsum (row_conflict engine) (rows ++ [row]))).

Lemma select_row_counted rows row :
  rows_ok (rows ++ [row]) -> in_budget (rows ++ [row]) ->
  select_row engine mode (exact_selection rows) row
  = if uses_reported mode row then select_reported (counted rows row) row
    else select_calculated (counted rows row) row (calculate_row engine row).
Proof.
  intros Ho Hb. unfold select_row.
  assert (row_valid row) as Hv.
  { destruct Ho as [_ Hv]. rewrite Forall_forall in Hv. apply Hv. set_solver. }
  rewrite (proj2 (validate_row_ok row) Hv). cbn [rbind].
  replace (add_events (total_events (sel_counters (exact_selection rows))) (row_event_count row))
    with (@Ok _ PriceErrorCode (omitted + zsum row_event_count (rows ++ [row]))).
  2: { symmetry. unfold add_events. apply ok_or_Ok, checked_add_Some. simpl. destruct Hb as [_ Hb].
       rewrite zsum_snoc in *. split; lia. }
  cbn [rbind].
  replace (if row_conflicts row (calculate_row engine row) then _ else _)
    with (@Ok _ PriceErrorCode (counted rows row)); [done|].
  pose proof (add_events_exact (row_conflict engine) rows row _ Ho Hb conflict_le eq_refl) as Hc.
  unfold counted. destruct (row_conflicts row _) eqn:E; simpl.
  - assert (row_conflict engine row = row_event_count row) as Er by (unfold row_conflict; by rewrite E).
    rewrite Er in Hc. by rewrite Hc.
  - assert (row_conflict engine row = 0) as Er by (unfold row_conflict; by rewrite E).
    by rewrite (zsum_snoc (row_conflict engine)), Er, Z.add_0_r.
Qed.

(** The rewriting of one row's effects into sums *)
Ltac sums :=
  rewrite ?zsum_snoc, ?missing_snoc, ?existsb_app; simpl;
  rewrite ?app_nil_r, ?orb_false_r, ?app_assoc, ?Z.add_0_r.

Lemma select_reported_exact rows row :
  rows_ok (rows ++ [row]) -> in_budget (rows ++ [row]) -> uses_reported mode row = true ->
  select_reported (counted rows row) row = Ok (exact_selection (rows ++ [row])).
Proof.
  intros Ho Hb Hu. unfold select_reported.
  assert (row_ok row /\ row_valid row) as [Hro Hrv].
  { destruct Ho as [Ho Hv]. rewrite Forall_forall in Ho, Hv. split; [apply Ho|apply Hv]; set_solver. }
  pose proof Hrv as (_ & _ & _ & Hrep).
  assert (row_priced engine mode row = 0) as Ep by (unfold row_priced; by rewrite Hu).
  assert (row_assumed engine mode row = 0) as Ea by (unfold row_assumed; by rewrite Hu).
  assert (row_calculated row = None) as Ec by (unfold row_calculated; by rewrite Hu).
  destruct (row_reported_cost row) as [c|] eqn:Er.
  - rewrite (proj2 (checked_mul_Some u128_max c TOKENS_PER_MILLION (c * TOKENS_PER_MILLION))).
    2: { split; [done|]. destruct Hro as (_ & _ & _ & _ & Hc). specialize (Hc _ Er).
         unfold in_u64, u64_max, u128_max, TOKENS_PER_MILLION in *. lia. }
    cbn [ok_or rbind].
    assert (row_numerator engine mode row = c * TOKENS_PER_MILLION) as En
      by (unfold row_numerator; by rewrite Hu, Er).
    assert (row_reported mode row = row_event_count row) as Ee
      by (unfold row_reported; by rewrite Hu, Er).
    assert (row_missing engine mode row = []) as Em by (unfold row_missing; by rewrite Hu, Er).
    assert (row_unpriced row = 0) as Eu by (unfold row_unpriced; lia).
    change (sel_numerator (counted rows row)) with (zsum (row_numerator engine mode) rows).
    rewrite (numerator_exact rows row) by done.
    change (reported_events (sel_counters (counted rows row))) with (zsum (row_reported mode) rows).
    rewrite (add_events_exact _ rows row) by (first [done|apply reported_le|lia]).
    cbn [rbind]. f_equal. unfold counted, exact_selection, with_counters, with_numerator, set_reported; simpl.
    sums. rewrite Ep, Ea, Ec, Eu, Em. simpl. by rewrite ?app_nil_r, ?orb_false_r, ?Z.add_0_r.
  - assert (row_numerator engine mode row = 0) as En by (unfold row_numerator; by rewrite Hu, Er).
    assert (row_reported mode row = 0) as Ee by (unfold row_reported; by rewrite Hu, Er).
    assert (row_unpriced row = row_event_count row) as Eu by (unfold row_unpriced; lia).
    change (unpriced_events (sel_counters (counted rows row))) with (zsum row_unpriced rows).
    rewrite (add_events_exact _ rows row) by (first [done|apply unpriced_le|lia]).
    cbn [rbind]. f_equal. unfold counted, exact_selection, push_missing, with_counters, set_unpriced; simpl.
    sums. rewrite Ep, Ea, Ec, En, Ee, ?Z.add_0_r. simpl. rewrite ?orb_false_r.
    f_equal. unfold row_missing. rewrite Hu, Er. by rewrite ?app_assoc.
Qed.
Lemma select_unavailable_exact rows row e :
  rows_ok (rows ++ [row]) -> in_budget (rows ++ [row]) -> uses_reported mode row = false ->
  calculate_row engine row = Err e ->
  select_calculated (counted rows row) row (Err e) = Ok (exact_selection (rows ++ [row])).
Proof.
  intros Ho Hb Hu Ec. unfold select_calculated.
  assert (row_reported mode row = 0) as Er by (unfold row_reported; by rewrite Hu).
  assert (row_numerator engine mode row = 0) as En by (unfold row_numerator; by rewrite Hu, Ec).
  assert (row_priced engine mode row = 0) as Ep by (unfold row_priced; by rewrite Hu, Ec).
  assert (row_assumed engine mode row = 0) as Ea by (unfold row_assumed; by rewrite Hu, Ec).
  assert (row_calculated row = None) as Es by (unfold row_calculated; by rewrite Hu, Ec).
  assert (row_unpriced row = row_event_count row) as Eu by (unfold row_unpriced; lia).
  change (unpriced_events (sel_counters (counted rows row))) with (zsum row_unpriced rows).
  rewrite (add_events_exact _ rows row) by (first [done|apply unpriced_le|lia]).
  cbn [rbind]. f_equal. unfold counted, exact_selection, push_missing, with_counters, set_unpriced; simpl.
  sums. rewrite Er, Ep, Ea, En, Es, ?Z.add_0_r. simpl. rewrite ?orb_false_r.
  f_equal. unfold row_missing. rewrite Hu, Ec. by rewrite ?app_assoc.
Qed.

Lemma select_calculated_exact rows row :
  rows_ok (rows ++ [row]) -> in_budget (rows ++ [row]) -> uses_reported mode row = false ->
  select_calculated (counted rows row) row (calculate_row engine row)
  = Ok (exact_selection (rows ++ [row])).
Proof.
  intros Ho Hb Hu. unfold select_calculated.
  assert (row_reported mode row = 0) as Er by (unfold row_reported; by rewrite Hu).
  assert (row_ok row /\ row_valid row) as [Hro Hrv].
  { destruct Ho as [Ho' Hv]. rewrite Forall_forall in Ho', Hv. split; [apply Ho'|apply Hv]; set_solver. }
  destruct (calculate_row engine row) as [calc|e] eqn:Ec.
  - assert (row_numerator engine mode row = calc_numerator calc) as En
      by (unfold row_numerator; by rewrite Hu, Ec).
    assert (row_priced engine mode row = row_calculable_event_count row) as Ep
      by (unfold row_priced; by rewrite Hu, Ec).
    assert (row_calculated row = Some (calc_source calc)) as Es
      by (unfold row_calculated; by rewrite Hu, Ec).
    change (sel_numerator (counted rows row)) with (zsum (row_numerator engine mode) rows).
    rewrite (numerator_exact rows row) by done.
    change (priced_events (sel_counters (counted rows row))) with (zsum (row_priced engine mode) rows).
    rewrite (add_events_exact _ rows row) by (first [done|apply priced_le|lia]). cbn [rbind].
    replace (if calc_assumed_standard calc then _ else _)
      with (@Ok _ PriceErrorCode (set_assumed
         (set_priced (sel_counters (counted rows row)) (zsum (row_priced engine mode) (rows ++ [row])))
         (zsum (row_assumed engine mode) (rows ++ [row])))).
    2: { assert (row_assumed engine mode row
           = if calc_assumed_standard calc then row_calculable_event_count row else 0) as Ea
           by (unfold row_assumed; by rewrite Hu, Ec).
         destruct (calc_assumed_standard calc); simpl.
         - by rewrite (add_events_exact _ rows row) by (first [done|apply assumed_le|lia]).
         - by rewrite (zsum_snoc (row_assumed engine mode)), Ea, Z.add_0_r. }
    cbn [rbind].
    assert (row_unpriced row = row_event_count row - row_calculable_event_count row) as Eu
      by (unfold row_unpriced; lia).
    destruct (row_calculable_event_count row <? row_event_count row) eqn:El; to_prop.
    + simpl. rewrite (add_events_exact _ rows row) by (first [done|apply unpriced_le|lia]).
      cbn [rbind]. f_equal.
      unfold mark_calculated, exact_selection, push_missing; simpl. sums.
      rewrite Er, Es, Z.add_0_r. f_equal.
      * unfold row_missing. by rewrite Hu, Ec, (proj2 (Z.ltb_lt _ _) El).
      * by rewrite orb_true_r.
      * f_equal. apply bool_decide_ext. split; congruence.
    + cbn [rbind]. f_equal.
      unfold mark_calculated, exact_selection, with_counters; simpl. sums.
      assert (row_calculable_event_count row = row_event_count row) as Ev
        by (destruct Hrv as (_ & _ & ? & _); lia).
      rewrite Er, Es, Eu, Ev, Z.sub_diag, !Z.add_0_r. f_equal.
      * unfold row_missing. by rewrite Hu, Ec, (proj2 (Z.ltb_ge _ _) El), app_nil_r.
      * by rewrite orb_true_r.
      * f_equal. apply bool_decide_ext. split; congruence.
  - by apply select_unavailable_exact.
Qed.
Lemma select_rows_exact pre rows :
  rows_ok (pre ++ rows) -> in_budget (pre ++ rows) ->
  select_rows engine mode (exact_selection pre) rows = Ok (exact_selection (pre ++ rows)).
Proof.
  revert pre. induction rows as [|row rows IH]; intros pre Ho Hb; simpl; [by rewrite app_nil_r|].
  assert (pre ++ row :: rows = (pre ++ [row]) ++ rows) as E by (by rewrite <- app_assoc).
  rewrite E in *.
  assert (rows_ok (pre ++ [row])) as Ho'.
  { destruct Ho as [H1 H2]. apply Forall_app in H1 as [? _], H2 as [? _]. by split. }
  assert (in_budget (pre ++ [row])) as Hb'.
  { destruct Hb as [Hl Ht]. rewrite length_app in Hl. rewrite zsum_app in Ht.
    assert (0 <= zsum row_event_count rows).
    { apply zsum_nonneg. intros r Hr. destruct Ho as [H1 _]. rewrite Forall_forall in H1.
      destruct (H1 r) as [[? _] _]; [set_solver|done]. }
    split; lia. }
  rewrite select_row_counted by done.
  replace (if uses_reported mode row then _ else _)
    with (@Ok _ PriceErrorCode (exact_selection (pre ++ [row]))); [by apply IH|].
  symmetry. destruct (uses_reported mode row) eqn:Hu;
    [by apply select_reported_exact|by apply select_calculated_exact].
Qed.

Lemma exact_selection_nil : exact_selection [] = initial_selection omitted.
Proof. unfold exact_selection, initial_selection. simpl. by rewrite Z.add_0_r, app_nil_r. Qed.

Lemma select_cost_exact rows :
  rows_ok rows -> in_budget rows ->
  select_cost engine mode rows omitted = finish_selection engine mode (exact_selection rows).
Proof.
  intros Ho Hb. unfold select_cost.
  destruct (_ <? _)%nat eqn:E; [apply Nat.ltb_lt in E; destruct Hb; lia|].
  by rewrite <- exact_selection_nil, (select_rows_exact []).
Qed.
End exact.

(** A successful selection read every row as valid and kept the total in [u64]. *)
Lemma select_row_inv engine mode s row s' :
  select_row engine mode s row = Ok s' ->
  row_valid row /\
  total_events (sel_counters s') = total_events (sel_counters s) + row_event_count row /\
  total_events (sel_counters s') <= u64_max.
Proof.
  unfold select_row. intros H. apply rbind_ok in H as ([] & Hv%validate_row_ok & H).
  apply rbind_ok in H as (t & [-> Ht]%ok_or_Ok%checked_add_Some & H).
  split; [done|]. apply rbind_ok in H as (s1 & Hs1 & H).
  assert (total_events (sel_counters s1) = total_events (sel_counters s) + row_event_count row) as E1.
  { destruct (row_conflicts _ _); [apply rbind_ok in Hs1 as (n & _ & [= <-])|injection Hs1 as <-]; done. }
  assert (total_events (sel_counters s') = total_events (sel_counters s1)) as E2; [|lia].
  destruct (bool_decide _ || _).
  - unfold select_reported in H. inv_ok H; done.
  - unfold select_calculated in H. clear Hs1 E1.
    destruct (calculate_row engine row) as [calc|e];
      [|apply rbind_ok in H as (n & _ & [= <-]); done].
    destruct (checked_add _ _ _); [|by injection H as <-].
    apply rbind_ok in H as (n & _ & H). apply rbind_ok in H as (c & Hc & H).
    apply rbind_ok in H as (s2 & Hs2 & [= <-]). simpl.
    assert (total_events c = total_events (sel_counters s1)) as <-.
    { destruct (calc_assumed_standard calc);
        [apply rbind_ok in Hc as (m & _ & [= <-])|injection Hc as <-]; done. }
    destruct (_ <? _); [apply rbind_ok in Hs2 as (m & _ & [= <-])|injection Hs2 as <-]; done.
Qed.

Lemma select_rows_inv engine mode s rows s' :
  select_rows engine mode s rows = Ok s' ->
  Forall row_valid rows /\
  total_events (sel_counters s') = total_events (sel_counters s) + zsum row_event_count rows /\
  (rows <> [] -> total_events (sel_counters s') <= u64_max).
Proof.
  revert s. induction rows as [|row rows IH]; intros s; simpl.
  - intros [= <-]. split_and!; [constructor|unfold zsum; simpl; lia|done].
  - intros (s1 & (Hv & Et & Hb)%select_row_inv & (Hf & Et' & Hb')%IH)%rbind_ok.
    split_and!; [by constructor|unfold zsum in *; simpl; lia|intros _].
    destruct rows; [unfold zsum in Et'; simpl in Et'; lia|auto].
Qed.

(** ** The result of a selection *)

Section results.
Context (engine : OverrideSnapshot) (mode : CostMode) (omitted : Z) (rows : list PriceBasisRow).
Context (Hengine : snapshot_ok engine) (Homitted : in_u64 omitted).
Context (Hrows : Forall row_ok rows) (Hvalid : Forall row_valid rows) (Hbudget : in_budget omitted rows).

Definition priced_total : Z := zsum (row_priced engine mode) rows.
Definition reported_total : Z := zsum (row_reported mode) rows.
Definition exact_amount : Z := zsum (row_numerator engine mode) rows.

(** Something was selected, or there was nothing to select. *)
Definition has_amount : Prop :=
  0 < priced_total + reported_total \/ omitted + zsum row_event_count rows = 0.

Definition overflow_missing (failed : bool) : list MissingCost :=
  if failed then [{| mc_reason := MissingArithmeticOverflow; mc_key := None |}] else [].

Definition explained (failed : bool) : list MissingCost :=
  (sel_missing (initial_selection omitted) ++ mjoin (map (row_missing engine mode) rows))
  ++ overflow_missing failed.

Lemma totals_split :
  0 <= priced_total /\ 0 <= reported_total /\ 0 <= zsum (row_unpriced engine mode) rows /\
  0 <= zsum (row_assumed engine mode) rows <= priced_total /\
  priced_total + reported_total + zsum (row_unpriced engine mode) rows = zsum row_event_count rows.
Proof.
  rewrite Forall_forall in Hrows, Hvalid.
  pose proof (fun row Hrow => row_counts engine mode row (Hrows row Hrow) (Hvalid row Hrow)) as Hc.
  unfold priced_total, reported_total. split_and!.
  - apply zsum_nonneg. intros r Hr. apply (Hc r Hr).
  - apply zsum_nonneg. intros r Hr. apply (Hc r Hr).
  - apply zsum_nonneg. intros r Hr. apply (Hc r Hr).
  - apply zsum_nonneg. intros r Hr. apply (Hc r Hr).
  - apply zsum_le. intros r Hr. apply (Hc r Hr).
  - rewrite <- !zsum_add. unfold zsum, row_unpriced. clear. induction rows; simpl; lia.
Qed.

Lemma exact_amount_bound : 0 <= exact_amount <= u128_max - HALF_TOKEN_MILLION.
Proof.
  rewrite Forall_forall in Hrows, Hvalid. unfold exact_amount. split.
  - apply zsum_nonneg. intros r Hr. apply row_numerator_bound; auto.
  - transitivity (zsum (fun _ : PriceBasisRow => row_bound) rows).
    + apply zsum_le. intros r Hr. apply row_numerator_bound; auto.
    + rewrite zsum_const. destruct Hbudget as [Hl _]. unfold MAX_PRICE_BASIS_ROWS in Hl.
      transitivity (row_bound * 512); [|by vm_compute].
      apply Z.mul_le_mono_nonneg_l; [by vm_compute|lia].
Qed.

(** Every result has one of three shapes: rounded, nothing selected, or an
    amount too large for [u64]. *)
Inductive outcome : option Z -> bool -> Prop :=
| outcome_rounded a : has_amount -> round_numerator exact_amount = Ok a -> outcome (Some a) false
| outcome_nothing : ~ has_amount -> outcome None false
| outcome_too_large e : has_amount -> round_numerator exact_amount = Err e -> outcome None true.

Definition final_counters (failed : bool) : CostCounters :=
  let c := sel_counters (exact_selection engine mode omitted rows) in
  if failed then
    {| total_events := total_events c; priced_events := 0; reported_events := 0;
       assumed_events := 0; unpriced_events := total_events c - omitted_events c;
       omitted_events := omitted_events c; conflict_events := conflict_events c |}
  else c.

Lemma finish_shape :
  exists amount failed r, outcome amount failed /\
    select_cost engine mode rows omitted = Ok r /\
    cr_amount r = amount /\ cr_counters r = final_counters failed /\
    cr_availability r =
      (if failed then UnavailableCost
       else if omitted + zsum row_event_count rows =? 0 then Zero
       else if priced_total + reported_total =? 0 then UnavailableCost
       else if (zsum (row_unpriced engine mode) rows =? 0) && (omitted =? 0)
       then if is_some_and amount (fun v => v =? 0) then Zero else Complete
       else Partial) /\
    cr_missing r
      = take MAX_MISSING_COST_DETAILS (dedup (sort_by_cmp missing_cmp (explained failed))) /\
    cr_omitted_missing_details r
      = saturating_sub (Z.of_nat (length (dedup (sort_by_cmp missing_cmp (explained failed)))))
          (Z.of_nat MAX_MISSING_COST_DETAILS).
Proof.
  destruct totals_split as (H1 & H2 & H3 & _ & H5). pose proof Hbudget as [_ Hb].
  pose proof Homitted as [Ho _].
  rewrite (select_cost_exact engine mode omitted Hengine Ho rows) by done.
  assert (add_events priced_total reported_total = Ok (priced_total + reported_total)) as Hadd.
  { unfold add_events. apply ok_or_Ok, checked_add_Some. split; [done|lia]. }
  unfold finish_selection, round_selection. simpl sel_counters. cbn [priced_events reported_events total_events].
  fold priced_total reported_total. rewrite Hadd. cbn [rbind].
  destruct ((0 <? priced_total + reported_total) || (omitted + zsum row_event_count rows =? 0)) eqn:Es.
  - assert has_amount as Hs by (unfold has_amount; apply orb_true_iff in Es; destruct Es; to_prop; auto).
    change (sel_numerator (exact_selection engine mode omitted rows)) with exact_amount.
    destruct (round_numerator exact_amount) as [a|e] eqn:Er.
    + exists (Some a), false. unfold discard_failed. simpl sel_numeric_failure. cbn iota.
      simpl sel_counters. cbn [priced_events reported_events].
      fold priced_total reported_total. rewrite Hadd. cbn [rbind]. eexists.
      split; [by constructor|]. split; [reflexivity|]. unfold explained. simpl. rewrite app_nil_r. done.
    + exists None, true. unfold discard_failed. simpl. eexists.
      split; [by econstructor|]. split; [reflexivity|]. done.
  - assert (~ has_amount) as Hs by (unfold has_amount; apply orb_false_iff in Es as [? ?]; to_prop; lia).
    exists None, false. unfold discard_failed. simpl sel_numeric_failure. cbn iota.
    simpl sel_counters. cbn [priced_events reported_events].
    fold priced_total reported_total. rewrite Hadd. cbn [rbind]. eexists.
    split; [by constructor|]. split; [reflexivity|]. unfold explained. simpl. rewrite app_nil_r. done.
Qed.
End results.

(** A success puts the call in the scope of [finish_shape]. *)
Lemma select_cost_Ok engine mode rows omitted r :
  in_u64 omitted -> select_cost engine mode rows omitted = Ok r ->
  Forall row_valid rows /\ in_budget omitted rows.
Proof.
  intros Ho H. unfold select_cost in H.
  destruct (_ <? _)%nat eqn:E; [done|]. apply Nat.ltb_ge in E.
  apply rbind_ok in H as (s & (Hv & Et & Hb)%select_rows_inv & _).
  split; [done|]. split; [done|]. simpl in Et. unfold in_u64 in Ho.
  destruct rows as [|row rows]; [unfold zsum; simpl; lia|].
  rewrite <- Et. by apply Hb.
Qed.

(** [select_cost] succeeds exactly when there are at most 512 rows, every row
    is well-formed and the number of events fits in [u64]: no internal counter,
    no [u128] sum and no price can make it fail. *)
Theorem select_cost_total engine mode rows omitted :
  snapshot_ok engine -> in_u64 omitted -> Forall row_ok rows ->
  (exists r, select_cost engine mode rows omitted = Ok r) <->
  Forall row_valid rows /\ (length rows <= MAX_PRICE_BASIS_ROWS)%nat /\
  omitted + zsum row_event_count rows <= u64_max.
Proof.
  intros Hs Ho Hr. split.
  - intros [r H]. by destruct (select_cost_Ok _ _ _ _ _ Ho H) as (? & ?).
  - intros (Hv & Hb). destruct (finish_shape engine mode omitted rows Hs Ho Hr Hv Hb)
      as (a & f & r & _ & H & _). eauto.
Qed.

Lemma no_events rows :
  Forall row_ok rows -> Forall row_valid rows -> zsum row_event_count rows <= 0 -> rows = [].
Proof.
  intros Hr Hv Hz. destruct rows as [|row rows]; [done|]. exfalso.
  inversion Hr as [|? ? Hro Hrs]; inversion Hv as [|? ? Hrv Hvs]; subst.
  assert (0 <= zsum row_event_count rows).
  { apply zsum_nonneg. intros x Hx. rewrite Forall_forall in Hrs. by destruct (Hrs x Hx) as [[? _] _]. }
  destruct Hro as [[? _] _], Hrv as (_ & ? & _). unfold zsum in *. simpl in Hz. lia.
Qed.

(** What the availability of a result says about its amount and about the number of
    events that were left out *)
Definition availability_means (availability : CostAvailability) (amount : option Z) (left_out : Z) : Prop :=
  (availability = UnavailableCost <-> amount = None) /\
  (availability = Zero <-> amount = Some 0 /\ left_out = 0) /\
  (availability = Complete <-> (exists v, amount = Some v /\ v <> 0) /\ left_out = 0) /\
  (availability = Partial <-> amount <> None /\ left_out <> 0).

Lemma availability_cases T S U O amount :
  0 <= S -> 0 <= U -> 0 <= O -> S + U + O = T -> (amount = None <-> S = 0 /\ T <> 0) -> (T = 0 -> amount = Some 0) ->
  availability_means
    (if T =? 0 then Zero
     else if S =? 0 then UnavailableCost
     else if (U =? 0) && (O =? 0)
     then if is_some_and amount (fun v => v =? 0) then Zero else Complete
     else Partial) amount (U + O).
Proof.
  intros HS HU HO HT Hnone Hzero. unfold availability_means.
  destruct (Z.eqb_spec T 0) as [E1|E1].
  { rewrite (Hzero E1). assert (U + O = 0) as -> by lia. naive_solver. }
  destruct (Z.eqb_spec S 0) as [E2|E2].
  { rewrite (proj2 Hnone (conj E2 E1)). naive_solver. }
  destruct amount as [v|]; [|destruct (proj1 Hnone eq_refl); lia]. simpl.
  destruct (Z.eqb_spec U 0), (Z.eqb_spec O 0); simpl.
  2-4: assert (U + O <> 0) by lia; naive_solver.
  assert (U + O = 0) as -> by lia. destruct (Z.eqb_spec v 0); naive_solver.
Qed.

(** C33. The counters of a result account for every event once: priced, reported,
    unpriced and omitted events add up to the total, which is the sum of the
    rows and the omitted ones; priced and reported events are those the rows
    contribute, or none when there is no amount.  The availability is decided by the
    amount and the events left out: [Unavailable] exactly without an amount, [Zero]
    exactly for an amount of zero with no event left out, [Complete] exactly for
    another amount with no event left out, [Partial] exactly for an amount with an
    event left out. *)
Theorem cost_events_partition engine mode rows omitted r :
  snapshot_ok engine -> in_u64 omitted -> Forall row_ok rows ->
  select_cost engine mode rows omitted = Ok r ->
  let c := cr_counters r in
  priced_events c + reported_events c + unpriced_events c + omitted_events c = total_events c /\
  total_events c = omitted + zsum row_event_count rows /\ omitted_events c = omitted /\
  priced_events c = (if is_some (cr_amount r) then priced_total engine mode rows else 0) /\
  reported_events c = (if is_some (cr_amount r) then reported_total mode rows else 0) /\
  0 <= priced_events c /\ 0 <= reported_events c /\ 0 <= unpriced_events c /\
  0 <= assumed_events c <= priced_events c /\
  availability_means (cr_availability r) (cr_amount r) (unpriced_events c + omitted_events c).
Proof.
  intros Hs Ho Hr H. destruct (select_cost_Ok _ _ _ _ _ Ho H) as [Hv Hb].
  destruct (finish_shape engine mode omitted rows Hs Ho Hr Hv Hb)
    as (a & f & r' & Hout & H' & Ea & Ec & Eav & _).
  rewrite H in H'. injection H' as <-. rewrite Ea, Ec, Eav. clear Ea Ec Eav H.
  destruct (totals_split engine mode rows Hr Hv) as (H1 & H2 & H3 & H4 & H5).
  pose proof (no_events rows Hr Hv) as Hno. unfold in_u64 in Ho.
  assert (0 <= zsum row_event_count rows) as Hev by lia.
  destruct Hout as [a Hsel Ha|Hsel|e Hsel He]; simpl; unfold has_amount in *;
    fold (priced_total engine mode rows) (reported_total mode rows).
  - do 9 (split; [lia|]); apply (availability_cases _ _ _ _ (Some a)); try lia; [split; [done|lia]|].
    intros HT. assert (rows = []) as -> by (apply Hno; lia). vm_compute in Ha. congruence.
  - do 9 (split; [lia|]); apply (availability_cases _ _ _ _ None); try lia; split; (done || lia).
  - assert (omitted + zsum row_event_count rows - omitted + omitted = omitted + zsum row_event_count rows) as -> by lia.
    do 9 (split; [lia|]); unfold availability_means; naive_solver.
Qed.

(** C25. The amount is rounded once: whenever something was selected (or nothing
    was to be), it is the exact sum of the selected rows' costs, each reported or
    calculated without rounding, to the nearest micro-dollar with halves upwards,
    and it is missing only when nothing was selected or the amount exceeds
    [u64]. *)
Theorem cost_amount_exact engine mode rows omitted r :
  snapshot_ok engine -> in_u64 omitted -> Forall row_ok rows ->
  select_cost engine mode rows omitted = Ok r ->
  (forall a, cr_amount r = Some a <->
     has_amount engine mode omitted rows /\ 0 <= a <= u64_max /\
     TOKENS_PER_MILLION * a - HALF_TOKEN_MILLION <= exact_amount engine mode rows
       < TOKENS_PER_MILLION * a + HALF_TOKEN_MILLION) /\
  (cr_amount r = None <->
     ~ has_amount engine mode omitted rows \/
     TOKENS_PER_MILLION * u64_max + HALF_TOKEN_MILLION <= exact_amount engine mode rows).
Proof.
  intros Hs Ho Hr H. destruct (select_cost_Ok _ _ _ _ _ Ho H) as [Hv Hb].
  destruct (finish_shape engine mode omitted rows Hs Ho Hr Hv Hb)
    as (a & f & r' & Hout & H' & Ea & _).
  rewrite H in H'. injection H' as <-. rewrite Ea. clear Ea H.
  pose proof (exact_amount_bound engine mode omitted rows Hs Hr Hv Hb) as Hn.
  pose proof (fun a => round_numerator_Ok _ a Hn) as Hok.
  pose proof (fun e => round_numerator_Err _ e Hn) as Herr.
  destruct Hout as [a Hsel Ha|Hsel|e Hsel He].
  - split.
    + intros a'. rewrite <- Hok, Ha. naive_solver.
    + split; [done|]. intros [?|Hbig]; [done|].
      assert (round_numerator (exact_amount engine mode rows) = Err ArithmeticOverflow) by (by apply Herr).
      congruence.
  - split; [intros a'; naive_solver|naive_solver].
  - split.
    + intros a'. rewrite <- Hok, He. naive_solver.
    + split; [|done]. intros _. right. by apply Herr in He as [_ ?].
Qed.

Lemma missing_cmp_exact l a b :
  Forall (fun m => forall k, mc_key m = Some k -> str_ok k) l ->
  a ∈ l -> b ∈ l -> missing_cmp a b = Eq -> a = b.
Proof.
  rewrite Forall_forall. intros Hl Ha Hb. unfold missing_cmp, cmp_then, cmp_by.
  destruct a as [ra ka], b as [rb kb]; simpl.
  destruct (reason_rank ra ?= reason_rank rb) eqn:E; simpl; try done.
  apply Z.compare_eq in E. assert (ra = rb) as -> by (by destruct ra, rb).
  destruct ka as [ka|], kb as [kb|]; simpl; try done.
  intros E'. apply str_cmp_Eq in E'; [by subst| |]; [eapply (Hl _ Ha)|eapply (Hl _ Hb)]; done.
Qed.

Lemma explained_keys engine mode omitted rows failed :
  Forall row_valid rows ->
  Forall (fun m => forall k, mc_key m = Some k -> str_ok k) (explained engine mode omitted rows failed).
Proof.
  intros Hv. unfold explained. rewrite !Forall_app. split_and!.
  - simpl. destruct (0 <? omitted); repeat constructor; done.
  - induction Hv as [|row rows Hr Hv IH]; simpl; [constructor|]. apply Forall_app. split; [|done].
    assert (str_ok (row_model row)) by (destruct Hr as [Hk _]; by apply valid_key_ok).
    unfold row_missing. repeat split_goal; repeat constructor; simpl; naive_solver.
  - unfold overflow_missing. destruct failed; repeat constructor; done.
Qed.

#[export] Instance missing_cmp_total : TotalCmp missing_cmp.
Proof. unfold missing_cmp. apply _. Qed.

(** What is missing is reported once and in order: the details are the first
    32 of the distinct reasons collected from the rows (with the event-key limit
    and the overflow of the amount), strictly ascending by reason and model, and
    the result says how many more there are. *)
Theorem missing_details_bounded engine mode rows omitted r :
  snapshot_ok engine -> in_u64 omitted -> Forall row_ok rows ->
  select_cost engine mode rows omitted = Ok r ->
  exists all failed,
    cr_missing r = take MAX_MISSING_COST_DETAILS all /\
    strictly_sorted missing_cmp all /\ NoDup all /\
    (forall m, m ∈ all <-> m ∈ explained engine mode omitted rows failed) /\
    Z.of_nat (length (cr_missing r)) + cr_omitted_missing_details r = Z.of_nat (length all) /\
    (length (cr_missing r) <= MAX_MISSING_COST_DETAILS)%nat.
Proof.
  intros Hs Ho Hr H. destruct (select_cost_Ok _ _ _ _ _ Ho H) as [Hv Hb].
  destruct (finish_shape engine mode omitted rows Hs Ho Hr Hv Hb)
    as (a & f & r' & _ & H' & _ & _ & _ & Em & Eo).
  rewrite H in H'. injection H' as <-.
  set (all := dedup (sort_by_cmp missing_cmp (explained engine mode omitted rows f))) in *.
  assert (strictly_sorted missing_cmp all) as Hss.
  { apply dedup_strictly_sorted; [apply _| |apply sort_sorted, _].
    intros x y. rewrite !elem_of_sort. eapply missing_cmp_exact. by apply explained_keys. }
  exists all, f. rewrite Em, Eo, length_take. split_and!; try done.
  - by eapply strictly_sorted_NoDup; [apply _|].
  - intros m. unfold all. by rewrite elem_of_dedup, elem_of_sort.
  - unfold saturating_sub. lia.
  - lia.
Qed.

(** ** Witnesses *)

Lemma sample_snapshot_ok : snapshot_ok sample_snapshot.
Proof. apply (build_snapshot_ok toy_sha256 sample_drafts); [apply sample_drafts_ok|by vm_compute]. Qed.

Definition sample_row (model : str) (calculable : Z) (reported : option Z) : PriceBasisRow :=
  {| row_model := model; row_tier := StandardAssumed; row_context := Short;
     row_event_count := 4; row_calculable_event_count := calculable;
     row_basis := {| uncached_input_tokens := 100; cached_input_tokens := 20;
                     billable_output_tokens := 7 |};
     row_reported_event_count := match reported with Some _ => 4 | None => 0 end;
     row_reported_cost := reported |}.

(** A reported row, a partly calculable one, and one without a price *)
Definition sample_rows : list PriceBasisRow :=
  [sample_row (lit "gpt-5.1") 4 (Some 90000); sample_row (lit "mine") 3 None;
   sample_row (lit "nobody") 4 None].

Lemma sample_row_ok m c r :
  in_u64 c -> (forall x, r = Some x -> in_u64 x) -> row_ok (sample_row m c r).
Proof.
  intros Hc Hr. unfold row_ok, basis_ok. simpl. unfold in_u64, u64_max in *.
  split_and!; try lia; destruct r; try lia; auto.
Qed.

Lemma sample_rows_ok : Forall row_ok sample_rows.
Proof.
  unfold sample_rows. rewrite !Forall_cons.
  split_and!; [apply sample_row_ok; [by vm_compute|intros x [= <-]; by vm_compute]..|apply Forall_nil, I].
Qed.

Lemma sample_rows_valid : Forall row_valid sample_rows.
Proof.
  unfold sample_rows. rewrite !Forall_cons. split_and!; [..|apply Forall_nil, I];
    (split; [by vm_compute|]); simpl; lia.
Qed.

Lemma select_cost_total_witness :
  exists r, select_cost sample_snapshot Auto sample_rows 2 = Ok r.
Proof.
  apply (select_cost_total sample_snapshot Auto sample_rows 2 sample_snapshot_ok).
  - vm_compute. split; congruence.
  - exact sample_rows_ok.
  - split_and!; [exact sample_rows_valid|vm_compute; lia|vm_compute; congruence].
Defined.

Definition sample_result : CostResult :=
  match select_cost sample_snapshot Auto sample_rows 2 with
  | Ok r => r
  | Err _ =>
      {| cr_mode := Auto; cr_availability := UnavailableCost; cr_amount := None;
         cr_composition := NoCost; cr_counters := sel_counters (initial_selection 0);
         cr_missing := []; cr_omitted_missing_details := 0; cr_calculated_catalog_id := None;
         cr_override_revision := None; cr_used_override := false |}
  end.

(** Everything has a cost, and nothing is left out; and nothing at all *)
Definition complete_result : result CostResult PriceErrorCode :=
  select_cost sample_snapshot Auto (take 1 sample_rows) 0.
Definition zero_result : result CostResult PriceErrorCode := select_cost sample_snapshot Auto [] 0.

Example sample_availability :
  match complete_result, zero_result with
  | Ok r, Ok z => cr_availability r = Complete /\ cr_availability z = Zero
  | _, _ => False
  end.
Proof. vm_compute. by split. Qed.

Lemma cost_events_partition_witness :
  let c := cr_counters sample_result in
  cr_availability sample_result = Partial /\
  total_events c = 14 /\ priced_events c = 3 /\ reported_events c = 4 /\ unpriced_events c = 5 /\
  availability_means (cr_availability sample_result) (cr_amount sample_result) (unpriced_events c + omitted_events c).
Proof.
  split_and!; [vm_compute; reflexivity..|].
  apply (cost_events_partition sample_snapshot Auto sample_rows 2 sample_result sample_snapshot_ok).
  - vm_compute. split; congruence.
  - exact sample_rows_ok.
  - vm_compute. reflexivity.
Defined.

Lemma cost_amount_exact_witness : cr_amount sample_result = Some 90000.
Proof.
  apply (cost_amount_exact sample_snapshot Auto sample_rows 2 sample_result sample_snapshot_ok).
  - vm_compute. split; congruence.
  - exact sample_rows_ok.
  - vm_compute. reflexivity.
  - split_and!; vm_compute; try congruence. left. reflexivity.
Defined.

Lemma missing_details_bounded_witness :
  exists all failed, cr_missing sample_result = take MAX_MISSING_COST_DETAILS all /\
    forall m, m ∈ all <-> m ∈ explained sample_snapshot Auto 2 sample_rows failed.
Proof.
  destruct (missing_details_bounded sample_snapshot Auto sample_rows 2 sample_result sample_snapshot_ok)
    as (all & failed & H1 & _ & _ & H2 & _).
  - vm_compute. split; congruence.
  - exact sample_rows_ok.
  - vm_compute. reflexivity.
  - exists all, failed. split; assumption.
Defined.
