(* ===== verification/StateErrors.v ===== *)
(** * Errors and files of the state crate

    The error codes of [crates/state/src/error.rs], and the files the state crate keeps:
    what [record.rs] uses of [crates/platform/src/durable_file.rs].  A computation runs
    on a [World]: the two files of a redundant record, and the faults the platform will
    report, in order.  A publication that fails either left the old file in place or
    had already put the new one there; both are faults here.  A crash is covered by the
    same two cases, since files change nowhere else. *)

From S2P Require Import Prelude.

Open Scope Z_scope.

Inductive StateErrorCode :=
| InvalidInput
| UnsupportedVersion
| CapacityExceeded
| Integrity
| Unavailable
| Busy
| DiskCapacity
| RecoveryRequired
| InternalInvariant.
#[export] Instance StateErrorCode_eq_dec : EqDecision StateErrorCode.
Proof. solve_decision. Defined.

Inductive DurableFileError :=
| DurInvalidName
| DurUnsupportedLocation
| DurCollisionLimit
| DurTargetExists
| DurTargetMissing
| DurUnexpectedType
| DurInvalidState
| DurCapacityExceeded
| DurIntegrity
| DurRecoveryRequired
| DurUnavailable.

Definition map_durable_error (error : DurableFileError) : StateErrorCode :=
  match error with
  | DurCapacityExceeded | DurCollisionLimit => CapacityExceeded
  | DurIntegrity => Integrity
  | DurRecoveryRequired => RecoveryRequired
  | DurInvalidName | DurInvalidState => InternalInvariant
  | DurUnsupportedLocation | DurUnexpectedType => InvalidInput
  | DurTargetExists | DurTargetMissing | DurUnavailable => Unavailable
  end.

(** ** The world *)

(** [FaultAfter] strikes once the new file is in place. *)
Inductive Fault := NoFault | FaultBefore (e : DurableFileError) | FaultAfter (e : DurableFileError).

Record World := {
  slot_a : option (list Z);
  slot_b : option (list Z);
  faults : list Fault
}.

Definition slot_file (w : World) (second : bool) : option (list Z) := if second then slot_b w else slot_a w.

Definition set_slot (w : World) (second : bool) (bytes : list Z) : World :=
  if second then {| slot_a := slot_a w; slot_b := Some bytes; faults := faults w |}
  else {| slot_a := Some bytes; slot_b := slot_b w; faults := faults w |}.

(** The next fault, if any is left *)
Definition next_fault (w : World) : Fault * World :=
  match faults w with
  | [] => (NoFault, w)
  | f :: fs => (f, {| slot_a := slot_a w; slot_b := slot_b w; faults := fs |})
  end.

Definition same_files (w v : World) : Prop := slot_a w = slot_a v /\ slot_b w = slot_b v.

(** The files hold bytes. *)
Definition file_ok (file : option (list Z)) : Prop := match file with Some b => Forall byte_ok b | None => True end.
Definition world_ok (w : World) : Prop := file_ok (slot_a w) /\ file_ok (slot_b w).

(** ** Computations *)

Definition io (A : Type) : Type := World -> result A StateErrorCode * World.

Definition ireturn {A} (a : A) : io A := fun w => (Ok a, w).
Definition ifail {A} (e : StateErrorCode) : io A := fun w => (Err e, w).
Definition ibind {A B} (m : io A) (k : A -> io B) : io B :=
  fun w => match m w with (Ok a, w) => k a w | (Err e, w) => (Err e, w) end.
Definition lift {A} (r : result A StateErrorCode) : io A := fun w => (r, w).

Declare Scope io_scope.
Delimit Scope io_scope with io.
Open Scope io_scope.
Notation "'let*' x := m 'in' k" := (ibind m (fun x => k))
  (at level 10, x name, m at level 200, k at level 200) : io_scope.

(** ** Files *)

(** A fault of a read is not about the file: [CapacityExceeded] and [Integrity] report
    its length, which does not change while it is read. *)
Definition read_fault (e : DurableFileError) : DurableFileError :=
  match e with DurCapacityExceeded | DurIntegrity => DurUnavailable | _ => e end.

(** [DurableFileTarget::read_bounded] *)
Definition read_bounded (second : bool) (max_bytes : Z) (w : World) : result (option (list Z)) DurableFileError * World :=
  let '(fault, w) := next_fault w in
  (match fault with
   | FaultBefore e | FaultAfter e => Err (read_fault e)
   | NoFault =>
       match slot_file w second with
       | None => Ok None
       | Some bytes => if max_bytes <? Z.of_nat (length bytes) then Err DurCapacityExceeded else Ok (Some bytes)
       end
   end, w).

(** [create_staged], [write_chunk] and [seal]: no file of the record changes *)
Definition stage : io unit := fun w =>
  let '(fault, w) := next_fault w in
  match fault with
  | NoFault => (Ok tt, w)
  | FaultBefore e | FaultAfter e => (Err (map_durable_error e), w)
  end.

(** [publish_new] of a sealed file, or [replace_existing_redundant] *)
Definition publish (second : bool) (target_exists : bool) (bytes : list Z) : io unit := fun w =>
  let '(fault, w) := next_fault w in
  match slot_file w second, target_exists with
  | Some _, false => (Err (map_durable_error DurTargetExists), w)
  | None, true => (Err (map_durable_error DurTargetMissing), w)
  | _, _ =>
      match fault with
      | NoFault => (Ok tt, set_slot w second bytes)
      | FaultBefore e => (Err (map_durable_error e), w)
      | FaultAfter e => (Err (map_durable_error e), set_slot w second bytes)
      end
  end.

(** ** Lemmas *)

Lemma next_fault_files w : same_files (next_fault w).2 w.
Proof. unfold next_fault. by destruct (faults w). Qed.

Lemma same_files_slot w v second : same_files w v -> slot_file w second = slot_file v second.
Proof. intros [? ?]. by destruct second. Qed.

Lemma same_files_trans w v u : same_files w v -> same_files v u -> same_files w u.
Proof. unfold same_files. intros [? ?] [? ?]. split; congruence. Qed.

Lemma same_files_ok w v : same_files w v -> world_ok v -> world_ok w.
Proof. unfold world_ok. intros [-> ->]. done. Qed.

Lemma set_slot_ok w second bytes : world_ok w -> Forall byte_ok bytes -> world_ok (set_slot w second bytes).
Proof. intros [? ?] ?. by destruct second. Qed.

Lemma set_slot_same w second bytes : slot_file (set_slot w second bytes) second = Some bytes.
Proof. by destruct second. Qed.

Lemma set_slot_other w second bytes : slot_file (set_slot w second bytes) (negb second) = slot_file w (negb second).
Proof. by destruct second. Qed.

Lemma ibind_ok {A B} (m : io A) (k : A -> io B) w b w' :
  ibind m k w = (Ok b, w') -> exists a w1, m w = (Ok a, w1) /\ k a w1 = (Ok b, w').
Proof. unfold ibind. destruct (m w) as [[a|e] w1]; [eauto|done]. Qed.

(** A computation that leaves the files alone *)
Definition reads_only {A} (m : io A) : Prop := forall w, same_files (m w).2 w.

Lemma reads_only_bind {A B} (m : io A) (k : A -> io B) :
  reads_only m -> (forall a, reads_only (k a)) -> reads_only (ibind m k).
Proof.
  intros Hm Hk w. unfold ibind. pose proof (Hm w) as H. destruct (m w) as [[a|e] w1]; [|done].
  eapply same_files_trans; [apply Hk|done].
Qed.

Lemma reads_only_lift {A} (r : result A StateErrorCode) : reads_only (lift r).
Proof. done. Qed.

Lemma reads_only_return {A} (a : A) : reads_only (ireturn a).
Proof. done. Qed.

Lemma reads_only_fail {A} (e : StateErrorCode) : reads_only (ifail (A := A) e).
Proof. done. Qed.

Lemma stage_reads_only : reads_only stage.
Proof.
  intros w. unfold stage. pose proof (next_fault_files w). destruct (next_fault w) as [[|e|e] w1]; done.
Qed.

Create HintDb files.
#[export] Hint Resolve reads_only_bind reads_only_lift reads_only_return reads_only_fail stage_reads_only : files.
