(* ===== verification/Retention.v ===== *)
(** * Backup retention

    Models [crates/state/src/retention.rs]: which verified backups are kept
    (newest, daily and weekly tiers within a byte budget), which are never
    deleted, and the admission and confirmation of a new backup around a
    publication.  The catalog is the data of [crates/state/src/catalog.rs]; the
    calls that open the backup directory ([delete_next] and the revalidation of
    package files) are not modelled.

    The source indexes vectors that all have the length of the fact list; every
    index comes from enumerating that list, so the out-of-range defaults below
    are never used ([verified_lt]). *)

From stdpp Require Import sets.
From S2P Require Import Prelude Collections StateErrors.

Open Scope Z_scope.

(** ** Data *)

Inductive BackupPurpose :=
| Periodic
| Manual
| PreMigration
| PostMigration
| PreRestore
| PreDestructiveMaintenance.
#[export] Instance BackupPurpose_eq_dec : EqDecision BackupPurpose.
Proof. solve_decision. Defined.

Inductive CatalogHealth := Corrupt | HeaderValid | Verified.
#[export] Instance CatalogHealth_eq_dec : EqDecision CatalogHealth.
Proof. solve_decision. Defined.

Record CatalogSelection := { cs_generation : Z; cs_ordinal : Z }.
#[export] Instance CatalogSelection_eq_dec : EqDecision CatalogSelection.
Proof. solve_decision. Defined.

(** A point of the catalog; [cp_slot] and [cp_size_bytes] are the ordinal and the
    length of its directory entry. *)
Record CatalogPoint := {
  cp_selection : CatalogSelection;
  cp_slot : Z;
  cp_size_bytes : Z;
  cp_observed_file_sha256 : list Z;
  cp_created_at_utc_ms : option Z;
  cp_purpose : option BackupPurpose;
  cp_health : CatalogHealth
}.

(** [bc_directory_identity] is the digest of the scanned directory's
    entries. *)
Record BackupCatalog := {
  bc_generation : Z;
  bc_directory_identity : list Z;
  bc_points : list CatalogPoint
}.

Record CatalogSelectionBinding := {
  sb_backup_slot : Z;
  sb_package_len : Z;
  sb_package_sha256 : list Z
}.

Record BackupMetadata := { bm_created_at_utc_ms : Z; bm_purpose : BackupPurpose }.

(** What retention reads of a [VerifiedBackupPackage] *)
Record VerifiedBackupPackage := {
  vp_file_sha256 : list Z;
  vp_package_len : Z;
  vp_metadata : BackupMetadata
}.

Definition MAX_BACKUP_DIRECTORY_FILES : nat := 32.
Definition BACKUP_RETENTION_MIN_BYTES : Z := 256 * 1024 * 1024.
Definition BACKUP_RETENTION_DEFAULT_BYTES : Z := 2 * 1024 * 1024 * 1024.
Definition BACKUP_RETENTION_MAX_BYTES : Z := 64 * 1024 * 1024 * 1024.
Definition RETENTION_NEWEST_POINTS : nat := 4.
Definition RETENTION_DAILY_POINTS : nat := 7.
Definition RETENTION_WEEKLY_POINTS : nat := 4.
Definition MAX_RETAINED_VERIFIED_POINTS : nat := 15.
Definition UTC_DAY_MILLISECONDS : Z := 86400000.

(** A [RetentionPolicy] is its budget. *)
Definition RetentionPolicy_new (budget_bytes : Z) : result Z StateErrorCode :=
  fail_if negb ((BACKUP_RETENTION_MIN_BYTES <=? budget_bytes)
                && (budget_bytes <=? BACKUP_RETENTION_MAX_BYTES))
  with InvalidInput else Ok budget_bytes.

Definition RetentionPolicy_default : Z := BACKUP_RETENTION_DEFAULT_BYTES.

Record RetentionFact := {
  rf_key : list Z;
  rf_created_at_utc_ms : option Z;
  rf_purpose : option BackupPurpose;
  rf_size_bytes : Z;
  rf_verified : bool;
  rf_candidate : bool;
  rf_selection : option CatalogSelection
}.

Record RetentionOutcome := {
  ro_deletions : list CatalogSelection;
  ro_retained_keys : list (list Z)
}.

(** ** Buckets *)

Definition utc_day_bucket (created_at_utc_ms : Z) : Z :=
  Z.quot created_at_utc_ms UTC_DAY_MILLISECONDS.
Definition utc_week_bucket (created_at_utc_ms : Z) : Z :=
  Z.quot (utc_day_bucket created_at_utc_ms + 3) 7.

(** ** Flags *)

(** [flags[index]] and [flags[index] = value] on a [Vec<bool>] *)
Definition flag (flags : list bool) (index : nat) : bool := unwrap_or (flags !! index) false.
Definition set_flag (index : nat) (value : bool) (flags : list bool) : list bool :=
  <[index := value]> flags.

Definition retained_verified_count (keep : list bool) (verified : list nat) : nat :=
  length (List.filter (flag keep) verified).

(** [keep.iter().filter(|kept| **kept).count()] *)
Definition count_kept (keep : list bool) : nat :=
  length (List.filter (flag keep) (seq 0 (length keep))).

Definition add_if_capacity (keep : list bool) (index : nat) : list bool :=
  if (count_kept keep <? MAX_RETAINED_VERIFIED_POINTS)%nat
  then set_flag index true keep else keep.

(** ** The plan over sorted facts *)

Definition fact_cmp : RetentionFact -> RetentionFact -> comparison :=
  cmp_then
    (cmp_rev (cmp_by (fun f => unwrap_or (rf_created_at_utc_ms f) i64_min) Z.compare))
    (cmp_by rf_key (lex_cmp Z.compare)).

Section plan.
Context (facts : list RetentionFact) (protected_hash : option (list Z)) (budget_bytes : Z).

(** [facts[index]] as a predicate or a projection *)
Definition fact_is (p : RetentionFact -> bool) (index : nat) : bool :=
  is_some_and (facts !! index) p.
Definition fact_get {A} (f : RetentionFact -> option A) (index : nat) : option A :=
  facts !! index ≫= f.

Definition verified : list nat :=
  List.filter (fact_is rf_verified) (seq 0 (length facts)).

Definition no_flags : list bool := replicate (length facts) false.

(** [facts[post].created_at_utc_ms > facts[index].created_at_utc_ms] *)
Definition created_after (post index : nat) : bool :=
  bool_decide (option_cmp Z.compare (fact_get rf_created_at_utc_ms post)
                 (fact_get rf_created_at_utc_ms index) = Gt).

Definition has_purpose (purpose : BackupPurpose) (index : nat) : bool :=
  bool_decide (fact_get rf_purpose index = Some purpose).

(** A pre-migration backup no later post-migration backup supersedes *)
Definition unmatched_pre_migration (index : nat) : bool :=
  has_purpose PreMigration index
  && negb (existsb (fun post => has_purpose PostMigration post && created_after post index) verified).

Definition pinned (index : nat) : bool :=
  fact_is (fun f => rf_candidate f || bool_decide (protected_hash = Some (rf_key f))) index.

Definition protect : list bool :=
  let protected :=
    fold_left (fun protected index => if pinned index then set_flag index true protected else protected)
      verified no_flags in
  let protected :=
    fold_left (fun protected index => set_flag index true protected) (take 2 verified) protected in
  match List.find unmatched_pre_migration verified with
  | Some pre_migration => set_flag pre_migration true protected
  | None => protected
  end.

(** Buckets of the facts kept so far *)
Definition represented (bucket : Z -> Z) (keep : list bool) : list Z :=
  omap (fun index => if flag keep index then option_map bucket (fact_get rf_created_at_utc_ms index)
                     else None)
    (seq 0 (length keep)).

(** One tier: keep the newest fact of each bucket not yet represented *)
Fixpoint tier_loop (bucket : Z -> Z) (limit added : nat) (keep : list bool) (buckets : list Z)
    (indices : list nat) : list bool :=
  match indices with
  | [] => keep
  | index :: indices =>
      if (limit <=? added)%nat || (15 <=? retained_verified_count keep verified)%nat then keep
      else
        match option_map bucket (fact_get rf_created_at_utc_ms index) with
        | None => tier_loop bucket limit added keep buckets indices
        | Some b =>
            if negb (flag keep index) && negb (bool_decide (b ∈ buckets))
            then tier_loop bucket limit (S added) (set_flag index true keep) (buckets ++ [b]) indices
            else tier_loop bucket limit added keep buckets indices
        end
  end.

Definition tier (bucket : Z -> Z) (limit : nat) (keep : list bool) : list bool :=
  tier_loop bucket limit 0 keep (represented bucket keep) verified.

(** The three tiers over the protected facts *)
Definition select_tiers (protected : list bool) : list bool :=
  let keep := fold_left (fun keep index => set_flag index (flag protected index) keep) verified no_flags in
  let keep := fold_left add_if_capacity (take RETENTION_NEWEST_POINTS verified) keep in
  let keep := tier utc_day_bucket RETENTION_DAILY_POINTS keep in
  tier utc_week_bucket RETENTION_WEEKLY_POINTS keep.

(** [facts.iter().enumerate().try_fold(..)] over the facts from [index] on *)
Fixpoint sum_kept (total : Z) (keep : list bool) (index : nat) (rest : list RetentionFact)
  : result Z StateErrorCode :=
  match rest with
  | [] => Ok total
  | fact :: rest =>
      let? total :=
        if negb (rf_verified fact) || flag keep index
        then ok_or (checked_add u64_max total (rf_size_bytes fact)) CapacityExceeded
        else Ok total in
      sum_kept total keep (S index) rest
  end.

(** [while kept_bytes > budget]: drop the oldest kept fact that is not protected.
    Each turn clears a flag, so [length facts + 1] turns are enough
    ([evict_fuel]). *)
Fixpoint evict (fuel : nat) (protected keep : list bool) (kept_bytes : Z)
  : result (list bool) StateErrorCode :=
  match fuel with
  | O => Err InternalInvariant
  | S fuel =>
      if budget_bytes <? kept_bytes then
        match List.find (fun index => flag keep index && negb (flag protected index))
                (reverse verified) with
        | None => Err CapacityExceeded
        | Some removable =>
            let keep := set_flag removable false keep in
            let size := unwrap_or (fact_get (fun f => Some (rf_size_bytes f)) removable) 0 in
            let? kept_bytes := ok_or (checked_sub kept_bytes size) InternalInvariant in
            evict fuel protected keep kept_bytes
        end
      else Ok keep
  end.

Definition plan_keep : result (list bool) StateErrorCode :=
  let protected := protect in
  fail_if (MAX_RETAINED_VERIFIED_POINTS <? retained_verified_count protected verified)%nat
  with CapacityExceeded else
  let keep := select_tiers protected in
  let? kept_bytes := sum_kept 0 keep 0 facts in
  evict (S (length facts)) protected keep kept_bytes.

Definition plan_sorted : result RetentionOutcome StateErrorCode :=
  let? keep := plan_keep in
  Ok {| ro_deletions :=
          dedup (omap (fun index => if flag keep index then None else fact_get rf_selection index)
                   (reverse verified));
        ro_retained_keys :=
          omap (fun index => if flag keep index then fact_get (fun f => Some (rf_key f)) index else None)
            verified |}.
End plan.

Definition plan_facts (facts : list RetentionFact) (protected_hash : option (list Z))
    (budget_bytes : Z) : result RetentionOutcome StateErrorCode :=
  plan_sorted (sort_by_cmp fact_cmp facts) protected_hash budget_bytes.

(** ** Admission and confirmation of a backup *)

Definition point_fact (candidate_hash : list Z) (point : CatalogPoint) : RetentionFact :=
  {| rf_key := cp_observed_file_sha256 point;
     rf_created_at_utc_ms := cp_created_at_utc_ms point;
     rf_purpose := cp_purpose point;
     rf_size_bytes := cp_size_bytes point;
     rf_verified := bool_decide (cp_health point = Verified);
     rf_candidate := bool_decide (cp_observed_file_sha256 point = candidate_hash);
     rf_selection := Some (cp_selection point) |}.

Definition plan_retention (catalog : BackupCatalog) (candidate : option RetentionFact)
    (candidate_hash : list Z) (protected_hash : option (list Z)) (policy : Z)
  : result RetentionOutcome StateErrorCode :=
  let facts := map (point_fact candidate_hash) (bc_points catalog) in
  let facts := match candidate with Some c => facts ++ [c] | None => facts end in
  plan_facts facts protected_hash policy.

Record RetentionAdmission := {
  ra_prior_catalog_generation : Z;
  ra_prior_directory_identity : list Z;
  ra_prior_hashes : list (list Z);
  ra_candidate_hash : list Z;
  ra_candidate_size : Z;
  ra_candidate_metadata : BackupMetadata;
  ra_protected_hash : option (list Z);
  ra_policy : Z
}.

Record RetentionCycle := {
  rc_candidate_hash : list Z;
  rc_protected_hash : option (list Z);
  rc_policy : Z
}.

Definition preflight_inner (catalog : BackupCatalog) (candidate : VerifiedBackupPackage)
    (policy : Z) (protected_hash : option (list Z)) : result RetentionAdmission StateErrorCode :=
  fail_if (MAX_BACKUP_DIRECTORY_FILES <=? length (bc_points catalog))%nat
  with CapacityExceeded else
  let candidate_hash := vp_file_sha256 candidate in
  fail_if existsb (fun point => bool_decide (cp_observed_file_sha256 point = candidate_hash))
            (bc_points catalog)
  with Integrity else
  let candidate_fact :=
    {| rf_key := candidate_hash;
       rf_created_at_utc_ms := Some (bm_created_at_utc_ms (vp_metadata candidate));
       rf_purpose := Some (bm_purpose (vp_metadata candidate));
       rf_size_bytes := vp_package_len candidate;
       rf_verified := true;
       rf_candidate := true;
       rf_selection := None |} in
  let? _ := plan_retention catalog (Some candidate_fact) candidate_hash protected_hash policy in
  Ok {| ra_prior_catalog_generation := bc_generation catalog;
        ra_prior_directory_identity := bc_directory_identity catalog;
        ra_prior_hashes := map cp_observed_file_sha256 (bc_points catalog);
        ra_candidate_hash := candidate_hash;
        ra_candidate_size := vp_package_len candidate;
        ra_candidate_metadata := vp_metadata candidate;
        ra_protected_hash := protected_hash;
        ra_policy := policy |}.

Definition preflight (catalog : BackupCatalog) (candidate : VerifiedBackupPackage) (policy : Z)
  : result RetentionAdmission StateErrorCode :=
  preflight_inner catalog candidate policy None.

(** [catalog.points().get(ordinal).filter(|point| point.selection == selection)] *)
Definition point_at (catalog : BackupCatalog) (selection : CatalogSelection) : option CatalogPoint :=
  option_filter (bc_points catalog !! Z.to_nat (cs_ordinal selection))
    (fun point => bool_decide (cp_selection point = selection)).

Definition resolve_binding (catalog : BackupCatalog) (binding : CatalogSelectionBinding)
  : result CatalogSelection StateErrorCode :=
  let matching :=
    List.filter (fun point =>
      (cp_slot point =? sb_backup_slot binding)
      && (cp_size_bytes point =? sb_package_len binding)
      && bool_decide (cp_observed_file_sha256 point = sb_package_sha256 binding))
      (bc_points catalog) in
  match matching with
  | [] => Err Integrity
  | point :: others =>
      fail_if negb (bool_decide (others = [])) || negb (bool_decide (cp_health point = Verified))
      with Integrity else Ok (cp_selection point)
  end.

Definition preflight_protected (catalog : BackupCatalog) (candidate : VerifiedBackupPackage)
    (policy : Z) (protected : CatalogSelectionBinding) : result RetentionAdmission StateErrorCode :=
  let? selection := resolve_binding catalog protected in
  let? point := ok_or (point_at catalog selection) Integrity in
  preflight_inner catalog candidate policy (Some (cp_observed_file_sha256 point)).

Definition next_deletion_with_hash (cycle : RetentionCycle) (catalog : BackupCatalog)
    (protected_hash : option (list Z)) : result (option CatalogSelection) StateErrorCode :=
  let? candidate :=
    ok_or (List.find (fun point => bool_decide (cp_observed_file_sha256 point = rc_candidate_hash cycle))
             (bc_points catalog)) RecoveryRequired in
  fail_if negb (bool_decide (cp_health candidate = Verified)) with RecoveryRequired else
  let? outcome :=
    plan_retention catalog None (rc_candidate_hash cycle) protected_hash (rc_policy cycle) in
  Ok (head (ro_deletions outcome)).

Definition next_deletion (cycle : RetentionCycle) (catalog : BackupCatalog)
  : result (option CatalogSelection) StateErrorCode :=
  next_deletion_with_hash cycle catalog (rc_protected_hash cycle).

Definition confirm_published (a : RetentionAdmission) (catalog : BackupCatalog)
    (published : CatalogSelection) : result RetentionCycle StateErrorCode :=
  let? expected_generation :=
    ok_or (checked_add u64_max (ra_prior_catalog_generation a) 1) CapacityExceeded in
  fail_if negb (bc_generation catalog =? expected_generation)
    || bool_decide (bc_directory_identity catalog = ra_prior_directory_identity a)
    || negb (length (bc_points catalog) =? length (ra_prior_hashes a) + 1)%nat
    || existsb (fun prior =>
         negb (existsb (fun point => bool_decide (cp_observed_file_sha256 point = prior))
                 (bc_points catalog))) (ra_prior_hashes a)
  with RecoveryRequired else
  let? point := ok_or (point_at catalog published) InvalidInput in
  fail_if negb (bool_decide (cp_health point = Verified))
    || negb (bool_decide (cp_observed_file_sha256 point = ra_candidate_hash a))
    || negb (cp_size_bytes point =? ra_candidate_size a)
    || negb (bool_decide (cp_created_at_utc_ms point
                          = Some (bm_created_at_utc_ms (ra_candidate_metadata a))))
    || negb (bool_decide (cp_purpose point = Some (bm_purpose (ra_candidate_metadata a))))
  with Integrity else
  let cycle :=
    {| rc_candidate_hash := ra_candidate_hash a;
       rc_protected_hash := ra_protected_hash a;
       rc_policy := ra_policy a |} in
  let? _ := next_deletion cycle catalog in
  Ok cycle.

(** ** Flags *)

Lemma flag_set i v l j :
  flag (set_flag i v l) j = if decide (i = j /\ (i < length l)%nat) then v else flag l j.
Proof.
  unfold flag, set_flag. destruct (decide _) as [[-> Hl]|Hn].
  - by rewrite list_lookup_insert_eq.
  - destruct (decide (i = j)) as [->|Hij].
    + rewrite list_insert_ge by lia. done.
    + by rewrite list_lookup_insert_ne.
Qed.

Lemma set_flag_length i v l : length (set_flag i v l) = length l.
Proof. apply length_insert. Qed.

Lemma flag_lt l i : flag l i = true -> (i < length l)%nat.
Proof. unfold flag. destruct (l !! i) eqn:E; simpl; [|done]. intros _. by eapply lookup_lt_Some. Qed.

Lemma flag_replicate n i : flag (replicate n false) i = false.
Proof.
  unfold flag. destruct (replicate n false !! i) as [b|] eqn:E; [|done].
  apply lookup_replicate in E as [-> _]. done.
Qed.

Lemma filter_length_step {A} (p q : A -> bool) (l : list A) (i : A) :
  NoDup l -> (forall x, x ∈ l -> q x = true -> p x = true \/ x = i) ->
  (length (List.filter q l) <= S (length (List.filter p l)))%nat.
Proof.
  intros Hnd. induction Hnd as [|a l Ha Hnd IH]; intros H; simpl; [lia|].
  destruct (q a) eqn:Eq.
  - destruct (H a (list_elem_of_here a l) Eq) as [Hp| ->].
    + rewrite Hp. simpl. apply le_n_S, IH. intros x Hx. apply H. by right.
    + assert (forall x, x ∈ l -> q x = true -> p x = true) as Himp.
      { intros x Hx Hq. destruct (H x) as [?| ->]; [by right|done|done|done]. }
      assert (length (List.filter q l) <= length (List.filter p l))%nat.
      { clear -Himp. induction l as [|b l IH]; simpl; [lia|].
        assert (length (List.filter q l) <= length (List.filter p l))%nat
          by (apply IH; intros; apply Himp; [by right|done]).
        destruct (q b) eqn:E; [rewrite (Himp b) by (done || left)|destruct (p b)]; simpl; lia. }
      destruct (p i); simpl; lia.
  - assert (length (List.filter q l) <= S (length (List.filter p l)))%nat
      by (apply IH; intros x Hx; apply H; by right).
    destruct (p a); simpl; lia.
Qed.

Section flags.
Context (facts : list RetentionFact).
Notation verified := (verified facts).

Lemma elem_of_verified i :
  i ∈ verified <-> exists f, facts !! i = Some f /\ rf_verified f = true.
Proof.
  unfold Retention.verified. rewrite list_elem_of_In, filter_In, <- list_elem_of_In, elem_of_seq.
  unfold fact_is, is_some_and. split.
  - intros [_ H]. destruct (facts !! i) as [f|]; [by exists f|done].
  - intros (f & Hf & Hv). rewrite Hf. split; [|done]. apply lookup_lt_Some in Hf. lia.
Qed.

Lemma verified_lt i : i ∈ verified -> (i < length facts)%nat.
Proof. intros (f & Hf & _)%elem_of_verified. by eapply lookup_lt_Some. Qed.

Lemma verified_NoDup : NoDup verified.
Proof.
  unfold Retention.verified. apply NoDup_ListNoDup, List.NoDup_filter, NoDup_ListNoDup, NoDup_seq.
Qed.

(** Flags only ever mark verified facts. *)
Definition marks (flags : list bool) : Prop :=
  length flags = length facts /\ forall i, flag flags i = true -> i ∈ verified.

Lemma marks_none : marks (no_flags facts).
Proof.
  split; [apply length_replicate|]. intros i H. unfold no_flags in H. by rewrite flag_replicate in H.
Qed.

Lemma marks_set i v flags : marks flags -> i ∈ verified -> marks (set_flag i v flags).
Proof.
  intros [Hl Hm] Hi. split; [by rewrite set_flag_length|]. intros j. rewrite flag_set.
  destruct (decide _) as [[-> _]|]; [done|apply Hm].
Qed.

Lemma flag_set_marks i v flags j :
  marks flags -> i ∈ verified -> flag (set_flag i v flags) j = if decide (i = j) then v else flag flags j.
Proof.
  intros [Hl _] Hi%verified_lt. rewrite flag_set.
  destruct (decide (i = j)) as [->|Hn]; [by rewrite decide_True by (split; [done|lia])|].
  rewrite decide_False; [done|]. naive_solver.
Qed.

(** A loop that sets the flags of some verified indices *)
Lemma fold_set_true (p : nat -> bool) indices flags :
  marks flags -> (forall i, i ∈ indices -> i ∈ verified) ->
  let flags' := fold_left (fun fl i => if p i then set_flag i true fl else fl) indices flags in
  marks flags' /\
  forall i, flag flags' i = true <-> flag flags i = true \/ (i ∈ indices /\ p i = true).
Proof.
  revert flags. induction indices as [|j indices IH]; intros flags Hm Hin; simpl.
  { split; [done|]. intros i. split; [by left|]. intros [?|[[]%not_elem_of_nil _]]; done. }
  assert (j ∈ verified) as Hj by (apply Hin; left).
  assert (marks (if p j then set_flag j true flags else flags)) as Hm'
    by (destruct (p j); [by apply marks_set|done]).
  destruct (IH _ Hm' ltac:(intros; apply Hin; by right)) as [Hmr Hf]. split; [done|].
  intros i. rewrite Hf, elem_of_cons. destruct (p j) eqn:Ep.
  - rewrite flag_set_marks by done. clear -Ep. destruct (decide (j = i)) as [->|]; [by split; auto|].
    split; [naive_solver|]. intros [?|[[->|?] ?]]; auto.
  - clear -Ep. split; [naive_solver|]. intros [?|[[->|?] ?]]; auto. congruence.
Qed.

Lemma count_set_true i flags :
  marks flags -> i ∈ verified ->
  (retained_verified_count (set_flag i true flags) verified
   <= S (retained_verified_count flags verified))%nat.
Proof.
  intros Hm Hi. unfold retained_verified_count. apply (filter_length_step _ _ _ i); [apply verified_NoDup|].
  intros x _. rewrite flag_set_marks by done. destruct (decide (i = x)); auto.
Qed.

(** Counting the flags of all facts or of the verified ones is the same. *)
Lemma count_kept_verified flags :
  (retained_verified_count flags verified <= count_kept flags \/ length flags <> length facts)%nat.
Proof.
  destruct (decide (length flags = length facts)) as [E|]; [left|by right].
  unfold retained_verified_count, count_kept, Retention.verified. rewrite E.
  induction (seq 0 (length facts)) as [|a l IH]; simpl; [lia|].
  destruct (fact_is facts rf_verified a), (flag flags a) eqn:Ef; simpl; rewrite ?Ef; simpl; lia.
Qed.
End flags.

(** ** Protection *)

Section protection.
Context (facts : list RetentionFact) (protected_hash : option (list Z)).
Notation verified := (verified facts).
Notation protect := (protect facts protected_hash).

Lemma take_verified n i : i ∈ take n verified -> i ∈ verified.
Proof. intros H. rewrite <- (take_drop n verified). apply elem_of_app. by left. Qed.

(** Exactly the pinned facts, the two newest verified ones and the newest
    unmatched pre-migration backup are protected. *)
Lemma protect_spec :
  marks facts protect /\
  forall i, flag protect i = true <->
    (i ∈ verified /\ pinned facts protected_hash i = true) \/
    i ∈ take 2 verified \/
    List.find (unmatched_pre_migration facts) verified = Some i.
Proof.
  unfold Retention.protect.
  destruct (fold_set_true facts (pinned facts protected_hash) verified _ (marks_none facts)) as [M1 F1];
    [done|].
  set (p1 := fold_left _ verified _) in *.
  destruct (fold_set_true facts (fun _ => true) (take 2 verified) p1 M1) as [M2 F2];
    [apply take_verified|].
  change (fold_left (fun fl i => if true then set_flag i true fl else fl) (take 2 verified) p1)
    with (fold_left (fun fl i => set_flag i true fl) (take 2 verified) p1) in *.
  set (p2 := fold_left _ (take 2 verified) p1) in *.
  assert (forall i, flag p2 i = true <->
    (i ∈ verified /\ pinned facts protected_hash i = true) \/ i ∈ take 2 verified) as F.
  { intros i. rewrite F2, F1. unfold no_flags. rewrite flag_replicate. clear. naive_solver. }
  clearbody p1 p2. clear F1 F2 M1.
  destruct (List.find _ verified) as [j|] eqn:Ej.
  - assert (j ∈ verified) as Hj by (apply find_some in Ej as [? _]; by apply list_elem_of_In).
    split; [by apply (marks_set facts)|]. intros i. rewrite (flag_set_marks facts) by done.
    destruct (decide (j = i)) as [->|]; [by split; auto|]. rewrite F.
    split; [intros [?|?]; auto|]. intros [?|[?|[= ?]]]; auto; done.
  - split; [done|]. intros i. rewrite F. split; [intros [?|?]; auto|]. intros [?|[?|?]]; auto; done.
Qed.
End protection.

(** ** Tiers *)

Section tiers.
Context (facts : list RetentionFact).
Notation verified := (verified facts).

(** What every later stage preserves of [keep] *)
Definition extends (protected keep : list bool) : Prop :=
  marks facts keep /\ (forall i, flag protected i = true -> flag keep i = true) /\
  (retained_verified_count keep verified <= MAX_RETAINED_VERIFIED_POINTS)%nat.

Lemma extends_set protected keep i :
  extends protected keep -> i ∈ verified ->
  (retained_verified_count keep verified < MAX_RETAINED_VERIFIED_POINTS)%nat ->
  extends protected (set_flag i true keep).
Proof.
  intros (Hm & Hp & Hc) Hi Hlt. split_and!.
  - by apply marks_set.
  - intros j Hj. rewrite (flag_set_marks facts) by done. destruct (decide (i = j)); [done|auto].
  - pose proof (count_set_true facts i keep Hm Hi). lia.
Qed.

Lemma add_if_capacity_extends protected keep i :
  extends protected keep -> i ∈ verified -> extends protected (add_if_capacity keep i).
Proof.
  intros He Hi. unfold add_if_capacity. destruct (_ <? _)%nat eqn:E; [|done].
  apply Nat.ltb_lt in E. apply extends_set; [done..|].
  destruct (count_kept_verified facts keep) as [H|H]; [lia|]. by destruct He as [[? _] _].
Qed.

Lemma tier_loop_extends bucket limit protected indices added keep buckets :
  extends protected keep -> (forall i, i ∈ indices -> i ∈ verified) ->
  extends protected (tier_loop facts bucket limit added keep buckets indices).
Proof.
  revert added keep buckets. induction indices as [|i indices IH]; intros added keep buckets He Hin;
    cbn [tier_loop]; [done|].
  assert (forall j, j ∈ indices -> j ∈ verified) as Hin' by (intros; apply Hin; by right).
  destruct (_ || _) eqn:E; [done|]. to_prop. apply Nat.leb_gt in H0.
  destruct (option_map _ _) as [b|]; [|by apply IH].
  destruct (_ && _); [|by apply IH]. apply IH; [|done]. apply extends_set; [done|apply Hin; left|].
  unfold MAX_RETAINED_VERIFIED_POINTS. lia.
Qed.

Lemma fold_extends protected (g : list bool -> nat -> list bool) indices keep :
  (forall keep i, extends protected keep -> i ∈ verified -> extends protected (g keep i)) ->
  extends protected keep -> (forall i, i ∈ indices -> i ∈ verified) ->
  extends protected (fold_left g indices keep).
Proof.
  intros Hg. revert keep. induction indices as [|i indices IH]; intros keep He Hin; simpl; [done|].
  apply IH; [apply Hg; [done|apply Hin; left]|intros; apply Hin; by right].
Qed.

(** [keep[index] = protected[index]] for every verified index copies the flags. *)
Lemma copy_protected protected :
  marks facts protected ->
  let keep := fold_left (fun keep i => set_flag i (flag protected i) keep) verified (no_flags facts) in
  marks facts keep /\ forall i, flag keep i = flag protected i.
Proof.
  intros Hp.
  assert (forall indices keep, marks facts keep -> (forall i, i ∈ indices -> i ∈ verified) ->
    (forall i, i ∉ indices -> flag keep i = flag protected i) ->
    let keep' := fold_left (fun keep i => set_flag i (flag protected i) keep) indices keep in
    marks facts keep' /\ forall i, flag keep' i = flag protected i) as Hgen.
  { intros indices. induction indices as [|j indices IH]; intros keep Hm Hin Heq; simpl.
    { split; [done|]. intros i. apply Heq. apply not_elem_of_nil. }
    apply IH; [apply marks_set; [done|apply Hin; left]|intros; apply Hin; by right|].
    intros i Hi. rewrite (flag_set_marks facts) by (done || (apply Hin; left)).
    destruct (decide (j = i)) as [->|Hne]; [done|]. apply Heq. apply not_elem_of_cons. auto. }
  apply Hgen; [apply marks_none|done|]. intros i Hi. unfold no_flags. rewrite flag_replicate.
  destruct (flag protected i) eqn:E; [|done]. by apply Hp in E.
Qed.

Lemma select_tiers_extends protected :
  marks facts protected ->
  (retained_verified_count protected verified <= MAX_RETAINED_VERIFIED_POINTS)%nat ->
  extends protected (select_tiers facts protected).
Proof.
  intros Hm Hc. destruct (copy_protected protected Hm) as [Hm0 Hf0]. unfold select_tiers, tier.
  set (keep0 := fold_left _ verified (no_flags facts)) in *.
  assert (extends protected keep0) as He0.
  { split_and!; [done|intros i; by rewrite Hf0|]. unfold retained_verified_count in *.
    rewrite (filter_ext (flag keep0) (flag protected)); [done|apply Hf0]. }
  repeat (apply tier_loop_extends; [|done]). apply fold_extends; [|done|apply take_verified].
  intros keep i He Hi. by apply add_if_capacity_extends.
Qed.
End tiers.

(** ** Bytes *)

Lemma filter_length_le {A} (p q : A -> bool) (l : list A) :
  (forall x, q x = true -> p x = true) -> (length (List.filter q l) <= length (List.filter p l))%nat.
Proof.
  intros H. induction l as [|a l IH]; simpl; [lia|].
  destruct (q a) eqn:E; [rewrite (H a E)|destruct (p a)]; simpl; lia.
Qed.

Lemma filter_length_lt {A} (p q : A -> bool) (l : list A) r :
  (forall x, q x = true -> p x = true) -> r ∈ l -> p r = true -> q r = false ->
  (length (List.filter q l) < length (List.filter p l))%nat.
Proof.
  intros H Hr Hp Hq. induction Hr as [r l|r a l Hr IH]; simpl.
  - rewrite Hp, Hq. simpl. pose proof (filter_length_le p q l H). lia.
  - specialize (IH Hp Hq). destruct (q a) eqn:E; [rewrite (H a E)|destruct (p a)]; simpl; lia.
Qed.

Section bytes.
Context (facts : list RetentionFact) (budget_bytes : Z).
Notation verified := (verified facts).

Definition weight (keep : list bool) (i : nat) : Z :=
  match facts !! i with
  | Some f => if negb (rf_verified f) || flag keep i then rf_size_bytes f else 0
  | None => 0
  end.

(** The bytes of the unverified facts and of the kept ones *)
Definition kept_size (keep : list bool) : Z := zsum (weight keep) (seq 0 (length facts)).

Context (Hsizes : Forall (fun f => 0 <= rf_size_bytes f) facts).

Lemma size_nonneg i f : facts !! i = Some f -> 0 <= rf_size_bytes f.
Proof. intros Hf. by eapply (Forall_lookup_1 (fun f => 0 <= rf_size_bytes f)). Qed.

Lemma weight_nonneg keep i : 0 <= weight keep i.
Proof.
  unfold weight. destruct (facts !! i) as [f|] eqn:E; [|lia]. apply size_nonneg in E.
  destruct (_ || _); lia.
Qed.

Lemma kept_size_mono k1 k2 :
  (forall i, flag k1 i = true -> flag k2 i = true) -> kept_size k1 <= kept_size k2.
Proof.
  intros H. apply zsum_le. intros i _. unfold weight. destruct (facts !! i) as [f|] eqn:E; [|lia].
  apply size_nonneg in E. destruct (rf_verified f); simpl; [|lia].
  destruct (flag k1 i) eqn:E1; [rewrite (H i E1); lia|]. destruct (flag k2 i); lia.
Qed.

Lemma kept_size_ext k1 k2 :
  (forall i, i ∈ verified -> flag k1 i = flag k2 i) -> kept_size k1 = kept_size k2.
Proof.
  intros H. apply zsum_ext. intros i _. unfold weight. destruct (facts !! i) as [f|] eqn:E; [|done].
  destruct (rf_verified f) eqn:Ev; [|done]. rewrite H; [done|]. apply elem_of_verified. by exists f.
Qed.

Lemma kept_size_clear keep i f :
  marks facts keep -> facts !! i = Some f -> rf_verified f = true -> flag keep i = true ->
  kept_size (set_flag i false keep) = kept_size keep - rf_size_bytes f.
Proof.
  intros Hm Hf Hv Hk. assert (i ∈ verified) as Hi by (apply elem_of_verified; by exists f).
  unfold kept_size. rewrite (zsum_update (weight (set_flag i false keep)) (weight keep) _ i).
  - unfold weight. rewrite Hf, Hv, (flag_set_marks facts) by done.
    rewrite decide_True by done. rewrite Hk. simpl. lia.
  - apply NoDup_seq.
  - apply elem_of_seq. apply lookup_lt_Some in Hf. lia.
  - intros j Hj. unfold weight. destruct (facts !! j); [|done].
    rewrite (flag_set_marks facts) by done. by rewrite decide_False.
Qed.

(** The fold over the facts computes [kept_size], or overflows. *)
Lemma sum_kept_spec keep index rest total :
  drop index facts = rest -> 0 <= total <= u64_max ->
  sum_kept total keep index rest
  = (if total + zsum (weight keep) (seq index (length rest)) <=? u64_max
     then Ok (total + zsum (weight keep) (seq index (length rest))) else Err CapacityExceeded).
Proof.
  revert index total. induction rest as [|f rest IH]; intros index total Hd Ht; cbn [sum_kept length seq].
  { unfold zsum. simpl. rewrite Z.add_0_r. destruct (_ <=? _) eqn:E; to_prop; [done|lia]. }
  assert (facts !! index = Some f) as Hf.
  { rewrite <- (Nat.add_0_r index), <- lookup_drop, Hd. done. }
  assert (drop (S index) facts = rest) as Hd' by (rewrite <- Nat.add_1_r, <- drop_drop, Hd; done).
  assert (zsum (weight keep) (index :: seq (S index) (length rest))
          = weight keep index + zsum (weight keep) (seq (S index) (length rest))) as -> by done.
  assert (0 <= zsum (weight keep) (seq (S index) (length rest))) as Hnn
    by (apply zsum_nonneg; intros; apply weight_nonneg).
  pose proof (size_nonneg _ _ Hf) as Hs.
  assert (weight keep index = if negb (rf_verified f) || flag keep index then rf_size_bytes f else 0) as Hw
    by (unfold weight; by rewrite Hf).
  destruct (negb (rf_verified f) || flag keep index).
  - unfold checked_add. destruct (total + rf_size_bytes f <=? u64_max) eqn:E; to_prop; simpl.
    + rewrite IH by (done || lia). rewrite Hw, Z.add_assoc. done.
    + rewrite Hw. destruct (_ <=? _) eqn:E'; to_prop; [lia|done].
  - simpl. rewrite IH by done. by rewrite Hw, Z.add_0_l.
Qed.

(** The eviction loop: with enough turns it stops within the budget exactly when
    the facts it may not touch fit, having dropped only unprotected facts. *)
Lemma evict_spec protected fuel keep bytes :
  marks facts keep -> (forall i, flag protected i = true -> flag keep i = true) ->
  bytes = kept_size keep -> (retained_verified_count keep verified < fuel)%nat ->
  if kept_size protected <=? budget_bytes then
    exists keep', evict facts budget_bytes fuel protected keep bytes = Ok keep' /\
      marks facts keep' /\ (forall i, flag protected i = true -> flag keep' i = true) /\
      (forall i, flag keep' i = true -> flag keep i = true) /\ kept_size keep' <= budget_bytes
  else evict facts budget_bytes fuel protected keep bytes = Err CapacityExceeded.
Proof.
  revert keep bytes. induction fuel as [|fuel IH]; intros keep bytes Hm Hp -> Hf; [lia|].
  cbn [evict]. destruct (budget_bytes <? kept_size keep) eqn:Eb; to_prop.
  2: { pose proof (kept_size_mono _ _ Hp). destruct (_ <=? _) eqn:E; to_prop; [|lia].
       exists keep. split_and!; auto. }
  destruct (List.find _ (reverse verified)) as [r|] eqn:Ef.
  - apply find_some in Ef as [Hr Hk]. to_prop. apply list_elem_of_In in Hr. rewrite elem_of_reverse in Hr.
    pose proof Hr as (f & Hfr & Hv)%elem_of_verified.
    pose proof (kept_size_clear keep r f Hm Hfr Hv H) as Hc.
    unfold fact_get. rewrite Hfr. simpl.
    assert (0 <= kept_size (set_flag r false keep)) as Hnn
      by (apply zsum_nonneg; intros; apply weight_nonneg).
    rewrite (proj2 (checked_sub_Some (kept_size keep) (rf_size_bytes f) (kept_size (set_flag r false keep))))
      by (split; lia). cbn [ok_or rbind].
    assert (forall i, flag (set_flag r false keep) i = true -> flag keep i = true) as Hsub.
    { intros i. rewrite (flag_set_marks facts) by done. by destruct (decide (r = i)). }
    specialize (IH (set_flag r false keep) (kept_size (set_flag r false keep)) ltac:(by apply (marks_set facts))).
    assert (forall i, flag protected i = true -> flag (set_flag r false keep) i = true) as Hp'.
    { intros i Hi. rewrite (flag_set_marks facts) by done. destruct (decide (r = i)) as [->|]; [congruence|auto]. }
    assert (retained_verified_count (set_flag r false keep) verified < fuel)%nat as Hlt.
    { eapply Nat.lt_le_trans; [|apply Nat.lt_succ_r, Hf]. unfold retained_verified_count.
      apply (filter_length_lt _ _ _ r); [done..|].
      rewrite (flag_set_marks facts) by done. by rewrite decide_True. }
    specialize (IH Hp' eq_refl Hlt). destruct (_ <=? budget_bytes); [|done].
    destruct IH as (keep' & E & ? & ? & Hs & ?). exists keep'. split_and!; auto.
  - assert (kept_size keep = kept_size protected) as E.
    { apply kept_size_ext. intros i Hi.
      pose proof (find_none _ _ Ef i) as Hn. rewrite <- list_elem_of_In, elem_of_reverse in Hn.
      specialize (Hn Hi). destruct (flag keep i) eqn:E1, (flag protected i) eqn:E2; try done.
      by rewrite (Hp i E2) in E1. }
    destruct (_ <=? _) eqn:E'; to_prop; [lia|done].
Qed.
End bytes.

(** ** The plan *)

Section planning.
Context (facts : list RetentionFact) (protected_hash : option (list Z)) (budget_bytes : Z).
Context (Hsizes : Forall (fun f => 0 <= rf_size_bytes f) facts).
Notation verified := (verified facts).
Notation protected := (protect facts protected_hash).

(** The facts the plan may not delete fit the limits. *)
Definition protected_fits : Prop :=
  (retained_verified_count protected verified <= MAX_RETAINED_VERIFIED_POINTS)%nat /\
  kept_size facts protected <= budget_bytes.

Definition plan_result (keep : list bool) : Prop :=
  marks facts keep /\ (forall i, flag protected i = true -> flag keep i = true) /\
  (retained_verified_count keep verified <= MAX_RETAINED_VERIFIED_POINTS)%nat /\
  kept_size facts keep <= budget_bytes.

Lemma count_le_length keep : (retained_verified_count keep verified <= length facts)%nat.
Proof.
  unfold retained_verified_count, Retention.verified.
  pose proof (filter_length_le (fun _ => true) (flag keep)
    (List.filter (fact_is facts rf_verified) (seq 0 (length facts))) ltac:(done)) as H1.
  pose proof (filter_length_le (fun _ => true) (fact_is facts rf_verified)
    (seq 0 (length facts)) ltac:(done)) as H2.
  assert (forall l : list nat, List.filter (fun _ => true) l = l) as Hid
    by (intros l; induction l; simpl; congruence).
  rewrite !Hid in *. rewrite length_seq in *. lia.
Qed.

Lemma plan_keep_spec :
  match plan_keep facts protected_hash budget_bytes with
  | Ok keep => plan_result keep /\ protected_fits
  | Err e => e = CapacityExceeded /\
      (protected_fits -> u64_max < kept_size facts (select_tiers facts protected))
  end.
Proof.
  unfold plan_keep. destruct (protect_spec facts protected_hash) as [Hm _].
  destruct (_ <? _)%nat eqn:E; [apply Nat.ltb_lt in E|apply Nat.ltb_ge in E].
  { split; [done|]. intros [? _]. lia. }
  destruct (select_tiers_extends facts protected Hm E) as (Hm' & Hp & Hc).
  set (keep := select_tiers facts protected) in *.
  rewrite (sum_kept_spec facts Hsizes keep 0 facts 0) by (done || (unfold u64_max; lia)).
  rewrite Z.add_0_l. fold (kept_size facts keep).
  destruct (_ <=? u64_max) eqn:Eu; to_prop; cbn [rbind]; [|by split].
  pose proof (evict_spec facts budget_bytes Hsizes protected (S (length facts)) keep _ Hm' Hp eq_refl) as Hev.
  pose proof (count_le_length keep) as Hl. specialize (Hev ltac:(lia)).
  destruct (kept_size facts protected <=? budget_bytes) eqn:Ep; to_prop.
  - destruct Hev as (keep' & -> & Hmk & Hpk & Hsub & Hb). split; [|by split].
    split_and!; auto. etransitivity; [|exact Hc]. by apply filter_length_le.
  - rewrite Hev. split; [done|]. intros [_ ?]. lia.
Qed.

Lemma in_deletions keep sel :
  sel ∈ dedup (omap (fun i => if flag keep i then None else fact_get facts rf_selection i)
                 (reverse verified)) <->
  exists i f, facts !! i = Some f /\ rf_verified f = true /\ rf_selection f = Some sel /\
    flag keep i = false.
Proof.
  rewrite elem_of_dedup, list_elem_of_omap. unfold fact_get. split.
  - intros (i & Hi & E). rewrite elem_of_reverse, elem_of_verified in Hi.
    destruct Hi as (f & Hf & Hv). destruct (flag keep i) eqn:Ek; [done|].
    rewrite Hf in E. simpl in E. exists i, f. done.
  - intros (i & f & Hf & Hv & Hs & Hk). exists i. rewrite elem_of_reverse, elem_of_verified.
    rewrite Hk, Hf. split; [by exists f|done].
Qed.
End planning.

Lemma verified_sorted facts : StronglySorted lt (verified facts).
Proof.
  unfold verified. generalize 0%nat. induction (length facts) as [|n IH]; intros k; simpl; [constructor|].
  assert (StronglySorted lt (List.filter (fact_is facts rf_verified) (seq (S k) n))) as Hs by apply IH.
  destruct (fact_is _ _ _); [|done]. constructor; [done|]. apply Forall_forall. intros i Hi.
  apply list_elem_of_In, filter_In in Hi as [Hi _]. apply list_elem_of_In, elem_of_seq in Hi. lia.
Qed.

(** A verified fact beyond the second has two verified facts before it. *)
Lemma beyond_second facts i :
  i ∈ verified facts -> i ∉ take 2 (verified facts) ->
  exists j k, (j < k < i)%nat /\ j ∈ verified facts /\ k ∈ verified facts.
Proof.
  intros Hi Hn. pose proof (verified_sorted facts) as Hs.
  destruct (verified facts) as [|j [|k l]]; simpl in *; [set_solver|set_solver|].
  exists j, k. apply StronglySorted_inv in Hs as [Hs Hj]. apply StronglySorted_inv in Hs as [_ Hk].
  rewrite Forall_forall in Hj, Hk. rewrite !elem_of_cons in Hi. rewrite !not_elem_of_cons in Hn.
  destruct Hi as [?|[?|Hi]]; [tauto|tauto|]. split_and!; [apply Hj; left|by apply Hk|left|right; left].
Qed.

(** ** The properties *)

(** A deleted fact is verified and its flag was not protected. *)
Lemma deletion_index facts protected_hash budget out sel :
  Forall (fun f => 0 <= rf_size_bytes f) facts ->
  plan_facts facts protected_hash budget = Ok out -> sel ∈ ro_deletions out ->
  let sorted := sort_by_cmp fact_cmp facts in
  exists i f, sorted !! i = Some f /\ f ∈ facts /\ rf_selection f = Some sel /\
    rf_verified f = true /\ i ∈ verified sorted /\ flag (protect sorted protected_hash) i <> true.
Proof.
  intros Hsz H Hsel sorted. unfold plan_facts in H. fold sorted in H.
  assert (Forall (fun f => 0 <= rf_size_bytes f) sorted) as Hsz'
    by (unfold sorted; by rewrite sort_permutation).
  pose proof (plan_keep_spec sorted protected_hash budget Hsz') as Hk.
  unfold plan_sorted in H. destruct (plan_keep _ _ _) as [keep|]; [|done]. injection H as <-.
  destruct Hk as [(_ & Hp & _) _].
  apply in_deletions in Hsel as (i & f & Hf & Hv & Hs & Hflag).
  exists i, f. split_and!; auto.
  - apply (elem_of_sort fact_cmp). by eapply list_elem_of_lookup_2.
  - apply elem_of_verified. by exists f.
  - intros Hpi. apply Hp in Hpi. congruence.
Qed.

Lemma not_pinned facts protected_hash i f :
  facts !! i = Some f -> pinned facts protected_hash i <> true ->
  rf_candidate f = false /\ protected_hash <> Some (rf_key f).
Proof.
  unfold pinned, fact_is. intros Hf. rewrite Hf. simpl. intros H%not_true_iff_false. to_prop. done.
Qed.

Lemma deletion_unprotected facts protected_hash budget out sel :
  Forall (fun f => 0 <= rf_size_bytes f) facts ->
  plan_facts facts protected_hash budget = Ok out -> sel ∈ ro_deletions out ->
  exists f, f ∈ facts /\ rf_selection f = Some sel /\ rf_verified f = true /\
    rf_candidate f = false /\ protected_hash <> Some (rf_key f).
Proof.
  intros Hsz H Hsel. destruct (deletion_index _ _ _ _ _ Hsz H Hsel) as (i & f & Hf & Hin & Hs & Hv & Hi & Hnp).
  destruct (not_pinned _ protected_hash i f Hf) as [Hc Hp]; [intros ?; apply Hnp, protect_spec; auto|].
  by exists f.
Qed.

(** C26. Retention never deletes what it must not: a deleted point is verified, is
    neither the new backup nor the selected restore point, has at least two
    verified backups before it in newest-first order, and is not the newest
    pre-migration backup without a later post-migration one. *)
Theorem retention_deletes_only_unprotected facts protected_hash budget out sel :
  Forall (fun f => 0 <= rf_size_bytes f) facts ->
  plan_facts facts protected_hash budget = Ok out -> sel ∈ ro_deletions out ->
  let sorted := sort_by_cmp fact_cmp facts in
  exists i f, sorted !! i = Some f /\ f ∈ facts /\ rf_selection f = Some sel /\
    rf_verified f = true /\ rf_candidate f = false /\ protected_hash <> Some (rf_key f) /\
    (exists j k, (j < k < i)%nat /\ j ∈ verified sorted /\ k ∈ verified sorted) /\
    List.find (unmatched_pre_migration sorted) (verified sorted) <> Some i.
Proof.
  intros Hsz H Hsel sorted.
  destruct (deletion_index _ _ _ _ _ Hsz H Hsel) as (i & f & Hf & Hin & Hs & Hv & Hi & Hnp).
  fold sorted in Hf, Hi, Hnp. rewrite (proj2 (protect_spec sorted protected_hash)) in Hnp.
  destruct (not_pinned sorted protected_hash i f Hf) as [Hc Hp]; [intros ?; apply Hnp; auto|].
  exists i, f. split_and!; auto.
  apply beyond_second; [done|]. intros ?. apply Hnp. auto.
Qed.

Lemma omap_length_le {A B} (p : A -> bool) (g : A -> option B) l :
  (length (omap (fun i => if p i then g i else None) l) <= length (List.filter p l))%nat.
Proof.
  induction l as [|a l IH]; csimpl; [lia|].
  destruct (p a); csimpl; [destruct (g a); csimpl; lia|lia].
Qed.

(** C38. A plan stays within its limits: at most 15 verified backups are retained,
    and what is left once the deletions are carried out, unverified files
    included, fits the byte budget. *)
Theorem retention_within_limits facts protected_hash budget out :
  Forall (fun f => 0 <= rf_size_bytes f) facts ->
  Forall (fun f => rf_verified f = true -> rf_selection f = None -> rf_candidate f = true) facts ->
  plan_facts facts protected_hash budget = Ok out ->
  (length (ro_retained_keys out) <= MAX_RETAINED_VERIFIED_POINTS)%nat /\
  zsum (fun f => if is_some_and (rf_selection f) (fun s => bool_decide (s ∈ ro_deletions out))
                 then 0 else rf_size_bytes f) facts <= budget.
Proof.
  intros Hsz Hcand H. unfold plan_facts in H.
  set (sorted := sort_by_cmp fact_cmp facts) in *.
  assert (sorted ≡ₚ facts) as Hperm by apply sort_permutation.
  rewrite <- Hperm in Hsz, Hcand.
  pose proof (plan_keep_spec sorted protected_hash budget Hsz) as Hk.
  unfold plan_sorted in H. destruct (plan_keep _ _ _) as [keep|] eqn:Ek; [|done]. injection H as <-.
  destruct Hk as [(Hm & Hp & Hc & Hb) _]. cbn [ro_retained_keys ro_deletions]. split.
  - etransitivity; [apply omap_length_le|exact Hc].
  - rewrite <- (zsum_permutation _ _ _ Hperm). etransitivity; [|exact Hb].
    rewrite zsum_lookup. apply zsum_le. intros i _. unfold weight.
    destruct (sorted !! i) as [f|] eqn:Ef; [|lia].
    pose proof (Forall_lookup_1 _ _ _ _ Hsz Ef) as Hs. simpl in Hs.
    destruct (negb (rf_verified f) || flag keep i) eqn:Ew; [destruct (is_some_and _ _); lia|]. to_prop.
    destruct (rf_selection f) as [s|] eqn:Es; simpl.
    + rewrite bool_decide_eq_true_2; [lia|]. apply in_deletions. by exists i, f.
    + exfalso. pose proof (Forall_lookup_1 _ _ _ _ Hcand Ef H Es) as Hcf.
      assert (flag (protect sorted protected_hash) i = true) as Hpi; [|rewrite (Hp i Hpi) in *; done].
      apply protect_spec. left. split; [apply elem_of_verified; eauto|].
      unfold pinned, fact_is. rewrite Ef. simpl. by rewrite Hcf.
Qed.

(** C32. Planning fails only with [CapacityExceeded], and only when it must: for
    files whose total size fits in [u64] a plan exists exactly when the protected
    backups are at most 15 and fit the budget together with the unverified
    files. In particular the eviction loop always ends. *)
Theorem retention_plans_when_possible facts protected_hash budget :
  Forall (fun f => 0 <= rf_size_bytes f) facts -> zsum rf_size_bytes facts <= u64_max ->
  let sorted := sort_by_cmp fact_cmp facts in
  (protected_fits sorted protected_hash budget ->
     exists out, plan_facts facts protected_hash budget = Ok out) /\
  (~ protected_fits sorted protected_hash budget ->
     plan_facts facts protected_hash budget = Err CapacityExceeded).
Proof.
  intros Hsz Hsum sorted. unfold plan_facts. fold sorted.
  assert (sorted ≡ₚ facts) as Hperm by apply sort_permutation.
  rewrite <- Hperm in Hsz. rewrite <- (zsum_permutation _ _ _ Hperm) in Hsum.
  pose proof (plan_keep_spec sorted protected_hash budget Hsz) as Hk.
  assert (forall keep, kept_size sorted keep <= u64_max) as Hall.
  { intros keep. etransitivity; [|exact Hsum]. unfold kept_size. rewrite (zsum_lookup rf_size_bytes).
    apply zsum_le. intros i _. unfold weight. destruct (sorted !! i) as [f|] eqn:Ef; [|lia].
    pose proof (Forall_lookup_1 _ _ _ _ Hsz Ef) as Hs. simpl in Hs. destruct (_ || _); lia. }
  unfold plan_sorted. destruct (plan_keep _ _ _) as [keep|e]; simpl.
  - destruct Hk as [_ Hf]. split; [eauto|done].
  - destruct Hk as [-> Hn]. split; [|done]. intros Hf. specialize (Hn Hf).
    specialize (Hall (select_tiers sorted (protect sorted protected_hash))). lia.
Qed.

(** *** The catalog around a publication *)

(** What a rebuilt catalog guarantees: distinct package digests, selections that
    are the position of their point. *)
Record catalog_ok (catalog : BackupCatalog) : Prop := {
  co_hashes : NoDup (map cp_observed_file_sha256 (bc_points catalog));
  co_selections : forall k p, bc_points catalog !! k = Some p ->
    cp_selection p = {| cs_generation := bc_generation catalog; cs_ordinal := Z.of_nat k |};
  co_sizes : Forall (fun p => 0 <= cp_size_bytes p) (bc_points catalog)
}.

Lemma point_at_own catalog p :
  catalog_ok catalog -> p ∈ bc_points catalog -> point_at catalog (cp_selection p) = Some p.
Proof.
  intros Hok [k Hk]%list_elem_of_lookup. unfold point_at.
  rewrite (co_selections _ Hok k p Hk). cbn [cs_ordinal]. rewrite Nat2Z.id.
  apply option_filter_Some. split; [done|]. apply bool_decide_eq_true, (co_selections _ Hok k p Hk).
Qed.

Lemma point_facts_sizes candidate_hash catalog :
  catalog_ok catalog ->
  Forall (fun f => 0 <= rf_size_bytes f) (map (point_fact candidate_hash) (bc_points catalog)).
Proof. intros Hok. apply Forall_map. exact (co_sizes _ Hok). Qed.

(** The next deletion of a cycle is safe to carry out: the selection resolves in
    the same catalog to a verified point whose bytes are neither the published
    backup nor the protected restore point, so that the checks repeated before
    the file is removed cannot fail on the plan itself. *)
Theorem next_deletion_safe cycle catalog sel :
  catalog_ok catalog -> next_deletion cycle catalog = Ok (Some sel) ->
  exists p, point_at catalog sel = Some p /\ p ∈ bc_points catalog /\ cp_health p = Verified /\
    cp_observed_file_sha256 p <> rc_candidate_hash cycle /\
    rc_protected_hash cycle <> Some (cp_observed_file_sha256 p).
Proof.
  intros Hok H. unfold next_deletion, next_deletion_with_hash in H.
  apply rbind_ok in H as (c & _ & H). destruct (negb _); [done|].
  apply rbind_ok in H as (out & Hplan & [= Hd]).
  assert (sel ∈ ro_deletions out) as Hin by (destruct (ro_deletions out); simplify_eq/=; left).
  unfold plan_retention in Hplan.
  destruct (deletion_unprotected _ _ _ _ _ (point_facts_sizes (rc_candidate_hash cycle) catalog Hok) Hplan Hin)
    as (f & Hf & Hs & Hv & Hc & Hp).
  apply list_elem_of_fmap in Hf as (p & -> & Hpin). simpl in *. simplify_eq. to_prop.
  exists p. split_and!; auto. by apply point_at_own.
Qed.

Lemma existsb_false {A} (p : A -> bool) l x : existsb p l = false -> x ∈ l -> p x = false.
Proof.
  intros H Hx. destruct (p x) eqn:E; [|done]. assert (existsb p l = true) as Ht; [|congruence].
  apply existsb_exists. exists x. split; [by apply list_elem_of_In|done].
Qed.

(** Distinct elements that all occur in a list of the same length are that list. *)
Lemma NoDup_cover {A} (l k : list A) :
  NoDup l -> length k = length l -> (forall x, x ∈ l -> x ∈ k) -> l ≡ₚ k.
Proof.
  intros Hnd Hlen Hin. apply NoDup_Permutation_bis; [by apply NoDup_ListNoDup|lia|].
  intros x Hx. apply list_elem_of_In, Hin. by apply list_elem_of_In.
Qed.

(** A confirmed publication added exactly the admitted backup: from the catalog
    the admission was computed on to the confirmed one, the generation advances by
    one and the package digests are the old ones and the candidate's, whose point
    is the published selection, fully verified. *)
Theorem publication_adds_exactly_candidate before candidate policy protected a after published cycle :
  catalog_ok before -> catalog_ok after ->
  preflight_inner before candidate policy protected = Ok a ->
  confirm_published a after published = Ok cycle ->
  bc_generation after = bc_generation before + 1 /\
  map cp_observed_file_sha256 (bc_points after)
    ≡ₚ vp_file_sha256 candidate :: map cp_observed_file_sha256 (bc_points before) /\
  (exists p, point_at after published = Some p /\ cp_health p = Verified /\
     cp_observed_file_sha256 p = vp_file_sha256 candidate) /\
  cycle = {| rc_candidate_hash := vp_file_sha256 candidate; rc_protected_hash := protected;
             rc_policy := policy |}.
Proof.
  intros Hb Ha Hpre Hcon. unfold preflight_inner in Hpre.
  destruct (_ <=? _)%nat; [done|]. destruct (existsb _ _) eqn:Enew; [done|].
  apply rbind_ok in Hpre as (out & _ & [= <-]).
  unfold confirm_published in Hcon. cbn [ra_prior_catalog_generation ra_prior_directory_identity
    ra_prior_hashes ra_candidate_hash ra_candidate_size ra_candidate_metadata ra_protected_hash
    ra_policy] in Hcon.
  apply rbind_ok in Hcon as (g & [-> _]%ok_or_Ok%checked_add_Some & Hcon).
  destruct (_ || _) eqn:E1 in Hcon; [done|]. apply rbind_ok in Hcon as (p & Hp%ok_or_Ok & Hcon).
  destruct (_ || _) eqn:E2 in Hcon; [done|]. apply rbind_ok in Hcon as (d & _ & [= <-]).
  rewrite !orb_false_iff in E1, E2. destruct E1 as [[[Eg _] El] Ex], E2 as [[[E2 _] _] _].
  apply orb_false_elim in E2 as [Eh Ec].
  to_prop. apply Nat.eqb_eq in El. split_and!; auto; [|by exists p].
  symmetry. apply NoDup_cover.
  - apply NoDup_cons. split; [|apply (co_hashes _ Hb)]. intros (q & E & Hq)%list_elem_of_fmap.
    pose proof (existsb_false _ _ q Enew Hq) as Hn. simpl in Hn. to_prop. congruence.
  - rewrite length_map in *. cbn [length]. rewrite length_map. lia.
  - intros h [->|Hh]%elem_of_cons.
    + rewrite <- Ec. apply list_elem_of_fmap. exists p. split; [done|].
      apply option_filter_Some in Hp as [Hp _]. by eapply list_elem_of_lookup_2.
    + pose proof (existsb_false _ _ h Ex Hh) as Hn. simpl in Hn. to_prop.
      apply existsb_exists in Hn as (q & Hq & E). to_prop. rewrite <- E.
      apply list_elem_of_fmap. exists q. split; [done|]. by apply list_elem_of_In.
Qed.

(** ** Witnesses *)

Definition sample_point (generation : Z) (k : Z) (size : Z) : CatalogPoint :=
  {| cp_selection := {| cs_generation := generation; cs_ordinal := k |};
     cp_slot := k; cp_size_bytes := size; cp_observed_file_sha256 := [size; 9 - k];
     cp_created_at_utc_ms := Some (1000000 - k); cp_purpose := Some Periodic;
     cp_health := Verified |}.

(** Five verified backups, newest first, of sizes 10 to 14 *)
Definition sample_catalog : BackupCatalog :=
  {| bc_generation := 3; bc_directory_identity := [1];
     bc_points := [sample_point 3 0 10; sample_point 3 1 11; sample_point 3 2 12;
                   sample_point 3 3 13; sample_point 3 4 14] |}.

Definition sample_cycle : RetentionCycle :=
  {| rc_candidate_hash := [10; 9]; rc_protected_hash := Some [14; 5]; rc_policy := 48 |}.

Lemma sample_catalog_ok : catalog_ok sample_catalog.
Proof.
  split.
  - apply (bool_decide_unpack _). by vm_compute.
  - intros k p Hk. do 5 (destruct k as [|k]; [injection Hk as <-; reflexivity|]). done.
  - repeat constructor; simpl; lia.
Qed.

Definition sample_facts : list RetentionFact :=
  map (point_fact [10; 9]) (bc_points sample_catalog).

Lemma sample_facts_sizes : Forall (fun f => 0 <= rf_size_bytes f) sample_facts.
Proof. apply (point_facts_sizes [10; 9] sample_catalog sample_catalog_ok). Qed.

Definition sample_outcome : RetentionOutcome :=
  match plan_facts sample_facts (Some [14; 5]) 48 with
  | Ok out => out
  | Err _ => {| ro_deletions := []; ro_retained_keys := [] |}
  end.

(** The restore point is the oldest, so the oldest unprotected one goes. *)
Lemma retention_deletes_only_unprotected_witness :
  exists i f, sort_by_cmp fact_cmp sample_facts !! i = Some f /\ rf_size_bytes f = 13 /\
    rf_candidate f = false.
Proof.
  destruct (retention_deletes_only_unprotected sample_facts (Some [14; 5]) 48 sample_outcome
    {| cs_generation := 3; cs_ordinal := 3 |} sample_facts_sizes) as (i & f & Hi & Hf & Hs & _ & Hc & _).
  - vm_compute. reflexivity.
  - vm_compute. left.
  - exists i, f. split; [exact Hi|]. split; [|exact Hc].
    apply list_elem_of_fmap in Hf as (p & -> & Hp). simpl in *.
    repeat (apply elem_of_cons in Hp as [->|Hp]; [try reflexivity; discriminate Hs|]).
    by apply not_elem_of_nil in Hp.
Defined.

Lemma retention_within_limits_witness :
  (length (ro_retained_keys sample_outcome) <= MAX_RETAINED_VERIFIED_POINTS)%nat.
Proof.
  apply (retention_within_limits sample_facts (Some [14; 5]) 48 sample_outcome sample_facts_sizes).
  - repeat constructor; done.
  - vm_compute. reflexivity.
Defined.

Lemma retention_plans_when_possible_witness :
  exists out, plan_facts sample_facts (Some [14; 5]) 48 = Ok out.
Proof.
  apply (retention_plans_when_possible sample_facts (Some [14; 5]) 48 sample_facts_sizes).
  - vm_compute. congruence.
  - split; [vm_compute; lia|vm_compute; congruence].
Defined.

Lemma next_deletion_safe_witness :
  exists p, point_at sample_catalog {| cs_generation := 3; cs_ordinal := 3 |} = Some p /\
    cp_health p = Verified.
Proof.
  destruct (next_deletion_safe sample_cycle sample_catalog {| cs_generation := 3; cs_ordinal := 3 |}
    sample_catalog_ok) as (p & Hp & _ & Hh & _).
  - vm_compute. reflexivity.
  - exists p. split; assumption.
Defined.

Definition sample_before : BackupCatalog :=
  {| bc_generation := 2; bc_directory_identity := [0];
     bc_points := [sample_point 2 0 11; sample_point 2 1 12] |}.
Definition sample_after : BackupCatalog :=
  {| bc_generation := 3; bc_directory_identity := [1];
     bc_points := [sample_point 3 0 10;
       {| cp_selection := {| cs_generation := 3; cs_ordinal := 1 |};
          cp_slot := 0; cp_size_bytes := 11; cp_observed_file_sha256 := [11; 9];
          cp_created_at_utc_ms := Some 1000000; cp_purpose := Some Periodic; cp_health := Verified |};
       {| cp_selection := {| cs_generation := 3; cs_ordinal := 2 |};
          cp_slot := 1; cp_size_bytes := 12; cp_observed_file_sha256 := [12; 8];
          cp_created_at_utc_ms := Some 999999; cp_purpose := Some Periodic; cp_health := Verified |}] |}.
Definition sample_package : VerifiedBackupPackage :=
  {| vp_file_sha256 := [10; 9]; vp_package_len := 10;
     vp_metadata := {| bm_created_at_utc_ms := 1000000; bm_purpose := Periodic |} |}.
Definition sample_admission : RetentionAdmission :=
  {| ra_prior_catalog_generation := 2; ra_prior_directory_identity := [0];
     ra_prior_hashes := [[11; 9]; [12; 8]]; ra_candidate_hash := [10; 9]; ra_candidate_size := 10;
     ra_candidate_metadata := {| bm_created_at_utc_ms := 1000000; bm_purpose := Periodic |};
     ra_protected_hash := None; ra_policy := 48 |}.

Lemma sample_before_ok : catalog_ok sample_before.
Proof.
  split.
  - apply (bool_decide_unpack _). by vm_compute.
  - intros k p Hk. do 2 (destruct k as [|k]; [injection Hk as <-; reflexivity|]). done.
  - repeat constructor; simpl; lia.
Qed.

Lemma sample_after_ok : catalog_ok sample_after.
Proof.
  split.
  - apply (bool_decide_unpack _). by vm_compute.
  - intros k p Hk. do 3 (destruct k as [|k]; [injection Hk as <-; reflexivity|]). done.
  - repeat constructor; simpl; lia.
Qed.

Lemma publication_adds_exactly_candidate_witness :
  bc_generation sample_after = bc_generation sample_before + 1.
Proof.
  apply (publication_adds_exactly_candidate sample_before sample_package 48 None sample_admission
    sample_after {| cs_generation := 3; cs_ordinal := 0 |}
    {| rc_candidate_hash := [10; 9]; rc_protected_hash := None; rc_policy := 48 |}
    sample_before_ok sample_after_ok); vm_compute; reflexivity.
Defined.
