(* ===== verification/Records.v ===== *)
(** * Redundant records

    Models [crates/state/src/record.rs]: typed values kept in two files, A and B, of
    which a save replaces the older or damaged one.  A record is a header with a
    generation number and the digest of the payload, the payload (JSON), and a footer
    with a digest over everything before it.

    The claims are about crashes: whatever fails during a save, the value loaded next
    is the one from before or the one being saved; and while both files were good,
    damage to one of them loses at most the last save. *)

From S2P Require Import Prelude StateErrors.

Open Scope Z_scope.

Definition MAX_RECORD_PAYLOAD_BYTES : Z := 1024 * 1024.

Inductive RecordValueError := ValueInvalid | ValueUnsupportedVersion.

Definition RECORD_MAGIC : list Z := lit "TMREC001".
Definition RECORD_FOOTER_MAGIC : list Z := lit "TMEND001".
Definition RECORD_FORMAT_VERSION : Z := 1.
Definition RECORD_HEADER_BYTES : nat := 64.
Definition RECORD_FOOTER_BYTES : nat := 40.
Definition RECORD_OVERHEAD_BYTES : Z := Z.of_nat (RECORD_HEADER_BYTES + RECORD_FOOTER_BYTES).

Inductive RecordRedundancy := Complete | Single | Fallback.
#[export] Instance RecordRedundancy_eq_dec : EqDecision RecordRedundancy.
Proof. solve_decision. Defined.

Record RecordSaveReceipt := {
  rr_generation : Z;
  rr_redundancy : RecordRedundancy;
  rr_payload_sha256 : list Z
}.

Record DecodedRecord (T : Type) := { dr_generation : Z; dr_payload_sha256 : list Z; dr_value : T }.
Arguments dr_generation {T} _.
Arguments dr_payload_sha256 {T} _.
Arguments dr_value {T} _.

Inductive Slot (T : Type) := SlotMissing | SlotInvalid | SlotValid (record : DecodedRecord T).
Arguments SlotMissing {T}.
Arguments SlotInvalid {T}.
Arguments SlotValid {T} record.

(** [SelectedRecord], and [LoadedRecord] with the same facts *)
Record SelectedRecord (T : Type) := { sr_record : DecodedRecord T; sr_redundancy : RecordRedundancy }.
Arguments sr_record {T} _.
Arguments sr_redundancy {T} _.

Record SavePlan := { sp_slot : bool; sp_generation : Z; sp_target_exists : bool }.

Inductive RecordSaveBoundary := BeforePublication | AfterPublication.

(** [bytes.get(a..b)] *)
Definition get_range (bytes : list Z) (a b : nat) : option (list Z) :=
  if ((a <=? b) && (b <=? length bytes))%nat then Some (take (b - a) (drop a bytes)) else None.

(** [read_u16], [read_u32], [read_u64] *)
Definition read_uint (n : nat) (bytes : list Z) (offset : nat) : option Z :=
  le_value <$> get_range bytes offset (offset + n).

Section records.
Context (sha256 : list Z -> list Z).

Definition encode_header (generation payload_len : Z) (payload_sha256 : list Z) : result (list Z) StateErrorCode :=
  fail_if generation =? 0 with InternalInvariant else
  Ok (RECORD_MAGIC ++ le_bytes 2 RECORD_FORMAT_VERSION ++ le_bytes 2 (Z.of_nat RECORD_HEADER_BYTES)
      ++ le_bytes 4 0 ++ le_bytes 8 generation ++ le_bytes 8 payload_len ++ payload_sha256).

(** The file a save writes: header, payload, footer *)
Definition record_file (header payload : list Z) : list Z :=
  header ++ payload ++ RECORD_FOOTER_MAGIC ++ sha256 (header ++ payload ++ RECORD_FOOTER_MAGIC).

Definition decode_record_payload (bytes : list Z) (max_payload_bytes : Z) : option (Z * list Z * list Z) :=
  let bad (b : bool) (k : option (Z * list Z * list Z)) := if b then None else k in
  bad (length bytes <? RECORD_HEADER_BYTES + RECORD_FOOTER_BYTES)%nat (
  magic ← get_range bytes 0 8;
  bad (negb (bool_decide (magic = RECORD_MAGIC))) (
  version ← read_uint 2 bytes 8;
  bad (negb (version =? RECORD_FORMAT_VERSION)) (
  header_len ← read_uint 2 bytes 10;
  bad (negb (header_len =? Z.of_nat RECORD_HEADER_BYTES)) (
  reserved ← read_uint 4 bytes 12;
  bad (negb (reserved =? 0)) (
  generation ← read_uint 8 bytes 16;
  bad (generation =? 0) (
  payload_len ← read_uint 8 bytes 24;
  bad (max_payload_bytes <? payload_len) (
  let footer_offset := (RECORD_HEADER_BYTES + Z.to_nat payload_len)%nat in
  let exact_len := (footer_offset + RECORD_FOOTER_BYTES)%nat in
  bad (negb (length bytes =? exact_len)%nat) (
  footer ← get_range bytes footer_offset (footer_offset + 8);
  bad (negb (bool_decide (footer = RECORD_FOOTER_MAGIC))) (
  payload ← get_range bytes RECORD_HEADER_BYTES footer_offset;
  stored ← get_range bytes 32 64;
  bad (negb (bool_decide (stored = sha256 payload))) (
  hashed ← get_range bytes 0 (footer_offset + 8);
  digest ← get_range bytes (footer_offset + 8) exact_len;
  bad (negb (bool_decide (digest = sha256 hashed))) (
  Some (generation, sha256 payload, payload)))))))))))).

(** ** Typed records *)

Context {T : Type}.
(** [serde_json::to_writer]; [None] is its error *)
Context (to_json : T -> option (list Z)).
(** [RecordValue::decode_json] *)
Context (decode_json : list Z -> result T RecordValueError).
Context (max_payload_bytes : Z).

Definition decode_record (bytes : list Z) : result (option (DecodedRecord T)) StateErrorCode :=
  match decode_record_payload bytes max_payload_bytes with
  | None => Ok None
  | Some (generation, payload_sha256, payload) =>
      match decode_json payload with
      | Ok value =>
          Ok (Some {| dr_generation := generation; dr_payload_sha256 := payload_sha256; dr_value := value |})
      | Err ValueInvalid => Ok None
      | Err ValueUnsupportedVersion => Err UnsupportedVersion
      end
  end.

Definition read_slot (second : bool) : io (Slot T) := fun w =>
  match read_bounded second (max_payload_bytes + RECORD_OVERHEAD_BYTES) w with
  | (Ok None, w) => (Ok SlotMissing, w)
  | (Ok (Some bytes), w) =>
      (let? record := decode_record bytes in
       Ok (match record with Some record => SlotValid record | None => SlotInvalid end), w)
  | (Err (DurCapacityExceeded | DurIntegrity), w) => (Ok SlotInvalid, w)
  | (Err e, w) => (Err (map_durable_error e), w)
  end.

Definition select_slots (first second : Slot T) : result (option (SelectedRecord T)) StateErrorCode :=
  let selected record redundancy := Ok (Some {| sr_record := record; sr_redundancy := redundancy |}) in
  match first, second with
  | SlotValid first, SlotValid second =>
      if dr_generation second <? dr_generation first then selected first Complete
      else if dr_generation first <? dr_generation second then selected second Complete
      else if bool_decide (dr_payload_sha256 first = dr_payload_sha256 second) then selected first Complete
      else Err Integrity
  | SlotValid record, SlotMissing | SlotMissing, SlotValid record => selected record Single
  | SlotValid record, SlotInvalid | SlotInvalid, SlotValid record => selected record Fallback
  | _, _ => Ok None
  end.

(** [self.select_record()], which [load] returns *)
Definition select_record : io (option (SelectedRecord T)) :=
  let* first := read_slot false in
  let* second := read_slot true in
  lift (select_slots first second).

Definition next_generation (generation : Z) : result Z StateErrorCode :=
  ok_or (checked_add u64_max generation 1) CapacityExceeded.

Definition slot_exists (s : Slot T) : bool := match s with SlotMissing => false | _ => true end.

Definition save_plan (first second : Slot T) : result SavePlan StateErrorCode :=
  match first, second with
  | SlotMissing, SlotMissing => Ok {| sp_slot := false; sp_generation := 1; sp_target_exists := false |}
  | SlotValid first, SlotValid second =>
      if negb (dr_generation first =? dr_generation second) then
        let '(slot, highest) :=
          if dr_generation second <? dr_generation first then (true, dr_generation first)
          else (false, dr_generation second) in
        let? generation := next_generation highest in
        Ok {| sp_slot := slot; sp_generation := generation; sp_target_exists := true |}
      else
        fail_if negb (bool_decide (dr_payload_sha256 first = dr_payload_sha256 second)) with Integrity else
        let? generation := next_generation (dr_generation first) in
        Ok {| sp_slot := false; sp_generation := generation; sp_target_exists := true |}
  | SlotValid record, other =>
      let? generation := next_generation (dr_generation record) in
      Ok {| sp_slot := true; sp_generation := generation; sp_target_exists := slot_exists other |}
  | other, SlotValid record =>
      let? generation := next_generation (dr_generation record) in
      Ok {| sp_slot := false; sp_generation := generation; sp_target_exists := slot_exists other |}
  | _, _ => Err Integrity
  end.

Definition explicit_save_plan (first second : Slot T) : result SavePlan StateErrorCode :=
  match first, second with
  | SlotMissing, SlotInvalid => Ok {| sp_slot := false; sp_generation := 1; sp_target_exists := false |}
  | SlotInvalid, SlotMissing => Ok {| sp_slot := true; sp_generation := 1; sp_target_exists := false |}
  | SlotInvalid, SlotInvalid => Ok {| sp_slot := false; sp_generation := 1; sp_target_exists := true |}
  | _, _ => save_plan first second
  end.

(** The JSON and its digest; [stream_json] serializes the same value again. *)
Definition measure_json (value : T) : result (list Z * list Z) StateErrorCode :=
  match to_json value with
  | None => Err InvalidInput
  | Some payload =>
      if max_payload_bytes <? Z.of_nat (length payload) then Err CapacityExceeded
      else Ok (payload, sha256 payload)
  end.

Definition hook_result (hook : RecordSaveBoundary -> option StateErrorCode) (b : RecordSaveBoundary)
  : result unit StateErrorCode :=
  match hook b with Some e => Err e | None => Ok tt end.

(** The reread that ends a save *)
Definition confirm_save (generation : Z) (digest : list Z) : io RecordSaveReceipt := fun w =>
  match select_record w with
  | (Ok (Some selected), w) =>
      if negb (dr_generation (sr_record selected) =? generation)
         || negb (bool_decide (dr_payload_sha256 (sr_record selected) = digest))
      then (Err RecoveryRequired, w)
      else (Ok {| rr_generation := dr_generation (sr_record selected);
                  rr_redundancy := sr_redundancy selected;
                  rr_payload_sha256 := dr_payload_sha256 (sr_record selected) |}, w)
  | (Ok None, w) | (Err _, w) => (Err RecoveryRequired, w)
  end.

Definition save_with_policy (value : T) (hook : RecordSaveBoundary -> option StateErrorCode)
    (explicit_recovery : bool) : io RecordSaveReceipt :=
  let* first := read_slot false in
  let* second := read_slot true in
  let* plan := lift (if explicit_recovery then explicit_save_plan first second else save_plan first second) in
  let* measured := lift (measure_json value) in
  let '(payload, digest) := measured in
  let* header := lift (encode_header (sp_generation plan) (Z.of_nat (length payload)) digest) in
  let* _ := stage in
  let* _ := lift (hook_result hook BeforePublication) in
  let* _ := publish (sp_slot plan) (sp_target_exists plan) (record_file header payload) in
  let* _ := lift (match hook AfterPublication with Some _ => Err RecoveryRequired | None => Ok tt end) in
  confirm_save (sp_generation plan) digest.

Definition no_hook : RecordSaveBoundary -> option StateErrorCode := fun _ => None.
Definition save (value : T) : io RecordSaveReceipt := save_with_policy value no_hook false.
Definition save_explicit (value : T) : io RecordSaveReceipt := save_with_policy value no_hook true.

(** [has_any_artifact]: the loop over the two slots *)
Definition slot_artifact (second : bool) : io bool := fun w =>
  match read_bounded second (max_payload_bytes + RECORD_OVERHEAD_BYTES) w with
  | (Ok (Some _), w) | (Err (DurCapacityExceeded | DurIntegrity | DurUnexpectedType), w) => (Ok true, w)
  | (Ok None, w) => (Ok false, w)
  | (Err e, w) => (Err (map_durable_error e), w)
  end.

Definition has_any_artifact : io bool :=
  let* first := slot_artifact false in
  if first then ireturn true else slot_artifact true.
End records.

(** ** The file format *)

Lemma get_range_app pre field rest bytes a b :
  bytes = pre ++ field ++ rest -> length pre = a -> (a + length field = b)%nat -> get_range bytes a b = Some field.
Proof.
  intros -> <- <-. unfold get_range. rewrite (proj2 (Nat.leb_le _ _)) by lia.
  rewrite (proj2 (Nat.leb_le _ _)) by (rewrite !length_app; lia). simpl.
  rewrite drop_app_length. f_equal. replace (_ - _)%nat with (length field) by lia. apply take_app_length.
Qed.

Lemma get_range_split bytes a b x : get_range bytes a b = Some x ->
  drop a bytes = x ++ drop b bytes /\ length x = (b - a)%nat /\ (a <= b <= length bytes)%nat.
Proof.
  unfold get_range. destruct (_ && _) eqn:E; [|done]. intros [= <-]. apply andb_true_iff in E as [H1 H2].
  apply Nat.leb_le in H1, H2. split_and!; [|rewrite length_take, length_drop; lia|done|done].
  replace (drop b bytes) with (drop (b - a) (drop a bytes)) by (rewrite drop_drop; f_equal; lia).
  by rewrite take_drop.
Qed.

Lemma read_uint_app n pre v rest bytes a :
  bytes = pre ++ le_bytes n v ++ rest -> length pre = a -> 0 <= v < 256 ^ Z.of_nat n -> read_uint n bytes a = Some v.
Proof.
  intros Hb Ha Hv. unfold read_uint. rewrite (get_range_app pre (le_bytes n v) rest bytes a) by (done || by rewrite le_bytes_length).
  simpl. by rewrite le_value_bytes.
Qed.

Lemma read_uint_split n bytes a v : Forall byte_ok bytes -> read_uint n bytes a = Some v ->
  drop a bytes = le_bytes n v ++ drop (a + n) bytes /\ 0 <= v < 256 ^ Z.of_nat n.
Proof.
  intros Hb H. unfold read_uint in H. destruct (get_range bytes a (a + n)) as [x|] eqn:E; [|done]. injection H as <-.
  apply get_range_split in E as (E & Hl & _). assert (length x = n) as Hx by lia.
  assert (Forall byte_ok x) as Hxb.
  { apply (Forall_drop _ a) in Hb. rewrite E in Hb. by apply Forall_app in Hb as [? _]. }
  split; [rewrite <- Hx at 1; by rewrite le_bytes_value, E|]. rewrite <- Hx. by apply le_value_bound.
Qed.

Section codec.
Context (sha256 : list Z -> list Z) (sha256_length : forall m, length (sha256 m) = 32%nat).
Context (sha256_bytes : forall m, Forall byte_ok (sha256 m)).

Definition header_of (generation : Z) (payload : list Z) : list Z :=
  RECORD_MAGIC ++ le_bytes 2 RECORD_FORMAT_VERSION ++ le_bytes 2 (Z.of_nat RECORD_HEADER_BYTES)
  ++ le_bytes 4 0 ++ le_bytes 8 generation ++ le_bytes 8 (Z.of_nat (length payload)) ++ sha256 payload.

Definition record_bytes (generation : Z) (payload : list Z) : list Z :=
  record_file sha256 (header_of generation payload) payload.

Lemma header_of_length g p : length (header_of g p) = 64%nat.
Proof. unfold header_of. rewrite !length_app, !le_bytes_length, sha256_length. reflexivity. Qed.

Lemma record_bytes_length g p : length (record_bytes g p) = (104 + length p)%nat.
Proof.
  unfold record_bytes, record_file. rewrite !length_app, header_of_length, sha256_length. simpl. lia.
Qed.

Lemma header_fields bytes g p tail :
  bytes = header_of g p ++ tail -> in_u64 g -> in_u64 (Z.of_nat (length p)) ->
  get_range bytes 0 8 = Some RECORD_MAGIC /\ read_uint 2 bytes 8 = Some RECORD_FORMAT_VERSION /\
  read_uint 2 bytes 10 = Some (Z.of_nat RECORD_HEADER_BYTES) /\ read_uint 4 bytes 12 = Some 0 /\
  read_uint 8 bytes 16 = Some g /\ read_uint 8 bytes 24 = Some (Z.of_nat (length p)) /\
  get_range bytes 32 64 = Some (sha256 p).
Proof.
  intros Hb Hg Hl. unfold header_of in Hb. rewrite <- !app_assoc in Hb.
  assert (256 ^ Z.of_nat 8 = 2 ^ 64) as E8 by done.
  set (p1 := RECORD_MAGIC) in *. set (f2 := le_bytes 2 RECORD_FORMAT_VERSION) in *.
  set (f3 := le_bytes 2 (Z.of_nat RECORD_HEADER_BYTES)) in *. set (f4 := le_bytes 4 0) in *.
  set (f5 := le_bytes 8 g) in *. set (f6 := le_bytes 8 (Z.of_nat (length p))) in *.
  assert (length p1 = 8 /\ length f2 = 2 /\ length f3 = 2 /\ length f4 = 4 /\ length f5 = 8 /\ length f6 = 8)%nat
    as (L1 & L2 & L3 & L4 & L5 & L6) by (split_and!; try apply le_bytes_length; done).
  split_and!.
  - by eapply (get_range_app []).
  - by eapply (read_uint_app 2 p1).
  - eapply (read_uint_app 2 (p1 ++ f2)); [by rewrite Hb, <- app_assoc|by rewrite !length_app, L1, L2|done].
  - eapply (read_uint_app 4 (p1 ++ f2 ++ f3)); [by rewrite Hb, <- !app_assoc|by rewrite !length_app, L1, L2, L3|done].
  - eapply (read_uint_app 8 (p1 ++ f2 ++ f3 ++ f4)); [by rewrite Hb, <- !app_assoc|by rewrite !length_app, L1, L2, L3, L4|].
    rewrite E8. unfold_ints. lia.
  - eapply (read_uint_app 8 (p1 ++ f2 ++ f3 ++ f4 ++ f5)); [by rewrite Hb, <- !app_assoc|by rewrite !length_app, L1, L2, L3, L4, L5|].
    rewrite E8. unfold_ints. lia.
  - eapply (get_range_app (p1 ++ f2 ++ f3 ++ f4 ++ f5 ++ f6)); [by rewrite Hb, <- !app_assoc| |by rewrite sha256_length].
    by rewrite !length_app, L1, L2, L3, L4, L5, L6.
Qed.

(** What a save writes is read back. *)
Lemma record_roundtrip g p max :
  1 <= g <= u64_max -> Z.of_nat (length p) <= max -> max <= u64_max ->
  decode_record_payload sha256 (record_bytes g p) max = Some (g, sha256 p, p).
Proof.
  intros Hg Hp Hmax. pose proof (record_bytes_length g p) as Hlen. pose proof (header_of_length g p) as Hh.
  unfold decode_record_payload. rewrite Hlen.
  assert (record_bytes g p = header_of g p ++ p ++ RECORD_FOOTER_MAGIC
    ++ sha256 (header_of g p ++ p ++ RECORD_FOOTER_MAGIC)) as Eb by done.
  destruct (header_fields (record_bytes g p) g p _ Eb) as (-> & -> & -> & -> & -> & -> & Hsha); [unfold_ints; lia..|].
  set (bytes := record_bytes g p) in *. clearbody bytes. cbn [mbind option_bind].
  rewrite (proj2 (Nat.ltb_ge _ _)) by (unfold RECORD_HEADER_BYTES, RECORD_FOOTER_BYTES; lia).
  rewrite bool_decide_true, !Z.eqb_refl by done. cbn [negb].
  rewrite (proj2 (Z.eqb_neq g 0)), (proj2 (Z.ltb_ge _ _)) by lia. rewrite Nat2Z.id. unfold RECORD_HEADER_BYTES, RECORD_FOOTER_BYTES.
  rewrite (proj2 (Nat.eqb_eq _ _)) by lia. cbn [negb].
  rewrite (get_range_app (header_of g p ++ p) RECORD_FOOTER_MAGIC (sha256 (header_of g p ++ p ++ RECORD_FOOTER_MAGIC)) bytes (64 + length p)
    (64 + length p + 8)) by (by rewrite <- ?app_assoc, ?length_app, ?Hh).
  cbn [mbind option_bind]. rewrite bool_decide_true by done. cbn [negb].
  rewrite (get_range_app (header_of g p) p _ bytes 64 (64 + length p) Eb) by (done || lia).
  cbn [mbind option_bind]. rewrite Hsha. cbn [mbind option_bind]. rewrite bool_decide_true by done. cbn [negb].
  rewrite (get_range_app [] (header_of g p ++ p ++ RECORD_FOOTER_MAGIC) (sha256 (header_of g p ++ p ++ RECORD_FOOTER_MAGIC)) bytes 0
    (64 + length p + 8)) by (first [done|by rewrite Eb, <- !app_assoc|rewrite !length_app, Hh; simpl; lia]).
  cbn [mbind option_bind].
  rewrite (get_range_app (header_of g p ++ p ++ RECORD_FOOTER_MAGIC) (sha256 (header_of g p ++ p ++ RECORD_FOOTER_MAGIC)) [] bytes
    (64 + length p + 8) (64 + length p + 40))
    by (first [by rewrite Eb, app_nil_r, <- !app_assoc|rewrite ?length_app, ?sha256_length, ?Hh; simpl; lia]).
  cbn [mbind option_bind]. by rewrite bool_decide_true.
Qed.

Ltac pass_guard H G :=
  match type of H with (if ?b then None else _) = Some _ => destruct b eqn:G; [discriminate H|] end.

Lemma record_digest bytes max g digest p :
  decode_record_payload sha256 bytes max = Some (g, digest, p) -> digest = sha256 p.
Proof.
  intros H. unfold decode_record_payload in H. cbv zeta in H.
  repeat match type of H with
  | (if ?b then None else _) = Some _ => destruct b; [discriminate H|]
  | (_ ≫= _) = Some _ => apply bind_Some in H as (? & _ & H)
  end.
  by injection H as _ <- <-.
Qed.

(** A file that is read as a record is exactly the file of that record. *)
Lemma record_canonical bytes max g digest p :
  Forall byte_ok bytes -> decode_record_payload sha256 bytes max = Some (g, digest, p) ->
  bytes = record_bytes g p /\ digest = sha256 p /\ 1 <= g <= u64_max /\ Z.of_nat (length p) <= max.
Proof.
  intros Hb H. unfold decode_record_payload in H. cbv zeta in H. pass_guard H G0.
  apply bind_Some in H as (magic & M & H). pass_guard H G1. apply bind_Some in H as (version & V & H). pass_guard H G2.
  apply bind_Some in H as (hl & HL & H). pass_guard H G3. apply bind_Some in H as (res & R & H). pass_guard H G4.
  apply bind_Some in H as (gen & G & H). pass_guard H G5. apply bind_Some in H as (len & L & H). pass_guard H G6.
  pass_guard H G7. apply bind_Some in H as (footer & F & H). pass_guard H G8.
  apply bind_Some in H as (payload & P & H). apply bind_Some in H as (stored & S & H). pass_guard H G9.
  apply bind_Some in H as (hashed & Ha & H). apply bind_Some in H as (dg & D & H). pass_guard H G10.
  injection H as -> <- ->. rewrite negb_false_iff in G7. apply Nat.eqb_eq in G7. to_prop. subst.
  apply get_range_split in M as (M & _ & _). apply read_uint_split in V as [V _], HL as [HL _], R as [R _], G as [G Hg], L as [L Hl]; [|done..].
  apply get_range_split in S as (S & _ & _), F as (F & _ & _), P as (P & Pl & _), D as (D & _ & _), Ha as (Ha & _ & _).
  unfold RECORD_HEADER_BYTES, RECORD_FOOTER_BYTES in *. rewrite drop_0 in M, Ha. rewrite (drop_ge bytes (_ + 40)), app_nil_r in D by lia.
  assert (length p = Z.to_nat len) as Epl by lia. assert (len = Z.of_nat (length p)) as -> by lia.
  assert (256 ^ Z.of_nat 8 = 2 ^ 64) as E8 by done. rewrite E8 in Hg.
  assert (bytes = header_of g p ++ p ++ RECORD_FOOTER_MAGIC ++ sha256 hashed) as Eb.
  { unfold header_of. cbn [Nat.add] in V, HL, R, G, L. rewrite M, V, HL, R, G, L, S, P, F, D. by rewrite <- !app_assoc. }
  assert (hashed = header_of g p ++ p ++ RECORD_FOOTER_MAGIC) as Eh.
  { assert (header_of g p ++ p ++ RECORD_FOOTER_MAGIC ++ sha256 hashed = hashed ++ sha256 hashed) as E by congruence.
    rewrite !app_assoc in E. apply app_inv_tail in E. by rewrite <- app_assoc in E. }
  split_and!; [rewrite Eb, Eh; done|done|lia|unfold_ints; lia|lia].
Qed.
End codec.

(** ** The interface of the stores built on records *)

Class RecordStore (T : Type) := {
  (** [RedundantRecordStore::load]; [None] is [NoValidRecord] *)
  store_load : io (option (SelectedRecord T));
  (** [RedundantRecordStore::save_explicit_with_hook] *)
  store_save : T -> (RecordSaveBoundary -> option StateErrorCode) -> io RecordSaveReceipt;
  (** [RedundantRecordStore::has_any_artifact] *)
  store_artifact : io bool;
  (** What a load without faults returns *)
  store_view : World -> result (option (SelectedRecord T)) StateErrorCode;
  (** The JSON of the value exists and is within the limit. *)
  store_fits : T -> Prop
}.

(** Another save fits into the generation counter. *)
Definition room {T} (view : result (option (SelectedRecord T)) StateErrorCode) : Prop :=
  match view with Ok (Some s) => dr_generation (sr_record s) < u64_max | Ok None => True | Err _ => False end.

(** The generation of the next save *)
Definition next_of {T} (view : result (option (SelectedRecord T)) StateErrorCode) : Z :=
  match view with Ok (Some old) => dr_generation (sr_record old) + 1 | _ => 1 end.

(** A save of [v] left [after] of the files [before]: nothing changed, or [v] is the
    record that is loaded next, under the next generation. *)
Definition saved_or_same {T} (view : World -> result (option (SelectedRecord T)) StateErrorCode) (v : T)
    (before after : World) : Prop :=
  same_files after before \/
  exists s, view after = Ok (Some s) /\ dr_value (sr_record s) = v /\ dr_generation (sr_record s) = next_of (view before).

Class RecordStoreLaws (T : Type) `{!RecordStore T} (valid : T -> Prop) : Prop := {
  view_same : forall w v, same_files w v -> store_view w = store_view v;
  view_valid : forall w s, store_view w = Ok (Some s) -> valid (dr_value (sr_record s));
  load_reads : reads_only store_load;
  load_view : forall w x, (store_load w).1 = Ok x -> store_view w = Ok x;
  load_clean : forall w, faults w = [] -> store_load w = (store_view w, w);
  artifact_reads : reads_only store_artifact;
  artifact_clean : forall w, faults w = [] -> exists b, store_artifact w = (Ok b, w);
  save_ok : forall v hook w, valid v -> world_ok w -> world_ok (store_save v hook w).2;
  save_atomic : forall v hook w, valid v -> world_ok w -> saved_or_same store_view v w (store_save v hook w).2;
  save_confirmed : forall v hook w receipt, valid v -> world_ok w -> (store_save v hook w).1 = Ok receipt ->
    exists s, store_view (store_save v hook w).2 = Ok (Some s) /\ dr_value (sr_record s) = v /\
      dr_generation (sr_record s) = rr_generation receipt /\
      dr_payload_sha256 (sr_record s) = rr_payload_sha256 receipt /\
      dr_generation (sr_record s) = next_of (store_view w);
  save_live : forall v hook w, (forall b, hook b = None) -> valid v -> store_fits v -> world_ok w -> faults w = [] ->
    room (store_view w) -> exists receipt, (store_save v hook w).1 = Ok receipt /\ faults (store_save v hook w).2 = []
}.

(** ** What clients use *)

Section client.
Context {T : Type} {valid : T -> Prop} `{RecordStoreLaws T valid}.

(** The value on disk *)
Definition stored (w : World) : option T :=
  match store_view w with Ok (Some s) => Some (dr_value (sr_record s)) | _ => None end.

Lemma stored_same w v : same_files w v -> stored w = stored v.
Proof. intros Hs. unfold stored. by rewrite (view_same _ _ Hs). Qed.

Lemma stored_valid w v : stored w = Some v -> valid v.
Proof.
  unfold stored. destruct (store_view w) as [[s|]|] eqn:E; [|done..]. intros [= <-]. by eapply view_valid.
Qed.

Lemma store_save_stored v hook w : valid v -> world_ok w ->
  world_ok (store_save v hook w).2 /\
  (stored (store_save v hook w).2 = stored w \/ stored (store_save v hook w).2 = Some v) /\
  (forall receipt, (store_save v hook w).1 = Ok receipt -> stored (store_save v hook w).2 = Some v).
Proof.
  intros Hv Hw. split_and!; [by apply save_ok| |].
  - destruct (save_atomic v hook w Hv Hw) as [Hs|(s & Hs & <- & _)]; [left; by apply stored_same|].
    right. unfold stored. by rewrite Hs.
  - intros receipt Hr. destruct (save_confirmed v hook w receipt Hv Hw Hr) as (s & Hs & <- & _).
    unfold stored. by rewrite Hs.
Qed.

Lemma store_save_clean v hook w :
  (forall b, hook b = None) -> valid v -> store_fits v -> world_ok w -> faults w = [] ->
  is_ok (store_view w) = true -> next_of (store_view w) <= u64_max ->
  exists receipt w', store_save v hook w = (Ok receipt, w') /\ world_ok w' /\ faults w' = [] /\ stored w' = Some v /\
    is_ok (store_view w') = true /\ next_of (store_view w') = next_of (store_view w) + 1.
Proof.
  intros Hh Hv Hf Hw He Hok Hn. destruct (save_live v hook w Hh Hv Hf Hw He) as (receipt & Hr & He').
  { unfold room. destruct (store_view w) as [[s|]|]; [simpl in Hn; lia|done..]. }
  destruct (save_confirmed v hook w receipt Hv Hw Hr) as (s & Hs & Es & _ & _ & Hg).
  pose proof (save_ok v hook w Hv Hw) as Hw'. destruct (store_save v hook w) as [r w']. simpl in *. subst r.
  exists receipt, w'. unfold stored. rewrite Hs. simpl. rewrite Es, Hg. done.
Qed.

Lemma store_load_reads w r w' : store_load w = (r, w') -> same_files w' w /\ forall x, r = Ok x -> store_view w = Ok x.
Proof.
  intros E. pose proof (load_reads w) as Hr. rewrite E in Hr. split; [done|]. intros x ->. apply load_view. by rewrite E.
Qed.

Lemma store_artifact_reads w r w' : store_artifact w = (r, w') -> same_files w' w.
Proof. intros E. pose proof (artifact_reads w) as Hr. by rewrite E in Hr. Qed.
End client.

(** ** The redundant store implements it *)

Section store.
Context (sha256 : list Z -> list Z) {sha256_length : forall m, length (sha256 m) = 32%nat}.
Context {T : Type} (to_json : T -> option (list Z)) (decode_json : list Z -> result T RecordValueError).
Context (max_payload_bytes : Z) {max_ok : max_payload_bytes <= MAX_RECORD_PAYLOAD_BYTES}.

Notation read_slot := (read_slot sha256 decode_json max_payload_bytes).
Notation decode_record := (decode_record sha256 decode_json max_payload_bytes).
Notation select_record := (select_record sha256 decode_json max_payload_bytes).
Notation save_with_policy := (save_with_policy sha256 to_json decode_json max_payload_bytes).

Definition view_slot (file : option (list Z)) : result (Slot T) StateErrorCode :=
  match file with
  | None => Ok SlotMissing
  | Some bytes =>
      if max_payload_bytes + RECORD_OVERHEAD_BYTES <? Z.of_nat (length bytes) then Ok SlotInvalid
      else let? record := decode_record bytes in
           Ok (match record with Some record => SlotValid record | None => SlotInvalid end)
  end.

Definition view (w : World) : result (option (SelectedRecord T)) StateErrorCode :=
  let? first := view_slot (slot_a w) in
  let? second := view_slot (slot_b w) in
  select_slots first second.

Lemma read_slot_spec second w :
  same_files (read_slot second w).2 w /\
  ((read_slot second w).1 = view_slot (slot_file w second) \/ exists e, (read_slot second w).1 = Err e).
Proof.
  unfold Records.read_slot, read_bounded. pose proof (next_fault_files w) as Hf.
  destruct (next_fault w) as [f w1]. simpl in Hf. rewrite <- (same_files_slot _ _ second Hf). unfold view_slot.
  destruct f as [|e|e].
  - destruct (slot_file w1 second) as [bytes|]; [|auto]. destruct (_ <? _); auto.
  - destruct e; simpl; eauto.
  - destruct e; simpl; eauto.
Qed.

Lemma read_slot_clean second w : faults w = [] -> read_slot second w = (view_slot (slot_file w second), w).
Proof.
  intros H. unfold Records.read_slot, read_bounded, next_fault. rewrite H. unfold view_slot.
  destruct (slot_file w second) as [bytes|]; [|done]. by destruct (_ <? _).
Qed.

Lemma read_slot_reads second : reads_only (read_slot second).
Proof. intros w. apply read_slot_spec. Qed.

Lemma select_record_reads : reads_only select_record.
Proof.
  apply reads_only_bind; [apply read_slot_reads|]. intros a. apply reads_only_bind; [apply read_slot_reads|].
  intros b. apply reads_only_lift.
Qed.

Lemma read_both first second w w1 w2 :
  read_slot false w = (Ok first, w1) -> read_slot true w1 = (Ok second, w2) ->
  view_slot (slot_a w) = Ok first /\ view_slot (slot_b w) = Ok second /\ same_files w2 w.
Proof.
  intros H1 H2. destruct (read_slot_spec false w) as [F1 [V1|[e V1]]]; rewrite H1 in F1, V1; [|done].
  destruct (read_slot_spec true w1) as [F2 [V2|[e V2]]]; rewrite H2 in F2, V2; [|done].
  simpl in *. split_and!; [done| |by eapply same_files_trans]. destruct F1 as [_ F1]. by rewrite <- F1.
Qed.

Lemma select_record_view w x : (select_record w).1 = Ok x -> view w = Ok x.
Proof.
  unfold Records.select_record, ibind. destruct (read_slot false w) as [[first|e] w1] eqn:E1; [|done].
  destruct (read_slot true w1) as [[second|e] w2] eqn:E2; [|done]. simpl. intros H.
  destruct (read_both _ _ _ _ _ E1 E2) as (H1 & H2 & _). unfold view. by rewrite H1, H2.
Qed.

(** *** A plan never endangers what is loaded now *)

Definition planned (slot : bool) (first second : Slot T) (r : DecodedRecord T)
  : result (option (SelectedRecord T)) StateErrorCode :=
  if slot then select_slots first (SlotValid r) else select_slots (SlotValid r) second.

Lemma next_generation_ok g n : next_generation g = Ok n -> n = g + 1 /\ n <= u64_max.
Proof. unfold next_generation. intros H%ok_or_Ok. by apply checked_add_Some in H as [-> ?]. Qed.

Definition slot_ok (s : Slot T) : Prop :=
  match s with SlotValid r => 1 <= dr_generation r <= u64_max | _ => True end.

Ltac solve_select :=
  repeat match goal with
  | |- context [?a <? ?b] => destruct (Z.ltb_spec a b); try lia
  end; eauto.

Lemma plan_spec (explicit : bool) first second plan :
  slot_ok first -> slot_ok second ->
  (if explicit then explicit_save_plan first second else save_plan first second) = Ok plan ->
  1 <= sp_generation plan <= u64_max /\
  sp_target_exists plan = slot_exists (if sp_slot plan then second else first) /\
  match select_slots first second with
  | Ok (Some old) => sp_generation plan = dr_generation (sr_record old) + 1
  | Ok None => sp_generation plan = 1
  | Err _ => False
  end /\
  forall r, dr_generation r = sp_generation plan ->
    exists red, planned (sp_slot plan) first second r = Ok (Some {| sr_record := r; sr_redundancy := red |}).
Proof.
  intros Ha Hb H.
  assert (forall g n (b c : bool), (let? generation := next_generation g in
      Ok {| sp_slot := b; sp_generation := generation; sp_target_exists := c |}) = Ok n ->
    sp_slot n = b /\ sp_target_exists n = c /\ sp_generation n = g + 1 /\ g + 1 <= u64_max) as Hn.
  { intros g n b c Hx. apply rbind_ok in Hx as (m & Hm & [= <-]). apply next_generation_ok in Hm as [-> ?]. done. }
  destruct first as [| |x], second as [| |y]; destruct explicit; simpl in H, Ha, Hb; try done;
    try (injection H as <-; simpl; split_and!; [unfold_ints; lia|unfold_ints; lia|done|done|intros r Hr; unfold planned; simpl; eauto]);
    try (apply Hn in H as (H1 & H2 & H3 & H4); unfold planned; rewrite H1, H2, H3; simpl;
         split_and!; [lia|lia|done|done|intros r Hr; solve_select]).
  all: destruct (Z.eqb_spec (dr_generation x) (dr_generation y)) as [Eg|Eg]; cbn [negb] in H.
  all: try (destruct (bool_decide (dr_payload_sha256 x = dr_payload_sha256 y)) eqn:Es; cbn [negb] in H; [|done]).
  all: try (destruct (Z.ltb_spec (dr_generation y) (dr_generation x)) as [Hlt|Hge]; cbn [negb] in H).
  all: apply Hn in H as (H1 & H2 & H3 & H4); unfold planned, select_slots; rewrite H1, H2, H3; simpl; rewrite ?Es.
  all: split_and!; [lia|lia|done| |intros r Hr; solve_select].
  all: repeat match goal with |- context [?a <? ?b] => destruct (Z.ltb_spec a b); try lia end; simpl; lia.
Qed.

(** *** A save *)

Definition json_storable (v : T) : Prop :=
  forall b, to_json v = Some b -> decode_json b = Ok v /\ Forall byte_ok b.

Lemma view_slot_ok file s : file_ok file -> view_slot file = Ok s -> slot_ok s.
Proof using sha256_length.
  intros Hf H. destruct file as [bytes|]; simpl in H; [|by injection H as <-]. destruct (_ <? _); [by injection H as <-|].
  apply rbind_ok in H as (r & Hr & [= <-]). destruct r as [r|]; [|done]. unfold Records.decode_record in Hr.
  destruct (decode_record_payload sha256 bytes max_payload_bytes) as [[[g d] p]|] eqn:E; [|done].
  apply record_canonical in E as (_ & _ & Hg & _); [|done..].
  destruct (decode_json p) as [v|[]]; [|done..]. injection Hr as <-. exact Hg.
Qed.

Lemma view_slot_exists file s : view_slot file = Ok s -> slot_exists s = is_some file.
Proof.
  destruct file as [bytes|]; simpl; [|by intros [= <-]]. destruct (_ <? _); [by intros [= <-]|].
  intros H. apply rbind_ok in H as (r & _ & [= <-]). by destruct r.
Qed.

(** The record a save writes *)
Definition new_record (v : T) (generation : Z) (payload : list Z) : DecodedRecord T :=
  {| dr_generation := generation; dr_payload_sha256 := sha256 payload; dr_value := v |}.

Lemma view_slot_new v g payload :
  json_storable v -> to_json v = Some payload -> Z.of_nat (length payload) <= max_payload_bytes -> 1 <= g <= u64_max ->
  view_slot (Some (record_bytes sha256 g payload)) = Ok (SlotValid (new_record v g payload)).
Proof using sha256_length max_ok.
  intros Hs Hj Hl Hg. unfold view_slot. rewrite record_bytes_length by done. rewrite (proj2 (Z.ltb_ge _ _)).
  2: { unfold RECORD_OVERHEAD_BYTES, RECORD_HEADER_BYTES, RECORD_FOOTER_BYTES. lia. }
  unfold Records.decode_record. rewrite record_roundtrip; [|done..|].
  - destruct (Hs _ Hj) as [-> _]. done.
  - unfold MAX_RECORD_PAYLOAD_BYTES in max_ok. unfold_ints. lia.
Qed.

Lemma confirm_save_reads g d : reads_only (confirm_save sha256 decode_json max_payload_bytes g d).
Proof.
  intros w. unfold confirm_save. pose proof (select_record_reads w) as H.
  destruct (select_record w) as [[[s|]|e] w1]; [|done..]. by destruct (_ || _).
Qed.

(** What the files are after a publication *)
Definition published (first second : Slot T) (plan : SavePlan) (v : T) (payload : list Z) (w w' : World) : Prop :=
  view_slot (slot_a w) = Ok first /\ view_slot (slot_b w) = Ok second /\
  same_files w' (set_slot w (sp_slot plan) (record_bytes sha256 (sp_generation plan) payload)) /\
  to_json v = Some payload /\ Z.of_nat (length payload) <= max_payload_bytes.

Lemma publish_cases second exists_ bytes w :
  same_files (publish second exists_ bytes w).2 w /\ (exists e, (publish second exists_ bytes w).1 = Err e) \/
  same_files (publish second exists_ bytes w).2 (set_slot w second bytes).
Proof.
  unfold publish. pose proof (next_fault_files w) as Hf. destruct (next_fault w) as [f w1]. simpl in Hf.
  assert (same_files (set_slot w1 second bytes) (set_slot w second bytes)) as Hs by (destruct Hf, second; by split).
  destruct (slot_file w1 second), exists_; simpl; eauto; destruct f; simpl; eauto.
Qed.

Lemma save_cases v hook explicit w :
  let r := save_with_policy v hook explicit w in
  (same_files r.2 w /\ exists e, r.1 = Err e) \/
  exists first second plan payload,
    (if explicit then explicit_save_plan first second else save_plan first second) = Ok plan /\
    published first second plan v payload w r.2 /\
    (forall receipt, r.1 = Ok receipt ->
       rr_generation receipt = sp_generation plan /\ rr_payload_sha256 receipt = sha256 payload).
Proof.
  intros r. assert (save_with_policy v hook explicit w = r) as E by done. clearbody r.
  unfold Records.save_with_policy, ibind in E.
  destruct (read_slot false w) as [[first|e] w1] eqn:E1.
  2: { left. subst r. split; [|eauto]. pose proof (read_slot_reads false w) as H. by rewrite E1 in H. }
  destruct (read_slot true w1) as [[second|e] w2] eqn:E2.
  2: { left. subst r. split; [|eauto]. pose proof (read_slot_reads false w) as H. pose proof (read_slot_reads true w1) as H'.
       rewrite E1 in H. rewrite E2 in H'. by eapply same_files_trans. }
  destruct (read_both _ _ _ _ _ E1 E2) as (V1 & V2 & F). clear E1 E2 w1.
  unfold lift at 1 in E. destruct (if explicit then _ else _) as [plan|e] eqn:Ep; [|left; subst r; eauto].
  unfold lift at 1, measure_json in E. destruct (to_json v) as [payload|] eqn:Ej; [|left; subst r; eauto].
  destruct (max_payload_bytes <? _) eqn:El; [left; subst r; eauto|]. to_prop.
  unfold lift at 1, encode_header in E. destruct (sp_generation plan =? 0); [left; subst r; eauto|].
  change (record_file sha256 _ payload) with (record_bytes sha256 (sp_generation plan) payload) in E.
  pose proof (stage_reads_only w2) as F3. destruct (stage w2) as [[[]|e] w3]; simpl in F3;
    (assert (same_files w3 w) as F' by (by eapply same_files_trans)); [|left; subst r; eauto]. clear F F3 w2.
  unfold lift at 1, hook_result in E. destruct (hook BeforePublication); [left; subst r; eauto|].
  set (bytes := record_bytes sha256 (sp_generation plan) payload) in *.
  destruct (publish_cases (sp_slot plan) (sp_target_exists plan) bytes w3) as [[F4 [e He]]|F4];
    destruct (publish (sp_slot plan) (sp_target_exists plan) bytes w3) as [[[]|e'] w4]; simpl in F4; try done.
  { left. subst r. split; [by eapply same_files_trans|eauto]. }
  all: right; exists first, second, plan, payload; split; [done|].
  all: assert (same_files w4 (set_slot w (sp_slot plan) bytes)) as F5
         by (eapply same_files_trans; [exact F4|]; destruct F', (sp_slot plan); by split).
  - unfold lift in E. destruct (hook AfterPublication); [subst r; by split_and!|].
    pose proof (confirm_save_reads (sp_generation plan) (sha256 payload) w4) as F6. rewrite E in F6.
    split; [split_and!; try done; by eapply same_files_trans|]. intros receipt Hr. unfold confirm_save in E.
    destruct (select_record w4) as [[[s|]|?] ?]; try (by subst r). destruct (_ || _) eqn:Eg; [by subst r|].
    subst r. injection Hr as <-. to_prop. simpl. done.
  - subst r. by split_and!.
Qed.

Lemma view_slot_decoded file r :
  view_slot file = Ok (SlotValid r) ->
  exists payload, decode_json payload = Ok (dr_value r) /\ dr_payload_sha256 r = sha256 payload.
Proof.
  destruct file as [bytes|]; simpl; [|done]. destruct (_ <? _); [done|].
  intros H. apply rbind_ok in H as (x & Hx & E). destruct x as [x|]; [|done]. injection E as <-.
  unfold Records.decode_record in Hx. destruct (decode_record_payload _ _ _) as [[[g d] p]|] eqn:E; [|done].
  apply record_digest in E. destruct (decode_json p) as [v|[]] eqn:Ev; [|done..]. injection Hx as <-. eauto.
Qed.

Lemma select_slots_origin (first second : Slot T) s :
  select_slots first second = Ok (Some s) -> first = SlotValid (sr_record s) \/ second = SlotValid (sr_record s).
Proof.
  destruct first as [| |x], second as [| |y]; simpl; intros H; try done; try (injection H as <-; auto; done).
  destruct (_ <? _); [injection H as <-; auto|]. destruct (_ <? _); [injection H as <-; auto|].
  destruct (bool_decide _); [injection H as <-; auto|done].
Qed.

Lemma view_decoded w s : view w = Ok (Some s) -> 
  exists payload, decode_json payload = Ok (dr_value (sr_record s)) /\ dr_payload_sha256 (sr_record s) = sha256 payload.
Proof.
  unfold view. intros H. apply rbind_ok in H as (first & H1 & H). apply rbind_ok in H as (second & H2 & H).
  apply select_slots_origin in H as [-> | ->]; [exact (view_slot_decoded _ _ H1)|exact (view_slot_decoded _ _ H2)].
Qed.

Lemma view_same_files w v : same_files w v -> view w = view v.
Proof. intros [H1 H2]. unfold view. by rewrite H1, H2. Qed.

(** After a publication the new record is the one selected. *)
Lemma published_view explicit first second plan v payload w w' :
  world_ok w -> json_storable v ->
  (if explicit : bool then explicit_save_plan first second else save_plan first second) = Ok plan ->
  published first second plan v payload w w' ->
  (exists red, view w' = Ok (Some {| sr_record := new_record v (sp_generation plan) payload; sr_redundancy := red |})) /\
  match view w with
  | Ok (Some old) => sp_generation plan = dr_generation (sr_record old) + 1
  | Ok None => sp_generation plan = 1
  | Err _ => False
  end.
Proof using sha256_length max_ok.
  intros [Ha Hb] Hs Hp (V1 & V2 & F & Hj & Hl).
  destruct (plan_spec explicit first second plan) as (Hg & _ & Hold & Hnew); [exact (view_slot_ok _ _ Ha V1)|exact (view_slot_ok _ _ Hb V2)|done|].
  split; [|unfold view; rewrite V1, V2; exact Hold].
  destruct (Hnew (new_record v (sp_generation plan) payload)) as [red Hred]; [done|]. exists red. rewrite <- Hred.
  rewrite (view_same_files _ _ F). unfold view, planned.
  pose proof (view_slot_new v (sp_generation plan) payload Hs Hj Hl Hg) as Hn.
  destruct (sp_slot plan); cbn [set_slot slot_a slot_b].
  - rewrite V1. cbn [rbind]. by rewrite Hn.
  - rewrite Hn. cbn [rbind]. by rewrite V2.
Qed.

Lemma record_bytes_ok g payload : Forall byte_ok payload -> (forall m, Forall byte_ok (sha256 m)) ->
  Forall byte_ok (record_bytes sha256 g payload).
Proof.
  intros Hp Hs. assert (Forall byte_ok RECORD_MAGIC /\ Forall byte_ok RECORD_FOOTER_MAGIC) as [H1 H2]
    by (split; apply forallb_byte_ok; reflexivity).
  unfold record_bytes, record_file, header_of. rewrite !Forall_app. split_and!; auto using le_bytes_ok.
Qed.

Lemma save_policy_atomic v hook explicit w :
  json_storable v -> world_ok w -> saved_or_same view v w (save_with_policy v hook explicit w).2.
Proof using sha256_length max_ok.
  intros Hs Hw. destruct (save_cases v hook explicit w) as [[H _]|(first & second & plan & payload & Hp & Hpub & _)]; [by left|].
  right. destruct (published_view explicit _ _ _ _ _ _ _ Hw Hs Hp Hpub) as [[red ->] Hg]. eexists. split_and!; [done|done|].
  by destruct (view w) as [[old|]|].
Qed.

Lemma save_policy_confirmed v hook explicit w receipt :
  json_storable v -> world_ok w -> (save_with_policy v hook explicit w).1 = Ok receipt ->
  exists s, view (save_with_policy v hook explicit w).2 = Ok (Some s) /\ dr_value (sr_record s) = v /\
    dr_generation (sr_record s) = rr_generation receipt /\ dr_payload_sha256 (sr_record s) = rr_payload_sha256 receipt /\
    dr_generation (sr_record s) = next_of (view w).
Proof using sha256_length max_ok.
  intros Hs Hw H. destruct (save_cases v hook explicit w) as [[_ [e He]]|(first & second & plan & payload & Hp & Hpub & Hr)]; [congruence|].
  destruct (published_view explicit _ _ _ _ _ _ _ Hw Hs Hp Hpub) as [[red ->] Hg]. destruct (Hr _ H) as [-> ->].
  eexists. split_and!; [done..|]. by destruct (view w) as [[old|]|].
Qed.

Definition json_fits (v : T) : Prop :=
  exists b, to_json v = Some b /\ Z.of_nat (length b) <= max_payload_bytes.

Lemma explicit_plan_exists (first second : Slot T) :
  room (select_slots first second) -> exists plan, explicit_save_plan first second = Ok plan.
Proof.
  assert (forall g (b c : bool), g < u64_max -> exists n, (let? generation := next_generation g in
      Ok {| sp_slot := b; sp_generation := generation; sp_target_exists := c |}) = Ok n) as Hn.
  { intros g b c Hg. unfold next_generation, checked_add. rewrite (proj2 (Z.leb_le (g + 1) u64_max)) by lia. simpl. eauto. }
  destruct first as [| |x], second as [| |y]; simpl; try (by eauto); try (intros Hr; by apply Hn).
  destruct (Z.ltb_spec (dr_generation y) (dr_generation x)).
  - rewrite (proj2 (Z.eqb_neq _ _)) by lia. intros Hr. by apply Hn.
  - destruct (Z.ltb_spec (dr_generation x) (dr_generation y)).
    + rewrite (proj2 (Z.eqb_neq _ _)) by lia. intros Hr. by apply Hn.
    + rewrite (proj2 (Z.eqb_eq _ _)) by lia. simpl. destruct (bool_decide _); [|done]. simpl. intros Hr. by apply Hn.
Qed.

Lemma stage_clean w : faults w = [] -> stage w = (Ok tt, w).
Proof. intros H. unfold stage, next_fault. by rewrite H. Qed.

Lemma publish_clean second exists_ bytes w : faults w = [] -> exists_ = is_some (slot_file w second) ->
  publish second exists_ bytes w = (Ok tt, set_slot w second bytes).
Proof. intros H ->. unfold publish, next_fault. rewrite H. by destruct (slot_file w second). Qed.

Lemma select_record_same w : faults w = [] -> select_record w = (view w, w).
Proof.
  intros H. unfold Records.select_record, ibind, view. rewrite read_slot_clean by done.
  change (slot_file w false) with (slot_a w). destruct (view_slot (slot_a w)); [|done]. rewrite read_slot_clean by done.
  change (slot_file w true) with (slot_b w). by destruct (view_slot (slot_b w)).
Qed.

Lemma save_policy_live v hook w : (forall b, hook b = None) -> json_storable v -> json_fits v -> world_ok w -> faults w = [] -> room (view w) ->
  exists receipt, (save_with_policy v hook true w).1 = Ok receipt /\ faults (save_with_policy v hook true w).2 = [].
Proof using sha256_length max_ok.
  intros Hh Hs (payload & Hj & Hl) Hw Hf Hr. unfold view in Hr.
  destruct (view_slot (slot_a w)) as [first|] eqn:V1; [|done]. destruct (view_slot (slot_b w)) as [second|] eqn:V2; [|done].
  cbn [rbind] in Hr. destruct (explicit_plan_exists _ _ Hr) as [plan Hp]. destruct Hw as [Ha Hb].
  destruct (plan_spec true first second plan) as (Hg & He & _); [exact (view_slot_ok _ _ Ha V1)|exact (view_slot_ok _ _ Hb V2)|done|].
  set (bytes := record_bytes sha256 (sp_generation plan) payload). set (w' := set_slot w (sp_slot plan) bytes).
  assert (published first second plan v payload w w') as Hpub by (split_and!; done).
  destruct (published_view true _ _ _ _ _ _ _ (conj Ha Hb) Hs Hp Hpub) as [[red Hv] _].
  assert (faults w' = []) as Hf' by (unfold w'; by destruct (sp_slot plan)).
  unfold Records.save_with_policy, ibind, lift. rewrite !read_slot_clean by done. cbn [slot_file]. rewrite V1, V2, Hp.
  unfold measure_json, encode_header. rewrite Hj, (proj2 (Z.ltb_ge _ _)), (proj2 (Z.eqb_neq _ 0)) by lia.
  rewrite stage_clean by done. unfold hook_result. rewrite !Hh.
  change (record_file sha256 _ payload) with bytes. rewrite publish_clean; [|done|].
  2: { rewrite He. destruct (sp_slot plan); by apply view_slot_exists. }
  fold w'. unfold confirm_save. rewrite select_record_same, Hv by done. simpl.
  rewrite Z.eqb_refl, bool_decide_true by done. simpl. eauto.
Qed.

Lemma save_policy_ok v hook explicit w : (forall m, Forall byte_ok (sha256 m)) ->
  json_storable v -> world_ok w -> world_ok (save_with_policy v hook explicit w).2.
Proof.
  intros Hsha Hs Hw. destruct (save_cases v hook explicit w) as [[H _]|(first & second & plan & payload & Hp & Hpub & _)].
  - by eapply same_files_ok.
  - destruct Hpub as (_ & _ & F & Hj & _). eapply same_files_ok; [exact F|]. apply set_slot_ok; [done|].
    apply record_bytes_ok; [by eapply Hs|done].
Qed.

Lemma slot_artifact_reads second : reads_only (slot_artifact max_payload_bytes second).
Proof.
  intros w. unfold slot_artifact, read_bounded. pose proof (next_fault_files w) as Hf.
  destruct (next_fault w) as [f w1]. simpl in Hf. destruct f as [|e|e]; [|by destruct e..].
  destruct (slot_file w1 second); [|done]. by destruct (_ <? _).
Qed.

Lemma artifact_reads_only : reads_only (has_any_artifact max_payload_bytes).
Proof.
  apply reads_only_bind; [apply slot_artifact_reads|]. intros []; [apply reads_only_return|apply slot_artifact_reads].
Qed.

Lemma slot_artifact_clean second w : faults w = [] -> exists b, slot_artifact max_payload_bytes second w = (Ok b, w).
Proof.
  intros H. unfold slot_artifact, read_bounded, next_fault. rewrite H. destruct (slot_file w second); [|eauto].
  destruct (_ <? _); eauto.
Qed.

Lemma artifact_clean_run w : faults w = [] -> exists b, has_any_artifact max_payload_bytes w = (Ok b, w).
Proof.
  intros H. unfold has_any_artifact, ibind. destruct (slot_artifact_clean false w H) as [b ->].
  destruct b; [unfold ireturn; eauto|]. by apply slot_artifact_clean.
Qed.

(** *** Damage *)

(** One file is lost or no longer a record. *)
Definition damaged (w w' : World) : Prop :=
  (slot_b w' = slot_b w /\ exists s, view_slot (slot_a w') = Ok s /\ (s = SlotMissing \/ s = SlotInvalid)) \/
  (slot_a w' = slot_a w /\ exists s, view_slot (slot_b w') = Ok s /\ (s = SlotMissing \/ s = SlotInvalid)).

(** The slot that is not written holds what was loaded before. *)
Lemma plan_keeps_old (explicit : bool) (first second : Slot T) plan old :
  (if explicit then explicit_save_plan first second else save_plan first second) = Ok plan ->
  select_slots first second = Ok (Some old) ->
  exists kept, (if sp_slot plan then first else second) = SlotValid kept /\
    (kept = sr_record old \/
     dr_generation kept = dr_generation (sr_record old) /\ dr_payload_sha256 kept = dr_payload_sha256 (sr_record old)).
Proof.
  intros Hp Hs.
  assert (forall g n (b c : bool), (let? generation := next_generation g in
      Ok {| sp_slot := b; sp_generation := generation; sp_target_exists := c |}) = Ok n -> sp_slot n = b) as Hn
    by (intros g n b c Hx; apply rbind_ok in Hx as (m & _ & [= <-]); done).
  destruct first as [| |x], second as [| |y]; destruct explicit; simpl in Hp, Hs; try done;
    try (injection Hs as <-; apply Hn in Hp as ->; simpl; eauto).
  all: destruct (Z.eqb_spec (dr_generation x) (dr_generation y)) as [Eg|Eg]; cbn [negb] in Hp.
  all: destruct (Z.ltb_spec (dr_generation y) (dr_generation x)); try lia.
  all: try (injection Hs as <-; apply Hn in Hp as ->; simpl; by eauto).
  all: destruct (Z.ltb_spec (dr_generation x) (dr_generation y)); try lia.
  all: try (injection Hs as <-; apply Hn in Hp as ->; simpl; by eauto).
  all: destruct (bool_decide (dr_payload_sha256 x = dr_payload_sha256 y)) eqn:Es; cbn [negb] in Hp; [|done].
  all: to_prop; injection Hs as <-; apply Hn in Hp as ->; simpl; eauto.
Qed.

Lemma save_survives_damage v hook explicit w old receipt w' :
  json_storable v -> world_ok w -> view w = Ok (Some old) ->
  (save_with_policy v hook explicit w).1 = Ok receipt -> damaged (save_with_policy v hook explicit w).2 w' ->
  exists s, view w' = Ok (Some s) /\
    (dr_value (sr_record s) = v \/
     (dr_generation (sr_record s) = dr_generation (sr_record old) /\
      dr_payload_sha256 (sr_record s) = dr_payload_sha256 (sr_record old))).
Proof using sha256_length max_ok.
  intros Hs Hw Hold H Hd.
  destruct (save_cases v hook explicit w) as [[_ [e He]]|(first & second & plan & payload & Hp & Hpub & _)]; [congruence|].
  destruct Hpub as (V1 & V2 & F & Hj & Hl). set (r := (save_with_policy v hook explicit w).2) in *.
  unfold view in Hold. rewrite V1, V2 in Hold. cbn [rbind] in Hold.
  destruct (plan_keeps_old explicit _ _ _ _ Hp Hold) as (kept & Hk & Hkept).
  destruct Hw as [Ha Hb].
  destruct (plan_spec explicit first second plan) as (Hg & _); [exact (view_slot_ok _ _ Ha V1)|exact (view_slot_ok _ _ Hb V2)|done|].
  pose proof (view_slot_new v (sp_generation plan) payload Hs Hj Hl Hg) as Hn.
  assert (dr_generation kept = dr_generation (sr_record old) /\
    dr_payload_sha256 kept = dr_payload_sha256 (sr_record old)) as Hsame by (destruct Hkept as [-> |?]; done).
  assert (forall s x, view_slot (slot_a w') = Ok (SlotValid x) -> view_slot (slot_b w') = Ok s ->
    s = SlotMissing \/ s = SlotInvalid -> exists red, view w' = Ok (Some {| sr_record := x; sr_redundancy := red |})) as K1
    by (intros s x E1 E2 [-> | ->]; unfold view; rewrite E1, E2; simpl; eauto).
  assert (forall s x, view_slot (slot_a w') = Ok s -> view_slot (slot_b w') = Ok (SlotValid x) ->
    s = SlotMissing \/ s = SlotInvalid -> exists red, view w' = Ok (Some {| sr_record := x; sr_redundancy := red |})) as K2
    by (intros s x E1 E2 [-> | ->]; unfold view; rewrite E1, E2; simpl; eauto).
  destruct F as [F1 F2]. destruct Hd as [[Hsame' (s & Hv & Hcase)]|[Hsame' (s & Hv & Hcase)]];
    destruct (sp_slot plan); cbn [set_slot slot_a slot_b] in F1, F2; subst.
  - destruct (K2 s (new_record v (sp_generation plan) payload)) as [red Hr]; [done|congruence|done|]. eexists. split; [exact Hr|by left].
  - destruct (K2 s kept) as [red Hr]; [done|congruence|done|]. eexists. split; [exact Hr|by right].
  - destruct (K1 s kept) as [red Hr]; [congruence|done|done|]. eexists. split; [exact Hr|by right].
  - destruct (K1 s (new_record v (sp_generation plan) payload)) as [red Hr]; [congruence|done|done|]. eexists. split; [exact Hr|by left].
Qed.

(** ** Claims *)

(** C14. A save is atomic under crashes: whatever goes wrong while it runs (reads,
    staging, hooks, the replacement of the file before or after it took effect, or the
    reread), the files afterwards are unchanged, or the saved value is the one loaded
    next, under the next generation number; and a save that reports success is
    loaded next with the generation and digest of its receipt. *)
Theorem record_save_atomic v hook explicit w :
  json_storable v -> world_ok w ->
  let r := save_with_policy v hook explicit w in
  saved_or_same view v w r.2 /\
  (forall receipt, r.1 = Ok receipt ->
     exists s, view r.2 = Ok (Some s) /\ dr_value (sr_record s) = v /\
       dr_generation (sr_record s) = rr_generation receipt /\
       dr_payload_sha256 (sr_record s) = rr_payload_sha256 receipt).
Proof using sha256_length max_ok.
  intros Hs Hw. split; [by apply save_policy_atomic|]. intros receipt Hr.
  destruct (save_policy_confirmed _ _ _ _ _ Hs Hw Hr) as (s & ? & ? & ? & ? & _). eauto.
Qed.

(** C15. One damaged file loses at most the last save: if a value could be loaded and
    another was then saved, and after that one of the two files is lost or damaged so
    that it is no longer a record, a load still succeeds and returns the record just
    saved or the one before it. *)
Theorem record_survives_damage v hook explicit w old receipt w' :
  json_storable v -> world_ok w -> view w = Ok (Some old) ->
  (save_with_policy v hook explicit w).1 = Ok receipt -> damaged (save_with_policy v hook explicit w).2 w' ->
  exists s, view w' = Ok (Some s) /\
    (dr_value (sr_record s) = v \/
     (dr_generation (sr_record s) = dr_generation (sr_record old) /\
      dr_payload_sha256 (sr_record s) = dr_payload_sha256 (sr_record old))).
Proof using sha256_length max_ok. apply save_survives_damage. Qed.
End store.


(** ** The instance *)

Definition redundant_store (sha256 : list Z -> list Z) {T} (to_json : T -> option (list Z))
    (decode_json : list Z -> result T RecordValueError) (max : Z) : RecordStore T :=
  {| store_load := select_record sha256 decode_json max;
     store_save := fun v hook => save_with_policy sha256 to_json decode_json max v hook true;
     store_artifact := has_any_artifact max;
     store_view := view sha256 decode_json max;
     store_fits := json_fits to_json max |}.

(** A value type whose valid values survive its JSON, and of which only valid values
    are decoded, has a store. *)
Lemma redundant_store_laws sha256 {T} (to_json : T -> option (list Z)) decode_json max (valid : T -> Prop) :
  (forall m, length (sha256 m) = 32%nat) -> (forall m, Forall byte_ok (sha256 m)) -> max <= MAX_RECORD_PAYLOAD_BYTES ->
  (forall v, valid v -> json_storable to_json decode_json v) -> (forall p v, decode_json p = Ok v -> valid v) ->
  @RecordStoreLaws T (redundant_store sha256 to_json decode_json max) valid.
Proof.
  intros Hl Hb Hm Hs Hd. split; simpl.
  - intros. by apply view_same_files.
  - intros w s H. apply view_decoded in H as (p & Hp & _). by eapply Hd.
  - apply select_record_reads.
  - intros. by apply select_record_view.
  - intros. by apply select_record_same.
  - apply artifact_reads_only.
  - intros. by apply artifact_clean_run.
  - intros. apply save_policy_ok; auto.
  - intros. apply save_policy_atomic; auto.
  - intros. apply save_policy_confirmed; auto.
  - intros. apply save_policy_live; auto.
Qed.

(** ** The claims at concrete files *)

Definition plain_json (v : list Z) : option (list Z) := Some v.
Definition plain_decode (b : list Z) : result (list Z) RecordValueError := Ok b.

Definition first_world : World :=
  (save_with_policy toy_sha256 plain_json plain_decode 100 (lit "one") no_hook true
     {| slot_a := None; slot_b := None; faults := [] |}).2.

(** The second save finds the new file in place and then fails. *)
Definition faulty_world : World :=
  {| slot_a := slot_a first_world; slot_b := slot_b first_world;
     faults := [NoFault; NoFault; NoFault; FaultAfter DurUnavailable] |}.

Lemma first_world_ok : world_ok first_world.
Proof.
  assert (match slot_a first_world with Some b => forallb (fun c => (0 <=? c) && (c <? 256)) b | None => true end = true) as Ha
    by (vm_compute; reflexivity).
  assert (slot_b first_world = None) as Hb by (vm_compute; reflexivity).
  split; [|by rewrite Hb]. destruct (slot_a first_world); [by apply forallb_byte_ok|done].
Qed.

Lemma plain_storable s : Forall byte_ok s -> json_storable plain_json plain_decode s.
Proof. by intros H b [= <-]. Qed.

Lemma lit_two_ok : Forall byte_ok (lit "two").
Proof. apply forallb_byte_ok. reflexivity. Qed.

Lemma record_save_atomic_witness :
  saved_or_same (view toy_sha256 plain_decode 100) (lit "two") faulty_world
    (save_with_policy toy_sha256 plain_json plain_decode 100 (lit "two") no_hook true faulty_world).2 /\
  slot_b (save_with_policy toy_sha256 plain_json plain_decode 100 (lit "two") no_hook true faulty_world).2
    = Some (record_bytes toy_sha256 2 (lit "two")).
Proof.
  split; [|vm_compute; reflexivity].
  apply (@record_save_atomic toy_sha256 toy_sha256_length (list Z) plain_json plain_decode 100 ltac:(vm_compute; discriminate)
    (lit "two") no_hook true faulty_world).
  - apply plain_storable, lit_two_ok.
  - exact first_world_ok.
Defined.

Definition second_save : result RecordSaveReceipt StateErrorCode * World :=
  save_with_policy toy_sha256 plain_json plain_decode 100 (lit "two") no_hook true first_world.

Definition lost_world : World := {| slot_a := slot_a second_save.2; slot_b := None; faults := [] |}.

Lemma record_survives_damage_witness :
  exists s, view toy_sha256 plain_decode 100 lost_world = Ok (Some s) /\ dr_value (sr_record s) = lit "one".
Proof.
  destruct (@record_survives_damage toy_sha256 toy_sha256_length (list Z) plain_json plain_decode 100
    ltac:(vm_compute; discriminate) (lit "two") no_hook true first_world
    {| sr_record := {| dr_generation := 1; dr_payload_sha256 := toy_sha256 (lit "one"); dr_value := lit "one" |};
       sr_redundancy := Single |}
    {| rr_generation := 2; rr_redundancy := Complete; rr_payload_sha256 := toy_sha256 (lit "two") |} lost_world)
    as (s & Hs & _).
  - apply plain_storable, lit_two_ok.
  - exact first_world_ok.
  - vm_compute. reflexivity.
  - vm_compute. reflexivity.
  - right. split; [reflexivity|]. exists SlotMissing. split; [reflexivity|]. by left.
  - exists s. split; [exact Hs|]. vm_compute in Hs. injection Hs as <-. reflexivity.
Defined.

