(* ===== verification/Journal.v ===== *)
(** * The recovery journal

    Models [crates/state/src/recovery/journal.rs]: the identities of a recovery (backup,
    candidate, archive files, settings), the journal of one recovery operation with its
    validation, and the store that begins an operation and advances it phase by phase.
    The store keeps the journal in a redundant record and is proved against the
    interface of [Records].

    The claims are about every run of begin and advance calls under arbitrary faults:
    the journal on disk only moves to the next phase of the same operation, or from a
    completed operation to the next one; without faults a recovery reaches its end; and
    a begun operation survives the loss of either file. *)

From stdpp Require Import relations.
From S2P Require Import Prelude StateErrors Records.

Open Scope Z_scope.
Open Scope io_scope.

Inductive RecoveryPhase :=
| Prepared
| SidecarsQuarantined
| MainReplaced
| ReopenedVerified
| SettingsPublished
| PhaseComplete.
#[export] Instance RecoveryPhase_eq_dec : EqDecision RecoveryPhase.
Proof. solve_decision. Defined.

Inductive RecoverySettingsMode :=
| DataOnly
| DataAndPortableSettings
| AutomaticDataOnly
| ReconstructionDataOnly.
#[export] Instance RecoverySettingsMode_eq_dec : EqDecision RecoverySettingsMode.
Proof. solve_decision. Defined.

(** ** Identities *)

Record RecoveryFileFact := { ff_len : Z; ff_sha256 : list Z }.
#[export] Instance RecoveryFileFact_eq_dec : EqDecision RecoveryFileFact.
Proof. solve_decision. Defined.

(** [\[0_u8; n\]] *)
Definition zeros (n : nat) : list Z := repeat 0 n.

Definition RecoveryFileFact_from_persisted (len : Z) (sha256 : list Z) : result RecoveryFileFact StateErrorCode :=
  fail_if bool_decide (sha256 = zeros 32) with InvalidInput else
  Ok {| ff_len := len; ff_sha256 := sha256 |}.

Definition decode_file_fact (value : option (Z * list Z)) : result (option RecoveryFileFact) StateErrorCode :=
  match value with
  | None => Ok None
  | Some (len, digest) => let? fact := RecoveryFileFact_from_persisted len digest in Ok (Some fact)
  end.

Record RecoveryArchiveFacts := {
  af_main : option RecoveryFileFact;
  af_wal : option RecoveryFileFact;
  af_shm : option RecoveryFileFact
}.
#[export] Instance RecoveryArchiveFacts_eq_dec : EqDecision RecoveryArchiveFacts.
Proof. solve_decision. Defined.

Definition RecoveryArchiveFacts_from_persisted (main wal shm : option (Z * list Z))
  : result RecoveryArchiveFacts StateErrorCode :=
  fail_if is_some_and main (fun m => m.1 =? 0) with InvalidInput else
  let? main := decode_file_fact main in
  let? wal := decode_file_fact wal in
  let? shm := decode_file_fact shm in
  Ok {| af_main := main; af_wal := wal; af_shm := shm |}.

(** [\[main, wal, shm\].into_iter().flatten()] of [validate] *)
Fixpoint validate_facts (facts : list (option RecoveryFileFact)) : result unit StateErrorCode :=
  match facts with
  | [] => Ok tt
  | None :: facts => validate_facts facts
  | Some fact :: facts =>
      let? _ := RecoveryFileFact_from_persisted (ff_len fact) (ff_sha256 fact) in validate_facts facts
  end.

Definition RecoveryArchiveFacts_validate (facts : RecoveryArchiveFacts) : result unit StateErrorCode :=
  fail_if is_some_and (af_main facts) (fun fact => ff_len fact =? 0) with InvalidInput else
  validate_facts [af_main facts; af_wal facts; af_shm facts].

Definition has_any_archive_artifact (facts : RecoveryArchiveFacts) : bool :=
  is_some (af_main facts) || is_some (af_wal facts) || is_some (af_shm facts).

Record RecoveryBackupIdentity := { bi_backup_slot : Z; bi_package_len : Z; bi_package_sha256 : list Z }.
#[export] Instance RecoveryBackupIdentity_eq_dec : EqDecision RecoveryBackupIdentity.
Proof. solve_decision. Defined.

Definition RecoveryBackupIdentity_from_persisted (backup_slot package_len : Z) (package_sha256 : list Z)
  : result RecoveryBackupIdentity StateErrorCode :=
  fail_if (package_len =? 0) || bool_decide (package_sha256 = zeros 32) with InvalidInput else
  Ok {| bi_backup_slot := backup_slot; bi_package_len := package_len; bi_package_sha256 := package_sha256 |}.

Definition RecoveryBackupIdentity_validate (b : RecoveryBackupIdentity) : result unit StateErrorCode :=
  let? _ := RecoveryBackupIdentity_from_persisted (bi_backup_slot b) (bi_package_len b) (bi_package_sha256 b) in Ok tt.

Record RecoveryCandidateIdentity := { ci_schema_version : Z; ci_len : Z; ci_sha256 : list Z }.
#[export] Instance RecoveryCandidateIdentity_eq_dec : EqDecision RecoveryCandidateIdentity.
Proof. solve_decision. Defined.

Definition RecoveryCandidateIdentity_from_persisted (schema_version len : Z) (sha256 : list Z)
  : result RecoveryCandidateIdentity StateErrorCode :=
  fail_if (schema_version =? 0) || (len =? 0) || bool_decide (sha256 = zeros 32) with InvalidInput else
  Ok {| ci_schema_version := schema_version; ci_len := len; ci_sha256 := sha256 |}.

Definition RecoveryCandidateIdentity_validate (c : RecoveryCandidateIdentity) : result unit StateErrorCode :=
  let? _ := RecoveryCandidateIdentity_from_persisted (ci_schema_version c) (ci_len c) (ci_sha256 c) in Ok tt.

(** [PortableSettingsTarget] has the same two fields; its [from_persisted] is the check. *)
Record RecoverySettingsTarget := { st_generation : Z; st_digest : list Z }.
#[export] Instance RecoverySettingsTarget_eq_dec : EqDecision RecoverySettingsTarget.
Proof. solve_decision. Defined.

Definition PortableSettingsTarget_from_persisted (generation : Z) (digest : list Z)
  : result RecoverySettingsTarget StateErrorCode :=
  fail_if generation =? 0 with InvalidInput else
  Ok {| st_generation := generation; st_digest := digest |}.

Definition RecoverySettingsTarget_validate (t : RecoverySettingsTarget) : result unit StateErrorCode :=
  let? _ := PortableSettingsTarget_from_persisted (st_generation t) (st_digest t) in Ok tt.

(** ** The journal *)

Record RecoveryJournal := {
  rj_schema_version : Z;
  rj_operation_generation : Z;
  rj_operation_id : list Z;
  rj_backup : option RecoveryBackupIdentity;
  rj_candidate : RecoveryCandidateIdentity;
  rj_before : RecoveryArchiveFacts;
  rj_settings_mode : RecoverySettingsMode;
  rj_settings_target : option RecoverySettingsTarget;
  rj_attempt : Z;
  rj_phase : RecoveryPhase
}.
#[export] Instance RecoveryJournal_eq_dec : EqDecision RecoveryJournal.
Proof. solve_decision. Defined.

Definition RecoveryJournal_validate (j : RecoveryJournal) : result unit StateErrorCode :=
  fail_if negb (rj_schema_version j =? 1) || (rj_operation_generation j =? 0)
          || bool_decide (rj_operation_id j = zeros 16)
          || negb ((1 <=? rj_attempt j) && (rj_attempt j <=? 2)) with InvalidInput else
  let? _ := match rj_backup j with Some backup => RecoveryBackupIdentity_validate backup | None => Ok tt end in
  let? _ := RecoveryCandidateIdentity_validate (rj_candidate j) in
  let? _ := RecoveryArchiveFacts_validate (rj_before j) in
  match rj_backup j, rj_settings_mode j, rj_settings_target j with
  | Some _, DataAndPortableSettings, Some target => RecoverySettingsTarget_validate target
  | Some _, (DataOnly | AutomaticDataOnly), None => Ok tt
  | None, ReconstructionDataOnly, None => Ok tt
  | _, _, _ => Err InvalidInput
  end.

Definition RecoveryJournal_new (operation_generation : Z) (operation_id : list Z)
    (backup : option RecoveryBackupIdentity) (candidate : RecoveryCandidateIdentity) (before : RecoveryArchiveFacts)
    (settings_mode : RecoverySettingsMode) (settings_target : option RecoverySettingsTarget) (attempt : Z)
  : result RecoveryJournal StateErrorCode :=
  fail_if 2 <? attempt with CapacityExceeded else
  let value :=
    {| rj_schema_version := 1; rj_operation_generation := operation_generation; rj_operation_id := operation_id;
       rj_backup := backup; rj_candidate := candidate; rj_before := before; rj_settings_mode := settings_mode;
       rj_settings_target := settings_target; rj_attempt := attempt; rj_phase := Prepared |} in
  let? _ := RecoveryJournal_validate value in
  Ok value.

Definition manual (operation_generation : Z) (operation_id : list Z) (backup : RecoveryBackupIdentity)
    (candidate : RecoveryCandidateIdentity) (before : RecoveryArchiveFacts)
    (settings_target : option RecoverySettingsTarget) (attempt : Z) : result RecoveryJournal StateErrorCode :=
  let '(settings_mode, settings_target) :=
    match settings_target with
    | Some target => (DataAndPortableSettings, Some target)
    | None => (DataOnly, None)
    end in
  RecoveryJournal_new operation_generation operation_id (Some backup) candidate before settings_mode settings_target attempt.

Definition automatic (operation_generation : Z) (operation_id : list Z) (backup : RecoveryBackupIdentity)
    (candidate : RecoveryCandidateIdentity) (before : RecoveryArchiveFacts) (attempt : Z)
  : result RecoveryJournal StateErrorCode :=
  RecoveryJournal_new operation_generation operation_id (Some backup) candidate before AutomaticDataOnly None attempt.

Definition reconstruction (operation_generation : Z) (operation_id : list Z)
    (candidate : RecoveryCandidateIdentity) (before : RecoveryArchiveFacts) : result RecoveryJournal StateErrorCode :=
  RecoveryJournal_new operation_generation operation_id None candidate before ReconstructionDataOnly None 1.

Definition next_phase (phase : RecoveryPhase) : option RecoveryPhase :=
  match phase with
  | Prepared => Some SidecarsQuarantined
  | SidecarsQuarantined => Some MainReplaced
  | MainReplaced => Some ReopenedVerified
  | ReopenedVerified => Some SettingsPublished
  | SettingsPublished => Some PhaseComplete
  | PhaseComplete => None
  end.

Definition with_phase (j : RecoveryJournal) (phase : RecoveryPhase) : RecoveryJournal :=
  {| rj_schema_version := rj_schema_version j; rj_operation_generation := rj_operation_generation j;
     rj_operation_id := rj_operation_id j; rj_backup := rj_backup j; rj_candidate := rj_candidate j;
     rj_before := rj_before j; rj_settings_mode := rj_settings_mode j; rj_settings_target := rj_settings_target j;
     rj_attempt := rj_attempt j; rj_phase := phase |}.

(** [RecordValue::decode_json]; [from_slice] is [serde_json::from_slice] *)
Definition journal_decode_json (from_slice : list Z -> option RecoveryJournal) (bytes : list Z)
  : result RecoveryJournal RecordValueError :=
  match from_slice bytes with
  | None => Err ValueInvalid
  | Some value =>
      if negb (rj_schema_version value =? 1) then Err ValueUnsupportedVersion
      else match RecoveryJournal_validate value with Ok _ => Ok value | Err _ => Err ValueInvalid end
  end.

(** ** The store *)

Inductive RecoveryJournalLoad := JournalAbsent | JournalInvalid | JournalPending (j : RecoveryJournal).

Section store.
Context `{!RecordStore RecoveryJournal}.

Definition journal_load : io RecoveryJournalLoad :=
  let* record := store_load in
  match record with
  | Some record => ireturn (JournalPending (dr_value (sr_record record)))
  | None =>
      let* artifact := store_artifact in
      ireturn (if artifact : bool then JournalInvalid else JournalAbsent)
  end.

(** The match of [begin_with_observer] on what was loaded *)
Definition admit_begin (loaded : RecoveryJournalLoad) (prepared : RecoveryJournal) : result unit StateErrorCode :=
  match loaded with
  | JournalAbsent => if rj_operation_generation prepared =? 1 then Ok tt else Err Integrity
  | JournalPending loaded =>
      if bool_decide (loaded = prepared) then Ok tt
      else if bool_decide (rj_phase loaded = PhaseComplete)
              && bool_decide (checked_add u64_max (rj_operation_generation loaded) 1 = Some (rj_operation_generation prepared))
      then Ok tt
      else Err Integrity
  | JournalInvalid => Err RecoveryRequired
  end.

(** [FirstPublicationHook]; the observer answers with its error, if any *)
Definition first_publication_hook (observer : option StateErrorCode) (boundary : RecordSaveBoundary)
  : option StateErrorCode :=
  match boundary with AfterPublication => observer | BeforePublication => None end.

(** The reload at the end of [begin] and [advance] *)
Definition confirm_journal (expected : RecoveryJournal) : io unit :=
  let* loaded := journal_load in
  match loaded with
  | JournalPending loaded => if bool_decide (loaded = expected) then ireturn tt else ifail RecoveryRequired
  | _ => ifail RecoveryRequired
  end.

Definition begin_with_observer (prepared : RecoveryJournal) (observer : option StateErrorCode) : io unit :=
  if negb (bool_decide (rj_phase prepared = Prepared)) then ifail InvalidInput else
  let* loaded := journal_load in
  let* _ := lift (admit_begin loaded prepared) in
  let* _ := store_save prepared (first_publication_hook observer) in
  let* _ := store_save prepared no_hook in
  confirm_journal prepared.

Definition journal_begin (prepared : RecoveryJournal) : io unit := begin_with_observer prepared None.

Definition next_operation_generation : io Z :=
  let* loaded := journal_load in
  match loaded with
  | JournalAbsent => ireturn 1
  | JournalPending journal =>
      if bool_decide (rj_phase journal = PhaseComplete)
      then lift (ok_or (checked_add u64_max (rj_operation_generation journal) 1) CapacityExceeded)
      else ifail RecoveryRequired
  | JournalInvalid => ifail RecoveryRequired
  end.

Definition advance (current : RecoveryJournal) (next : RecoveryPhase) : io RecoveryJournal :=
  let* loaded := journal_load in
  let* loaded := lift (match loaded with
                       | JournalPending loaded => Ok loaded
                       | JournalAbsent => Err Integrity
                       | JournalInvalid => Err RecoveryRequired
                       end) in
  if negb (bool_decide (loaded = current)) then ifail Integrity
  else if bool_decide (next = rj_phase current) then ireturn current
  else if negb (bool_decide (next_phase (rj_phase current) = Some next)) then ifail Integrity
  else
    let advanced := with_phase current next in
    let* _ := store_save advanced no_hook in
    let* _ := confirm_journal advanced in
    ireturn advanced.
End store.

(** ** The journal on disk *)

Definition journal_valid (j : RecoveryJournal) : Prop := RecoveryJournal_validate j = Ok tt.

(** What may follow the journal [before] on disk: the next phase of its operation, or
    after its end the beginning of the next operation. *)
Inductive progress : option RecoveryJournal -> option RecoveryJournal -> Prop :=
| progress_first j : rj_phase j = Prepared -> rj_operation_generation j = 1 -> progress None (Some j)
| progress_phase j next : next_phase (rj_phase j) = Some next -> progress (Some j) (Some (with_phase j next))
| progress_next j k : rj_phase j = PhaseComplete -> rj_phase k = Prepared ->
    rj_operation_generation k = rj_operation_generation j + 1 -> progress (Some j) (Some k).

Definition phase_index (phase : RecoveryPhase) : Z :=
  match phase with
  | Prepared => 0
  | SidecarsQuarantined => 1
  | MainReplaced => 2
  | ReopenedVerified => 3
  | SettingsPublished => 4
  | PhaseComplete => 5
  end.

Inductive JournalCommand :=
| JournalBegin (prepared : RecoveryJournal) (observer : option StateErrorCode)
| JournalAdvance (current : RecoveryJournal) (next : RecoveryPhase)
| JournalFaults (fs : list Fault).

(** Journals are built by the constructors and [decode_json], which validate. *)
Definition journal_command_ok (c : JournalCommand) : Prop :=
  match c with
  | JournalBegin prepared _ => journal_valid prepared
  | _ => True
  end.

Lemma RecoveryJournal_new_valid g id backup c before mode target attempt j :
  RecoveryJournal_new g id backup c before mode target attempt = Ok j -> journal_valid j /\ rj_phase j = Prepared.
Proof.
  unfold RecoveryJournal_new. destruct (2 <? attempt); [done|]. intros H. apply rbind_ok in H as ([] & H & [= <-]). done.
Qed.

Lemma with_phase_valid j p : journal_valid j -> journal_valid (with_phase j p).
Proof. done. Qed.

Lemma journal_decode_valid from_slice p j : journal_decode_json from_slice p = Ok j -> journal_valid j.
Proof.
  unfold journal_decode_json, journal_valid. destruct (from_slice p); [|done]. destruct (negb _); [done|].
  destruct (RecoveryJournal_validate _) as [[]|] eqn:E; [|done]. by intros [= <-].
Qed.

Section runs.
Context `{RecordStoreLaws RecoveryJournal journal_valid}.

Definition journal_run (c : JournalCommand) (w : World) : World :=
  match c with
  | JournalBegin prepared observer => (begin_with_observer prepared observer w).2
  | JournalAdvance current next => (advance current next w).2
  | JournalFaults fs => {| slot_a := slot_a w; slot_b := slot_b w; faults := fs |}
  end.

Definition journal_runs (cs : list JournalCommand) (w : World) : World := foldl (fun w c => journal_run c w) w cs.

Lemma journal_load_cases w r w' : journal_load w = (r, w') ->
  same_files w' w /\
  match r with
  | Ok (JournalPending j) => stored w = Some j
  | Ok _ => stored w = None
  | Err _ => True
  end.
Proof.
  unfold journal_load, ibind, stored. destruct (store_load w) as [r1 w1] eqn:E1.
  destruct (store_load_reads _ _ _ E1) as [F1 V1]. destruct r1 as [[s|]|e].
  - intros [= <- <-]. by rewrite (V1 _ eq_refl).
  - destruct (store_artifact w1) as [r2 w2] eqn:E2. pose proof (store_artifact_reads _ _ _ E2) as F2.
    rewrite (V1 _ eq_refl). destruct r2 as [[]|e]; intros [= <- <-]; (split; [by eapply same_files_trans|done]).
  - intros [= <- <-]. done.
Qed.

Lemma confirm_journal_reads j w r w' : confirm_journal j w = (r, w') ->
  same_files w' w /\ (r = Ok tt -> stored w = Some j).
Proof.
  unfold confirm_journal, ibind. destruct (journal_load w) as [r1 w1] eqn:E1.
  destruct (journal_load_cases _ _ _ E1) as [F V]. destruct r1 as [[| |x]|e]; [intros [= <- <-]; done..| |intros [= <- <-]; done].
  case_bool_decide; intros [= <- <-]; [subst|]; done.
Qed.

Lemma admit_begin_progress l prepared w :
  match l with JournalPending j => stored w = Some j | _ => stored w = None end ->
  rj_phase prepared = Prepared -> admit_begin l prepared = Ok tt ->
  stored w = Some prepared \/ progress (stored w) (Some prepared).
Proof.
  intros V Hp Ha. destruct l as [| |j]; simpl in Ha; [|done|].
  - destruct (Z.eqb_spec (rj_operation_generation prepared) 1); [|done]. right. rewrite V. by constructor.
  - case_bool_decide; [subst; by left|]. destruct (_ && _) eqn:E; [|done]. apply andb_true_iff in E as [E1 E2].
    to_prop. apply checked_add_Some in E2 as [E2 _]. right. rewrite V. by apply progress_next.
Qed.

Ltac unchanged := split_and!; [done|by left|done].

Lemma begin_effect prepared observer w :
  journal_valid prepared -> world_ok w ->
  let r := begin_with_observer prepared observer w in
  world_ok r.2 /\ (stored r.2 = stored w \/ progress (stored w) (stored r.2)) /\
  (r.1 = Ok tt -> stored r.2 = Some prepared).
Proof.
  intros Hv Hw. unfold begin_with_observer. case_bool_decide as Hp; simpl; [|unchanged]. unfold ibind.
  destruct (journal_load w) as [r1 w1] eqn:E1. destruct (journal_load_cases _ _ _ E1) as [F1 V1].
  pose proof (same_files_ok _ _ F1 Hw) as Hw1. rewrite <- (stored_same _ _ F1) in V1 |- *. clear E1.
  destruct r1 as [l|e]; [|unchanged]. unfold lift. destruct (admit_begin l prepared) as [[]|e] eqn:Ea; [|unchanged].
  pose proof (admit_begin_progress l prepared w1 V1 Hp Ea) as Hgo. clear Ea V1 F1 Hw.
  destruct (store_save_stored prepared (first_publication_hook observer) w1 Hv Hw1) as (Hw2 & S2 & C2).
  destruct (store_save prepared _ w1) as [[rc|e] w2]; cbn [fst snd] in *.
  2: { split_and!; [done| |done]. destruct S2 as [-> | ->]; [by left|]. destruct Hgo as [-> |?]; auto. }
  pose proof (C2 _ eq_refl) as S2'. clear C2 S2.
  destruct (store_save_stored prepared no_hook w2 Hv Hw2) as (Hw3 & S3 & C3).
  destruct (store_save prepared no_hook w2) as [[rc'|e] w3]; cbn [fst snd] in *;
    (assert (stored w3 = Some prepared) as S3' by (destruct S3; congruence)).
  2: { split_and!; [done| |done]. rewrite S3'. destruct Hgo as [-> |?]; auto. }
  destruct (confirm_journal prepared w3) as [r4 w4] eqn:E4. destruct (confirm_journal_reads _ _ _ _ E4) as [F4 _].
  simpl. rewrite (stored_same _ _ F4), S3'. split_and!; [by eapply same_files_ok| |done]. destruct Hgo as [-> |?]; auto.
Qed.

Lemma advance_effect current next w :
  world_ok w ->
  let r := advance current next w in
  world_ok r.2 /\ (stored r.2 = stored w \/ progress (stored w) (stored r.2)) /\
  (forall j, r.1 = Ok j -> stored r.2 = Some j /\ j = with_phase current next /\ stored w = Some current).
Proof.
  intros Hw. unfold advance, ibind. destruct (journal_load w) as [r1 w1] eqn:E1.
  destruct (journal_load_cases _ _ _ E1) as [F1 V1]. pose proof (same_files_ok _ _ F1 Hw) as Hw1.
  rewrite <- (stored_same _ _ F1) in V1 |- *. clear E1.
  destruct r1 as [[| |l]|e]; simpl; [unchanged..| |unchanged].
  case_bool_decide as El; simpl; [subst l|unchanged].
  case_bool_decide as En; simpl.
  { split_and!; [done|by left|]. intros j [= <-]. subst next. split_and!; [done|by destruct current|done]. }
  case_bool_decide as Es; simpl; [|unchanged].
  assert (journal_valid (with_phase current next)) as Hv by (apply with_phase_valid; by eapply stored_valid).
  destruct (store_save_stored (with_phase current next) no_hook w1 Hv Hw1) as (Hw2 & S2 & C2).
  assert (progress (stored w1) (Some (with_phase current next))) as Hgo by (rewrite V1; by constructor).
  destruct (store_save _ no_hook w1) as [[rc|e] w2]; cbn [fst snd] in *.
  2: { split_and!; [done| |done]. destruct S2 as [-> | ->]; auto. }
  pose proof (C2 _ eq_refl) as S2'.
  destruct (confirm_journal _ w2) as [r4 w4] eqn:E4. destruct (confirm_journal_reads _ _ _ _ E4) as [F4 _].
  destruct r4 as [[]|e]; cbn [fst snd]; rewrite (stored_same _ _ F4), S2'; (split_and!; [by eapply same_files_ok|by right|]); [|done].
  intros j [= <-]. done.
Qed.

Lemma journal_run_step c w : journal_command_ok c -> world_ok w ->
  world_ok (journal_run c w) /\ (stored (journal_run c w) = stored w \/ progress (stored w) (stored (journal_run c w))).
Proof.
  intros Hc Hw. destruct c as [prepared observer|current next|fs]; cbn [journal_run journal_command_ok] in *.
  - by destruct (begin_effect prepared observer w Hc Hw) as (? & ? & _).
  - by destruct (advance_effect current next w Hw) as (? & ? & _).
  - split; [done|]. left. by apply stored_same.
Qed.

Lemma journal_runs_progress cs w : Forall journal_command_ok cs -> world_ok w ->
  world_ok (journal_runs cs w) /\ rtc progress (stored w) (stored (journal_runs cs w)).
Proof.
  intros Hcs. revert w. induction Hcs as [|c cs Hc Hcs IH]; intros w Hw; [done|].
  destruct (journal_run_step c w Hc Hw) as [Hw1 S]. destruct (IH _ Hw1) as [Hw2 S2]. split; [done|].
  cbn [journal_runs foldl]. destruct S as [E|S]; [rewrite <- E; exact S2|]. by eapply rtc_l.
Qed.

(** *** A recovery without faults *)

(** Advancing through several phases *)
Fixpoint advance_all (j : RecoveryJournal) (phases : list RecoveryPhase) : io RecoveryJournal :=
  match phases with
  | [] => ireturn j
  | phase :: phases => let* j := advance j phase in advance_all j phases
  end.

Definition recovery_phases : list RecoveryPhase :=
  [SidecarsQuarantined; MainReplaced; ReopenedVerified; SettingsPublished; PhaseComplete].

(** Nothing goes wrong, and [saves] more saves fit. *)
Definition healthy (saves : Z) (w : World) : Prop :=
  world_ok w /\ faults w = [] /\ is_ok (store_view w) = true /\ next_of (store_view w) + saves <= u64_max + 1.

Lemma healthy_save v hook n w : (forall b, hook b = None) -> journal_valid v -> store_fits v -> 0 < n -> healthy n w ->
  exists receipt w', store_save v hook w = (Ok receipt, w') /\ healthy (n - 1) w' /\ stored w' = Some v.
Proof.
  intros Hh Hv Hf Hn (Hw & He & Hok & Hg).
  destruct (store_save_clean v hook w Hh Hv Hf Hw He Hok) as (rc & w' & E & Hw' & He' & Hs & Hok' & Hg'); [lia|].
  exists rc, w'. split_and!; try done. unfold healthy. split_and!; [done..|lia].
Qed.

Lemma healthy_load n w j : healthy n w -> stored w = Some j -> journal_load w = (Ok (JournalPending j), w).
Proof.
  intros (_ & He & _) Hs. unfold journal_load, ibind. rewrite load_clean by done. unfold stored in Hs.
  destruct (store_view w) as [[s|]|]; [|done..]. by injection Hs as <-.
Qed.

Lemma healthy_confirm n w j : healthy n w -> stored w = Some j -> confirm_journal j w = (Ok tt, w).
Proof.
  intros Hh Hs. unfold confirm_journal, ibind. rewrite (healthy_load _ _ _ Hh Hs). by rewrite bool_decide_true.
Qed.

Lemma healthy_advance j next n w :
  next_phase (rj_phase j) = Some next -> store_fits (with_phase j next) -> 0 < n -> healthy n w -> stored w = Some j ->
  exists w', advance j next w = (Ok (with_phase j next), w') /\ healthy (n - 1) w' /\ stored w' = Some (with_phase j next).
Proof.
  intros Hnext Hf Hn Hh Hs. unfold advance, ibind. rewrite (healthy_load _ _ _ Hh Hs). cbn [lift].
  rewrite (bool_decide_true (j = j)), bool_decide_false, (bool_decide_true (_ = Some next)) by (done || by destruct j as [? ? ? ? ? ? ? ? ? []]; simpl in *; congruence).
  cbn [negb]. destruct (healthy_save (with_phase j next) no_hook n w) as (rc & w' & -> & Hh' & Hs');
    [done|apply with_phase_valid; by eapply stored_valid|done..|].
  rewrite (healthy_confirm _ _ _ Hh' Hs'). eauto.
Qed.

Lemma healthy_begin prepared l w :
  journal_valid prepared -> rj_phase prepared = Prepared -> store_fits prepared -> healthy 7 w ->
  (journal_load w).1 = Ok l -> admit_begin l prepared = Ok tt ->
  exists w', journal_begin prepared w = (Ok tt, w') /\ healthy 5 w' /\ stored w' = Some prepared.
Proof.
  intros Hv Hp Hf Hh Hl Ha. unfold journal_begin, begin_with_observer. rewrite bool_decide_true by done. cbn [negb].
  assert (journal_load w = (Ok l, w)) as El.
  { destruct Hh as (_ & He & _). unfold journal_load, ibind in *. rewrite load_clean in * by done.
    destruct (store_view w) as [[s|]|]; [by injection Hl as <-| |done].
    destruct (artifact_clean w He) as [b Eb]. rewrite Eb in *. by injection Hl as <-. }
  unfold ibind. rewrite El. unfold lift. rewrite Ha.
  destruct (healthy_save prepared (first_publication_hook None) 7 w) as (rc1 & w1 & -> & Hh1 & _); [by intros []|done..|].
  destruct (healthy_save prepared no_hook 6 w1) as (rc2 & w2 & -> & Hh2 & Hs2); [done..|].
  rewrite (healthy_confirm _ _ _ Hh2 Hs2). eauto.
Qed.

Fixpoint phase_chain (from : RecoveryPhase) (phases : list RecoveryPhase) (last : RecoveryPhase) : Prop :=
  match phases with
  | [] => from = last
  | phase :: phases => next_phase from = Some phase /\ phase_chain phase phases last
  end.

Lemma healthy_advances j phases last n w :
  (forall p, store_fits (with_phase j p)) -> Z.of_nat (length phases) <= n -> healthy n w -> stored w = Some j ->
  phase_chain (rj_phase j) phases last ->
  exists w', advance_all j phases w = (Ok (with_phase j last), w') /\ stored w' = Some (with_phase j last).
Proof.
  revert j n w. induction phases as [|p ps IH]; intros j n w Hf Hn Hh Hs Hc.
  - cbn [phase_chain] in Hc. rewrite <- Hc. exists w. by destruct j.
  - destruct Hc as [Hnext Hc]. cbn [length] in Hn.
    destruct (healthy_advance j p n w) as (w1 & E1 & Hh1 & Hs1); [done|done|lia|done|done|].
    destruct (IH (with_phase j p) (n - 1) w1) as (w2 & E2 & Hs2); [done|lia|done|done|exact Hc|].
    exists w2. cbn [advance_all]. unfold ibind. by rewrite E1.
Qed.

(** *** Order *)

Definition later (a b : RecoveryJournal) : Prop :=
  rj_operation_generation a < rj_operation_generation b \/
  (b = with_phase a (rj_phase b) /\ phase_index (rj_phase a) <= phase_index (rj_phase b)).

Lemma later_step a y : progress (Some a) y -> exists b, y = Some b /\ later a b.
Proof.
  inversion 1; subst; eexists; (split; [done|]); unfold later; [|left; lia].
  right. split; [done|]. simpl. destruct (rj_phase a); simplify_eq/=; lia.
Qed.

Lemma later_trans a b c : later a b -> later b c -> later a c.
Proof.
  intros [H1|[E1 H1]] [H2|[E2 H2]].
  - left. lia.
  - left. rewrite E2. exact H1.
  - left. rewrite E1 in H2. exact H2.
  - right. split; [|lia]. rewrite E2, E1. done.
Qed.

Lemma rtc_later x y : rtc progress x y -> forall a, x = Some a -> exists b, y = Some b /\ later a b.
Proof.
  induction 1 as [x|x y z Hxy _ IH]; intros a ->.
  - exists a. split; [done|]. right. split; [by destruct a|lia].
  - apply later_step in Hxy as (b & -> & Hab). destruct (IH b eq_refl) as (c & -> & Hbc). exists c. split; [done|].
    by eapply later_trans.
Qed.
End runs.

(** ** The store over the redundant record *)

Section concrete.
Context (sha256 : list Z -> list Z) {sha256_length : forall m, length (sha256 m) = 32%nat}.
Context {sha256_bytes : forall m, Forall byte_ok (sha256 m)}.
(** [serde_json]: the derived serialization is read back. *)
Context (to_json : RecoveryJournal -> option (list Z)) (from_slice : list Z -> option RecoveryJournal).
Context {json_roundtrip : forall j b, to_json j = Some b -> from_slice b = Some j /\ Forall byte_ok b}.

(** [RecoveryJournalStore::new] *)
Definition journal_store : RecordStore RecoveryJournal :=
  redundant_store sha256 to_json (journal_decode_json from_slice) MAX_RECORD_PAYLOAD_BYTES.
#[local] Existing Instance journal_store.

Lemma journal_storable j : journal_valid j -> json_storable to_json (journal_decode_json from_slice) j.
Proof using json_roundtrip.
  intros Hv b Hb. destruct (json_roundtrip j b Hb) as [Hj Hok]. split; [|done].
  unfold journal_decode_json. rewrite Hj. unfold journal_valid in Hv. rewrite Hv.
  unfold RecoveryJournal_validate in Hv. destruct (rj_schema_version j =? 1); [done|]. discriminate Hv.
Qed.

#[local] Instance journal_store_laws : RecordStoreLaws RecoveryJournal journal_valid.
Proof using sha256_length sha256_bytes json_roundtrip.
  apply redundant_store_laws; [done..|apply journal_storable|apply journal_decode_valid].
Qed.

(** C21. Over any sequence of begin and advance calls, whatever faults strike them, the
    journal on disk only ever changes to the next phase of its own operation, or, once
    that is complete, to the beginning of the operation with the next generation number:
    a begun operation is never lost, replaced half way, skipped ahead or taken back. *)
Theorem journal_history cs w :
  Forall journal_command_ok cs -> world_ok w ->
  rtc progress (stored w) (stored (journal_runs cs w)) /\
  forall a, stored w = Some a -> exists b, stored (journal_runs cs w) = Some b /\ later a b.
Proof using sha256_length sha256_bytes json_roundtrip.
  intros Hcs Hw. destruct (journal_runs_progress cs w Hcs Hw) as [_ Hr]. split; [done|]. by apply rtc_later.
Qed.

(** C22. Without faults a recovery reaches its end: when an operation may begin, begin and
    the five advances in the order of the phases all succeed and the journal on disk is
    the completed operation. *)
Theorem recovery_completes prepared l w :
  journal_valid prepared -> rj_phase prepared = Prepared ->
  (forall p, json_fits to_json MAX_RECORD_PAYLOAD_BYTES (with_phase prepared p)) ->
  healthy 7 w -> (journal_load w).1 = Ok l -> admit_begin l prepared = Ok tt ->
  exists w', (let* _ := journal_begin prepared in advance_all prepared recovery_phases) w
      = (Ok (with_phase prepared PhaseComplete), w') /\
    stored w' = Some (with_phase prepared PhaseComplete).
Proof using sha256_length sha256_bytes json_roundtrip.
  intros Hv Hp Hf Hh Hl Ha.
  assert (store_fits prepared) as Hfp by (destruct prepared; simpl in Hp; subst; apply (Hf Prepared)).
  destruct (healthy_begin prepared l w Hv Hp Hfp Hh Hl Ha) as (w1 & E1 & Hh1 & Hs1).
  destruct (healthy_advances prepared recovery_phases PhaseComplete 5 w1) as (w2 & E2 & Hs2);
    [exact Hf|done|done|done|by rewrite Hp|].
  exists w2. unfold ibind. by rewrite E1.
Qed.

Lemma same_payload_value w w' s s' :
  store_view w = Ok (Some s) -> store_view w' = Ok (Some s') ->
  dr_payload_sha256 (sr_record s') = dr_payload_sha256 (sr_record s) ->
  dr_value (sr_record s') = dr_value (sr_record s) \/ exists p q, collision sha256 p q.
Proof.
  intros Hs Hs' E. apply view_decoded in Hs as (p & Hp & Dp), Hs' as (q & Hq & Dq).
  destruct (decide (p = q)) as [-> |Hn]; [left; congruence|]. right. exists p, q. split; [done|congruence].
Qed.

(** C23. Begin writes the operation to both files before it answers: if afterwards either
    file is lost or damaged, the operation is still what is loaded (or two different
    payloads have the same digest). *)
Theorem journal_begin_redundant prepared observer w w1 w' :
  journal_valid prepared -> world_ok w -> begin_with_observer prepared observer w = (Ok tt, w1) ->
  damaged sha256 (journal_decode_json from_slice) MAX_RECORD_PAYLOAD_BYTES w1 w' ->
  stored w' = Some prepared \/ exists p q, collision sha256 p q.
Proof using sha256_length sha256_bytes json_roundtrip.
  intros Hv Hw Hb Hd. unfold begin_with_observer in Hb. case_bool_decide; [|done]. cbn [negb] in Hb.
  apply ibind_ok in Hb as (l & v1 & El & Hb). destruct (journal_load_cases _ _ _ El) as [F1 _].
  apply ibind_ok in Hb as ([] & v2 & E2 & Hb). injection E2 as _ <-.
  apply ibind_ok in Hb as (rc1 & v3 & E3 & Hb). apply ibind_ok in Hb as (rc2 & v4 & E4 & Hb).
  destruct (confirm_journal_reads _ _ _ _ Hb) as [F4 _]. pose proof (same_files_ok _ _ F1 Hw) as Hw1.
  pose proof (save_ok prepared (first_publication_hook observer) v1 Hv Hw1) as Hw3.
  destruct (save_confirmed prepared (first_publication_hook observer) v1 rc1 Hv Hw1) as (old & Hold & Eold & _); [by rewrite E3|].
  rewrite E3 in Hw3, Hold. simpl fst in *. simpl snd in *.
  destruct (save_survives_damage sha256 (sha256_length := sha256_length) to_json (journal_decode_json from_slice)
    MAX_RECORD_PAYLOAD_BYTES (max_ok := Z.le_refl _) prepared no_hook true v3 old rc2 w') as (s & Hs & Hcase).
  - by apply journal_storable.
  - done.
  - exact Hold.
  - change (save_with_policy _ _ _ _ _ _ _ v3) with (store_save prepared no_hook v3). by rewrite E4.
  - change (save_with_policy _ _ _ _ _ _ _ v3) with (store_save prepared no_hook v3). rewrite E4. simpl snd.
    destruct F4 as [Fa Fb]. unfold damaged in *. by rewrite <- Fa, <- Fb.
  - change (store_view w' = Ok (Some s)) in Hs. unfold stored. rewrite Hs. destruct Hcase as [-> |[_ Hdig]]; [by left|].
    destruct (same_payload_value _ _ _ _ Hold Hs Hdig) as [Ev|?]; [|by right]. left. congruence.
Qed.
End concrete.

(** ** The claims at a concrete operation *)

Definition sample_digest : list Z := repeat 7 32.

Definition sample_journal : RecoveryJournal :=
  {| rj_schema_version := 1; rj_operation_generation := 1; rj_operation_id := repeat 9 16;
     rj_backup := Some {| bi_backup_slot := 3; bi_package_len := 4096; bi_package_sha256 := sample_digest |};
     rj_candidate := {| ci_schema_version := 17; ci_len := 8192; ci_sha256 := sample_digest |};
     rj_before := {| af_main := Some {| ff_len := 512; ff_sha256 := sample_digest |}; af_wal := None; af_shm := None |};
     rj_settings_mode := DataAndPortableSettings;
     rj_settings_target := Some {| st_generation := 2; st_digest := sample_digest |};
     rj_attempt := 1; rj_phase := Prepared |}.

(** The sample in each of its phases, with the phase as its text *)
Definition phase_of (i : Z) : option RecoveryPhase :=
  find (fun p => phase_index p =? i)
    [Prepared; SidecarsQuarantined; MainReplaced; ReopenedVerified; SettingsPublished; PhaseComplete].

Definition sample_to_json (j : RecoveryJournal) : option (list Z) :=
  if bool_decide (j = with_phase sample_journal (rj_phase j)) then Some [phase_index (rj_phase j)] else None.

Definition sample_from_slice (b : list Z) : option RecoveryJournal :=
  match b with [i] => with_phase sample_journal <$> phase_of i | _ => None end.

Lemma sample_json_roundtrip j b : sample_to_json j = Some b -> sample_from_slice b = Some j /\ Forall byte_ok b.
Proof.
  unfold sample_to_json. case_bool_decide as E; [|done]. intros [= <-].
  split; [rewrite E at 2; by destruct (rj_phase j)|]. constructor; [|done]. unfold byte_ok. destruct (rj_phase j); simpl; lia.
Qed.

Definition empty_world : World := {| slot_a := None; slot_b := None; faults := [] |}.

#[local] Instance sample_store : RecordStore RecoveryJournal := journal_store toy_sha256 sample_to_json sample_from_slice.

(** The first advance publishes the new phase and then fails; the second call repeats it. *)
Definition sample_commands : list JournalCommand :=
  [JournalBegin sample_journal None;
   JournalFaults [NoFault; NoFault; NoFault; NoFault; NoFault; FaultAfter DurUnavailable];
   JournalAdvance sample_journal SidecarsQuarantined;
   JournalFaults [];
   JournalAdvance sample_journal SidecarsQuarantined;
   JournalAdvance (with_phase sample_journal SidecarsQuarantined) MainReplaced].

Lemma journal_history_witness :
  rtc progress None (stored (journal_runs sample_commands empty_world)) /\
  stored (journal_runs sample_commands empty_world) = Some (with_phase sample_journal MainReplaced).
Proof.
  split; [|vm_compute; reflexivity].
  apply (@journal_history toy_sha256 toy_sha256_length toy_sha256_bytes sample_to_json sample_from_slice sample_json_roundtrip
    sample_commands empty_world).
  - repeat constructor.
  - done.
Defined.

Lemma recovery_completes_witness :
  exists w', (let* _ := journal_begin sample_journal in advance_all sample_journal recovery_phases) empty_world
      = (Ok (with_phase sample_journal PhaseComplete), w') /\
    stored w' = Some (with_phase sample_journal PhaseComplete).
Proof.
  apply (@recovery_completes toy_sha256 toy_sha256_length toy_sha256_bytes sample_to_json sample_from_slice sample_json_roundtrip
    sample_journal JournalAbsent empty_world).
  - vm_compute. reflexivity.
  - reflexivity.
  - intros p. exists [phase_index p]. split; [by destruct p|vm_compute; by destruct p].
  - split_and!; [done|done|reflexivity|vm_compute; discriminate].
  - vm_compute. reflexivity.
  - vm_compute. reflexivity.
Defined.

Definition begun_world : World := (begin_with_observer sample_journal None empty_world).2.

Lemma journal_begin_redundant_witness :
  stored {| slot_a := None; slot_b := slot_b begun_world; faults := [] |} = Some sample_journal \/
  exists p q, collision toy_sha256 p q.
Proof.
  apply (@journal_begin_redundant toy_sha256 toy_sha256_length toy_sha256_bytes sample_to_json sample_from_slice sample_json_roundtrip
    sample_journal None empty_world begun_world).
  - vm_compute. reflexivity.
  - done.
  - vm_compute. reflexivity.
  - left. split; [reflexivity|]. exists SlotMissing. split; [reflexivity|by left].
Defined.
