(* ===== verification/RunState.v ===== *)
(** * The run state

    Models [crates/state/src/run_state.rs]: the record that says whether the last run
    ended cleanly, how often a recovered archive was launched, and which migration is
    still owed.  A run begins by storing an unclean value; a session changes it only
    while it is still the record the session wrote; marking the session clean ends it.
    The store is used through the interface of [Records].

    A run of the program is a list of commands on a [Machine]: the files, and every
    session that was begun and not dropped.  The commands include restarts and arbitrary
    faults of the files.  The claims hold for all of these runs. *)

From S2P Require Import Prelude StateErrors Records Journal.

Open Scope Z_scope.
Open Scope io_scope.

Definition LEGACY_RUN_STATE_SCHEMA_VERSION : Z := 1.
Definition RUN_STATE_SCHEMA_VERSION : Z := 2.
Definition MAX_RECOVERY_LAUNCHES : Z := 2.

Inductive RunPhase := PhaseClean | PhaseUnclean.
#[export] Instance RunPhase_eq_dec : EqDecision RunPhase.
Proof. solve_decision. Defined.

Record RecoveryLaunchState := {
  ls_operation_generation : Z;
  ls_candidate : RecoveryCandidateIdentity;
  ls_launches : Z
}.
#[export] Instance RecoveryLaunchState_eq_dec : EqDecision RecoveryLaunchState.
Proof. solve_decision. Defined.

Record PendingMigration := { pm_from : Z; pm_to : Z }.
#[export] Instance PendingMigration_eq_dec : EqDecision PendingMigration.
Proof. solve_decision. Defined.

Definition PendingMigration_validate (m : PendingMigration) : result unit StateErrorCode :=
  fail_if (pm_from m =? 0) || (pm_to m =? 0) || (pm_to m <=? pm_from m) with InvalidInput else Ok tt.

Definition PendingMigration_new (from_schema_version to_schema_version : Z) : result PendingMigration StateErrorCode :=
  let value := {| pm_from := from_schema_version; pm_to := to_schema_version |} in
  let? _ := PendingMigration_validate value in
  Ok value.

Definition RecoveryLaunchState_validate (r : RecoveryLaunchState) : result unit StateErrorCode :=
  let? _ := RecoveryCandidateIdentity_from_persisted (ci_schema_version (ls_candidate r)) (ci_len (ls_candidate r))
              (ci_sha256 (ls_candidate r)) in
  fail_if (ls_operation_generation r =? 0) || negb ((1 <=? ls_launches r) && (ls_launches r <=? MAX_RECOVERY_LAUNCHES))
    with InvalidInput else Ok tt.

Record RunStateValue := {
  rv_schema_version : Z;
  rv_phase : RunPhase;
  rv_last_recovery_generation : option Z;
  rv_recovery : option RecoveryLaunchState;
  rv_pending_migration : option PendingMigration
}.
#[export] Instance RunStateValue_eq_dec : EqDecision RunStateValue.
Proof. solve_decision. Defined.

Definition unclean (last_recovery_generation : option Z) (recovery : option RecoveryLaunchState)
    (pending_migration : option PendingMigration) : RunStateValue :=
  {| rv_schema_version := RUN_STATE_SCHEMA_VERSION; rv_phase := PhaseUnclean;
     rv_last_recovery_generation := last_recovery_generation; rv_recovery := recovery;
     rv_pending_migration := pending_migration |}.

Definition clean (last_recovery_generation : option Z) : RunStateValue :=
  {| rv_schema_version := RUN_STATE_SCHEMA_VERSION; rv_phase := PhaseClean;
     rv_last_recovery_generation := last_recovery_generation; rv_recovery := None; rv_pending_migration := None |}.

Definition supported_version (v : Z) : bool := (v =? LEGACY_RUN_STATE_SCHEMA_VERSION) || (v =? RUN_STATE_SCHEMA_VERSION).

Definition RunStateValue_validate (v : RunStateValue) : result unit StateErrorCode :=
  fail_if negb (supported_version (rv_schema_version v))
          || ((rv_schema_version v =? LEGACY_RUN_STATE_SCHEMA_VERSION) && is_some (rv_pending_migration v))
          || (bool_decide (rv_phase v = PhaseClean) && is_some (rv_recovery v))
          || (bool_decide (rv_phase v = PhaseClean) && is_some (rv_pending_migration v))
          || bool_decide (rv_last_recovery_generation v = Some 0) with InvalidInput else
  let? _ :=
    match rv_recovery v with
    | Some recovery =>
        let? _ := RecoveryLaunchState_validate recovery in
        fail_if is_some_and (rv_last_recovery_generation v) (fun generation => ls_operation_generation recovery <=? generation)
          with InvalidInput else Ok tt
    | None => Ok tt
    end in
  match rv_pending_migration v with
  | Some pending_migration => PendingMigration_validate pending_migration
  | None => Ok tt
  end.

(** [RecordValue::decode_json]; [from_slice] is [serde_json::from_slice] *)
Definition run_state_decode_json (from_slice : list Z -> option RunStateValue) (bytes : list Z)
  : result RunStateValue RecordValueError :=
  match from_slice bytes with
  | None => Err ValueInvalid
  | Some value =>
      if negb (supported_version (rv_schema_version value)) then Err ValueUnsupportedVersion
      else match RunStateValue_validate value with Ok _ => Ok value | Err _ => Err ValueInvalid end
  end.

Inductive PriorRunCondition := PriorClean | PriorUnclean | PriorMissing | PriorInvalid.
#[export] Instance PriorRunCondition_eq_dec : EqDecision PriorRunCondition.
Proof. solve_decision. Defined.

Record RunStateInspection := {
  in_condition : PriorRunCondition;
  in_recovery_launches : option Z;
  in_last_recovery_generation : option Z;
  in_pending_migration : option PendingMigration
}.

Definition requires_quick_check (i : RunStateInspection) : bool :=
  match in_condition i with PriorClean => false | _ => true end.

Inductive RecoveryLaunchDecision :=
| NotTracked
| AlreadyAccepted (operation_generation : Z)
| Start (launch : Z)
| SafeMode (failed_launches : Z).

Record LoadedRunState := {
  lr_inspection : RunStateInspection;
  lr_generation : option Z;
  lr_payload_sha256 : option (list Z);
  lr_value : option RunStateValue
}.

(** [store] and [clone] have no fields here: every session uses the files of the machine. *)
Record RunSession := {
  rs_prior : RunStateInspection;
  rs_generation : Z;
  rs_payload_sha256 : list Z;
  rs_recovery : option RecoveryLaunchState;
  rs_last_recovery_generation : option Z;
  rs_pending_migration : option PendingMigration;
  rs_launch_authorized : bool
}.

Definition set_authorized (b : bool) (s : RunSession) : RunSession :=
  {| rs_prior := rs_prior s; rs_generation := rs_generation s; rs_payload_sha256 := rs_payload_sha256 s;
     rs_recovery := rs_recovery s; rs_last_recovery_generation := rs_last_recovery_generation s;
     rs_pending_migration := rs_pending_migration s; rs_launch_authorized := b |}.

Definition authorize_healthy_launch (s : RunSession) : RunSession := set_authorized true s.

(** The generation [mark_clean] records as accepted *)
Definition accepted_generation (recovery : option RecoveryLaunchState) (last : option Z) : option Z :=
  match recovery with Some recovery => Some (ls_operation_generation recovery) | None => last end.

(** ** Methods on [&mut self] *)

Definition session_op (A : Type) : Type := RunSession -> World -> result A StateErrorCode * RunSession * World.

Definition sreturn {A} (a : A) : session_op A := fun s w => (Ok a, s, w).
Definition sfail {A} (e : StateErrorCode) : session_op A := fun s w => (Err e, s, w).
Definition slift {A} (r : result A StateErrorCode) : session_op A := fun s w => (r, s, w).
Definition modify (f : RunSession -> RunSession) : session_op unit := fun s w => (Ok tt, f s, w).
Definition sbind {A B} (m : session_op A) (k : A -> session_op B) : session_op B := fun s w =>
  match m s w with (Ok a, s, w) => k a s w | (Err e, s, w) => (Err e, s, w) end.

Notation "'let^' x := m 'in' k" := (sbind m (fun x => k))
  (at level 10, x name, m at level 200, k at level 200) : io_scope.

Section store.
Context `{!RecordStore RunStateValue}.

Definition run_load : io LoadedRunState :=
  let* record := store_load in
  match record with
  | Some record =>
      let value := dr_value (sr_record record) in
      let condition :=
        if bool_decide (sr_redundancy record = Fallback) then PriorInvalid
        else match rv_phase value with PhaseClean => PriorClean | PhaseUnclean => PriorUnclean end in
      ireturn
        {| lr_inspection :=
             {| in_condition := condition; in_recovery_launches := ls_launches <$> rv_recovery value;
                in_last_recovery_generation := rv_last_recovery_generation value;
                in_pending_migration := rv_pending_migration value |};
           lr_generation := Some (dr_generation (sr_record record));
           lr_payload_sha256 := Some (dr_payload_sha256 (sr_record record));
           lr_value := Some value |}
  | None =>
      let* artifact := store_artifact in
      ireturn
        {| lr_inspection :=
             {| in_condition := if artifact : bool then PriorInvalid else PriorMissing; in_recovery_launches := None;
                in_last_recovery_generation := None; in_pending_migration := None |};
           lr_generation := None; lr_payload_sha256 := None; lr_value := None |}
  end.

Definition inspect : io RunStateInspection := let* loaded := run_load in ireturn (lr_inspection loaded).

(** The recovery that [begin] carries over *)
Definition carried_recovery (value : option RunStateValue) : option RecoveryLaunchState :=
  match value with
  | Some value => if bool_decide (rv_phase value = PhaseUnclean) then rv_recovery value else None
  | None => None
  end.

Definition begin : io RunSession :=
  let* prior := run_load in
  let last_recovery_generation := value ← lr_value prior; rv_last_recovery_generation value in
  let recovery := carried_recovery (lr_value prior) in
  let pending_migration := value ← lr_value prior; rv_pending_migration value in
  let* receipt := store_save (unclean last_recovery_generation recovery pending_migration) no_hook in
  ireturn
    {| rs_prior := lr_inspection prior; rs_generation := rr_generation receipt;
       rs_payload_sha256 := rr_payload_sha256 receipt; rs_recovery := recovery;
       rs_last_recovery_generation := last_recovery_generation; rs_pending_migration := pending_migration;
       rs_launch_authorized := false |}.

Definition run_publish (value : RunStateValue) : session_op unit := fun s w =>
  match run_load w with
  | (Err e, w) => (Err e, s, w)
  | (Ok current, w) =>
      if negb (bool_decide (lr_generation current = Some (rs_generation s)))
         || negb (bool_decide (lr_payload_sha256 current = Some (rs_payload_sha256 s)))
         || negb (bool_decide (rv_phase <$> lr_value current = Some PhaseUnclean))
      then (Err Integrity, s, w)
      else
        match store_save value no_hook w with
        | (Err e, w) => (Err e, s, w)
        | (Ok receipt, w) =>
            (Ok tt, {| rs_prior := rs_prior s; rs_generation := rr_generation receipt;
                       rs_payload_sha256 := rr_payload_sha256 receipt; rs_recovery := rv_recovery value;
                       rs_last_recovery_generation := rv_last_recovery_generation value;
                       rs_pending_migration := rv_pending_migration value;
                       rs_launch_authorized := rs_launch_authorized s |}, w)
        end
  end.

Definition require_post_migration (from_schema_version to_schema_version : Z) : session_op PendingMigration := fun s =>
  (let^ pending := slift (PendingMigration_new from_schema_version to_schema_version) in
   if is_some_and (rs_pending_migration s) (fun current => negb (bool_decide (current = pending))) then sfail Integrity
   else
     let^ _ := (if is_some (rs_pending_migration s) then sreturn tt
                else run_publish (unclean (rs_last_recovery_generation s) (rs_recovery s) (Some pending))) in
     sreturn pending) s.

Definition complete_post_migration (pending : PendingMigration) : session_op unit := fun s =>
  (if negb (bool_decide (rs_pending_migration s = Some pending)) then sfail Integrity
   else run_publish (unclean (rs_last_recovery_generation s) (rs_recovery s) None)) s.

Definition start_candidate (recovery : RecoveryLaunchState) (completed_launches : Z)
  : session_op RecoveryLaunchDecision := fun s =>
  (if MAX_RECOVERY_LAUNCHES <=? completed_launches then sreturn (SafeMode completed_launches)
   else
     let^ launch := slift (ok_or (checked_add u8_max completed_launches 1) CapacityExceeded) in
     let recovery := {| ls_operation_generation := ls_operation_generation recovery;
                        ls_candidate := ls_candidate recovery; ls_launches := launch |} in
     let^ _ := run_publish (unclean (rs_last_recovery_generation s) (Some recovery) (rs_pending_migration s)) in
     let^ _ := modify (set_authorized true) in
     sreturn (Start launch)) s.

(** [start_recovered_candidate] after its two checks against the session's recovery *)
Definition start_new_candidate (operation_generation : Z) (candidate : RecoveryCandidateIdentity)
  : session_op RecoveryLaunchDecision := fun s =>
  (let start := start_candidate {| ls_operation_generation := operation_generation; ls_candidate := candidate;
                                   ls_launches := 1 |} 0 in
   match rs_last_recovery_generation s with
   | Some accepted =>
       if operation_generation <? accepted then sfail Integrity
       else if operation_generation =? accepted then
         let^ _ := modify (set_authorized true) in
         sreturn (AlreadyAccepted operation_generation)
       else start
   | None => start
   end) s.

Definition start_recovered_candidate (operation_generation : Z) (candidate : RecoveryCandidateIdentity)
  : session_op RecoveryLaunchDecision := fun s =>
  (if operation_generation =? 0 then sfail InvalidInput
   else
     match rs_recovery s with
     | Some recovery =>
         if ls_operation_generation recovery =? operation_generation then
           if negb (bool_decide (ls_candidate recovery = candidate)) then sfail Integrity
           else start_candidate recovery (ls_launches recovery)
         else if operation_generation <? ls_operation_generation recovery then sfail Integrity
         else start_new_candidate operation_generation candidate
     | None => start_new_candidate operation_generation candidate
     end) s.

Definition continue_recovered_candidate : session_op RecoveryLaunchDecision := fun s =>
  (match rs_recovery s with
   | None => sreturn NotTracked
   | Some recovery => start_candidate recovery (ls_launches recovery)
   end) s.

Definition mark_clean : session_op unit := fun s =>
  (if negb (rs_launch_authorized s) || is_some (rs_pending_migration s) then sfail InvalidInput
   else
     let accepted := accepted_generation (rs_recovery s) (rs_last_recovery_generation s) in
     let^ _ := run_publish (clean accepted) in
     modify (set_authorized false)) s.
End store.

(** ** Runs of the program *)

Inductive RunCommand :=
| RunBegin
| RunAuthorize (i : nat)
| RunRequire (i : nat) (from_schema_version to_schema_version : Z)
| RunComplete (i : nat) (pending : PendingMigration)
| RunStart (i : nat) (operation_generation : Z) (candidate : RecoveryCandidateIdentity)
| RunContinue (i : nat)
| RunClean (i : nat)
| RunRestart
| RunFaults (fs : list Fault).

(** Candidates are built by [RecoveryCandidateIdentity::from_persisted]. *)
Definition run_command_ok (c : RunCommand) : Prop :=
  match c with
  | RunStart _ generation candidate => in_u64 generation /\ RecoveryCandidateIdentity_validate candidate = Ok tt
  | _ => True
  end.

Inductive RunReply :=
| Began (r : result unit StateErrorCode)
| Required (r : result PendingMigration StateErrorCode)
| Completed (r : result unit StateErrorCode)
| Decided (operation_generation : Z) (r : result RecoveryLaunchDecision StateErrorCode)
| Cleaned (r : result unit StateErrorCode)
| Silent.

Record Machine := { m_world : World; m_sessions : list RunSession }.

(** The recovery a session would continue *)
Definition tracked_generation (s : RunSession) : Z :=
  match rs_recovery s with Some recovery => ls_operation_generation recovery | None => 0 end.

Section machine.
Context `{!RecordStore RunStateValue}.

Definition on_session {A} (m : Machine) (i : nat) (op : session_op A)
    (reply : RunSession -> result A StateErrorCode -> RunReply) : RunReply * Machine :=
  match m_sessions m !! i with
  | None => (Silent, m)
  | Some s =>
      let '(r, s', w) := op s (m_world m) in
      (reply s r, {| m_world := w; m_sessions := <[i := s']> (m_sessions m) |})
  end.

Definition run_exec (c : RunCommand) (m : Machine) : RunReply * Machine :=
  match c with
  | RunBegin =>
      match begin (m_world m) with
      | (Ok s, w) => (Began (Ok tt), {| m_world := w; m_sessions := m_sessions m ++ [s] |})
      | (Err e, w) => (Began (Err e), {| m_world := w; m_sessions := m_sessions m |})
      end
  | RunAuthorize i => on_session m i (modify authorize_healthy_launch) (fun _ _ => Silent)
  | RunRequire i from_ to_ => on_session m i (require_post_migration from_ to_) (fun _ r => Required r)
  | RunComplete i pending => on_session m i (complete_post_migration pending) (fun _ r => Completed r)
  | RunStart i generation candidate =>
      on_session m i (start_recovered_candidate generation candidate) (fun _ r => Decided generation r)
  | RunContinue i => on_session m i continue_recovered_candidate (fun s r => Decided (tracked_generation s) r)
  | RunClean i => on_session m i mark_clean (fun _ r => Cleaned r)
  | RunRestart => (Silent, {| m_world := m_world m; m_sessions := [] |})
  | RunFaults fs =>
      (Silent, {| m_world := {| slot_a := slot_a (m_world m); slot_b := slot_b (m_world m); faults := fs |};
                  m_sessions := m_sessions m |})
  end.

Fixpoint run_all (cs : list RunCommand) (m : Machine) : list RunReply * Machine :=
  match cs with
  | [] => ([], m)
  | c :: cs =>
      let '(reply, m) := run_exec c m in
      let '(replies, m) := run_all cs m in
      (reply :: replies, m)
  end.
End machine.

(** ** The abstract run state: one value *)

Definition run_valid (v : RunStateValue) : Prop := RunStateValue_validate v = Ok tt.

Definition prior_last (v : option RunStateValue) : option Z := value ← v; rv_last_recovery_generation value.
Definition prior_pending (v : option RunStateValue) : option PendingMigration := value ← v; rv_pending_migration value.

(** How far recoveries have got: the generation, and its launches so far; an accepted
    recovery counts as launched twice. *)
Definition rank (v : option RunStateValue) : Z :=
  match v with
  | None => 0
  | Some v =>
      match rv_recovery v, rv_last_recovery_generation v with
      | Some recovery, _ => 3 * ls_operation_generation recovery + ls_launches recovery
      | None, Some generation => 3 * generation + 2
      | None, None => 0
      end
  end.

(** [p] is the migration between the two schema versions, which go up. *)
Definition migration_between (from_ to_ : Z) (p : PendingMigration) : Prop :=
  pm_from p = from_ /\ pm_to p = to_ /\ from_ <> 0 /\ to_ <> 0 /\ from_ < to_.

(** [launch] is the first launch of a newer recovery, or the next one of the recovery
    that is under way. *)
Definition next_launch (old : RunStateValue) (launch : RecoveryLaunchState) : Prop :=
  match rv_recovery old with
  | Some recovery =>
      (ls_operation_generation recovery < ls_operation_generation launch /\ ls_launches launch = 1) \/
      (ls_operation_generation launch = ls_operation_generation recovery /\
       ls_candidate launch = ls_candidate recovery /\ ls_launches launch = ls_launches recovery + 1)
  | None => ls_launches launch = 1
  end /\
  (forall accepted, rv_last_recovery_generation old = Some accepted -> accepted < ls_operation_generation launch) /\
  ls_launches launch <= MAX_RECOVERY_LAUNCHES.

(** The changes a command may make to the stored value *)
Inductive value_step : RunCommand -> option RunStateValue -> RunStateValue -> Prop :=
| step_begin old :
    value_step RunBegin old (unclean (prior_last old) (carried_recovery old) (prior_pending old))
| step_require i from_ to_ old pending :
    rv_phase old = PhaseUnclean -> migration_between from_ to_ pending -> rv_pending_migration old = None ->
    value_step (RunRequire i from_ to_) (Some old)
      (unclean (rv_last_recovery_generation old) (rv_recovery old) (Some pending))
| step_complete i pending old :
    rv_phase old = PhaseUnclean -> rv_pending_migration old = Some pending ->
    value_step (RunComplete i pending) (Some old)
      (unclean (rv_last_recovery_generation old) (rv_recovery old) None)
| step_start i old launch :
    rv_phase old = PhaseUnclean -> next_launch old launch -> 0 < ls_operation_generation launch ->
    value_step (RunStart i (ls_operation_generation launch) (ls_candidate launch)) (Some old)
      (unclean (rv_last_recovery_generation old) (Some launch) (rv_pending_migration old))
| step_continue i old recovery launch :
    rv_phase old = PhaseUnclean -> rv_recovery old = Some recovery ->
    ls_operation_generation launch = ls_operation_generation recovery -> ls_candidate launch = ls_candidate recovery ->
    ls_launches launch = ls_launches recovery + 1 -> ls_launches launch <= MAX_RECOVERY_LAUNCHES ->
    value_step (RunContinue i) (Some old)
      (unclean (rv_last_recovery_generation old) (Some launch) (rv_pending_migration old))
| step_clean i old :
    rv_phase old = PhaseUnclean -> rv_pending_migration old = None ->
    value_step (RunClean i) (Some old)
      (clean (accepted_generation (rv_recovery old) (rv_last_recovery_generation old))).

(** ** Valid values *)

Definition launch_ok (r : RecoveryLaunchState) : Prop :=
  RecoveryCandidateIdentity_validate (ls_candidate r) = Ok tt /\ ls_operation_generation r <> 0 /\
  1 <= ls_launches r <= MAX_RECOVERY_LAUNCHES.

Definition fields_ok (last : option Z) (recovery : option RecoveryLaunchState) (pending : option PendingMigration) : Prop :=
  last <> Some 0 /\
  (forall r, recovery = Some r -> launch_ok r /\ forall g, last = Some g -> g < ls_operation_generation r) /\
  (forall p, pending = Some p -> PendingMigration_validate p = Ok tt).

Lemma launch_validate r : RecoveryLaunchState_validate r = Ok tt <-> launch_ok r.
Proof.
  unfold RecoveryLaunchState_validate, launch_ok, RecoveryCandidateIdentity_validate.
  destruct (RecoveryCandidateIdentity_from_persisted _ _ _); simpl; [|by split; [|intros [? _]]].
  destruct (Z.eqb_spec (ls_operation_generation r) 0); simpl; [split; [done|intros (_ & ? & _); done]|].
  destruct (Z.leb_spec 1 (ls_launches r)), (Z.leb_spec (ls_launches r) MAX_RECOVERY_LAUNCHES); simpl; split; try done;
    intros (_ & _ & ?); lia.
Qed.

Lemma run_valid_fields v : run_valid v ->
  fields_ok (rv_last_recovery_generation v) (rv_recovery v) (rv_pending_migration v) /\
  (rv_phase v = PhaseClean -> rv_recovery v = None /\ rv_pending_migration v = None).
Proof.
  unfold run_valid, RunStateValue_validate. intros H.
  destruct (_ || bool_decide (rv_last_recovery_generation v = Some 0)) eqn:E; [done|].
  rewrite !orb_false_iff in E. destruct E as ((((_ & _) & E3) & E4) & E5).
  apply rbind_ok in H as ([] & H1 & H2). to_prop. split; [split_and!; [done| |]|].
  - intros r Hr. rewrite Hr in H1. apply rbind_ok in H1 as ([] & Hl & H1). split; [by apply launch_validate|].
    intros g Hg. rewrite Hg in H1. simpl in H1. destruct (Z.leb_spec (ls_operation_generation r) g); [done|lia].
  - intros p Hp. by rewrite Hp in H2.
  - intros Hc. rewrite (bool_decide_true _ Hc) in E3, E4. simpl in E3, E4.
    destruct E3 as [?|E3], E4 as [?|E4]; [done..|]. by destruct (rv_recovery v), (rv_pending_migration v).
Qed.

Lemma fields_unclean last recovery pending : fields_ok last recovery pending -> run_valid (unclean last recovery pending).
Proof.
  intros (H1 & H2 & H3). unfold run_valid, RunStateValue_validate. simpl. rewrite bool_decide_false by done. simpl.
  destruct recovery as [r|].
  - destruct (H2 r eq_refl) as [Hl Hg]. apply launch_validate in Hl. rewrite Hl. simpl.
    destruct last as [g|]; simpl; [rewrite (proj2 (Z.leb_gt _ _)) by (by apply Hg); simpl|];
      (destruct pending as [p|]; [by apply H3|done]).
  - simpl. destruct pending as [p|]; [by apply H3|done].
Qed.

Lemma clean_valid last : last <> Some 0 -> run_valid (clean last).
Proof. intros H. unfold run_valid, RunStateValue_validate. simpl. by rewrite bool_decide_false. Qed.

Lemma run_state_decode_valid from_slice p v : run_state_decode_json from_slice p = Ok v -> run_valid v.
Proof.
  unfold run_state_decode_json, run_valid. destruct (from_slice p); [|done]. destruct (negb _); [done|].
  destruct (RunStateValue_validate _) as [[]|] eqn:E; [|done]. by intros [= <-].
Qed.

(** ** Sessions and the stored value *)

Section runs.
Context `{RecordStoreLaws RunStateValue run_valid}.

Definition matches (s : RunSession) (v : RunStateValue) : Prop :=
  rs_recovery s = rv_recovery v /\ rs_last_recovery_generation s = rv_last_recovery_generation v /\
  rs_pending_migration s = rv_pending_migration v.

(** The record a session wrote last is still there, or a newer one is. *)
Definition session_ok (w : World) (s : RunSession) : Prop :=
  fields_ok (rs_last_recovery_generation s) (rs_recovery s) (rs_pending_migration s) /\
  exists r, store_view w = Ok (Some r) /\ rs_generation s <= dr_generation (sr_record r) /\
    (rs_generation s = dr_generation (sr_record r) -> matches s (dr_value (sr_record r))).

(** The stored record is the one the session wrote last, and the session knows its value. *)
Definition current (w : World) (s : RunSession) : Prop :=
  exists r, store_view w = Ok (Some r) /\ rs_generation s = dr_generation (sr_record r) /\
    matches s (dr_value (sr_record r)).

Definition machine_ok (m : Machine) : Prop := world_ok (m_world m) /\ Forall (session_ok (m_world m)) (m_sessions m).

(** [v] was written over the value [old] *)
Definition wrote (w w' : World) (old v : RunStateValue) : Prop :=
  exists r r', store_view w = Ok (Some r) /\ store_view w' = Ok (Some r') /\
    dr_value (sr_record r) = old /\ dr_value (sr_record r') = v /\
    dr_generation (sr_record r') = dr_generation (sr_record r) + 1.

Lemma run_load_cases w r w' : run_load w = (r, w') ->
  same_files w' w /\
  forall l, r = Ok l ->
    match store_view w with
    | Ok (Some s) =>
        lr_generation l = Some (dr_generation (sr_record s)) /\
        lr_payload_sha256 l = Some (dr_payload_sha256 (sr_record s)) /\ lr_value l = Some (dr_value (sr_record s)) /\
        (rv_phase (dr_value (sr_record s)) = PhaseUnclean -> requires_quick_check (lr_inspection l) = true)
    | Ok None => lr_generation l = None /\ lr_value l = None
    | Err _ => False
    end.
Proof.
  unfold run_load, ibind. destruct (store_load w) as [r1 w1] eqn:E1.
  destruct (store_load_reads _ _ _ E1) as [F1 V1]. destruct r1 as [[s|]|e].
  - intros [= <- <-]. split; [done|]. intros l [= <-]. rewrite (V1 _ eq_refl). simpl. split_and!; [done..|].
    intros ->. unfold requires_quick_check. simpl. by destruct (bool_decide _).
  - destruct (store_artifact w1) as [r2 w2] eqn:E2. pose proof (store_artifact_reads _ _ _ E2) as F2.
    rewrite (V1 _ eq_refl). destruct r2 as [b|e]; intros [= <- <-]; (split; [by eapply same_files_trans|]); [|done].
    by intros l [= <-].
  - intros [= <- <-]. done.
Qed.

Lemma session_ok_same w w' s : same_files w' w -> session_ok w s -> session_ok w' s.
Proof. intros F. unfold session_ok. by rewrite (view_same _ _ F). Qed.

Lemma session_ok_newer w w' old v s : wrote w w' old v -> session_ok w s -> session_ok w' s.
Proof.
  intros (r & r' & Hr & Hr' & _ & _ & Hg) (Hf & x & Hx & Hle & _). split; [done|]. exists r'.
  rewrite Hr in Hx. injection Hx as <-. split_and!; [done|lia|lia].
Qed.

(** What a publication does: nothing, or the value replaces the one the session wrote. *)
Lemma run_publish_cases value s w r s' w' :
  run_publish value s w = (r, s', w') -> run_valid value -> world_ok w -> session_ok w s ->
  world_ok w' /\
  ((same_files w' w /\ s' = s /\ is_ok r = false) \/
   current w s /\
   exists old, wrote w w' old value /\ rv_phase old = PhaseUnclean /\ matches s old /\
     ((s' = s /\ is_ok r = false) \/
      (r = Ok tt /\ matches s' value /\ rs_launch_authorized s' = rs_launch_authorized s /\ current w' s'))).
Proof.
  intros Hp Hv Hw Hs. unfold run_publish in Hp. destruct (run_load w) as [r1 w1] eqn:E1.
  destruct (run_load_cases _ _ _ E1) as [F1 V1]. pose proof (same_files_ok _ _ F1 Hw) as Hw1.
  destruct r1 as [l|e]; [|injection Hp as <- <- <-; by eauto 6].
  pose proof (V1 _ eq_refl) as V. clear V1 E1. destruct Hs as (_ & x & Hx & _ & Hm).
  rewrite Hx in V. destruct V as (Vg & _ & Vv & _). rewrite Vg, Vv in Hp.
  destruct (_ || negb (bool_decide (_ <$> _ = _))) eqn:E; [injection Hp as <- <- <-; by eauto 6|].
  rewrite !orb_false_iff, !negb_false_iff in E. destruct E as [[E1 _] E2]. to_prop.
  injection E1 as E1. simpl in E2. injection E2 as E2. symmetry in E1. specialize (Hm E1).
  pose proof (save_ok value no_hook w1 Hv Hw1) as Hw2. pose proof (save_atomic value no_hook w1 Hv Hw1) as Ha.
  pose proof (fun rc => save_confirmed value no_hook w1 rc Hv Hw1) as Hc.
  unfold saved_or_same in Ha. rewrite (view_same _ _ F1), Hx in Ha, Hc. cbn [next_of] in Ha, Hc.
  assert (current w s) as Hcur by (exists x; by split_and!).
  destruct (store_save value no_hook w1) as [[rc|e] w2]; cbn [fst snd] in *; injection Hp as <- <- <-; (split; [done|]).
  - destruct (Hc rc eq_refl) as (y & Hy & Ey & Eg & _ & Hg). right. split; [done|]. exists (dr_value (sr_record x)).
    split_and!; [exists x, y; split_and!; [done..|congruence]|done|done|]. right. split_and!; [done|done|done|]. exists y.
    split_and!; [done|simpl; congruence|]. by rewrite Ey.
  - destruct Ha as [Ha|(y & Hy & Ey & Hg)]; [left; split_and!; [by eapply same_files_trans|done|done]|].
    right. split; [done|]. exists (dr_value (sr_record x)). split_and!; [exists x, y; by split_and!|done|done|by left].
Qed.

(** *** Operations *)

Definition keeps (w w' : World) : Prop := forall s, session_ok w s -> session_ok w' s.

Definition stepped (c : RunCommand) (w w' : World) : Prop :=
  exists v, stored w' = Some v /\ value_step c (stored w) v.

(** A successful publication: the session was up to date, and is again. *)
Definition published (c : RunCommand) (s s' : RunSession) (w w' : World) : Prop :=
  current w s /\ current w' s' /\ stepped c w w'.

(** A decision that starts [launch]: the launch is stored, and owners may start. *)
Definition launches (c : RunCommand) (launch : RecoveryLaunchState) (s s' : RunSession) (w w' : World) : Prop :=
  published c s s' w w' /\ rs_recovery s' = Some launch /\ rs_launch_authorized s' = true.

(** What a reply to a session's command says about the session and the stored value.
    A reply that does not belong to the command is never given. *)
Definition session_reply (c : RunCommand) (reply : RunReply) (s s' : RunSession) (w w' : World) : Prop :=
  match c, reply with
  | RunAuthorize _, Silent => s' = set_authorized true s /\ stored w' = stored w
  | RunRequire _ from_ to_, Required (Ok p) =>
      migration_between from_ to_ p /\
      ((rs_pending_migration s = None /\ rs_pending_migration s' = Some p /\ published c s s' w w') \/
       (rs_pending_migration s = Some p /\ s' = s /\ stored w' = stored w))
  | RunComplete _ p, Completed (Ok _) =>
      rs_pending_migration s = Some p /\ rs_pending_migration s' = None /\ published c s s' w w'
  | RunStart _ g candidate, Decided g' (Ok decision) =>
      g' = g /\
      match decision with
      | Start n =>
          launches c {| ls_operation_generation := g; ls_candidate := candidate; ls_launches := n |} s s' w w'
      | SafeMode n =>
          n = MAX_RECOVERY_LAUNCHES /\ s' = s /\ stored w' = stored w /\
          rs_recovery s = Some {| ls_operation_generation := g; ls_candidate := candidate; ls_launches := n |}
      | AlreadyAccepted accepted =>
          accepted = g /\ rs_last_recovery_generation s = Some g /\ s' = set_authorized true s /\ stored w' = stored w
      | NotTracked => False
      end
  | RunContinue _, Decided g (Ok decision) =>
      match decision, rs_recovery s with
      | Start n, Some recovery =>
          g = ls_operation_generation recovery /\ n = ls_launches recovery + 1 /\
          launches c {| ls_operation_generation := g; ls_candidate := ls_candidate recovery; ls_launches := n |} s s' w w'
      | SafeMode n, Some recovery =>
          n = MAX_RECOVERY_LAUNCHES /\ ls_launches recovery = n /\ s' = s /\ stored w' = stored w
      | NotTracked, None => s' = s /\ stored w' = stored w
      | _, _ => False
      end
  | RunClean _, Cleaned (Ok _) =>
      rs_launch_authorized s = true /\ rs_launch_authorized s' = false /\ published c s s' w w'
  | RunRequire _ _ _, Required (Err _) | RunComplete _ _, Completed (Err _) | RunStart _ _ _, Decided _ (Err _)
  | RunContinue _, Decided _ (Err _) | RunClean _, Cleaned (Err _) => s' = s
  | _, _ => False
  end.

(** What a [Start] decision means for the launches of its operation *)
Definition launched (reply : RunReply) (w w' : World) : Prop :=
  forall g n, reply = Decided g (Ok (Start n)) ->
    1 <= n <= MAX_RECOVERY_LAUNCHES /\ rank (stored w) < 3 * g + n /\ rank (stored w') = 3 * g + n.

(** An operation of a session changes the stored value as the command allows, the
    sessions stay in step with it, and the reply means what it says. *)
Definition op_ok {A} (c : RunCommand) (op : session_op A) (reply : RunSession -> result A StateErrorCode -> RunReply) : Prop :=
  forall s w r s' w', op s w = (r, s', w') -> world_ok w -> session_ok w s ->
    world_ok w' /\ session_ok w' s' /\ keeps w w' /\ (stored w' = stored w \/ stepped c w w') /\
    session_reply c (reply s r) s s' w w' /\ launched (reply s r) w w'.

Lemma wrote_stored w w' old v : wrote w w' old v -> stored w = Some old /\ stored w' = Some v.
Proof. intros (r & r' & Hr & Hr' & <- & <- & _). unfold stored. by rewrite Hr, Hr'. Qed.

Lemma keeps_same w w' : same_files w' w -> keeps w w'.
Proof. intros F s. by apply session_ok_same. Qed.

Lemma same_fields_ok w s b : session_ok w s -> session_ok w (set_authorized b s).
Proof. done. Qed.

(** An operation that leaves files and session alone *)
Ltac idle H := injection H as <- <- <-; split_and!; [done|done|by apply keeps_same|by left|try done|done].

Lemma publish_effect c value s w r s' w' :
  run_publish value s w = (r, s', w') -> run_valid value -> world_ok w -> session_ok w s ->
  (forall old, stored w = Some old -> rv_phase old = PhaseUnclean -> matches s old -> value_step c (Some old) value) ->
  world_ok w' /\ session_ok w' s' /\ keeps w w' /\ (stored w' = stored w \/ stepped c w w') /\
  (if is_ok r then published c s s' w w' /\ stored w' = Some value /\ matches s' value /\
                   rs_launch_authorized s' = rs_launch_authorized s
   else s' = s).
Proof.
  intros Hp Hv Hw Hs Hstep.
  destruct (run_publish_cases _ _ _ _ _ _ Hp Hv Hw Hs) as (Hw' & [(F & -> & Hr)|(Hcur & old & Hwr & Hph & Hm & Hcase)]).
  - split_and!; [done|by eapply session_ok_same|by apply keeps_same|left; by apply stored_same|by rewrite Hr].
  - destruct (wrote_stored _ _ _ _ Hwr) as [S S']. assert (stepped c w w') as Hst.
    { exists value. split; [done|]. rewrite S. by apply Hstep. }
    split_and!; [done| |intros x; by eapply session_ok_newer|by right|].
    + destruct Hcase as [[-> _]|(_ & Hm' & _ & Hcur')]; [by eapply session_ok_newer|].
      destruct Hm' as (M1 & M2 & M3). split; [rewrite M1, M2, M3; by apply run_valid_fields|].
      destruct Hcur' as (r' & Hr' & Hg & Hm'). exists r'. split_and!; [done|lia|done].
    + destruct Hcase as [[-> Hr]|(-> & Hm' & Ha & Hcur')]; [by rewrite Hr|]. simpl. by split_and!.
Qed.

Lemma session_fields w s : session_ok w s ->
  fields_ok (rs_last_recovery_generation s) (rs_recovery s) (rs_pending_migration s).
Proof. by intros [? _]. Qed.

Lemma mark_clean_ok i : op_ok (RunClean i) mark_clean (fun _ r => Cleaned r).
Proof.
  intros s w r s' w' Hop Hw Hs. unfold mark_clean in Hop. destruct (_ || _) eqn:E.
  { idle Hop. }
  apply orb_false_iff in E as [Ea E]. apply negb_false_iff in Ea. unfold sbind in Hop.
  destruct (run_publish _ s w) as [[r1 s1] w1] eqn:E1.
  destruct (publish_effect (RunClean i) _ _ _ _ _ _ E1) as (H1 & H2 & H3 & H4 & H5); [|done|done| |].
  - apply clean_valid. destruct (session_fields _ _ Hs) as (Hl & Hr & _). destruct (rs_recovery s) as [x|]; [|done].
    destruct (Hr x eq_refl) as [(_ & Hn & _) _]. simpl. congruence.
  - intros old _ Hph (M1 & M2 & M3). rewrite M1, M2. apply step_clean; [done|]. rewrite <- M3.
    by destruct (rs_pending_migration s).
  - destruct r1 as [[]|e]; injection Hop as <- <- <-; (split_and!; [done| |done|done| |done]); [by apply same_fields_ok| |done|done].
    destruct H5 as [Hpub _]. by split_and!.
Qed.

Lemma complete_ok i pending :
  op_ok (RunComplete i pending) (complete_post_migration pending) (fun _ r => Completed r).
Proof.
  intros s w r s' w' Hop Hw Hs. unfold complete_post_migration in Hop. case_bool_decide as E; cbn [negb] in Hop.
  2: { idle Hop. }
  destruct (publish_effect (RunComplete i pending) _ _ _ _ _ _ Hop) as (H1 & H2 & H3 & H4 & H5); [|done|done| |].
  - destruct (session_fields _ _ Hs) as (Hl & Hr & _). by apply fields_unclean.
  - intros old _ Hph (M1 & M2 & M3). rewrite M1, M2. apply step_complete; [done|]. by rewrite <- M3.
  - split_and!; [done..| |done]. destruct r as [[]|e]; [|done]. destruct H5 as (Hpub & _ & (_ & _ & Hq) & _). by split_and!.
Qed.

Lemma PendingMigration_new_ok from_ to_ p : PendingMigration_new from_ to_ = Ok p ->
  migration_between from_ to_ p /\ PendingMigration_validate p = Ok tt.
Proof.
  unfold PendingMigration_new. intros ([] & Hv & [= <-])%rbind_ok. split; [|done].
  unfold PendingMigration_validate in Hv. destruct (_ || _) eqn:E; [done|]. unfold migration_between. simpl in *. to_prop.
  split_and!; (done || lia).
Qed.

Lemma require_ok i from_ to_ :
  op_ok (RunRequire i from_ to_) (require_post_migration from_ to_) (fun _ r => Required r).
Proof.
  intros s w r s' w' Hop Hw Hs. unfold require_post_migration, sbind, slift in Hop.
  destruct (PendingMigration_new from_ to_) as [p|e] eqn:Ep; [|idle Hop].
  apply PendingMigration_new_ok in Ep as [Hp Hpv].
  destruct (rs_pending_migration s) as [q|] eqn:En; cbn [is_some is_some_and] in Hop.
  { case_bool_decide as Eq; cbn [negb] in Hop; [subst q|idle Hop]. idle Hop. split; [done|]. by right. }
  destruct (run_publish _ s w) as [[r1 s1] w1] eqn:E1.
  destruct (publish_effect (RunRequire i from_ to_) _ _ _ _ _ _ E1) as (H1 & H2 & H3 & H4 & H5); [|done|done| |].
  - destruct (session_fields _ _ Hs) as (Hl & Hr & _). apply fields_unclean. split_and!; [done|done|]. by intros q [= <-].
  - intros old _ Hph (M1 & M2 & M3). rewrite M1, M2. apply step_require; [done|done|]. by rewrite <- M3.
  - destruct r1 as [[]|e]; injection Hop as <- <- <-; (split_and!; [done..| |done]); [|done].
    destruct H5 as (Hpub & _ & (_ & _ & Hq) & _). split; [done|]. left. by split_and!.
Qed.

(** The operation that both launching commands end in *)
Lemma start_candidate_ok c recovery completed reply :
  (completed = 0 \/ completed = ls_launches recovery) ->
  forall s w r s' w', start_candidate recovery completed s w = (r, s', w') -> world_ok w -> session_ok w s ->
  launch_ok recovery -> (forall g, rs_last_recovery_generation s = Some g -> g < ls_operation_generation recovery) ->
  (forall old launch, stored w = Some old -> rv_phase old = PhaseUnclean -> matches s old ->
     ls_operation_generation launch = ls_operation_generation recovery -> ls_candidate launch = ls_candidate recovery ->
     ls_launches launch = completed + 1 -> completed + 1 <= MAX_RECOVERY_LAUNCHES ->
     value_step c (Some old) (unclean (rv_last_recovery_generation old) (Some launch) (rv_pending_migration old)) /\
     rank (Some old) < 3 * ls_operation_generation launch + ls_launches launch) ->
  (forall r, exists g, reply r = Decided g r /\ g = ls_operation_generation recovery) ->
  (forall e, session_reply c (reply (Err e)) s s w w') ->
  (completed = MAX_RECOVERY_LAUNCHES -> stored w' = stored w -> session_reply c (reply (Ok (SafeMode completed))) s s w w') ->
  (launches c {| ls_operation_generation := ls_operation_generation recovery; ls_candidate := ls_candidate recovery;
                 ls_launches := completed + 1 |} s s' w w' -> session_reply c (reply (Ok (Start (completed + 1)))) s s' w w') ->
  world_ok w' /\ session_ok w' s' /\ keeps w w' /\ (stored w' = stored w \/ stepped c w w') /\
  session_reply c (reply r) s s' w w' /\ launched (reply r) w w'.
Proof.
  intros Hc s w r s' w' Hop Hw Hs (L1 & L2 & L3) Hlast Hstep Hrep Herr Hsafe Hlaunch. unfold start_candidate in Hop.
  assert (forall r, (forall n, r <> Ok (Start n)) -> forall w1 w2, launched (reply r) w1 w2) as Hnone.
  { intros r0 Hn w1 w2 g n E. destruct (Hrep r0) as (g' & Er & _). rewrite Er in E. injection E as _ E. by destruct (Hn n). }
  destruct (Z.leb_spec MAX_RECOVERY_LAUNCHES completed).
  { injection Hop as <- <- <-. split_and!; [done|done|by apply keeps_same|by left| |by apply Hnone].
    apply Hsafe; [|done]. unfold MAX_RECOVERY_LAUNCHES in *. lia. }
  unfold sbind, slift in Hop. unfold MAX_RECOVERY_LAUNCHES in *.
  assert (0 <= completed) as Hc0 by lia. unfold checked_add in Hop.
  rewrite (proj2 (Z.leb_le (completed + 1) u8_max)) in Hop by (unfold_ints; lia). cbn [ok_or] in Hop.
  set (launch := {| ls_operation_generation := _ |}) in Hop, Hlaunch.
  assert (run_valid (unclean (rs_last_recovery_generation s) (Some launch) (rs_pending_migration s))) as Hvalid.
  { destruct (session_fields _ _ Hs) as (Hl & _ & Hp). apply fields_unclean. split_and!; [done| |done].
    intros x [= <-]. split; [|done]. unfold launch_ok, MAX_RECOVERY_LAUNCHES. simpl. split_and!; [done|done|lia|lia]. }
  destruct (run_publish _ s w) as [[r1 s1] w1] eqn:E1.
  destruct (publish_effect c _ _ _ _ _ _ E1 Hvalid Hw Hs) as (H1 & H2 & H3 & H4 & H5).
  { intros old Ho Hph Hm. pose proof Hm as (M1 & M2 & M3). rewrite M2, M3. apply Hstep; (done || simpl; lia). }
  destruct r1 as [[]|e]; injection Hop as <- <- <-.
  2: { simpl in H5. subst s1. split_and!; [done..|apply Herr|by apply Hnone]. }
  destruct H5 as (Hpub & Hsto & (Hm1 & _) & _). pose proof Hpub as (Hcur & Hcur' & Hst).
  split_and!; [done|by apply same_fields_ok|done|done|by apply Hlaunch; split_and!|].
  intros g n E. destruct (Hrep (Ok (Start (completed + 1)))) as (g' & Er & ->). rewrite Er in E. injection E as <- <-.
  rewrite Hsto. destruct Hst as (v & _ & Hvs).
  assert (exists old, stored w = Some old /\ rv_phase old = PhaseUnclean /\ matches s old) as (old & Ho & Hph & Hm).
  { destruct (run_publish_cases _ _ _ _ _ _ E1 Hvalid Hw Hs) as (_ & [(_ & _ & ?)|(_ & old & Hwr & Hph & Hm & _)]); [done|].
    destruct (wrote_stored _ _ _ _ Hwr) as [-> _]. eauto. }
  rewrite Ho. unfold MAX_RECOVERY_LAUNCHES. split_and!; [lia|lia| |done].
  destruct (Hstep old launch Ho Hph Hm) as [_ Hlt]; (done || simpl; lia).
Qed.

Lemma launch_eta r : r = {| ls_operation_generation := ls_operation_generation r; ls_candidate := ls_candidate r;
                            ls_launches := ls_launches r |}.
Proof. by destruct r. Qed.

Lemma continue_ok i :
  op_ok (RunContinue i) continue_recovered_candidate (fun s r => Decided (tracked_generation s) r).
Proof.
  intros s w r s' w' Hop Hw Hs. unfold continue_recovered_candidate, tracked_generation in *.
  destruct (rs_recovery s) as [x|] eqn:Ex.
  2: { idle Hop. simpl. by rewrite Ex. }
  destruct (session_fields _ _ Hs) as (_ & Hr & _). destruct (Hr x Ex) as [Hx Hlast].
  eapply (start_candidate_ok (RunContinue i) x (ls_launches x) (Decided (ls_operation_generation x)));
    [by right|done..| |eauto|done| |].
  - intros old launch _ Hph (M1 & _ & _) Eg Ec El Hmax. rewrite Ex in M1. split.
    + eapply step_continue; [done|by symmetry|done|done|done|lia].
    + simpl. rewrite <- M1, El, Eg. lia.
  - intros Hm Hsame. simpl. rewrite Ex. by split_and!.
  - intros Hl. simpl. rewrite Ex. by split_and!.
Qed.

Lemma next_launch_rank old launch : run_valid old -> next_launch old launch -> 0 < ls_operation_generation launch ->
  rank (Some old) < 3 * ls_operation_generation launch + ls_launches launch.
Proof.
  intros Hv (Hn & Hacc & _) Hg. destruct (run_valid_fields old Hv) as [(_ & Hr & _) _]. simpl.
  destruct (rv_recovery old) as [x|].
  - destruct (Hr x eq_refl) as [(_ & _ & Hl) _]. unfold MAX_RECOVERY_LAUNCHES in Hl. lia.
  - destruct (rv_last_recovery_generation old) as [a|]; [|lia]. specialize (Hacc a eq_refl). lia.
Qed.

(** Starting [launch] over the value the session knows *)
Lemma start_step i old launch w : stored w = Some old -> rv_phase old = PhaseUnclean -> next_launch old launch ->
  0 < ls_operation_generation launch ->
  value_step (RunStart i (ls_operation_generation launch) (ls_candidate launch)) (Some old)
    (unclean (rv_last_recovery_generation old) (Some launch) (rv_pending_migration old)) /\
  rank (Some old) < 3 * ls_operation_generation launch + ls_launches launch.
Proof.
  intros Hw Hph Hn Hg. split; [by apply step_start|]. apply next_launch_rank; [|done|done]. by apply (stored_valid w).
Qed.

Lemma start_new_ok i g c s w r s' w' :
  start_new_candidate g c s w = (r, s', w') -> world_ok w -> session_ok w s -> g <> 0 -> in_u64 g ->
  RecoveryCandidateIdentity_validate c = Ok tt ->
  (forall x, rs_recovery s = Some x -> ls_operation_generation x < g) ->
  world_ok w' /\ session_ok w' s' /\ keeps w w' /\ (stored w' = stored w \/ stepped (RunStart i g c) w w') /\
  session_reply (RunStart i g c) (Decided g r) s s' w w' /\ launched (Decided g r) w w'.
Proof.
  intros Hop Hw Hs Hg Hu Hc Hx. unfold start_new_candidate in Hop.
  assert ((forall g', rs_last_recovery_generation s = Some g' -> g' < g) ->
    start_candidate {| ls_operation_generation := g; ls_candidate := c; ls_launches := 1 |} 0 s w = (r, s', w') ->
    world_ok w' /\ session_ok w' s' /\ keeps w w' /\ (stored w' = stored w \/ stepped (RunStart i g c) w w') /\
    session_reply (RunStart i g c) (Decided g r) s s' w w' /\ launched (Decided g r) w w') as Hstart.
  { intros Hlast Hst. eapply (start_candidate_ok (RunStart i g c) _ 0 (Decided g)) in Hst;
      [exact Hst|by left|done|done| |done| |eauto|done|done|by split].
    - split_and!; [done|done|simpl; lia|unfold MAX_RECOVERY_LAUNCHES; simpl; lia].
    - intros old launch Ho Hph (M1 & M2 & _) Eg Ec El Hmax. simpl in Eg, Ec. rewrite <- Eg, <- Ec.
      apply (start_step i old launch w Ho Hph); [|unfold_ints; lia]. unfold next_launch. rewrite <- M1, <- M2, Eg, El.
      split_and!; [|done|done]. destruct (rs_recovery s) as [x|]; [|done]. left. split; [by apply Hx|done]. }
  destruct (rs_last_recovery_generation s) as [a|] eqn:Ea; [|by apply Hstart].
  destruct (Z.ltb_spec g a).
  { idle Hop. }
  destruct (Z.eqb_spec g a).
  { injection Hop as <- <- <-. subst a.
    split_and!; [done|by apply same_fields_ok|by apply keeps_same|by left|by split_and!|done]. }
  apply Hstart; [|done]. intros g' [= <-]. lia.
Qed.

Lemma start_ok i g c : in_u64 g -> RecoveryCandidateIdentity_validate c = Ok tt ->
  op_ok (RunStart i g c) (start_recovered_candidate g c) (fun _ r => Decided g r).
Proof.
  intros Hu Hc s w r s' w' Hop Hw Hs. unfold start_recovered_candidate in Hop.
  destruct (Z.eqb_spec g 0).
  { idle Hop. }
  destruct (rs_recovery s) as [x|] eqn:Ex; [|eapply start_new_ok; try done; rewrite Ex; done].
  destruct (Z.eqb_spec (ls_operation_generation x) g) as [Eg|Eg].
  - case_bool_decide as Ec; cbn [negb] in Hop.
    2: { idle Hop. }
    destruct (session_fields _ _ Hs) as (_ & Hr & _). destruct (Hr x Ex) as [Hx Hlast]. subst g c.
    eapply (start_candidate_ok _ x (ls_launches x) (Decided (ls_operation_generation x)));
      [by right|done..| |eauto|done| |by split].
    + intros old launch Ho Hph (M1 & M2 & _) Eg' Ec' El Hmax. rewrite Ex in M1. rewrite <- Eg', <- Ec'.
      apply (start_step i old launch w Ho Hph); [|rewrite Eg'; unfold_ints; lia].
      unfold next_launch. rewrite <- M1, <- M2, Eg'. split_and!; [by right|done|lia].
    + intros Hm Hsame. split; [done|]. rewrite Ex. split_and!; [done..|]. f_equal. apply launch_eta.
  - destruct (Z.ltb_spec g (ls_operation_generation x)).
    { idle Hop. }
    eapply start_new_ok; try done. rewrite Ex. intros y [= <-]. lia.
Qed.

(** *** Beginning a run *)

Lemma begin_fields_ok w : is_ok (store_view w) = true ->
  fields_ok (prior_last (stored w)) (carried_recovery (stored w)) (prior_pending (stored w)).
Proof.
  intros _. destruct (stored w) as [v|] eqn:E; [|by split_and!]. apply stored_valid in E.
  destruct (run_valid_fields v E) as [(H1 & H2 & H3) _]. simpl. split_and!; [done| |done].
  intros r. case_bool_decide; [apply H2|done].
Qed.

Lemma run_begin_ok r w w' : begin w = (r, w') -> world_ok w ->
  world_ok w' /\ keeps w w' /\ (stored w' = stored w \/ stepped RunBegin w w') /\
  (forall s, r = Ok s -> session_ok w' s /\ stepped RunBegin w w' /\ current w' s /\ rs_launch_authorized s = false).
Proof.
  intros Hb Hw. unfold begin, ibind in Hb. destruct (run_load w) as [r1 w1] eqn:E1.
  destruct (run_load_cases _ _ _ E1) as [F1 V1]. pose proof (same_files_ok _ _ F1 Hw) as Hw1.
  destruct r1 as [l|e].
  2: { injection Hb as <- <-. split_and!; [done|by apply keeps_same|left; by apply stored_same|done]. }
  pose proof (V1 _ eq_refl) as V. clear V1 E1.
  assert (lr_value l = stored w /\ is_ok (store_view w) = true) as [El Hok].
  { unfold stored. destruct (store_view w) as [[s|]|]; [by destruct V as (_ & _ & ? & _)|by destruct V|done]. }
  rewrite El in Hb. fold (prior_last (stored w)) (prior_pending (stored w)) in Hb.
  pose proof (begin_fields_ok w Hok) as Hf. set (v := unclean _ _ _) in Hb.
  assert (run_valid v) as Hv by (by apply fields_unclean).
  pose proof (save_ok v no_hook w1 Hv Hw1) as Hw2. pose proof (save_atomic v no_hook w1 Hv Hw1) as Ha.
  pose proof (fun rc => save_confirmed v no_hook w1 rc Hv Hw1) as Hc.
  unfold saved_or_same in Ha. rewrite (view_same _ _ F1) in Ha, Hc.
  assert (forall w2 x, store_view w2 = Ok (Some x) -> dr_value (sr_record x) = v ->
    dr_generation (sr_record x) = next_of (store_view w) -> keeps w w2 /\ stepped RunBegin w w2) as Hnew.
  { intros w2 x Hx Ex Hg. split.
    - intros s (Hs & y & Hy & Hle & _). rewrite Hy in Hg. simpl in Hg. split; [done|]. exists x. split_and!; [done|lia|lia].
    - exists v. split; [unfold stored; by rewrite Hx, Ex|]. apply step_begin. }
  destruct (store_save v no_hook w1) as [[rc|e] w2]; cbn [fst snd] in *; injection Hb as <- <-; (split; [done|]).
  - destruct (Hc rc eq_refl) as (x & Hx & Ex & Eg & _ & Hg). destruct (Hnew w2 x Hx Ex Hg) as [Hk Hst].
    assert (forall s, rs_generation s = rr_generation rc -> matches s v -> current w2 s) as Hcur.
    { intros s Hsg Hsm. exists x. split_and!; [done|congruence|by rewrite Ex]. }
    split_and!; [done|by right|]. intros s [= <-]. split_and!; [|done|by apply Hcur|done]. split; [done|]. exists x. simpl.
    split_and!; [done|lia|]. intros _. by rewrite Ex.
  - destruct Ha as [Ha|(x & Hx & Ex & Hg)].
    + assert (same_files w2 w) as F2 by (by eapply same_files_trans).
      split_and!; [by apply keeps_same|left; by apply stored_same|done].
    + destruct (Hnew w2 x Hx Ex Hg) as [Hk Hst]. split_and!; [done|by right|done].
Qed.

(** *** Commands *)

(** What a reply says about the machine.  A command for a session that is not there
    does nothing. *)
Definition reply_means (c : RunCommand) (reply : RunReply) (m m' : Machine) : Prop :=
  match c with
  | RunBegin =>
      match reply with
      | Began (Ok _) =>
          stepped c (m_world m) (m_world m') /\
          exists s, m_sessions m' = m_sessions m ++ [s] /\ current (m_world m') s /\ rs_launch_authorized s = false
      | Began (Err _) => m_sessions m' = m_sessions m
      | _ => False
      end
  | RunRestart => reply = Silent /\ m_world m' = m_world m /\ m_sessions m' = []
  | RunFaults fs => reply = Silent /\ faults (m_world m') = fs /\ m_sessions m' = m_sessions m
  | RunAuthorize i | RunRequire i _ _ | RunComplete i _ | RunStart i _ _ | RunContinue i | RunClean i =>
      match m_sessions m !! i with
      | None => reply = Silent /\ m' = m
      | Some s =>
          exists s', m_sessions m' = <[i := s']> (m_sessions m) /\
            session_reply c reply s s' (m_world m) (m_world m')
      end
  end.

Definition exec_ok (c : RunCommand) (m : Machine) (reply : RunReply) (m' : Machine) : Prop :=
  machine_ok m' /\ (stored (m_world m') = stored (m_world m) \/ stepped c (m_world m) (m_world m')) /\
  reply_means c reply m m' /\ launched reply (m_world m) (m_world m').

(** A command of a session, through the session it names *)
Lemma on_session_ok {A} c m i (op : session_op A) reply r m' :
  on_session m i op reply = (r, m') -> op_ok c op reply -> machine_ok m ->
  machine_ok m' /\ (stored (m_world m') = stored (m_world m) \/ stepped c (m_world m) (m_world m')) /\
  match m_sessions m !! i with
  | None => r = Silent /\ m' = m
  | Some s =>
      exists s', m_sessions m' = <[i := s']> (m_sessions m) /\ session_reply c r s s' (m_world m) (m_world m')
  end /\ launched r (m_world m) (m_world m').
Proof.
  intros Hon Hop [Hw Hs]. unfold on_session in Hon. destruct (m_sessions m !! i) as [s|] eqn:Ei.
  2: { injection Hon as <- <-. split_and!; [by split|by left|done|done|done]. }
  destruct (op s (m_world m)) as [[r1 s1] w1] eqn:E1. injection Hon as <- <-.
  destruct (Hop _ _ _ _ _ E1 Hw) as (H1 & H2 & H3 & H4 & H5 & H6); [by eapply Forall_lookup_1|].
  split_and!; [split; [done|]|done|by exists s1|done]. simpl. apply Forall_insert; [|done].
  eapply Forall_impl; [exact Hs|]. intros x. apply H3.
Qed.

Lemma authorize_ok i : op_ok (RunAuthorize i) (modify authorize_healthy_launch) (fun _ _ => Silent).
Proof.
  intros s w r s' w' [= <- <- <-] Hw Hs.
  split_and!; [done|by apply same_fields_ok|by apply keeps_same|by left|by split|done].
Qed.

Lemma run_exec_ok c m reply m' :
  run_exec c m = (reply, m') -> run_command_ok c -> machine_ok m -> exec_ok c m reply m'.
Proof.
  intros He Hc Hm. destruct c as [|i|i f t|i p|i g cand|i|i| |fs]; cbn [run_exec run_command_ok] in *;
    try (eapply on_session_ok; [exact He| |done]).
  - destruct Hm as [Hw Hs]. destruct (begin (m_world m)) as [r w1] eqn:E1.
    destruct (run_begin_ok _ _ _ E1 Hw) as (H1 & H2 & H3 & H4).
    assert (Forall (session_ok w1) (m_sessions m)) as Hs1 by (eapply Forall_impl; [exact Hs|]; intros x; apply H2).
    destruct r as [s|e]; injection He as <- <-; [|by split_and!].
    destruct (H4 s eq_refl) as (Hss & Hst & Hcur & Ha). split_and!; [split; [done|]|done| |done].
    + simpl. apply Forall_app. split; [done|]. by constructor.
    + split; [done|]. by exists s.
  - apply authorize_ok.
  - apply require_ok.
  - apply complete_ok.
  - by apply start_ok; apply Hc.
  - apply continue_ok.
  - apply mark_clean_ok.
  - injection He as <- <-. destruct Hm as [Hw Hs]. split_and!; [by split|by left|done|done].
  - injection He as <- <-. destruct Hm as [Hw Hs]. split_and!; [split; [done|]|left; by apply stored_same|done|done].
    eapply Forall_impl; [exact Hs|]. intros x. by apply session_ok_same.
Qed.

(** Invariants of the stored value along a run *)
Lemma run_all_ind (P : option RunStateValue -> Prop) (allowed : RunCommand -> Prop) cs m :
  (forall c old v, allowed c -> P old -> value_step c old v -> P (Some v)) ->
  Forall allowed cs -> Forall run_command_ok cs -> machine_ok m -> P (stored (m_world m)) ->
  machine_ok (run_all cs m).2 /\ P (stored (m_world (run_all cs m).2)).
Proof.
  intros Hstep Ha. revert m. induction Ha as [|c cs Hc _ IH]; intros m Hok Hm HP; [done|].
  apply Forall_cons_1 in Hok as [Hcok Hok]. cbn [run_all]. destruct (run_exec c m) as [reply m1] eqn:E1.
  destruct (run_exec_ok _ _ _ _ E1 Hcok Hm) as (Hm1 & Hs & _).
  assert (P (stored (m_world m1))) as HP1.
  { destruct Hs as [-> |(v & -> & Hv)]; [done|]. by eapply Hstep. }
  destruct (IH m1 Hok Hm1 HP1) as [H1 H2]. by destruct (run_all cs m1).
Qed.

Lemma run_all_ok cs m : Forall run_command_ok cs -> machine_ok m -> machine_ok (run_all cs m).2.
Proof.
  intros Hok Hm. apply (run_all_ind (fun _ => True) (fun _ => True)); try done. by apply Forall_true.
Qed.

Lemma cleaned_stepped c m m' : reply_means c (Cleaned (Ok tt)) m m' ->
  stepped c (m_world m) (m_world m') /\ exists i, c = RunClean i.
Proof.
  intros Hr. destruct c as [| | | | | |i| |]; simpl in Hr; try done; try (by destruct Hr);
    destruct (m_sessions m !! _) as [s|]; destruct Hr as (x & Hx); try done;
    destruct Hx as [_ Hx]; try done. destruct Hx as (_ & _ & _ & _ & Hst). eauto.
Qed.

(** *** Launches *)

Definition is_launch (g : Z) (reply : RunReply) : bool :=
  match reply with Decided g' (Ok (Start _)) => g' =? g | _ => false end.

Fixpoint launches_of (g : Z) (replies : list RunReply) : Z :=
  match replies with
  | [] => 0
  | reply :: replies => (if is_launch g reply then 1 else 0) + launches_of g replies
  end.

Lemma value_step_rank c old v : value_step c old v -> run_command_ok c ->
  (forall o, old = Some o -> run_valid o) -> rank old <= rank (Some v).
Proof.
  intros Hst Hc Hv. destruct Hst; simpl in *; try lia.
  - destruct old as [old|]; [|done]. simpl. destruct (run_valid_fields _ (Hv _ eq_refl)) as [_ Hclean].
    case_bool_decide as E; [lia|]. destruct (rv_phase old) eqn:Ep; [|done].
    destruct (Hclean eq_refl) as [-> _]. lia.
  - pose proof (next_launch_rank old launch (Hv _ eq_refl)) as Hn. simpl in Hn. apply Z.lt_le_incl. by apply Hn.
  - match goal with E : rv_recovery old = Some _ |- _ => rewrite E; lia end.
  - destruct (run_valid_fields _ (Hv _ eq_refl)) as [(_ & Hr & _) _]. destruct (rv_recovery old) as [x|]; simpl; [|lia].
    destruct (Hr x eq_refl) as [(_ & _ & ?) _]. unfold MAX_RECOVERY_LAUNCHES in *. lia.
Qed.

(** How much of the two launches of [g] is used up *)
Definition used (g : Z) (v : option RunStateValue) : Z := Z.max 0 (Z.min 2 (rank v - 3 * g)).

Lemma launches_bounded g cs m : Forall run_command_ok cs -> machine_ok m ->
  launches_of g (run_all cs m).1 <= used g (stored (m_world (run_all cs m).2)) - used g (stored (m_world m)).
Proof.
  intros Hok. revert m. induction Hok as [|c cs Hc _ IH]; intros m Hm; [unfold launches_of; simpl; lia|].
  cbn [run_all]. destruct (run_exec c m) as [reply m1] eqn:E1.
  destruct (run_exec_ok _ _ _ _ E1 Hc Hm) as (Hm1 & Hs & _ & Hr). specialize (IH m1 Hm1).
  destruct (run_all cs m1) as [replies m2]. cbn [fst snd] in *.
  assert (rank (stored (m_world m)) <= rank (stored (m_world m1))) as Hmono.
  { destruct Hs as [-> |(v & -> & Hv)]; [done|]. eapply value_step_rank; [done|done|]. intros o. apply stored_valid. }
  cbn [launches_of]. destruct (is_launch g reply) eqn:El; [|unfold used in *; lia].
  assert (exists n, reply = Decided g (Ok (Start n))) as [n ->].
  { destruct reply as [| | |g' r| |]; try done. destruct r as [[]|]; try done. simpl in El. to_prop. subst. eauto. }
  destruct (Hr g n eq_refl) as (Hn & Hlt & Heq). unfold used, MAX_RECOVERY_LAUNCHES in *. lia.
Qed.
End runs.

(** ** The run state over the redundant record *)

(** The machine after a list of commands, from files without a session *)
Definition start_machine (w : World) : Machine := {| m_world := w; m_sessions := [] |}.

Definition no_clean (c : RunCommand) : Prop := match c with RunClean _ => False | _ => True end.
Definition no_complete (p : PendingMigration) (c : RunCommand) : Prop :=
  match c with RunComplete _ q => q <> p | _ => True end.

Section concrete.
Context (sha256 : list Z -> list Z) {sha256_length : forall m, length (sha256 m) = 32%nat}.
Context {sha256_bytes : forall m, Forall byte_ok (sha256 m)}.
(** [serde_json]: the derived serialization is read back. *)
Context (to_json : RunStateValue -> option (list Z)) (from_slice : list Z -> option RunStateValue).
Context {json_roundtrip : forall v b, to_json v = Some b -> from_slice b = Some v /\ Forall byte_ok b}.

(** [RunStateStore::new] *)
Definition run_state_store : RecordStore RunStateValue :=
  redundant_store sha256 to_json (run_state_decode_json from_slice) MAX_RECORD_PAYLOAD_BYTES.
#[local] Existing Instance run_state_store.

Lemma run_state_storable v : run_valid v -> json_storable to_json (run_state_decode_json from_slice) v.
Proof using json_roundtrip.
  intros Hv b Hb. destruct (json_roundtrip v b Hb) as [Hj Hok]. split; [|done].
  unfold run_state_decode_json. rewrite Hj. unfold run_valid in Hv. rewrite Hv.
  unfold RunStateValue_validate in Hv. destruct (supported_version (rv_schema_version v)); [done|]. discriminate Hv.
Qed.

#[local] Instance run_state_store_laws : RecordStoreLaws RunStateValue run_valid.
Proof using sha256_length sha256_bytes json_roundtrip.
  apply redundant_store_laws; [done..|apply run_state_storable|apply run_state_decode_valid].
Qed.

Lemma start_machine_ok w : world_ok w -> machine_ok (start_machine w).
Proof. by split. Qed.

(** C17. However sessions, restarts and faults interleave, the run state behaves as one
    value: each command leaves the stored value alone or changes it as the abstract step
    of that command says, even when the session is out of date or the save reported an
    error after it took effect.  Every reply means what it says: a success that stores
    something means that the session was up to date, that the step was taken and that
    the session knows the new value; a success that stores nothing has a reason in the
    session (the migration is already required, the recovery already accepted, already
    launched twice, or there is none); an error leaves the session as it was; and no
    command is answered with the reply of another. *)
Theorem run_state_refines cs c w reply m' :
  Forall run_command_ok cs -> run_command_ok c -> world_ok w ->
  let m := (run_all cs (start_machine w)).2 in
  run_exec c m = (reply, m') ->
  (stored (m_world m') = stored (m_world m) \/ stepped c (m_world m) (m_world m')) /\
  reply_means c reply m m'.
Proof using sha256_length sha256_bytes json_roundtrip.
  intros Hcs Hc Hw m He. pose proof (run_all_ok cs _ Hcs (start_machine_ok w Hw)) as Hm.
  by destruct (run_exec_ok _ _ _ _ He Hc Hm) as (_ & ? & ? & _).
Qed.

(** C18. A crash is noticed: once a run was begun, and as long as nobody asks to mark a
    session clean, every later inspection of the run state that succeeds asks for a
    quick check, whatever else happens. *)
Theorem crash_detected before after w m1 i w' :
  Forall run_command_ok before -> Forall run_command_ok after -> world_ok w ->
  run_exec RunBegin (run_all before (start_machine w)).2 = (Began (Ok tt), m1) ->
  Forall no_clean after ->
  inspect (m_world (run_all after m1).2) = (Ok i, w') -> requires_quick_check i = true.
Proof using sha256_length sha256_bytes json_roundtrip.
  intros Hb Ha Hw He Hno Hi. pose proof (run_all_ok before _ Hb (start_machine_ok w Hw)) as Hm.
  destruct (run_exec_ok RunBegin _ _ _ He I Hm) as (Hm1 & _ & ((v & Hv & Hst) & _) & _).
  destruct (run_all_ind (fun v => (rv_phase <$> v) = Some PhaseUnclean) no_clean after m1) as [_ Hp]; [|done|done|done| |].
  - intros c old x Hc _ Hstep. by destruct Hstep.
  - rewrite Hv. by inversion Hst.
  - unfold inspect, ibind in Hi. destruct (run_load _) as [[l|e] w2] eqn:El; [|done]. injection Hi as <- <-.
    destruct (run_load_cases _ _ _ El) as [_ V]. specialize (V l eq_refl). unfold stored in Hp.
    destruct (store_view _) as [[s|]|]; [|done..]. destruct V as (_ & _ & _ & V). apply V. simpl in Hp. congruence.
Qed.

(** C19. A recovered archive is launched at most twice: over any run, with any number of
    restarts, sessions and faults, at most two decisions to start are given for one
    recovery operation. *)
Theorem recovery_launches_limited cs w g :
  Forall run_command_ok cs -> world_ok w -> launches_of g (run_all cs (start_machine w)).1 <= MAX_RECOVERY_LAUNCHES.
Proof using sha256_length sha256_bytes json_roundtrip.
  intros Hcs Hw. pose proof (launches_bounded g cs _ Hcs (start_machine_ok w Hw)) as H.
  unfold used, MAX_RECOVERY_LAUNCHES in *. lia.
Qed.

(** C20. A migration that is owed stays owed until it is reported complete: while a
    pending migration is stored and no session reports that migration complete, it stays
    stored through restarts, faults and launches, and no session can be marked clean. *)
Theorem migration_stays_owed cs w p :
  Forall run_command_ok cs -> world_ok w -> prior_pending (stored w) = Some p ->
  Forall (no_complete p) cs ->
  prior_pending (stored (m_world (run_all cs (start_machine w)).2)) = Some p /\
  Forall (fun reply => reply <> Cleaned (Ok tt)) (run_all cs (start_machine w)).1.
Proof using sha256_length sha256_bytes json_roundtrip.
  intros Hcs Hw Hp Hno. assert (machine_ok (start_machine w)) as Hm by done.
  change (stored w) with (stored (m_world (start_machine w))) in Hp. revert Hm Hp. generalize (start_machine w). clear Hw w.
  assert (forall c old v, no_complete p c -> prior_pending old = Some p ->
    value_step c old v -> prior_pending (Some v) = Some p /\ forall i, c <> RunClean i) as Hstep.
  { intros c old v Hc Ho Hst. destruct Hst; simpl in *; try done; try congruence. }
  revert Hno. induction Hcs as [|c cs Hc _ IH]; intros Hno m Hm Hp; [done|].
  apply Forall_cons_1 in Hno as [Hnc Hno]. cbn [run_all]. destruct (run_exec c m) as [reply m1] eqn:E1.
  destruct (run_exec_ok _ _ _ _ E1 Hc Hm) as (Hm1 & Hs & Hr).
  assert (prior_pending (stored (m_world m1)) = Some p) as Hp1.
  { destruct Hs as [-> |(v & -> & Hv)]; [done|]. by eapply Hstep. }
  destruct (IH Hno m1 Hm1 Hp1) as [H1 H2]. destruct (run_all cs m1) as [replies m2]. split; [done|].
  constructor; [|done]. intros ->. destruct (cleaned_stepped _ _ _ (proj1 Hr)) as [(v & Hv & Hst) [i ->]].
  destruct (Hstep _ _ _ Hnc Hp Hst) as [_ Hn]. by apply (Hn i).
Qed.
End concrete.

(** ** The claims at concrete runs *)

Definition sample_candidate : RecoveryCandidateIdentity :=
  {| ci_schema_version := 17; ci_len := 8192; ci_sha256 := sample_digest |}.

Definition sample_launch (n : Z) : RecoveryLaunchState :=
  {| ls_operation_generation := 4; ls_candidate := sample_candidate; ls_launches := n |}.

Definition sample_migration : PendingMigration := {| pm_from := 16; pm_to := 17 |}.

(** Values of the sample runs; the text of a value is its position *)
Definition sample_values : list RunStateValue :=
  [unclean None None None; unclean None (Some (sample_launch 1)) None; unclean None (Some (sample_launch 2)) None;
   unclean None None (Some sample_migration); clean None; clean (Some 4); unclean (Some 4) None None].

Definition run_to_json (v : RunStateValue) : option (list Z) :=
  match list_find (fun x => x = v) sample_values with Some (i, _) => Some [Z.of_nat i] | None => None end.

Definition run_from_slice (b : list Z) : option RunStateValue :=
  match b with [i] => sample_values !! Z.to_nat i | _ => None end.

Lemma run_json_roundtrip v b : run_to_json v = Some b -> run_from_slice b = Some v /\ Forall byte_ok b.
Proof.
  unfold run_to_json. destruct (list_find _ _) as [[i x]|] eqn:E; [|done]. intros [= <-].
  apply list_find_Some in E as (Hi & -> & _). simpl. rewrite Nat2Z.id. split; [done|]. constructor; [|done].
  apply lookup_lt_Some in Hi. simpl in Hi. unfold byte_ok. lia.
Qed.

#[local] Instance sample_run_store : RecordStore RunStateValue := run_state_store toy_sha256 run_to_json run_from_slice.

Definition crashing : list RunCommand :=
  [RunBegin; RunStart 0 4 sample_candidate; RunRestart; RunBegin;
   RunFaults [NoFault; NoFault; FaultBefore DurUnavailable]; RunContinue 0; RunFaults []; RunContinue 0;
   RunRestart; RunBegin; RunContinue 0; RunClean 0].

Lemma sample_start_ok : run_command_ok (RunStart 0 4 sample_candidate).
Proof. split; [unfold_ints; lia|reflexivity]. Qed.

Lemma crashing_ok : Forall run_command_ok crashing.
Proof. repeat (constructor; [exact I || exact sample_start_ok|]). constructor. Qed.

Lemma empty_world_ok : world_ok empty_world.
Proof. by split. Qed.

(** A run in which every command succeeds once: a migration is required and completed, a
    recovered archive is launched twice and then refused, and the session ends cleanly. *)
Example sample_replies :
  (run_all [RunBegin; RunRequire 0 16 17; RunRequire 0 16 17; RunComplete 0 sample_migration; RunContinue 0;
            RunStart 0 4 sample_candidate; RunContinue 0; RunStart 0 4 sample_candidate; RunClean 0; RunBegin;
            RunStart 1 4 sample_candidate; RunClean 0; RunClean 1] (start_machine empty_world)).1
  = [Began (Ok tt); Required (Ok sample_migration); Required (Ok sample_migration); Completed (Ok tt);
     Decided 0 (Ok NotTracked); Decided 4 (Ok (Start 1)); Decided 4 (Ok (Start 2)); Decided 4 (Ok (SafeMode 2));
     Cleaned (Ok tt); Began (Ok tt); Decided 4 (Ok (AlreadyAccepted 4)); Cleaned (Err InvalidInput); Cleaned (Ok tt)].
Proof. vm_compute. reflexivity. Qed.

Definition begun : Machine := (run_all [RunBegin] (start_machine empty_world)).2.
Definition required : RunReply * Machine := run_exec (RunRequire 0 16 17) begun.

Lemma run_state_refines_witness :
  required.1 = Required (Ok sample_migration) /\
  prior_pending (stored (m_world begun)) = None /\
  prior_pending (stored (m_world required.2)) = Some sample_migration /\
  reply_means (RunRequire 0 16 17) required.1 begun required.2.
Proof.
  split_and!; [vm_compute; reflexivity..|].
  apply (@run_state_refines toy_sha256 toy_sha256_length toy_sha256_bytes run_to_json run_from_slice run_json_roundtrip
    [RunBegin] (RunRequire 0 16 17) empty_world required.1 required.2).
  - repeat constructor.
  - exact I.
  - exact empty_world_ok.
  - apply surjective_pairing.
Defined.

Lemma crash_detected_witness :
  requires_quick_check
    {| in_condition := PriorUnclean; in_recovery_launches := Some 1; in_last_recovery_generation := None;
       in_pending_migration := None |} = true.
Proof.
  destruct (run_exec RunBegin (run_all [] (start_machine empty_world)).2) as [reply m1] eqn:E.
  assert (reply = Began (Ok tt)) as -> by (vm_compute in E; by injection E as <- _).
  refine (@crash_detected toy_sha256 toy_sha256_length toy_sha256_bytes run_to_json run_from_slice run_json_roundtrip
    [] [RunStart 0 4 sample_candidate; RunRestart] empty_world m1 _
    (m_world (run_all [RunStart 0 4 sample_candidate; RunRestart] m1).2) _ _ _ E _ _).
  - constructor.
  - constructor; [exact sample_start_ok|]. constructor; [exact I|constructor].
  - exact empty_world_ok.
  - repeat constructor.
  - vm_compute in E. injection E as <-. vm_compute. reflexivity.
Defined.

Lemma recovery_launches_limited_witness :
  launches_of 4 (run_all crashing (start_machine empty_world)).1 = 2 /\
  launches_of 4 (run_all crashing (start_machine empty_world)).1 <= MAX_RECOVERY_LAUNCHES.
Proof.
  split; [vm_compute; reflexivity|].
  apply (@recovery_launches_limited toy_sha256 toy_sha256_length toy_sha256_bytes run_to_json run_from_slice run_json_roundtrip
    crashing empty_world 4).
  - exact crashing_ok.
  - exact empty_world_ok.
Defined.

Definition migrating_world : World :=
  m_world (run_all [RunBegin; RunRequire 0 16 17] (start_machine empty_world)).2.

Lemma migrating_world_ok : world_ok migrating_world.
Proof.
  assert (match slot_a migrating_world, slot_b migrating_world with
          | Some a, Some b => forallb (fun c => (0 <=? c) && (c <? 256)) (a ++ b) | _, _ => false end = true) as E
    by (vm_compute; reflexivity).
  unfold world_ok, file_ok. destruct (slot_a migrating_world), (slot_b migrating_world); [|done..].
  apply forallb_byte_ok, Forall_app in E. exact E.
Qed.

Lemma migration_stays_owed_witness :
  let cs := [RunBegin; RunAuthorize 0; RunClean 0; RunRestart] in
  prior_pending (stored (m_world (run_all cs (start_machine migrating_world)).2)) = Some sample_migration /\
  Forall (fun reply => reply <> Cleaned (Ok tt)) (run_all cs (start_machine migrating_world)).1.
Proof.
  apply (@migration_stays_owed toy_sha256 toy_sha256_length toy_sha256_bytes run_to_json run_from_slice run_json_roundtrip).
  - repeat constructor.
  - exact migrating_world_ok.
  - vm_compute. reflexivity.
  - repeat constructor.
Defined.
