(* ===== verification/Checkpoint.v ===== *)
(** * Reader checkpoints and their binary envelope

    Models [crates/codex/src/reader/checkpoint.rs] (the invariants of a reader
    checkpoint) and [crates/codex/src/checkpoint_codec.rs] (its 154-byte header
    and the JSON of the parser state behind it).

    The parser state is used through the interface [ResumeState] only: its JSON
    form ([serde_json::to_vec] and [from_slice], a library) and the check
    [ParserState::from_resume].  The cursor of the decoder is the suffix of the
    input that is still to be read; every field read happens after the length
    check that makes it succeed. *)

From S2P Require Import Prelude.

(** ** What a checkpoint needs of the parser state *)

Class ResumeState (R : Type) := {
  (** [serde_json::to_vec]; [None] is its error *)
  to_vec : R -> option (list Z);
  (** [serde_json::from_slice] *)
  from_slice : list Z -> option R;
  (** [ParserState::from_resume(..).is_ok()] *)
  resumable : R -> bool;
  resume_eq_dec :: EqDecision R
}.

(** The documented behaviour of the serializer: what it writes can be read back. *)
Class ResumeLaws (R : Type) `{!ResumeState R} : Prop :=
  from_to_vec : forall r json, to_vec r = Some json -> from_slice json = Some r.

(** ** [reader/checkpoint.rs] *)

Definition READER_CHECKPOINT_SCHEMA_VERSION : Z := 1.
Definition PARSER_SCHEMA_VERSION : Z := 2.
Definition MAX_ANCHOR_BYTES : Z := 4096.
Definition MAX_RESUME_BYTES : Z := 32 * 1024.

Inductive VerificationLevel := Incremental | FullPrefix.
#[export] Instance VerificationLevel_eq_dec : EqDecision VerificationLevel.
Proof. solve_decision. Defined.

Inductive ReaderCheckpointErrorCode :=
| UnsupportedParserVersion
| InvalidOffset
| InvalidAnchor
| ReaderInvalidFlags
| ReaderInvalidResume
| ResumeTooLarge.

Record BoundaryAnchor := { anchor_start : Z; anchor_len : Z; anchor_sha256 : list Z }.

Definition BoundaryAnchor_new (start len : Z) (sha256 : list Z)
  : result BoundaryAnchor ReaderCheckpointErrorCode :=
  fail_if (MAX_ANCHOR_BYTES <? len) || is_none (checked_add u64_max start len)
  with InvalidAnchor else
  Ok {| anchor_start := start; anchor_len := len; anchor_sha256 := sha256 |}.

Definition anchor_end (a : BoundaryAnchor) : option Z :=
  checked_add u64_max (anchor_start a) (anchor_len a).

Record ReaderCheckpointParts (R : Type) := {
  parser_schema_version : Z;
  physical_identity : option (list Z);
  logical_identity : list Z;
  committed_offset : Z;
  scan_offset : Z;
  observed_file_length : Z;
  modified_time_ns : option Z;
  anchor : BoundaryAnchor;
  resume : R;
  discarding_oversized_line : bool;
  incomplete_tail : bool;
  verification : VerificationLevel
}.
Arguments parser_schema_version {R}.
Arguments physical_identity {R}.
Arguments logical_identity {R}.
Arguments committed_offset {R}.
Arguments scan_offset {R}.
Arguments observed_file_length {R}.
Arguments modified_time_ns {R}.
Arguments anchor {R}.
Arguments resume {R}.
Arguments discarding_oversized_line {R}.
Arguments incomplete_tail {R}.
Arguments verification {R}.

(** ** [checkpoint_codec.rs] *)

Definition MAX_CODEX_CHECKPOINT_BYTES : Z := 32 * 1024.
Definition MAGIC : list Z := lit "TMCP".
Definition ENVELOPE_VERSION : Z := 1.
Definition FLAG_PHYSICAL_IDENTITY : Z := Z.shiftl 1 0.
Definition FLAG_MODIFIED_TIME : Z := Z.shiftl 1 1.
Definition FLAG_DISCARDING_OVERSIZED_LINE : Z := Z.shiftl 1 2.
Definition FLAG_INCOMPLETE_TAIL : Z := Z.shiftl 1 3.
Definition FLAG_FULL_PREFIX : Z := Z.shiftl 1 4.
Definition KNOWN_FLAGS : Z :=
  Z.lor (Z.lor (Z.lor (Z.lor FLAG_PHYSICAL_IDENTITY FLAG_MODIFIED_TIME)
    FLAG_DISCARDING_OVERSIZED_LINE) FLAG_INCOMPLETE_TAIL) FLAG_FULL_PREFIX.
Definition FIXED_BYTES : Z := 154.

Inductive CodexCheckpointErrorCode :=
| InvalidEnvelope
| UnsupportedVersion
| CapacityExceeded
| InvalidFlags
| IdentityMismatch
| TrailingBytes
| InvalidResume
| InvalidCheckpoint.

(** [push_u16], [push_u32], [push_u64], [push_i64] *)
Definition push_u16 (value : Z) : list Z := le_bytes 2 value.
Definition push_u32 (value : Z) : list Z := le_bytes 4 value.
Definition push_u64 (value : Z) : list Z := le_bytes 8 value.
Definition push_i64 (value : Z) : list Z := le_bytes 8 (value mod 2 ^ 64).

(** [take_array]: the field and the suffix after it *)
Definition take_array (n : nat) (rest : list Z) : list Z * list Z := (take n rest, drop n rest).
Definition take_uint (n : nat) (rest : list Z) : Z * list Z :=
  let '(bytes, rest) := take_array n rest in (le_value bytes, rest).
Definition take_u16 : list Z -> Z * list Z := take_uint 2.
Definition take_u32 : list Z -> Z * list Z := take_uint 4.
Definition take_u64 : list Z -> Z * list Z := take_uint 8.
Definition take_i64 (rest : list Z) : Z * list Z :=
  let '(value, rest) := take_uint 8 rest in
  (if value <=? i64_max then value else value - 2 ^ 64, rest).
Definition take_32 : list Z -> list Z * list Z := take_array 32.

Definition has_flag (flags mask : Z) : bool := negb (Z.land flags mask =? 0).

Section checkpoint.
Context {R : Type} `{!ResumeState R}.

Definition ReaderCheckpointV1_new (parts : ReaderCheckpointParts R)
  : result (ReaderCheckpointParts R) ReaderCheckpointErrorCode :=
  fail_if negb (parser_schema_version parts =? PARSER_SCHEMA_VERSION)
  with UnsupportedParserVersion else
  fail_if negb (resumable (resume parts)) with ReaderInvalidResume else
  let? resume_bytes := ok_or (to_vec (resume parts)) ReaderInvalidResume in
  fail_if MAX_RESUME_BYTES <? Z.of_nat (length resume_bytes) with ResumeTooLarge else
  fail_if (scan_offset parts <? committed_offset parts)
    || (observed_file_length parts <? scan_offset parts)
    || (negb (discarding_oversized_line parts)
        && negb (scan_offset parts =? committed_offset parts))
  with InvalidOffset else
  fail_if is_none_or (anchor_end (anchor parts)) (fun e => committed_offset parts <? e)
  with InvalidAnchor else
  fail_if discarding_oversized_line parts
    && (negb (incomplete_tail parts) || (scan_offset parts =? committed_offset parts))
  with ReaderInvalidFlags else
  Ok parts.

Definition encode_flags (reader : ReaderCheckpointParts R) : Z :=
  let flags := 0 in
  let flags := Z.lor flags (if is_some (physical_identity reader) then FLAG_PHYSICAL_IDENTITY else 0) in
  let flags := Z.lor flags (if is_some (modified_time_ns reader) then FLAG_MODIFIED_TIME else 0) in
  let flags :=
    if discarding_oversized_line reader then Z.lor flags FLAG_DISCARDING_OVERSIZED_LINE else flags in
  let flags := if incomplete_tail reader then Z.lor flags FLAG_INCOMPLETE_TAIL else flags in
  if bool_decide (verification reader = FullPrefix) then Z.lor flags FLAG_FULL_PREFIX else flags.

(** The bytes [encode] pushes, in order *)
Definition envelope (reader : ReaderCheckpointParts R) (resume_len : Z) (resume_json : list Z) : list Z :=
  MAGIC ++ push_u16 ENVELOPE_VERSION ++ push_u16 READER_CHECKPOINT_SCHEMA_VERSION
  ++ push_u16 (parser_schema_version reader) ++ push_u16 (encode_flags reader)
  ++ logical_identity reader
  ++ unwrap_or (physical_identity reader) (replicate 32 0)
  ++ push_u64 (committed_offset reader) ++ push_u64 (scan_offset reader)
  ++ push_u64 (observed_file_length reader)
  ++ push_i64 (unwrap_or (modified_time_ns reader) 0)
  ++ push_u64 (anchor_start (anchor reader)) ++ push_u16 (anchor_len (anchor reader))
  ++ anchor_sha256 (anchor reader)
  ++ push_u32 resume_len ++ resume_json.

Definition encode (reader : ReaderCheckpointParts R) : result (list Z) CodexCheckpointErrorCode :=
  let? resume_json := ok_or (to_vec (resume reader)) InvalidResume in
  let resume_len := Z.of_nat (length resume_json) in
  let total := FIXED_BYTES + resume_len in
  fail_if (MAX_RESUME_BYTES <? resume_len) || (MAX_CODEX_CHECKPOINT_BYTES <? total)
  with CapacityExceeded else
  Ok (envelope reader resume_len resume_json).

Definition decode (encoded : list Z) (expected_identity : list Z)
  : result (ReaderCheckpointParts R) CodexCheckpointErrorCode :=
  let len := Z.of_nat (length encoded) in
  fail_if MAX_CODEX_CHECKPOINT_BYTES <? len with CapacityExceeded else
  fail_if (len <? FIXED_BYTES) || negb (bool_decide (take 4 encoded = MAGIC))
  with InvalidEnvelope else
  let rest := drop 4 encoded in
  let '(envelope_version, rest) := take_u16 rest in
  fail_if negb (envelope_version =? ENVELOPE_VERSION) with UnsupportedVersion else
  let '(schema_version, rest) := take_u16 rest in
  fail_if negb (schema_version =? READER_CHECKPOINT_SCHEMA_VERSION) with UnsupportedVersion else
  let '(parser_version, rest) := take_u16 rest in
  let '(flags, rest) := take_u16 rest in
  fail_if negb (Z.land flags (Z.lxor u16_max KNOWN_FLAGS) =? 0) with InvalidFlags else
  let '(logical, rest) := take_32 rest in
  fail_if negb (bool_decide (logical = expected_identity)) with IdentityMismatch else
  let '(physical_bytes, rest) := take_32 rest in
  let? physical :=
    if has_flag flags FLAG_PHYSICAL_IDENTITY then Ok (Some physical_bytes)
    else fail_if negb (bool_decide (physical_bytes = replicate 32 0)) with InvalidFlags else Ok None in
  let '(committed, rest) := take_u64 rest in
  let '(scan, rest) := take_u64 rest in
  let '(observed, rest) := take_u64 rest in
  let '(modified_raw, rest) := take_i64 rest in
  let? modified :=
    if has_flag flags FLAG_MODIFIED_TIME then Ok (Some modified_raw)
    else fail_if negb (modified_raw =? 0) with InvalidFlags else Ok None in
  let '(start, rest) := take_u64 rest in
  let '(alen, rest) := take_u16 rest in
  let '(asha, rest) := take_32 rest in
  let '(resume_len, rest) := take_u32 rest in
  fail_if MAX_RESUME_BYTES <? resume_len with CapacityExceeded else
  let expected_len := FIXED_BYTES + resume_len in
  fail_if len <? expected_len with InvalidEnvelope else
  fail_if expected_len <? len with TrailingBytes else
  let? resumed := ok_or (from_slice (take (Z.to_nat resume_len) rest)) InvalidResume in
  let verified := if negb (has_flag flags FLAG_FULL_PREFIX) then Incremental else FullPrefix in
  match BoundaryAnchor_new start alen asha with
  | Err _ => Err InvalidCheckpoint
  | Ok a =>
      match ReaderCheckpointV1_new
        {| parser_schema_version := parser_version;
           physical_identity := physical;
           logical_identity := logical;
           committed_offset := committed;
           scan_offset := scan;
           observed_file_length := observed;
           modified_time_ns := modified;
           anchor := a;
           resume := resumed;
           discarding_oversized_line := has_flag flags FLAG_DISCARDING_OVERSIZED_LINE;
           incomplete_tail := has_flag flags FLAG_INCOMPLETE_TAIL;
           verification := verified |} with
      | Err _ => Err InvalidCheckpoint
      | Ok reader => Ok reader
      end
  end.

(** Values of the Rust types: widths, digest lengths, constructed anchors *)
Definition parts_typed (p : ReaderCheckpointParts R) : Prop :=
  in_u16 (parser_schema_version p) /\
  (forall i, physical_identity p = Some i -> length i = 32%nat) /\
  length (logical_identity p) = 32%nat /\
  in_u64 (committed_offset p) /\ in_u64 (scan_offset p) /\ in_u64 (observed_file_length p) /\
  (forall t, modified_time_ns p = Some t -> in_i64 t) /\
  in_u64 (anchor_start (anchor p)) /\ 0 <= anchor_len (anchor p) <= MAX_ANCHOR_BYTES /\
  length (anchor_sha256 (anchor p)) = 32%nat.

(** What the checks establish *)
Definition checkpoint_ok (p : ReaderCheckpointParts R) : Prop :=
  parser_schema_version p = PARSER_SCHEMA_VERSION /\ resumable (resume p) = true /\
  (exists json, to_vec (resume p) = Some json /\ Z.of_nat (length json) <= MAX_RESUME_BYTES) /\
  committed_offset p <= scan_offset p <= observed_file_length p /\
  (discarding_oversized_line p = false -> scan_offset p = committed_offset p) /\
  (discarding_oversized_line p = true ->
     incomplete_tail p = true /\ scan_offset p <> committed_offset p) /\
  anchor_start (anchor p) + anchor_len (anchor p) <= Z.min u64_max (committed_offset p).

(** ** Reading fields *)

Lemma take_array_app n f r : length f = n -> take_array n (f ++ r) = (f, r).
Proof. intros <-. unfold take_array. by rewrite take_app_length, drop_app_length. Qed.

Lemma take_uint_app n v r :
  0 <= v < 256 ^ Z.of_nat n -> take_uint n (le_bytes n v ++ r) = (v, r).
Proof.
  intros Hv. unfold take_uint. rewrite take_array_app by apply le_bytes_length.
  by rewrite le_value_bytes.
Qed.

Lemma take_u16_push v r : in_u16 v -> take_u16 (push_u16 v ++ r) = (v, r).
Proof. intros Hv. apply take_uint_app. change (256 ^ Z.of_nat 2) with (2 ^ 16). auto with ints. Qed.
Lemma take_u32_push v r : in_u32 v -> take_u32 (push_u32 v ++ r) = (v, r).
Proof. intros Hv. apply take_uint_app. change (256 ^ Z.of_nat 4) with (2 ^ 32). auto with ints. Qed.
Lemma take_u64_push v r : in_u64 v -> take_u64 (push_u64 v ++ r) = (v, r).
Proof. intros Hv. apply take_uint_app. change (256 ^ Z.of_nat 8) with (2 ^ 64). auto with ints. Qed.

Lemma take_i64_push v r : in_i64 v -> take_i64 (push_i64 v ++ r) = (v, r).
Proof.
  intros Hv. unfold take_i64, push_i64. unfold in_i64, i64_min, i64_max in *.
  pose proof (Z.mod_pos_bound v (2 ^ 64)) as Hm.
  rewrite take_uint_app by (simpl; lia).
  destruct (decide (0 <= v)) as [Hp|Hn].
  - rewrite Z.mod_small by lia. destruct (_ <=? _) eqn:E; to_prop; [done|lia].
  - replace (v mod 2 ^ 64) with (v + 2 ^ 64).
    + destruct (_ <=? _) eqn:E; to_prop; [lia|]. f_equal. lia.
    + symmetry. replace v with (v + 2 ^ 64 + (-1) * 2 ^ 64) at 1 by lia.
      rewrite Z.mod_add by lia. apply Z.mod_small. lia.
Qed.

(** Read the fields at the front of the input, one after the other. *)
Ltac read_fields :=
  repeat first
    [ progress cbv beta iota zeta
    | rewrite take_u16_push by done | rewrite take_u32_push by done
    | rewrite take_u64_push by done
    | progress unfold take_32 | rewrite take_array_app by done ].

Lemma encode_flags_spec (p : ReaderCheckpointParts R) :
  in_u16 (encode_flags p) /\
  Z.land (encode_flags p) (Z.lxor u16_max KNOWN_FLAGS) = 0 /\
  has_flag (encode_flags p) FLAG_PHYSICAL_IDENTITY = is_some (physical_identity p) /\
  has_flag (encode_flags p) FLAG_MODIFIED_TIME = is_some (modified_time_ns p) /\
  has_flag (encode_flags p) FLAG_DISCARDING_OVERSIZED_LINE = discarding_oversized_line p /\
  has_flag (encode_flags p) FLAG_INCOMPLETE_TAIL = incomplete_tail p /\
  has_flag (encode_flags p) FLAG_FULL_PREFIX = bool_decide (verification p = FullPrefix).
Proof.
  unfold encode_flags.
  destruct (physical_identity p), (modified_time_ns p), (discarding_oversized_line p),
    (incomplete_tail p), (verification p); vm_compute; repeat split; congruence.
Qed.

(** ** The checks *)

Lemma ReaderCheckpointV1_new_ok (p q : ReaderCheckpointParts R) :
  ReaderCheckpointV1_new p = Ok q <-> q = p /\ checkpoint_ok p.
Proof.
  unfold ReaderCheckpointV1_new, checkpoint_ok, anchor_end. split.
  - intros H. inv_ok H. split; [done|].
    destruct (checked_add _ _ _) eqn:Ha; [|done].
    apply checked_add_Some in Ha as [-> Ha]. apply ok_or_Ok in Hv. simpl in *. to_prop.
    split_and!; eauto; try lia; intros Hd; rewrite Hd in *; simpl in *.
    + destruct H0 as [|H0]; [done|]. by to_prop.
    + destruct E4 as [|E4]; [done|]. by to_prop.
  - intros [-> (Hv & Hr & (json & Hj & Hl) & Ho & Hn & Hd & He)].
    rewrite Hv, Z.eqb_refl, Hr, Hj. simpl.
    rewrite (proj2 (checked_add_Some _ _ _ _)) by (split; [done|lia]). simpl.
    destruct (discarding_oversized_line p) eqn:E; simpl.
    + destruct (Hd eq_refl) as [-> Hne]. by decide_guards.
    + specialize (Hn eq_refl). by decide_guards.
Qed.

Lemma BoundaryAnchor_new_ok start len sha a :
  BoundaryAnchor_new start len sha = Ok a <->
  a = {| anchor_start := start; anchor_len := len; anchor_sha256 := sha |} /\
  len <= MAX_ANCHOR_BYTES /\ start + len <= u64_max.
Proof.
  unfold BoundaryAnchor_new, is_none, checked_add.
  destruct (_ <? _) eqn:E, (_ <=? _) eqn:E2; simpl; to_prop; naive_solver lia.
Qed.

(** ** Decoding the header *)

(** The decoder behind the identity check, as a function of the fields *)
Definition finish (r : ReaderCheckpointParts R) (resume_len : Z) (json : list Z)
  : result (ReaderCheckpointParts R) CodexCheckpointErrorCode :=
  fail_if MAX_RESUME_BYTES <? resume_len with CapacityExceeded else
  fail_if Z.of_nat (length json) <? resume_len with InvalidEnvelope else
  fail_if resume_len <? Z.of_nat (length json) with TrailingBytes else
  let? resumed := ok_or (from_slice json) InvalidResume in
  match BoundaryAnchor_new (anchor_start (anchor r)) (anchor_len (anchor r)) (anchor_sha256 (anchor r)) with
  | Err _ => Err InvalidCheckpoint
  | Ok a =>
      match ReaderCheckpointV1_new
        {| parser_schema_version := parser_schema_version r;
           physical_identity := physical_identity r;
           logical_identity := logical_identity r;
           committed_offset := committed_offset r;
           scan_offset := scan_offset r;
           observed_file_length := observed_file_length r;
           modified_time_ns := modified_time_ns r;
           anchor := a;
           resume := resumed;
           discarding_oversized_line := discarding_oversized_line r;
           incomplete_tail := incomplete_tail r;
           verification := verification r |} with
      | Err _ => Err InvalidCheckpoint
      | Ok reader => Ok reader
      end
  end.

Lemma envelope_length r n json : parts_typed r ->
  Z.of_nat (length (envelope r n json)) = FIXED_BYTES + Z.of_nat (length json).
Proof.
  intros (_ & Hp & Hl & _ & _ & _ & _ & _ & _ & Ha). unfold envelope.
  assert (length (unwrap_or (physical_identity r) (replicate 32 0)) = 32%nat) as Hp'.
  { destruct (physical_identity r) eqn:E; simpl; [by apply Hp|done]. }
  unfold push_u16, push_u32, push_u64, push_i64, FIXED_BYTES. autorewrite with lengths.
  rewrite Hl, Hp', Ha.
  change (length MAGIC) with 4%nat. lia.
Qed.

(** The last part of the decoder on a tail of any length *)
Lemma finish_fields r n json (x : bool) :
  0 <= n -> x = bool_decide (verification r = FullPrefix) ->
  (fail_if MAX_RESUME_BYTES <? n with CapacityExceeded else
   fail_if FIXED_BYTES + Z.of_nat (length json) <? FIXED_BYTES + n with InvalidEnvelope else
   fail_if FIXED_BYTES + n <? FIXED_BYTES + Z.of_nat (length json) with TrailingBytes else
   let? resumed := ok_or (from_slice (take (Z.to_nat n) json)) InvalidResume in
   match BoundaryAnchor_new (anchor_start (anchor r)) (anchor_len (anchor r)) (anchor_sha256 (anchor r)) with
   | Err _ => Err InvalidCheckpoint
   | Ok a =>
      match ReaderCheckpointV1_new
        {| parser_schema_version := parser_schema_version r;
           physical_identity := physical_identity r;
           logical_identity := logical_identity r;
           committed_offset := committed_offset r;
           scan_offset := scan_offset r;
           observed_file_length := observed_file_length r;
           modified_time_ns := modified_time_ns r;
           anchor := a;
           resume := resumed;
           discarding_oversized_line := discarding_oversized_line r;
           incomplete_tail := incomplete_tail r;
           verification := if negb x then Incremental else FullPrefix |} with
      | Err _ => Err InvalidCheckpoint
      | Ok reader => Ok reader
      end
   end) = finish r n json.
Proof.
  intros Hn ->. unfold finish. destruct (_ <? n) eqn:E0; [done|].
  destruct (Z.of_nat (length json) <? n) eqn:E1, (n <? Z.of_nat (length json)) eqn:E2; to_prop.
  - lia.
  - by decide_guards.
  - by decide_guards.
  - decide_guards. rewrite take_ge by lia. by destruct (verification r).
Qed.

Lemma decode_envelope r n json expected :
  parts_typed r -> in_u32 n -> FIXED_BYTES + Z.of_nat (length json) <= MAX_CODEX_CHECKPOINT_BYTES ->
  decode (envelope r n json) expected =
  (fail_if negb (bool_decide (logical_identity r = expected)) with IdentityMismatch else finish r n json).
Proof.
  intros Ht Hn Hlen. pose proof (envelope_length r n json Ht) as Hl.
  destruct Ht as (Hv & Hp & Hli & Hc & Hs & Ho & Hm & Has & Hal & Ha).
  destruct (encode_flags_spec r) as (Hf & Hk & Hfp & Hfm & Hfd & Hfi & Hff).
  unfold decode. rewrite Hl.
  rewrite (proj2 (Z.ltb_ge MAX_CODEX_CHECKPOINT_BYTES _)), (proj2 (Z.ltb_ge _ FIXED_BYTES)) by lia.
  unfold envelope. rewrite take_app_length', drop_app_length' by done.
  rewrite bool_decide_true by done. cbn [negb orb].
  rewrite take_u16_push by done. change (negb (ENVELOPE_VERSION =? ENVELOPE_VERSION)) with false.
  cbv beta iota zeta. rewrite take_u16_push by done.
  change (negb (READER_CHECKPOINT_SCHEMA_VERSION =? READER_CHECKPOINT_SCHEMA_VERSION)) with false.
  read_fields. rewrite Hk. cbn [Z.eqb negb]. read_fields.
  destruct (bool_decide (logical_identity r = expected)); cbn [negb]; [|done].
  rewrite take_array_app by (destruct (physical_identity r) eqn:E; simpl; [by apply Hp|done]).
  cbv beta iota zeta. rewrite Hfp, Hfm, Hfd, Hfi, Hff.
  replace (if is_some (physical_identity r) then _ else _)
    with (@Ok _ CodexCheckpointErrorCode (physical_identity r)) by (by destruct (physical_identity r)).
  cbn [rbind]. read_fields.
  rewrite take_i64_push by (destruct (modified_time_ns r) eqn:E; simpl; [by apply Hm|by compute]).
  cbv beta iota zeta.
  replace (if is_some (modified_time_ns r) then _ else _)
    with (@Ok _ CodexCheckpointErrorCode (modified_time_ns r)) by (by destruct (modified_time_ns r)).
  assert (in_u16 (anchor_len (anchor r))) by (unfold in_u16, u16_max, MAX_ANCHOR_BYTES in *; lia).
  cbn [rbind]. read_fields. apply finish_fields; [apply Hn|done].
Qed.

(** A complete envelope is restored field by field. *)
Lemma finish_ok r json :
  checkpoint_ok r -> anchor_len (anchor r) <= MAX_ANCHOR_BYTES ->
  Z.of_nat (length json) <= MAX_RESUME_BYTES -> from_slice json = Some (resume r) ->
  finish r (Z.of_nat (length json)) json = Ok r.
Proof.
  intros Hok Hal Hlen Hj. unfold finish. decide_guards. rewrite Hj. cbn [ok_or rbind].
  rewrite (proj2 (BoundaryAnchor_new_ok _ _ _ _)) by (split_and!; [done..|];
    destruct Hok as (_ & _ & _ & _ & _ & _ & ?); lia).
  rewrite (proj2 (ReaderCheckpointV1_new_ok _ r)); [done|].
  split; [by destruct r as [???????[]????]|]. by destruct r as [???????[]????].
Qed.

(** ** What a decoded envelope looks like *)

(** The bytes at the front of an input of sufficient length are a field. *)
Definition rest_ok (l : list Z) (n : nat) : Prop := Forall byte_ok l /\ (n <= length l)%nat.

Lemma split_array n m l : rest_ok l (n + m) ->
  exists f rest, l = f ++ rest /\ length f = n /\ Forall byte_ok f /\ rest_ok rest m.
Proof.
  intros [Hb Hl]. exists (take n l), (drop n l). rewrite take_drop, length_take.
  split_and!; [done|lia|by apply Forall_take|split; [by apply Forall_drop|rewrite length_drop; lia]].
Qed.

Lemma split_uint n m l : rest_ok l (n + m) ->
  exists v rest, l = le_bytes n v ++ rest /\ 0 <= v < 256 ^ Z.of_nat n /\ rest_ok rest m.
Proof.
  intros (f & rest & -> & Hf & Hb & Hr)%split_array. exists (le_value f), rest.
  pose proof (le_value_bound f Hb) as B. rewrite Hf in B. rewrite <- Hf at 1.
  by rewrite le_bytes_value.
Qed.

Lemma split_u16 m l : rest_ok l (2 + m) ->
  exists v rest, l = push_u16 v ++ rest /\ in_u16 v /\ rest_ok rest m.
Proof.
  intros (v & rest & -> & Hv & Hr)%split_uint. exists v, rest. split_and!; [done| |done].
  change (256 ^ Z.of_nat 2) with (2 ^ 16) in Hv. auto with ints.
Qed.

Lemma split_u32 m l : rest_ok l (4 + m) ->
  exists v rest, l = push_u32 v ++ rest /\ in_u32 v /\ rest_ok rest m.
Proof.
  intros (v & rest & -> & Hv & Hr)%split_uint. exists v, rest. split_and!; [done| |done].
  change (256 ^ Z.of_nat 4) with (2 ^ 32) in Hv. auto with ints.
Qed.

Lemma split_u64 m l : rest_ok l (8 + m) ->
  exists v rest, l = push_u64 v ++ rest /\ in_u64 v /\ rest_ok rest m.
Proof.
  intros (v & rest & -> & Hv & Hr)%split_uint. exists v, rest. split_and!; [done| |done].
  change (256 ^ Z.of_nat 8) with (2 ^ 64) in Hv. auto with ints.
Qed.

Lemma split_i64 m l : rest_ok l (8 + m) ->
  exists v rest, l = push_i64 v ++ rest /\ in_i64 v /\ rest_ok rest m.
Proof.
  intros (v & rest & -> & Hv & Hr)%split_uint. simpl in Hv. unfold push_i64, in_i64, i64_min, i64_max.
  destruct (decide (v < 2 ^ 63)) as [Hs|Hs].
  - exists v, rest. rewrite Z.mod_small by lia. split_and!; [done|lia|lia|done].
  - exists (v - 2 ^ 64), rest. replace (v - 2 ^ 64) with (v + (-1) * 2 ^ 64) by lia.
    rewrite Z.mod_add, Z.mod_small by lia. split_and!; [done|lia|lia|done].
Qed.

(** Any input of at least 154 bytes, as the fields of a header. *)
Lemma header_shape bs : rest_ok bs 154 ->
  exists magic ev sv pv fl logical physical c s o m st al sha n json,
  bs = magic ++ push_u16 ev ++ push_u16 sv ++ push_u16 pv ++ push_u16 fl ++ logical ++ physical
    ++ push_u64 c ++ push_u64 s ++ push_u64 o ++ push_i64 m ++ push_u64 st ++ push_u16 al ++ sha
    ++ push_u32 n ++ json /\
  length magic = 4%nat /\ (in_u16 ev /\ in_u16 sv /\ in_u16 pv /\ in_u16 fl) /\
  length logical = 32%nat /\ length physical = 32%nat /\
  (in_u64 c /\ in_u64 s /\ in_u64 o /\ in_i64 m /\ in_u64 st /\ in_u16 al) /\
  length sha = 32%nat /\ in_u32 n /\ Z.of_nat (length bs) = FIXED_BYTES + Z.of_nat (length json).
Proof.
  intros (magic & ? & -> & ? & _ & H)%(split_array 4 150).
  apply (split_u16 148) in H as (ev & ? & -> & ? & H).
  apply (split_u16 146) in H as (sv & ? & -> & ? & H).
  apply (split_u16 144) in H as (pv & ? & -> & ? & H).
  apply (split_u16 142) in H as (fl & ? & -> & ? & H).
  apply (split_array 32 110) in H as (logical & ? & -> & ? & _ & H).
  apply (split_array 32 78) in H as (physical & ? & -> & ? & _ & H).
  apply (split_u64 70) in H as (c & ? & -> & ? & H).
  apply (split_u64 62) in H as (s & ? & -> & ? & H).
  apply (split_u64 54) in H as (o & ? & -> & ? & H).
  apply (split_i64 46) in H as (m & ? & -> & ? & H).
  apply (split_u64 38) in H as (st & ? & -> & ? & H).
  apply (split_u16 36) in H as (al & ? & -> & ? & H).
  apply (split_array 32 4) in H as (sha & ? & -> & ? & _ & H).
  apply (split_u32 0) in H as (n & json & -> & ? & _).
  exists magic, ev, sv, pv, fl, logical, physical, c, s, o, m, st, al, sha, n, json.
  split_and!; try done. unfold push_u16, push_u32, push_u64, push_i64, FIXED_BYTES.
  autorewrite with lengths. lia.
Qed.

Lemma flags_canonical f (p : ReaderCheckpointParts R) :
  in_u16 f -> Z.land f (Z.lxor u16_max KNOWN_FLAGS) = 0 ->
  is_some (physical_identity p) = has_flag f FLAG_PHYSICAL_IDENTITY ->
  is_some (modified_time_ns p) = has_flag f FLAG_MODIFIED_TIME ->
  discarding_oversized_line p = has_flag f FLAG_DISCARDING_OVERSIZED_LINE ->
  incomplete_tail p = has_flag f FLAG_INCOMPLETE_TAIL ->
  verification p = (if negb (has_flag f FLAG_FULL_PREFIX) then Incremental else FullPrefix) ->
  encode_flags p = f.
Proof.
  intros Hf Hk H1 H2 H3 H4 H5. unfold encode_flags. rewrite H1, H2, H3, H4, H5.
  assert (f = f mod 2 ^ 5) as E.
  { rewrite <- Z.land_ones by lia.
    transitivity (Z.land f (Z.ones 16)).
    - rewrite Z.land_ones, Z.mod_small by (unfold in_u16, u16_max in Hf; lia). done.
    - change (Z.ones 16) with (Z.lor (Z.ones 5) (Z.lxor u16_max KNOWN_FLAGS)).
      by rewrite Z.land_lor_distr_r, Hk, Z.lor_0_r. }
  pose proof (Z.mod_pos_bound f (2 ^ 5)). clear -E H.
  replace f with (Z.of_nat (Z.to_nat f)) by lia.
  assert (Z.to_nat f < 32)%nat as Hn by lia.
  generalize dependent (Z.to_nat f). clear. intros n Hn.
  do 32 (destruct n as [|n]; [vm_compute; reflexivity|]). lia.
Qed.

(** The decoder behind the header fields *)
Lemma physical_field fl physical p :
  length physical = 32%nat ->
  (if has_flag fl FLAG_PHYSICAL_IDENTITY then Ok (Some physical)
   else fail_if negb (bool_decide (physical = replicate 32 0)) with InvalidFlags else Ok None) = Ok p ->
  physical = unwrap_or p (replicate 32 0) /\ is_some p = has_flag fl FLAG_PHYSICAL_IDENTITY /\
  (forall i, p = Some i -> length i = 32%nat).
Proof. intros Hl H. inv_ok H; naive_solver. Qed.

Lemma modified_field fl m p :
  in_i64 m ->
  (if has_flag fl FLAG_MODIFIED_TIME then Ok (Some m)
   else fail_if negb (m =? 0) with InvalidFlags else Ok None) = Ok p ->
  m = unwrap_or p 0 /\ is_some p = has_flag fl FLAG_MODIFIED_TIME /\ (forall t, p = Some t -> in_i64 t).
Proof. intros Hl H. inv_ok H; naive_solver. Qed.

(** ** Damaged envelopes *)

Lemma envelope_split r n json : envelope r n json = envelope r n [] ++ json.
Proof. unfold envelope. by rewrite <- !app_assoc. Qed.

Lemma envelope_take r n json k : parts_typed r -> (154 <= k)%nat ->
  take k (envelope r n json) = envelope r n (take (k - 154) json).
Proof.
  intros Ht Hk. rewrite envelope_split, (envelope_split r n (take _ _)).
  pose proof (envelope_length r n [] Ht) as Hl. unfold FIXED_BYTES in Hl. rewrite length_nil in Hl.
  rewrite take_app_ge by lia. do 2 f_equal. lia.
Qed.

Lemma decode_short bs expected : Z.of_nat (length bs) < FIXED_BYTES ->
  decode bs expected = Err InvalidEnvelope.
Proof.
  intros Hl. unfold decode. unfold FIXED_BYTES, MAX_CODEX_CHECKPOINT_BYTES in *.
  by decide_guards.
Qed.

Lemma encode_inv (r : ReaderCheckpointParts R) bs : encode r = Ok bs ->
  exists json, to_vec (resume r) = Some json /\ bs = envelope r (Z.of_nat (length json)) json /\
    Z.of_nat (length json) <= MAX_RESUME_BYTES /\ in_u32 (Z.of_nat (length json)) /\
    FIXED_BYTES + Z.of_nat (length json) <= MAX_CODEX_CHECKPOINT_BYTES.
Proof.
  unfold encode. intros He. inv_ok He. apply ok_or_Ok in Hv. exists v. split_and!; try done.
  unfold in_u32, u32_max. unfold MAX_RESUME_BYTES in *. lia.
Qed.

(** ** Claims *)

(** C28. The binary envelope loses nothing: a valid checkpoint whose parser state
    serializes to a JSON text that fits encodes, to 154 bytes plus that text, and
    decoding these bytes for the same file gives the same checkpoint back; when the
    text does not fit, encoding reports the capacity error. *)
Theorem checkpoint_roundtrip `{!ResumeLaws R} (r : ReaderCheckpointParts R) json :
  parts_typed r -> checkpoint_ok r -> to_vec (resume r) = Some json ->
  if FIXED_BYTES + Z.of_nat (length json) <=? MAX_CODEX_CHECKPOINT_BYTES then
    exists bs, encode r = Ok bs /\ Z.of_nat (length bs) = FIXED_BYTES + Z.of_nat (length json) /\
      decode bs (logical_identity r) = Ok r
  else encode r = Err CapacityExceeded.
Proof.
  intros Ht Hok Hj.
  unfold encode. rewrite Hj. cbn [ok_or rbind].
  destruct (_ <=? _) eqn:E; to_prop; unfold FIXED_BYTES, MAX_CODEX_CHECKPOINT_BYTES, MAX_RESUME_BYTES in *.
  - decide_guards. cbn [orb]. eexists. split; [done|].
    split; [by apply envelope_length|]. rewrite decode_envelope; [| done | |].
    + rewrite bool_decide_true by done. apply finish_ok; [done| | |by apply from_to_vec].
      * apply Ht.
      * unfold MAX_RESUME_BYTES. lia.
    + unfold in_u32, u32_max. lia.
    + unfold FIXED_BYTES, MAX_CODEX_CHECKPOINT_BYTES. lia.
  - decide_guards. by rewrite orb_true_r.
Qed.

(** C36. Nothing else is accepted: bytes that decode are, byte for byte, the header
    of the checkpoint they decode to followed by a JSON text of its parser state
    (so no flag, reserved field or length is ignored), the checkpoint is for the
    expected file, its fields are in range and its offsets, anchor and flags are
    consistent. *)
Theorem decode_accepts_only_envelopes bs expected (r : ReaderCheckpointParts R) :
  Forall byte_ok bs -> decode bs expected = Ok r ->
  exists json, bs = envelope r (Z.of_nat (length json)) json /\
    from_slice json = Some (resume r) /\ logical_identity r = expected /\
    parts_typed r /\ checkpoint_ok r /\
    FIXED_BYTES + Z.of_nat (length json) <= MAX_CODEX_CHECKPOINT_BYTES.
Proof.
  intros Hb. unfold decode.
  destruct (MAX_CODEX_CHECKPOINT_BYTES <? _) eqn:Hmax; [done|].
  destruct (_ || _) eqn:Hmin; [done|]. to_prop.
  destruct (header_shape bs) as (magic & ev & sv & pv & fl & logical & physical & c & s & o & m & st
    & al & sha & n & json & Hbs & Hmag & (?&?&?&?) & ? & Hph & (?&?&?&?&?&?) & ? & ? & Hlen).
  { split; [done|]. unfold FIXED_BYTES in *. lia. }
  rewrite Hlen in *. rewrite Hbs in H0 |- *. rewrite take_app_length' in H0 by done. subst magic.
  rewrite drop_app_length' by done.
  read_fields. rewrite take_i64_push by done. read_fields.
  intros Hd.
  remember (if negb (has_flag fl FLAG_FULL_PREFIX) then Incremental else FullPrefix) as x eqn:Hx.
  inv_ok Hd.
  apply physical_field in Hv as (-> & Hfp & Hpl); [|done].
  apply modified_field in Hv0 as (-> & Hfm & Htl); [|done].
  apply ReaderCheckpointV1_new_ok in E7 as [-> Hok]. apply BoundaryAnchor_new_ok in E6 as (-> & ? & ?).
  apply ok_or_Ok in Hv1. assert (n = Z.of_nat (length json)) as -> by lia.
  rewrite Nat2Z.id, firstn_all in Hv1. exists json. split_and!; try done.
  - unfold envelope. rewrite (flags_canonical fl) by done. by rewrite E, E0.
  - unfold parts_typed. cbn. split_and!; try done. apply H11.
Qed.

(** Damage is recognised: of the bytes written for a checkpoint, every proper
    prefix is rejected as an invalid envelope, every extension as trailing bytes (or
    as too large), and any other file's identity as a mismatch. *)
Theorem damaged_checkpoint_rejected (r : ReaderCheckpointParts R) bs :
  parts_typed r -> encode r = Ok bs ->
  (forall k, (k < length bs)%nat -> decode (take k bs) (logical_identity r) = Err InvalidEnvelope) /\
  (forall extra, extra <> [] ->
     decode (bs ++ extra) (logical_identity r) =
     Err (if Z.of_nat (length (bs ++ extra)) <=? MAX_CODEX_CHECKPOINT_BYTES
          then TrailingBytes else CapacityExceeded)) /\
  (forall other, other <> logical_identity r -> decode bs other = Err IdentityMismatch).
Proof.
  intros Ht (json & _ & -> & Hr & Hn & Hmax)%encode_inv.
  pose proof (envelope_length r (Z.of_nat (length json)) json Ht) as Hlen. split_and!.
  - intros k Hk. destruct (decide (k < 154)%nat) as [Hs|Hs].
    + apply decode_short. rewrite length_take. unfold FIXED_BYTES. lia.
    + rewrite envelope_take by (done || lia). unfold FIXED_BYTES in *.
      rewrite decode_envelope by (done || rewrite length_take; unfold FIXED_BYTES; lia).
      rewrite bool_decide_true by done. unfold finish. autorewrite with lengths. by decide_guards.
  - intros extra Hx. destruct extra as [|x extra]; [done|]. destruct (_ <=? _) eqn:E; to_prop.
    + rewrite envelope_split, <- app_assoc, <- envelope_split.
      rewrite length_app, Nat2Z.inj_add, Hlen in E. cbn [length] in E.
      rewrite decode_envelope by (done || rewrite length_app; cbn [length]; lia).
      rewrite bool_decide_true by done. unfold finish. rewrite length_app. cbn [length]. by decide_guards.
    + unfold decode. by decide_guards.
  - intros other Ho. rewrite decode_envelope by done. by rewrite bool_decide_false by done.
Qed.
End checkpoint.

(** ** The claims at concrete checkpoints

    A parser state whose JSON text is a string of digits stands for the real one. *)

#[local] Instance digits_resume : ResumeState (list Z) := {
  to_vec l := Some (lit "{" ++ l ++ lit "}");
  from_slice l :=
    match l with
    | 123 :: l => match reverse l with 125 :: r => Some (reverse r) | _ => None end
    | _ => None
    end;
  resumable l := forallb is_ascii_digit l
}.

#[local] Instance digits_laws : ResumeLaws (list Z).
Proof. intros r json [= <-]. simpl. rewrite reverse_app. simpl. by rewrite reverse_involutive. Qed.

Definition sample_checkpoint : ReaderCheckpointParts (list Z) :=
  {| parser_schema_version := 2;
     physical_identity := Some (replicate 32 7);
     logical_identity := replicate 32 9;
     committed_offset := 4096;
     scan_offset := 9000;
     observed_file_length := 9000;
     modified_time_ns := Some (-5);
     anchor := {| anchor_start := 4000; anchor_len := 96; anchor_sha256 := replicate 32 1 |};
     resume := lit "42";
     discarding_oversized_line := true;
     incomplete_tail := true;
     verification := FullPrefix |}.

Lemma sample_typed : parts_typed sample_checkpoint.
Proof.
  unfold parts_typed, sample_checkpoint, in_u16, in_u64, in_i64, u16_max, u64_max, i64_min, i64_max,
    MAX_ANCHOR_BYTES; simpl. split_and!; try lia; try done.
  - by intros i [= <-].
  - intros t [= <-]. lia.
Qed.

Lemma sample_ok : checkpoint_ok sample_checkpoint.
Proof.
  unfold checkpoint_ok. split_and!; try done.
  - by exists (lit "{42}").
Qed.

Lemma checkpoint_roundtrip_witness :
  exists bs, encode sample_checkpoint = Ok bs /\ length bs = 158%nat /\
    decode bs (replicate 32 9) = Ok sample_checkpoint.
Proof.
  destruct (checkpoint_roundtrip sample_checkpoint (lit "{42}") sample_typed sample_ok eq_refl)
    as (bs & He & Hl & Hd).
  exists bs. split; [exact He|split; [|exact Hd]].
  change (Z.of_nat (length bs) = 158) in Hl. lia.
Defined.

Lemma decode_accepts_only_envelopes_witness :
  exists bs, decode bs (replicate 32 9) = Ok sample_checkpoint /\ checkpoint_ok sample_checkpoint.
Proof.
  assert (decode (envelope sample_checkpoint 4 (lit "{42}")) (replicate 32 9) = Ok sample_checkpoint) as Hd
    by (vm_compute; reflexivity).
  assert (Forall byte_ok (envelope sample_checkpoint 4 (lit "{42}"))) as Hb
    by (apply forallb_byte_ok; vm_compute; reflexivity).
  eexists. split; [exact Hd|].
  destruct (decode_accepts_only_envelopes _ _ _ Hb Hd) as (? & _ & _ & _ & _ & Hok & _).
  exact Hok.
Defined.

Lemma damaged_checkpoint_rejected_witness :
  exists bs, encode sample_checkpoint = Ok bs /\
    decode (take 157 bs) (replicate 32 9) = Err InvalidEnvelope /\
    decode (bs ++ [0]) (replicate 32 9) = Err TrailingBytes /\
    decode bs (replicate 32 8) = Err IdentityMismatch.
Proof.
  assert (encode sample_checkpoint = Ok (envelope sample_checkpoint 4 (lit "{42}"))) as He
    by (vm_compute; reflexivity).
  eexists. split; [exact He|].
  destruct (damaged_checkpoint_rejected _ _ sample_typed He) as (H1 & H2 & H3). split_and!.
  - apply H1. vm_compute. lia.
  - apply (H2 [0]). discriminate.
  - apply H3. vm_compute. discriminate.
Defined.
