(* ===== verification/Framing.v ===== *)
(** * Line framing of a source file

    Models [crates/codex/src/reader/framing.rs] with the diagnostics and limits of
    [reader/mod.rs] and [parser/mod.rs]: a batch of complete lines is cut out of a
    buffered reader, lines over 16 MiB are skipped without being kept in memory,
    and the position to continue from is reported.

    The line parser is used through the interface [LineParser]: it reads a context,
    a state, the offset of the line and its bytes; into the diagnostics it only
    writes.  A buffered reader is the list of what its [fill_buf] calls return, a
    buffer being returned again until it is consumed; [should_cancel] is a function
    of the number of the call, and [try_reserve] says whether an allocation for a
    line succeeds.

    The reference is [ingest], a single pass over the bytes of the file: the second
    half shows that batches, however the file is cut into buffers and batches,
    deliver exactly what that pass delivers.  At the end of a batch the last committed
    bytes are hashed into the anchor of its checkpoint ([reader/source.rs]). *)

From S2P Require Import Prelude Usage Checkpoint.

(** ** Limits, diagnostics, errors *)

Definition READ_BUFFER_BYTES : Z := 128 * 1024.
Definition MAX_BATCH_EVENTS : nat := 256.
Definition MAX_BATCH_COMPLETE_BYTES : Z := Z.shiftl 1 20.
Definition MAX_LINE_BYTES : Z := Z.shiftl 16 20.

Inductive ReaderErrorCode :=
| InvalidDescriptor | NonRegular | ReparsePoint | OpenFailed | ReadFailed | SeekFailed
| SourceChanged | CheckpointInvalid | AnchorMismatch | ResumeInvalid | Cancelled
| ReaderCapacityExceeded.

Inductive ReaderDiagnosticCode := CompleteLine | CrlfLine | IncompleteTail | OversizedLine.

Record ReaderDiagnostics := {
  complete_lines : Z;
  crlf_lines : Z;
  incomplete_tails : Z;
  oversized_lines : Z;
  max_line_bytes_retained : Z
}.

Definition ReaderDiagnostics_default : ReaderDiagnostics :=
  {| complete_lines := 0; crlf_lines := 0; incomplete_tails := 0; oversized_lines := 0;
     max_line_bytes_retained := 0 |}.

(** [ReaderDiagnostics::record] *)
Definition reader_record (d : ReaderDiagnostics) (code : ReaderDiagnosticCode) : ReaderDiagnostics :=
  let inc v := saturating_add u64_max v 1 in
  match code with
  | CompleteLine => {| complete_lines := inc (complete_lines d); crlf_lines := crlf_lines d;
      incomplete_tails := incomplete_tails d; oversized_lines := oversized_lines d;
      max_line_bytes_retained := max_line_bytes_retained d |}
  | CrlfLine => {| complete_lines := complete_lines d; crlf_lines := inc (crlf_lines d);
      incomplete_tails := incomplete_tails d; oversized_lines := oversized_lines d;
      max_line_bytes_retained := max_line_bytes_retained d |}
  | IncompleteTail => {| complete_lines := complete_lines d; crlf_lines := crlf_lines d;
      incomplete_tails := inc (incomplete_tails d); oversized_lines := oversized_lines d;
      max_line_bytes_retained := max_line_bytes_retained d |}
  | OversizedLine => {| complete_lines := complete_lines d; crlf_lines := crlf_lines d;
      incomplete_tails := incomplete_tails d; oversized_lines := inc (oversized_lines d);
      max_line_bytes_retained := max_line_bytes_retained d |}
  end.

Definition observe_line_bytes (d : ReaderDiagnostics) (bytes : nat) : ReaderDiagnostics :=
  {| complete_lines := complete_lines d; crlf_lines := crlf_lines d;
     incomplete_tails := incomplete_tails d; oversized_lines := oversized_lines d;
     max_line_bytes_retained := Z.max (max_line_bytes_retained d) (Z.of_nat bytes) |}.

Inductive ParserDiagnosticCode :=
| LineTooLarge | MalformedJson | InvalidToken | InvalidTimestamp | ZeroUsage | InvalidModel
| ModelFallback | InvalidMetadata | MetadataTruncated | InvalidPath | ToolCapacity | Irrelevant.

Definition diagnostic_index (code : ParserDiagnosticCode) : nat :=
  match code with
  | LineTooLarge => 0 | MalformedJson => 1 | InvalidToken => 2 | InvalidTimestamp => 3
  | ZeroUsage => 4 | InvalidModel => 5 | ModelFallback => 6 | InvalidMetadata => 7
  | MetadataTruncated => 8 | InvalidPath => 9 | ToolCapacity => 10 | Irrelevant => 11
  end.

(** The counters; the twelve named ones are the entries of [diagnostic_counts]. *)
Record ParserDiagnostics := {
  diagnostic_lines : Z;
  emitted_events : Z;
  metadata_lines : Z;
  tool_events : Z;
  diagnostic_counts : list Z
}.

Definition ParserDiagnostics_new : ParserDiagnostics :=
  {| diagnostic_lines := 0; emitted_events := 0; metadata_lines := 0; tool_events := 0;
     diagnostic_counts := replicate 12 0 |}.

(** [ParserDiagnostics::record], [record_line] *)
Definition parser_record (d : ParserDiagnostics) (code : ParserDiagnosticCode) : ParserDiagnostics :=
  {| diagnostic_lines := diagnostic_lines d; emitted_events := emitted_events d;
     metadata_lines := metadata_lines d; tool_events := tool_events d;
     diagnostic_counts :=
       alter (fun v => saturating_add u64_max v 1) (diagnostic_index code) (diagnostic_counts d) |}.
Definition record_line (d : ParserDiagnostics) : ParserDiagnostics :=
  {| diagnostic_lines := saturating_add u64_max (diagnostic_lines d) 1;
     emitted_events := emitted_events d; metadata_lines := metadata_lines d;
     tool_events := tool_events d; diagnostic_counts := diagnostic_counts d |}.

(** ** The parser's interface *)

Record ParseContext := {
  pc_provider_id : str;
  pc_profile_id : str;
  pc_source_id : str;
  pc_filename_session_hint : option str;
  pc_hashed_session_hint : str;
  pc_source_verification : ObservationVerification
}.

(** The fields of [SourceFileDescriptor] the framing reads *)
Record SourceFileDescriptor := {
  sd_profile_id : str;
  sd_source_id : str;
  sd_filename_session_hint : option str;
  sd_hashed_session_hint : str
}.

Definition ParseContext_new (profile_id source_id : str) (filename_session_hint : option str)
    (hashed_session_hint : str) : ParseContext :=
  {| pc_provider_id := lit "codex"; pc_profile_id := profile_id; pc_source_id := source_id;
     pc_filename_session_hint := filename_session_hint;
     pc_hashed_session_hint := hashed_session_hint; pc_source_verification := Usage.Incremental |}.

Definition with_source_verification (c : ParseContext) (v : ObservationVerification) : ParseContext :=
  {| pc_provider_id := pc_provider_id c; pc_profile_id := pc_profile_id c;
     pc_source_id := pc_source_id c; pc_filename_session_hint := pc_filename_session_hint c;
     pc_hashed_session_hint := pc_hashed_session_hint c; pc_source_verification := v |}.

Inductive ParseOutcome :=
| Emitted (event : ObservationDraft)
| SessionRelation (relation : SessionRelationDraft)
| MetadataOnly
| ToolOnly
| Skipped
| Rejected (code : ParserDiagnosticCode).

Class LineParser (S : Type) := {
  (** [parse_line(context, state, diagnostics, source_offset, line)]: the new state,
      what is written to the diagnostics, and the outcome *)
  parse_line : ParseContext -> S -> Z -> list Z ->
    S * (ParserDiagnostics -> ParserDiagnostics) * ParseOutcome
}.

(** ** The buffered reader *)

Inductive Read := Data (bytes : list Z) | Failed.

(** [memchr] *)
Fixpoint memchr (needle : Z) (haystack : list Z) : option nat :=
  match haystack with
  | [] => None
  | b :: rest => if b =? needle then Some O else S <$> memchr needle rest
  end.

(** [BufRead::consume]: a buffer that is used up is followed by the next read *)
Definition consume (available : list Z) (amount : nat) (rest : list Read) : list Read :=
  match drop amount available with
  | [] => rest
  | b :: l => Data (b :: l) :: rest
  end.

Definition read_bytes (r : Read) : list Z := match r with Data b => b | Failed => [] end.
Definition stream (reads : list Read) : list Z := mjoin (map read_bytes reads).

(** ** [read_lines] *)

Section framing.
Context {S : Type} `{!LineParser S}.
Context (sha256 : list Z -> list Z).
(** [Vec::try_reserve_exact] for a line of this length and this many more bytes
    (and the capacity check before it) *)
Context (try_reserve : nat -> nat -> bool).
(** The n-th call of [should_cancel] *)
Context (should_cancel : nat -> bool).

Record FramingResult := {
  fr_state : S;
  fr_events : list ObservationDraft;
  fr_relations : list SessionRelationDraft;
  fr_diagnostics : ReaderDiagnostics;
  fr_parser_diagnostics : ParserDiagnostics;
  fr_committed_offset : Z;
  fr_scan_offset : Z;
  fr_bytes_read : Z;
  fr_reached_snapshot_end : bool;
  fr_incomplete_tail : bool;
  fr_discarding_oversized_line : bool;
  fr_consumed_sha256 : list Z
}.

Record FramingInput := {
  fi_descriptor : SourceFileDescriptor;
  fi_start_offset : Z;
  fi_committed_offset : Z;
  fi_state : S;
  fi_snapshot_end_offset : Z;
  fi_discarding_oversized_line : bool;
  fi_source_verification : ObservationVerification
}.

(** The variables of the loop *)
Record Frame := {
  f_state : S;
  f_events : list ObservationDraft;
  f_relations : list SessionRelationDraft;
  f_diagnostics : ReaderDiagnostics;
  f_parser_diagnostics : ParserDiagnostics;
  f_line : list Z;
  f_discarding : bool;
  f_absolute : Z;
  f_committed : Z;
  f_bytes_read : Z;
  f_complete_bytes : Z;
  f_line_batch_bytes : Z;
  f_consumed : list Z
}.

Definition context_of (input : FramingInput) : ParseContext :=
  let d := fi_descriptor input in
  with_source_verification
    (ParseContext_new (sd_profile_id d) (sd_source_id d) (sd_filename_session_hint d)
       (sd_hashed_session_hint d))
    (fi_source_verification input).

Definition initial_frame (input : FramingInput) : Frame :=
  {| f_state := fi_state input; f_events := []; f_relations := [];
     f_diagnostics := ReaderDiagnostics_default; f_parser_diagnostics := ParserDiagnostics_new;
     f_line := []; f_discarding := fi_discarding_oversized_line input;
     f_absolute := fi_start_offset input; f_committed := fi_committed_offset input;
     f_bytes_read := 0; f_complete_bytes := 0; f_line_batch_bytes := 0; f_consumed := [] |}.

Definition discard_read_limit (input : FramingInput) : Z :=
  if fi_discarding_oversized_line input then MAX_BATCH_COMPLETE_BYTES
  else MAX_LINE_BYTES + READ_BUFFER_BYTES.

Definition reserve_line (line : list Z) (additional : nat) : result unit ReaderErrorCode :=
  if try_reserve (length line) additional then Ok tt else Err ReaderCapacityExceeded.

(** The three cases for the content of the buffer: the line, the discarding flag,
    the diagnostics and [oversized_completion] *)
Definition take_content (f : Frame) (available : list Z) (newline : option nat)
  : result (list Z * bool * ReaderDiagnostics * bool) ReaderErrorCode :=
  let content_len := unwrap_or newline (length available) in
  let required := Z.of_nat (length (f_line f) + content_len) in
  if f_discarding f then Ok (f_line f, true, f_diagnostics f, is_some newline)
  else if MAX_LINE_BYTES <? required then
    let retain := Nat.min (Z.to_nat MAX_LINE_BYTES - length (f_line f)) content_len in
    let? diagnostics :=
      if (0 <? retain)%nat then
        let? _ := reserve_line (f_line f) retain in
        Ok (observe_line_bytes (f_diagnostics f) (length (f_line f ++ take retain available)))
      else Ok (f_diagnostics f) in
    Ok ([], true, diagnostics, is_some newline)
  else
    let? _ := reserve_line (f_line f) content_len in
    let line := f_line f ++ take content_len available in
    Ok (line, false, observe_line_bytes (f_diagnostics f) (length line), false).

(** The offsets and counters after the buffer was consumed *)
Definition advance (f : Frame) (consumed : list Z) (line : list Z) (discarding : bool)
    (diagnostics : ReaderDiagnostics) : Frame :=
  let n := Z.of_nat (length consumed) in
  {| f_state := f_state f; f_events := f_events f; f_relations := f_relations f;
     f_diagnostics := diagnostics; f_parser_diagnostics := f_parser_diagnostics f;
     f_line := line; f_discarding := discarding;
     f_absolute := saturating_add u64_max (f_absolute f) n;
     f_committed := f_committed f;
     f_bytes_read := saturating_add u64_max (f_bytes_read f) n;
     f_complete_bytes := f_complete_bytes f;
     f_line_batch_bytes := saturating_add u64_max (f_line_batch_bytes f) n;
     f_consumed := f_consumed f ++ consumed |}.

Definition ends_with_cr (line : list Z) : bool := is_some_and (last line) (fun b => b =? 13).

Definition parse_content (context : ParseContext) (f : Frame) (diagnostics : ReaderDiagnostics)
    (parse_bytes : list Z) : Frame :=
  let '(state, record, outcome) :=
    match parse_bytes with
    | [] => (f_state f, fun d => d, Skipped)
    | _ => parse_line context (f_state f) (f_committed f) parse_bytes
    end in
  {| f_state := state;
     f_events := f_events f ++ match outcome with Emitted e => [e] | _ => [] end;
     f_relations := f_relations f ++ match outcome with SessionRelation r => [r] | _ => [] end;
     f_diagnostics := diagnostics;
     f_parser_diagnostics := record (f_parser_diagnostics f);
     f_line := f_line f; f_discarding := f_discarding f; f_absolute := f_absolute f;
     f_committed := f_committed f; f_bytes_read := f_bytes_read f;
     f_complete_bytes := f_complete_bytes f; f_line_batch_bytes := f_line_batch_bytes f;
     f_consumed := f_consumed f |}.

Definition skip_oversized (f : Frame) (diagnostics : ReaderDiagnostics) : Frame :=
  {| f_state := f_state f; f_events := f_events f; f_relations := f_relations f;
     f_diagnostics := reader_record diagnostics OversizedLine;
     f_parser_diagnostics := parser_record (record_line (f_parser_diagnostics f)) LineTooLarge;
     f_line := f_line f; f_discarding := false; f_absolute := f_absolute f;
     f_committed := f_committed f; f_bytes_read := f_bytes_read f;
     f_complete_bytes := f_complete_bytes f; f_line_batch_bytes := f_line_batch_bytes f;
     f_consumed := f_consumed f |}.

(** A complete line, up to the batch limits *)
Definition complete_line (context : ParseContext) (f : Frame) (oversized_completion : bool) : Frame :=
  let diagnostics := reader_record (f_diagnostics f) CompleteLine in
  let f :=
    if oversized_completion then skip_oversized f diagnostics
    else if ends_with_cr (f_line f) then
      parse_content context f (reader_record diagnostics CrlfLine)
        (take (length (f_line f) - 1) (f_line f))
    else parse_content context f diagnostics (f_line f) in
  {| f_state := f_state f; f_events := f_events f; f_relations := f_relations f;
     f_diagnostics := f_diagnostics f; f_parser_diagnostics := f_parser_diagnostics f;
     f_line := []; f_discarding := f_discarding f; f_absolute := f_absolute f;
     f_committed := f_absolute f; f_bytes_read := f_bytes_read f;
     f_complete_bytes := saturating_add u64_max (f_complete_bytes f) (f_line_batch_bytes f);
     f_line_batch_bytes := 0; f_consumed := f_consumed f |}.

Definition batch_full (f : Frame) : bool :=
  (MAX_BATCH_EVENTS <=? length (f_events f) + length (f_relations f))%nat
  || (MAX_BATCH_COMPLETE_BYTES <=? f_complete_bytes f).

(** The loop; [Some] is the value of [reached_snapshot_end] at a [break].  Each
    iteration consumes at least one byte, so the number of bytes is enough fuel. *)
Fixpoint frame_loop (fuel : nat) (input : FramingInput) (call : nat) (reads : list Read) (f : Frame)
  : result (Frame * bool) ReaderErrorCode :=
  match fuel with
  | O => Err ReaderCapacityExceeded
  | Datatypes.S fuel =>
      fail_if should_cancel call with Cancelled else
      match reads with
      | [] | Data [] :: _ => Ok (f, true)
      | Failed :: _ => Err ReadFailed
      | Data available :: rest =>
          let newline := memchr 10 available in
          let content_len := unwrap_or newline (length available) in
          let? taken := take_content f available newline in
          let '(line, discarding, diagnostics, oversized_completion) := taken in
          let consumed := (content_len + if is_some newline then 1 else 0)%nat in
          let reads := consume available consumed rest in
          let f := advance f (take consumed available) line discarding diagnostics in
          let at_end := fi_snapshot_end_offset input <=? f_absolute f in
          if is_some newline then
            let f := complete_line (context_of input) f oversized_completion in
            if batch_full f then Ok (f, at_end)
            else frame_loop fuel input (Datatypes.S call) reads f
          else if f_discarding f && (discard_read_limit input <=? f_bytes_read f) then
            Ok (f, at_end)
          else frame_loop fuel input (Datatypes.S call) reads f
      end
  end.

Definition framing_result (f : Frame) (reached_snapshot_end : bool) : FramingResult :=
  let incomplete_tail :=
    f_discarding f || (reached_snapshot_end && negb (bool_decide (f_line f = []))) in
  {| fr_state := f_state f; fr_events := f_events f; fr_relations := f_relations f;
     fr_diagnostics :=
       if incomplete_tail then reader_record (f_diagnostics f) IncompleteTail else f_diagnostics f;
     fr_parser_diagnostics := f_parser_diagnostics f;
     fr_committed_offset := f_committed f;
     fr_scan_offset := if f_discarding f then f_absolute f else f_committed f;
     fr_bytes_read := f_bytes_read f;
     fr_reached_snapshot_end := reached_snapshot_end;
     fr_incomplete_tail := incomplete_tail;
     fr_discarding_oversized_line := f_discarding f;
     fr_consumed_sha256 := sha256 (f_consumed f) |}.

Definition read_lines (reads : list Read) (input : FramingInput)
  : result FramingResult ReaderErrorCode :=
  let? out := frame_loop (Datatypes.S (length (stream reads))) input 0 reads (initial_frame input) in
  Ok (framing_result out.1 out.2).

(** ** The reference: one pass over the bytes *)

Record Acc := {
  a_state : S;
  a_events : list ObservationDraft;
  a_relations : list SessionRelationDraft;
  a_offset : Z
}.

Definition start_acc (s : S) : Acc := {| a_state := s; a_events := []; a_relations := []; a_offset := 0 |}.

(** The complete lines of the bytes, without their newline, and the unfinished rest *)
Fixpoint split_lines (current : list Z) (data : list Z) : list (list Z) * list Z :=
  match data with
  | [] => ([], current)
  | b :: data =>
      if b =? 10
      then let '(lines, rest) := split_lines [] data in (current :: lines, rest)
      else split_lines (current ++ [b]) data
  end.

Definition strip_cr (line : list Z) : list Z :=
  if ends_with_cr line then take (length line - 1) line else line.

(** What one line of the file does *)
Definition handle_line (context : ParseContext) (a : Acc) (line : list Z) : Acc :=
  let '(state, outcome) :=
    if MAX_LINE_BYTES <? Z.of_nat (length line) then (a_state a, Skipped)
    else match strip_cr line with
         | [] => (a_state a, Skipped)
         | content =>
             let '(state, _, outcome) := parse_line context (a_state a) (a_offset a) content in
             (state, outcome)
         end in
  {| a_state := state;
     a_events := a_events a ++ match outcome with Emitted e => [e] | _ => [] end;
     a_relations := a_relations a ++ match outcome with SessionRelation r => [r] | _ => [] end;
     a_offset := a_offset a + Z.of_nat (length line) + 1 |}.

Definition ingest (context : ParseContext) (a : Acc) (data : list Z) : Acc :=
  fold_left (handle_line context) (split_lines [] data).1 a.

(** The bytes end with a newline (or there are none). *)
Definition line_boundary (data : list Z) : Prop := (split_lines [] data).2 = [].

Lemma memchr_Some l n : memchr 10 l = Some n ->
  l = take n l ++ 10 :: drop (Datatypes.S n) l /\ (10 ∉ take n l) /\ length (take n l) = n.
Proof.
  revert n. induction l as [|b l IH]; intros n H; simpl in H; [done|].
  destruct (b =? 10) eqn:E; to_prop.
  - injection H as <-. subst b. split_and!; [done|apply not_elem_of_nil|done].
  - destruct (memchr 10 l) as [m|]; [|done]. injection H as <-.
    destruct (IH m eq_refl) as (H1 & H2 & H3). simpl. split_and!.
    + f_equal. exact H1.
    + apply not_elem_of_cons. done.
    + by rewrite H3.
Qed.

Lemma memchr_None l : memchr 10 l = None -> 10 ∉ l.
Proof.
  induction l as [|b l IH]; simpl; [intros _; apply not_elem_of_nil|].
  destruct (b =? 10) eqn:E; to_prop; [done|]. destruct (memchr 10 l); [done|].
  intros _. apply not_elem_of_cons. split; [done|by apply IH].
Qed.

Lemma split_lines_content l current data : 10 ∉ l ->
  split_lines current (l ++ data) = split_lines (current ++ l) data.
Proof.
  revert current. induction l as [|b l IH]; intros current H; [by rewrite app_nil_r|].
  apply not_elem_of_cons in H as [Hb Hl]. simpl.
  rewrite (proj2 (Z.eqb_neq b 10)) by done. rewrite IH by done. by rewrite <- app_assoc.
Qed.

Lemma split_lines_app data current l rest : (split_lines current data).2 = [] ->
  10 ∉ l ->
  split_lines current (data ++ l ++ rest)
  = ((split_lines current data).1 ++ (split_lines l rest).1, (split_lines l rest).2).
Proof.
  revert current. induction data as [|b data IH]; intros current H Hl; simpl in *.
  - subst current. rewrite split_lines_content by done. by destruct (split_lines _ _).
  - destruct (b =? 10).
    + destruct (split_lines [] data) as [ls t] eqn:E. simpl in *. subst t.
      rewrite (IH []) by (done || by rewrite E). rewrite E. done.
    + by apply IH.
Qed.

(** One more complete line *)
Lemma ingest_line context a data l : line_boundary data -> 10 ∉ l ->
  line_boundary (data ++ l ++ [10]) /\
  ingest context a (data ++ l ++ [10]) = handle_line context (ingest context a data) l.
Proof.
  intros Hb Hl. unfold line_boundary, ingest. rewrite split_lines_app by done. simpl.
  split; [done|]. by rewrite fold_left_app.
Qed.

(** ** The loop against the reference *)

(** The variables of the loop after [past] was committed and [pending] was read of
    the line that follows; [events] and [relations] are those of earlier batches. *)
Definition at_frame (context : ParseContext) (s0 : S) (events : list ObservationDraft)
    (relations : list SessionRelationDraft) (past pending : list Z) (f : Frame) : Prop :=
  f_committed f = Z.of_nat (length past) /\
  f_absolute f = Z.of_nat (length past + length pending) /\
  line_boundary past /\ (10 ∉ pending) /\
  ingest context (start_acc s0) past =
    {| a_state := f_state f; a_events := events ++ f_events f;
       a_relations := relations ++ f_relations f; a_offset := f_committed f |} /\
  (if f_discarding f then f_line f = [] /\ MAX_LINE_BYTES < Z.of_nat (length pending)
   else f_line f = pending /\ Z.of_nat (length pending) <= MAX_LINE_BYTES).

Lemma stream_cons available rest : stream (Data available :: rest) = available ++ stream rest.
Proof. done. Qed.

Lemma stream_consume available n rest :
  stream (consume available n rest) = drop n available ++ stream rest.
Proof. unfold consume. by destruct (drop n available). Qed.

(** The three cases for the content give the pending bytes, or note their excess. *)
Lemma take_content_spec f available newline line discarding diagnostics oversized pending :
  take_content f available newline = Ok (line, discarding, diagnostics, oversized) ->
  (unwrap_or newline (length available) <= length available)%nat ->
  (if f_discarding f then f_line f = [] /\ MAX_LINE_BYTES < Z.of_nat (length pending)
   else f_line f = pending /\ Z.of_nat (length pending) <= MAX_LINE_BYTES) ->
  let content := take (unwrap_or newline (length available)) available in
  oversized = (discarding && is_some newline) /\
  (if discarding then line = [] /\ MAX_LINE_BYTES < Z.of_nat (length (pending ++ content))
   else line = pending ++ content /\ Z.of_nat (length (pending ++ content)) <= MAX_LINE_BYTES).
Proof.
  intros H Hn Hp. cbn zeta. unfold take_content in H. rewrite length_app, length_take.
  destruct (f_discarding f).
  - injection H as <- <- <- <-. split; [done|]. destruct Hp as [-> ?]. split; [done|lia].
  - destruct Hp as [Hf Hl]. subst pending. destruct (_ <? _) eqn:E; to_prop.
    + apply rbind_ok in H as (d & _ & H). injection H as <- <- <- <-.
      split; [done|]. split; [done|lia].
    + apply rbind_ok in H as (? & _ & H). injection H as <- <- <- <-.
      split; [done|]. split; [done|lia].
Qed.

(** The fields of [at_frame] at a line boundary *)
Ltac frame_fields := split_and!; try done; try apply not_elem_of_nil.

(** A complete line does to the variables what it does in the reference. *)
Lemma complete_line_handles context s0 events relations past pending f (oversized : bool) :
  ingest context (start_acc s0) past =
    {| a_state := f_state f; a_events := events ++ f_events f;
       a_relations := relations ++ f_relations f; a_offset := f_committed f |} ->
  f_committed f = Z.of_nat (length past) ->
  f_absolute f = Z.of_nat (length past + length pending + 1) ->
  line_boundary past -> 10 ∉ pending -> f_discarding f = oversized ->
  (if oversized then MAX_LINE_BYTES < Z.of_nat (length pending)
   else f_line f = pending /\ Z.of_nat (length pending) <= MAX_LINE_BYTES) ->
  at_frame context s0 events relations (past ++ pending ++ [10]) [] (complete_line context f oversized).
Proof.
  intros Hi Hc Ha Hb Hp Hd Hover.
  destruct (ingest_line context (start_acc s0) past pending Hb Hp) as [Hb' Hi'].
  unfold at_frame, complete_line.
  assert (f_absolute f = Z.of_nat (length (past ++ pending ++ [10]))) as Ha'.
  { rewrite Ha, !length_app. simpl. lia. }
  rewrite Hi', Hi. unfold handle_line, strip_cr. cbn [a_state a_events a_relations a_offset].
  assert (f_committed f + Z.of_nat (length pending) + 1 = f_absolute f) as -> by lia.
  destruct oversized.
  - rewrite (proj2 (Z.ltb_lt _ _)) by done. cbn. rewrite Nat.add_0_r, !app_nil_r, <- Ha'.
    by frame_fields.
  - destruct Hover as [-> Hl]. rewrite (proj2 (Z.ltb_ge _ _)) by done.
    destruct (ends_with_cr pending); unfold parse_content; cbn; rewrite ?Hd, ?Nat.add_0_r, <- Ha'.
    + destruct (take _ pending) as [|b l]; [by rewrite !app_nil_r; frame_fields|].
      destruct (parse_line _ _ _ _) as [[st rec] out]. cbn. rewrite <- !app_assoc. by frame_fields.
    + destruct pending as [|b l]; [by rewrite !app_nil_r; frame_fields|].
      destruct (parse_line _ _ _ _) as [[st rec] out]. cbn. rewrite <- !app_assoc. by frame_fields.
Qed.
(** The saturating additions of offsets and counters are exact. *)
Lemma saturating_add_exact a b : a + b <= u64_max -> saturating_add u64_max a b = a + b.
Proof. unfold saturating_add. lia. Qed.

(** One buffer: after it is consumed the variables are again those of the
    reference, at a later position. *)
Lemma buffer_step input s0 events relations past pending f available taken :
  at_frame (context_of input) s0 events relations past pending f ->
  available <> [] ->
  Z.of_nat (length past + length pending + length available) <= u64_max ->
  take_content f available (memchr 10 available) = Ok taken ->
  let '(line, discarding, diagnostics, oversized) := taken in
  let newline := memchr 10 available in
  let consumed := (unwrap_or newline (length available) + if is_some newline then 1 else 0)%nat in
  let f' := advance f (take consumed available) line discarding diagnostics in
  (0 < consumed <= length available)%nat /\
  if is_some newline
  then at_frame (context_of input) s0 events relations (past ++ pending ++ take consumed available) []
         (complete_line (context_of input) f' oversized)
  else at_frame (context_of input) s0 events relations past (pending ++ take consumed available) f'.
Proof.
  intros (Hc & Ha & Hb & Hp & Hi & Hd) Hne Hmax Ht.
  destruct taken as [[[line discarding] diagnostics] oversized].
  assert (0 < length available)%nat as Hpos by (destruct available; simpl; [done|lia]).
  pose proof (take_content_spec _ _ _ _ _ _ _ pending Ht) as Hspec.
  destruct (memchr 10 available) as [n|] eqn:E; simpl in *.
  - apply memchr_Some in E as (Eav & Hn & Hln).
    assert (n < length available)%nat as Hlt.
    { rewrite Eav, length_app, Hln. simpl. lia. }
    destruct Hspec as [-> Hspec]; [lia|done|]. rewrite andb_true_r. split; [lia|].
    assert (take (n + 1) available = take n available ++ [10]) as Etake.
    { rewrite Eav at 1. rewrite take_app_ge by lia. rewrite Hln.
      by replace (n + 1 - n)%nat with 1%nat by lia. }
    rewrite Etake. replace (past ++ pending ++ take n available ++ [10])
      with (past ++ (pending ++ take n available) ++ [10]) by (by rewrite <- !app_assoc).
    apply complete_line_handles; simpl; try done.
    + rewrite Ha, saturating_add_exact; autorewrite with lengths; simpl; lia.
    + apply not_elem_of_app. done.
    + destruct discarding; [apply Hspec|done].
  - apply memchr_None in E. destruct Hspec as [-> Hspec]; [done|done|]. split; [lia|].
    rewrite Nat.add_0_r. rewrite firstn_all in *. unfold at_frame, advance. simpl.
    split_and!; try done.
    + rewrite Ha, saturating_add_exact; autorewrite with lengths; lia.
    + apply not_elem_of_app. done.
Qed.
(** Where the loop ends *)
Definition loop_end (discarding : bool) (start : nat) (past' pending' : list Z) (f' : Frame)
    (reached_end : bool) : Prop :=
  (discarding = true -> f_discarding f' = false -> start <= length past')%nat /\
  (start <= length past' + length pending')%nat /\
  (reached_end = false -> start < length past' + length pending')%nat /\
  (reached_end = false -> f_discarding f' = false -> pending' = []).

Lemma frame_loop_refines fuel input s0 events relations call reads f past pending f' e :
  at_frame (context_of input) s0 events relations past pending f ->
  Z.of_nat (length past + length pending + length (stream reads)) <= u64_max ->
  frame_loop fuel input call reads f = Ok (f', e) ->
  exists past' pending' rest,
    past ++ pending ++ stream reads = past' ++ pending' ++ rest /\
    at_frame (context_of input) s0 events relations past' pending' f' /\
    (length past <= length past')%nat /\
    loop_end (f_discarding f) (length past + length pending) past' pending' f' e.
Proof.
  revert call reads f past pending.
  induction fuel as [|fuel IH]; intros call reads f past pending Hf Hmax H; [done|].
  cbn [frame_loop] in H. destruct (should_cancel call); [done|].
  destruct reads as [|[available|] reads]; [|destruct available as [|b available]|done].
  1,2: injection H as <- <-; exists past, pending; eexists; unfold loop_end;
    split_and!; [reflexivity|exact Hf|lia|congruence|lia|done|done].
  set (av := b :: available) in *. rewrite stream_cons in *.
  apply rbind_ok in H as (taken & Ht & H).
  assert (Z.of_nat (length past + length pending + length av) <= u64_max) as Hmax'
    by (rewrite length_app in Hmax; lia).
  pose proof (buffer_step _ _ _ _ _ _ _ av taken Hf ltac:(done) Hmax' Ht) as Hstep.
  destruct taken as [[[line discarding] diagnostics] oversized]. cbv zeta in Hstep, H.
  set (newline := memchr 10 av) in *.
  set (consumed := (unwrap_or newline (length av) + if is_some newline then 1 else 0)%nat) in *.
  destruct Hstep as [Hc Hstep].
  assert (stream (consume av consumed reads) = drop consumed av ++ stream reads) as Es
    by apply stream_consume.
  assert (past ++ pending ++ av ++ stream reads
    = (past ++ pending ++ take consumed av) ++ drop consumed av ++ stream reads) as Hsplit.
  { rewrite <- !app_assoc. do 2 f_equal. by rewrite (app_assoc (take _ _)), take_drop. }
  clearbody consumed newline av. destruct (is_some newline).
  - destruct (batch_full _); [injection H as <- <-|].
    + exists (past ++ pending ++ take consumed av), [], (drop consumed av ++ stream reads).
      unfold loop_end. autorewrite with lengths.
      split_and!; [exact Hsplit|exact Hstep|lia|intros; lia|lia|intros; lia|done].
    + apply (IH _ _ _ (past ++ pending ++ take consumed av) []) in H as (past' & pending' & rest & E & Hf' & Hl & He);
        [|done|rewrite Es; autorewrite with lengths in *; simpl; lia].
      exists past', pending', rest. rewrite Es in E.
      unfold loop_end in *. autorewrite with lengths in *. rewrite Hsplit.
      split_and!; [done|done|lia|intros; lia|lia|intros; lia|apply He].
  - destruct (_ && _) eqn:Ed; [injection H as <- <-|].
    + exists past, (pending ++ take consumed av), (drop consumed av ++ stream reads).
      unfold loop_end. autorewrite with lengths. split_and!; [|exact Hstep|lia| |lia|intros; lia|].
      * rewrite Hsplit. by rewrite <- !app_assoc.
      * intros _ Hd. to_prop. congruence.
      * intros _ Hd. to_prop. congruence.
    + apply (IH _ _ _ past (pending ++ take consumed av)) in H as (past' & pending' & rest & E & Hf' & Hl & He);
        [|done|rewrite Es; autorewrite with lengths in *; lia].
      exists past', pending', rest. rewrite Es in E. unfold loop_end in *. autorewrite with lengths in *.
      rewrite Hsplit. rewrite <- !app_assoc in *.
      split_and!; [done|done|lia| |lia|intros; lia|apply He].
      intros Hd0 Hd'. assert (discarding = true) as ->; [|destruct He as [He _]; specialize (He eq_refl Hd'); lia].
      destruct Hf as (_ & _ & _ & _ & _ & Hf), Hstep as (_ & _ & _ & _ & _ & Hs). simpl in Hs.
      rewrite Hd0 in Hf. destruct discarding; [done|]. rewrite length_app in Hs. lia.
Qed.
(** ** Totality and bounds of the loop *)

Lemma take_content_total f available newline :
  (forall a b, try_reserve a b = true) -> exists taken, take_content f available newline = Ok taken.
Proof.
  intros Hr. unfold take_content, reserve_line. destruct (f_discarding f); [eauto|].
  destruct (_ <? _); rewrite ?Hr; cbn [rbind]; [|eauto].
  destruct (_ <? _)%nat; rewrite ?Hr; cbn [rbind]; eauto.
Qed.

Lemma consumed_bounds available : available <> [] ->
  let newline := memchr 10 available in
  let consumed := (unwrap_or newline (length available) + if is_some newline then 1 else 0)%nat in
  (0 < consumed <= length available)%nat.
Proof.
  intros Hne. assert (0 < length available)%nat by (destruct available; simpl; [done|lia]).
  destruct (memchr 10 available) as [n|] eqn:E; simpl; [|lia].
  apply memchr_Some in E as (E & _ & Hl). rewrite E, length_app, Hl. simpl. lia.
Qed.

Lemma frame_loop_total fuel input call reads f :
  (forall n, should_cancel n = false) -> (forall a b, try_reserve a b = true) ->
  Failed ∉ reads -> (length (stream reads) < fuel)%nat ->
  exists out, frame_loop fuel input call reads f = Ok out.
Proof.
  intros Hc Hr. revert call reads f.
  induction fuel as [|fuel IH]; intros call reads f Hf Hlen; [lia|]. cbn [frame_loop]. rewrite Hc.
  destruct reads as [|[available|] reads]; [eauto|destruct available as [|b available]; [eauto|]|].
  2: { exfalso. apply Hf. apply elem_of_cons. by left. }
  set (av := b :: available) in *. rewrite stream_cons, length_app in Hlen.
  apply not_elem_of_cons in Hf as [_ Hf].
  pose proof (consumed_bounds av ltac:(done)) as Hb. cbv zeta in Hb.
  destruct (take_content_total f av (memchr 10 av) Hr) as [[[[line discarding] diagnostics] oversized] Ht].
  rewrite Ht. cbn [rbind].
  assert (forall f', exists out, frame_loop fuel input (Datatypes.S call) (consume av
    (unwrap_or (memchr 10 av) (length av) + (if is_some (memchr 10 av) then 1 else 0))%nat reads) f'
    = Ok out) as Hnext.
  { intros f'. apply IH.
    - unfold consume. destruct (drop _ av); [done|]. apply not_elem_of_cons. done.
    - rewrite stream_consume. autorewrite with lengths. lia. }
  destruct (is_some _); [destruct (batch_full _)|destruct (_ && _)]; eauto.
Qed.

(** At most one event or relation per line, and never more of a line in memory than
    its limit *)
Definition frame_bounded (f : Frame) : Prop :=
  (length (f_events f) + length (f_relations f) < MAX_BATCH_EVENTS)%nat /\
  Z.of_nat (length (f_line f)) <= MAX_LINE_BYTES /\
  max_line_bytes_retained (f_diagnostics f) <= MAX_LINE_BYTES.

Lemma take_content_bounded f available newline line discarding diagnostics oversized :
  frame_bounded f -> take_content f available newline = Ok (line, discarding, diagnostics, oversized) ->
  Z.of_nat (length line) <= MAX_LINE_BYTES /\ max_line_bytes_retained diagnostics <= MAX_LINE_BYTES.
Proof.
  intros (_ & Hl & Hm) H. unfold take_content in H. assert (0 <= MAX_LINE_BYTES) by done.
  destruct (f_discarding f); [by injection H as <- <- <- <-|]. destruct (_ <? _) eqn:E; to_prop.
  - apply rbind_ok in H as (d & Hd & H). injection H as <- <- <- <-. split; [done|].
    destruct (_ <? _)%nat; [|by injection Hd as <-]. apply rbind_ok in Hd as (? & _ & [= <-]).
    simpl. autorewrite with lengths. lia.
  - apply rbind_ok in H as (? & _ & H). injection H as <- <- <- <-. simpl. autorewrite with lengths. lia.
Qed.

Lemma complete_line_bounded context f oversized :
  let f' := complete_line context f oversized in
  (length (f_events f') + length (f_relations f')
     <= Datatypes.S (length (f_events f) + length (f_relations f)))%nat /\
  f_line f' = [] /\
  max_line_bytes_retained (f_diagnostics f') = max_line_bytes_retained (f_diagnostics f).
Proof.
  unfold complete_line. cbv zeta. cbn [f_events f_relations f_line f_diagnostics].
  destruct oversized; [simpl; split_and!; [lia|done|done]|].
  destruct (ends_with_cr _); unfold parse_content; destruct (match _ with [] => _ | _ => _ end) as [[st rec] out];
    simpl; rewrite !length_app; (split_and!; [destruct out; simpl; lia|done|done]).
Qed.

Lemma frame_loop_bounded fuel input call reads f f' e :
  frame_bounded f -> frame_loop fuel input call reads f = Ok (f', e) ->
  (length (f_events f') + length (f_relations f') <= MAX_BATCH_EVENTS)%nat /\
  max_line_bytes_retained (f_diagnostics f') <= MAX_LINE_BYTES.
Proof.
  revert call reads f. induction fuel as [|fuel IH]; intros call reads f Hf H; [done|].
  cbn [frame_loop] in H. destruct (should_cancel call); [done|].
  destruct reads as [|[available|] reads]; [|destruct available as [|b available]|done].
  1,2: injection H as <- <-; destruct Hf as (? & ? & ?); lia.
  apply rbind_ok in H as ([[[line discarding] diagnostics] oversized] & Ht & H).
  apply take_content_bounded in Ht as [Hl Hm]; [|done]. cbv zeta in H. destruct Hf as (He & _).
  match type of H with context [advance f ?c ?l ?d ?g] => set (fa := advance f c l d g) in * end.
  assert (frame_bounded fa) as Hfa by (unfold frame_bounded, fa; simpl; done).
  destruct (is_some _); [|destruct (_ && _); [injection H as <- <-|by apply IH in H]].
  - destruct (complete_line_bounded (context_of input) fa oversized) as (Hc1 & Hc2 & Hc3).
    destruct (batch_full _) eqn:Eb; [injection H as <- <-|].
    + rewrite Hc3. split; [|apply Hfa].
      change (length (f_events fa) + length (f_relations fa))%nat
        with (length (f_events f) + length (f_relations f))%nat in Hc1. cbv zeta in Hc1. lia.
    + apply IH in H; [done|]. unfold frame_bounded. rewrite Hc2, Hc3. split_and!; [|done|apply Hfa].
      unfold batch_full in Eb. to_prop. apply Nat.leb_gt. done.
  - destruct Hfa as (? & ? & ?). lia.
Qed.
End framing.

Arguments FramingResult : clear implicits.
Arguments FramingInput : clear implicits.
Arguments Frame : clear implicits.
Arguments Acc : clear implicits.

(** ** Hashing a range of the file

    [reader/source.rs].  The operating system decides whether a seek or a read
    succeeds and how many bytes a read returns: at least one, unless the file ends,
    and at most as many as were asked for. *)

Definition HASH_BUFFER_BYTES : Z := 64 * 1024.

Record OpenFile := {
  of_bytes : list Z;
  of_seek : Z -> bool;
  of_read : Z -> Z -> option Z
}.

(** [file.read(&mut buffer[..requested])] with the cursor at [position] *)
Definition file_read (file : OpenFile) (position requested : Z) : result (list Z) ReaderErrorCode :=
  match of_read file position requested with
  | None => Err ReadFailed
  | Some n => Ok (take (Z.to_nat (Z.max 1 (Z.min n requested))) (drop (Z.to_nat position) (of_bytes file)))
  end.

(** A read failed, or a seek did. *)
Definition io_failure (file : OpenFile) (e : ReaderErrorCode) : Prop :=
  (e = SeekFailed /\ exists position, of_seek file position = false) \/
  (e = ReadFailed /\ exists position requested, of_read file position requested = None).

Section source.
Context (sha256 : list Z -> list Z).

(** The loop of [hash_range]; [hashed] is what the hasher was given *)
Fixpoint hash_loop (fuel : nat) (file : OpenFile) (position remaining : Z) (hashed : list Z)
  : result (list Z) ReaderErrorCode :=
  match fuel with
  | O => Err ReaderCapacityExceeded
  | Datatypes.S fuel =>
      if 0 <? remaining then
        let requested := Z.min remaining HASH_BUFFER_BYTES in
        let? bytes := file_read file position requested in
        let read := Z.of_nat (length bytes) in
        fail_if read =? 0 with SourceChanged else
        hash_loop fuel file (position + read) (saturating_sub remaining read) (hashed ++ bytes)
      else Ok (sha256 hashed)
  end.

Definition hash_range (file : OpenFile) (start len : Z) : result (list Z) ReaderErrorCode :=
  fail_if negb (of_seek file start) with SeekFailed else
  hash_loop (Datatypes.S (Z.to_nat len)) file start len [].

(** [source::boundary_anchor]: the digest of the last committed bytes *)
Definition boundary_anchor (file : OpenFile) (committed : Z) : result BoundaryAnchor ReaderErrorCode :=
  let invalid (a : result BoundaryAnchor ReaderCheckpointErrorCode) :=
    match a with Ok a => Ok a | Err _ => Err CheckpointInvalid end in
  if committed =? 0 then invalid (BoundaryAnchor_new 0 0 (replicate 32 0))
  else
    let len := Z.min committed MAX_ANCHOR_BYTES in
    let start := saturating_sub committed len in
    let? digest := hash_range file start len in
    invalid (BoundaryAnchor_new start len digest).

(** What the anchor of the committed bytes should be *)
Definition anchor_of (committed : list Z) : BoundaryAnchor :=
  let n := Z.of_nat (length committed) in
  let len := Z.min n MAX_ANCHOR_BYTES in
  {| anchor_start := n - len; anchor_len := len;
     anchor_sha256 := match committed with
                      | [] => replicate 32 0
                      | _ => sha256 (drop (Z.to_nat (n - len)) committed)
                      end |}.

Lemma file_read_ok file position requested bytes : 0 <= position -> 0 < requested ->
  file_read file position requested = Ok bytes ->
  exists n, (n <= Z.to_nat requested)%nat /\ (0 < n)%nat /\ bytes = take n (drop (Z.to_nat position) (of_bytes file)).
Proof.
  intros Hp Hr. unfold file_read. destruct (of_read _ _ _) as [n|]; [|done]. intros [= <-].
  exists (Z.to_nat (Z.max 1 (Z.min n requested))). split_and!; [lia|lia|done].
Qed.

(** The loop digests exactly the range, whatever the sizes of the reads. *)
Lemma hash_loop_spec fuel file position remaining hashed :
  0 <= position -> 0 <= remaining -> (Z.to_nat remaining < fuel)%nat ->
  match hash_loop fuel file position remaining hashed with
  | Ok digest =>
      (0 < remaining -> position + remaining <= Z.of_nat (length (of_bytes file))) /\
      digest = sha256 (hashed ++ take (Z.to_nat remaining) (drop (Z.to_nat position) (of_bytes file)))
  | Err e =>
      io_failure file e \/ (e = SourceChanged /\ Z.of_nat (length (of_bytes file)) < position + remaining)
  end.
Proof.
  revert position remaining hashed. induction fuel as [|fuel IH]; intros position remaining hashed Hp Hr Hf; [lia|].
  cbn [hash_loop]. destruct (Z.ltb_spec 0 remaining).
  2: { assert (remaining = 0) as -> by lia. simpl. by rewrite app_nil_r. }
  cbv zeta. destruct (file_read file position _) as [bytes|e] eqn:Er; cbn [rbind].
  2: { unfold file_read in Er. destruct (of_read _ _ _) eqn:Eo; [done|]. injection Er as <-. left. right. eauto. }
  apply file_read_ok in Er as (n & Hn & Hpos & ->); [|done|unfold HASH_BUFFER_BYTES; lia].
  set (B := of_bytes file) in *. assert (n <= Z.to_nat remaining)%nat as Hle by lia.
  destruct (Z.eqb_spec (Z.of_nat (length (take n (drop (Z.to_nat position) B)))) 0) as [E|E].
  { right. split; [done|]. rewrite length_take, length_drop in E. lia. }
  rewrite length_take, length_drop in E |- *. set (k := (n `min` (length B - Z.to_nat position))%nat) in *.
  specialize (IH (position + Z.of_nat k) (saturating_sub remaining (Z.of_nat k))
    (hashed ++ take n (drop (Z.to_nat position) B)) ltac:(lia) ltac:(unfold saturating_sub; lia)
    ltac:(unfold saturating_sub; lia)).
  unfold saturating_sub in *. destruct (hash_loop _ _ _ _ _) as [digest|e].
  - destruct IH as [H1 ->]. split; [intros _; unfold k in *; lia|]. f_equal. rewrite <- app_assoc. f_equal.
    replace (Z.to_nat (position + Z.of_nat k)) with (Z.to_nat position + k)%nat by lia.
    rewrite <- drop_drop. set (D := drop (Z.to_nat position) B) in *.
    assert (take n D = take k D) as ->.
    { unfold k. rewrite <- take_take. f_equal. rewrite take_ge; [done|]. unfold D. rewrite length_drop. lia. }
    replace (Z.to_nat (Z.max 0 (remaining - Z.of_nat k))) with (Z.to_nat remaining - k)%nat by lia.
    rewrite <- (take_drop k (take (Z.to_nat remaining) D)). rewrite take_take, skipn_firstn_comm. f_equal. f_equal. lia.
  - destruct IH as [?|[-> ?]]; [by left|right]. split; [done|]. lia.
Qed.

Lemma hash_range_spec file start len : 0 <= start -> 0 < len ->
  start + len <= Z.of_nat (length (of_bytes file)) ->
  match hash_range file start len with
  | Ok digest => digest = sha256 (take (Z.to_nat len) (drop (Z.to_nat start) (of_bytes file)))
  | Err e => io_failure file e
  end.
Proof.
  intros Hs Hl Hb. unfold hash_range. destruct (of_seek file start) eqn:Es; simpl negb; [|left; eauto].
  pose proof (hash_loop_spec (Datatypes.S (Z.to_nat len)) file start len []) as H.
  destruct (hash_loop _ _ _ _ _) as [digest|e]; [by apply H; lia|].
  destruct H as [?|[_ ?]]; [lia..|done|lia].
Qed.

(** The anchor of the file is the one of its committed bytes, unless the file cannot
    be read. *)
Lemma boundary_anchor_spec file committed grown :
  of_bytes file = committed ++ grown -> Z.of_nat (length committed) <= u64_max ->
  match boundary_anchor file (Z.of_nat (length committed)) with
  | Ok a => a = anchor_of committed
  | Err e => io_failure file e
  end.
Proof.
  intros Hb Hu. unfold boundary_anchor, anchor_of, saturating_sub. set (n := Z.of_nat (length committed)) in *.
  destruct (Z.eqb_spec n 0) as [E|E].
  { destruct committed; [|done]. reflexivity. }
  destruct committed as [|c committed']; [done|]. set (committed := c :: committed') in *.
  set (len := Z.min n MAX_ANCHOR_BYTES). assert (0 < len <= n) as Hlen by (unfold len, MAX_ANCHOR_BYTES; lia).
  replace (Z.max 0 (n - len)) with (n - len) by lia.
  pose proof (hash_range_spec file (n - len) len) as Hh. rewrite Hb, length_app in Hh.
  destruct (hash_range file (n - len) len) as [digest|e]; [|apply Hh; lia].
  rewrite Hh by lia. cbn [rbind]. rewrite drop_app_le, take_app_length' by (rewrite ?length_drop; lia).
  erewrite (proj2 (BoundaryAnchor_new_ok _ _ _ _)); [|split; [reflexivity|unfold len, MAX_ANCHOR_BYTES; lia]].
  done.
Qed.
End source.

(** ** From batch to batch *)

Section batches.
Context {S : Type} `{!LineParser S}.
Context (sha256 : list Z -> list Z).

(** What a checkpoint keeps of a batch *)
Record Position := {
  p_committed : Z;
  p_scan : Z;
  p_discarding : bool;
  p_state : S
}.

Definition start_position (s : S) : Position :=
  {| p_committed := 0; p_scan := 0; p_discarding := false; p_state := s |}.

(** The input [read_source_batch_with_cache] builds from a checkpoint, and the
    position its result is stored as *)
Definition position_input (d : SourceFileDescriptor) (v : ObservationVerification)
    (file_length : Z) (p : Position) : FramingInput S :=
  {| fi_descriptor := d; fi_start_offset := p_scan p; fi_committed_offset := p_committed p;
     fi_state := p_state p; fi_snapshot_end_offset := file_length;
     fi_discarding_oversized_line := p_discarding p; fi_source_verification := v |}.

Definition result_position (r : FramingResult S) : Position :=
  {| p_committed := fr_committed_offset r; p_scan := fr_scan_offset r;
     p_discarding := fr_discarding_oversized_line r; p_state := fr_state r |}.

(** The checkpoint at the end of [read_source_batch_with_cache], before its checks *)
Definition batch_parts {R} (snapshot : S -> R) (physical : option (list Z)) (logical : list Z) (file_length : Z)
    (modified : option Z) (level : VerificationLevel) (a : BoundaryAnchor) (r : FramingResult S)
  : ReaderCheckpointParts R :=
  {| parser_schema_version := PARSER_SCHEMA_VERSION;
     physical_identity := physical;
     logical_identity := logical;
     committed_offset := fr_committed_offset r;
     scan_offset := fr_scan_offset r;
     observed_file_length := file_length;
     modified_time_ns := modified;
     anchor := a;
     resume := snapshot (fr_state r);
     discarding_oversized_line := fr_discarding_oversized_line r;
     incomplete_tail := fr_incomplete_tail r;
     verification := level |}.

Definition batch_checkpoint {R} `{!ResumeState R} (snapshot : S -> R)
    (physical : option (list Z)) (logical : list Z) (file_length : Z) (modified : option Z)
    (level : VerificationLevel) (a : BoundaryAnchor) (r : FramingResult S)
  : result (ReaderCheckpointParts R) ReaderErrorCode :=
  match ReaderCheckpointV1_new (batch_parts snapshot physical logical file_length modified level a r) with
  | Ok checkpoint => Ok checkpoint
  | Err _ => Err CheckpointInvalid
  end.

(** The position is one of the single pass over [file]. *)
Definition at_position (context : ParseContext) (s0 : S) (file : list Z)
    (events : list ObservationDraft) (relations : list SessionRelationDraft) (p : Position) : Prop :=
  exists past pending rest,
    file = past ++ pending ++ rest /\
    p_committed p = Z.of_nat (length past) /\ p_scan p = Z.of_nat (length past + length pending) /\
    line_boundary past /\ (10 ∉ pending) /\
    ingest context (start_acc s0) past =
      {| a_state := p_state p; a_events := events; a_relations := relations;
         a_offset := p_committed p |} /\
    (if p_discarding p then MAX_LINE_BYTES < Z.of_nat (length pending) else pending = []).

Lemma start_at_position context s0 file : at_position context s0 file [] [] (start_position s0).
Proof. exists [], [], file. by split_and!; try apply not_elem_of_nil. Qed.

Lemma at_position_append context s0 file more events relations p :
  at_position context s0 file events relations p ->
  at_position context s0 (file ++ more) events relations p.
Proof.
  intros (past & pending & rest & -> & H). exists past, pending, (rest ++ more).
  split; [by rewrite <- !app_assoc|done].
Qed.

Lemma read_lines_refines try_reserve should_cancel d v s0 file events relations p reads r :
  let input := position_input d v (Z.of_nat (length file)) p in
  at_position (context_of input) s0 file events relations p ->
  Z.of_nat (length file) <= u64_max -> stream reads = drop (Z.to_nat (p_scan p)) file ->
  read_lines sha256 try_reserve should_cancel reads input = Ok r ->
  at_position (context_of input) s0 file (events ++ fr_events r) (relations ++ fr_relations r)
    (result_position r) /\
  p_scan p <= fr_scan_offset r /\
  (fr_reached_snapshot_end r = false -> p_scan p < fr_scan_offset r) /\
  (fr_discarding_oversized_line r = true -> fr_incomplete_tail r = true).
Proof.
  intros input (past & pending & rest & -> & Hc & Hs & Hb & Hp & Hi & Hd) Hmax Hreads H.
  apply rbind_ok in H as ([f' e] & Hloop & H). injection H as <-.
  assert (stream reads = rest) as Hrest.
  { rewrite Hreads, Hs, Nat2Z.id, app_assoc. rewrite drop_app_length'; [done|].
    by rewrite length_app. }
  assert (at_frame (context_of input) s0 events relations past pending (initial_frame input)) as Hf0.
  { unfold at_frame, initial_frame, input. simpl. rewrite !app_nil_r. split_and!; try done.
    destruct (p_discarding p); [done|]. subst pending. done. }
  eapply frame_loop_refines in Hloop as
    (past' & pending' & rest' & E & Hf & Hl & He1 & He2 & He3 & He4); [|exact Hf0|].
  2: { rewrite Hrest. autorewrite with lengths in Hmax. lia. }
  destruct Hf as (Hc' & Ha' & Hb' & Hp' & Hi' & Hd'). rewrite Hrest in E. simpl in He1.
  assert (f_discarding f' = false -> length past + length pending <= length past')%nat as Hge.
  { intros Hn. destruct (p_discarding p); [by apply He1|]. subst pending. simpl. lia. }
  unfold at_position, framing_result, result_position. simpl. destruct (f_discarding f') eqn:Edis; simpl.
  - split; [|split_and!; [lia|intros ?%He3; lia|done]].
    exists past', pending', rest'. split_and!; try done. apply Hd'.
  - specialize (Hge eq_refl). split; [|split_and!; [lia| |done]].
    + exists past', [], (pending' ++ rest'). simpl. rewrite Nat.add_0_r.
      split_and!; try done. apply not_elem_of_nil.
    + intros Hn. specialize (He3 Hn). rewrite (He4 Hn eq_refl) in He3. simpl in He3. lia.
Qed.

(** Everything that can happen to a file that is only appended to: batches are read
    from the last position, and the file grows. *)
Inductive batches (d : SourceFileDescriptor) (v : ObservationVerification) (s0 : S)
  : list Z -> Position -> list ObservationDraft -> list SessionRelationDraft -> Prop :=
| batches_start file : batches d v s0 file (start_position s0) [] []
| batches_append file more p events relations :
    batches d v s0 file p events relations -> batches d v s0 (file ++ more) p events relations
| batches_read file p events relations reads try_reserve should_cancel r :
    batches d v s0 file p events relations ->
    Z.of_nat (length file) <= u64_max -> stream reads = drop (Z.to_nat (p_scan p)) file ->
    read_lines sha256 try_reserve should_cancel reads
      (position_input d v (Z.of_nat (length file)) p) = Ok r ->
    batches d v s0 file (result_position r) (events ++ fr_events r) (relations ++ fr_relations r).

(** The context every line of the file is parsed in *)
Definition file_context (d : SourceFileDescriptor) (v : ObservationVerification) (s0 : S) : ParseContext :=
  context_of (position_input d v 0 (start_position s0)).

Lemma batches_at_position d v s0 file p events relations :
  batches d v s0 file p events relations ->
  at_position (file_context d v s0) s0 file events relations p.
Proof.
  induction 1 as [file|file more p ev rel _ IH|file p ev rel reads tr sc r _ IH Hmax Hreads H].
  - apply start_at_position.
  - by apply at_position_append.
  - by eapply read_lines_refines in H as [H _].
Qed.

(** The checks of a checkpoint that do not depend on the parser state hold at every
    position of the single pass: it is accepted exactly when that state can be saved. *)
Lemma checkpoint_accepted {R} `{!ResumeState R} context s0 file events relations p r (snapshot : S -> R)
    physical logical modified level :
  at_position context s0 file events relations p -> Z.of_nat (length file) <= u64_max ->
  p_committed p = fr_committed_offset r -> p_scan p = fr_scan_offset r ->
  p_discarding p = fr_discarding_oversized_line r ->
  (fr_discarding_oversized_line r = true -> fr_incomplete_tail r = true) ->
  let committed := take (Z.to_nat (fr_committed_offset r)) file in
  fr_committed_offset r = Z.of_nat (length committed) /\
  (let cp := batch_parts snapshot physical logical (Z.of_nat (length file)) modified level
               (anchor_of sha256 committed) r in
   checkpoint_ok cp <->
     resumable (resume cp) = true /\
     exists text, to_vec (resume cp) = Some text /\ Z.of_nat (length text) <= MAX_RESUME_BYTES).
Proof.
  intros (past & pending & rest & -> & Hc & Hs & _ & _ & _ & Hd) Hmax Ec Es Ed Htail. cbv zeta.
  rewrite <- Ec, Hc, Nat2Z.id, take_app_length. split; [done|]. rewrite !length_app in *.
  unfold checkpoint_ok. cbn [batch_parts parser_schema_version resume committed_offset scan_offset
    observed_file_length discarding_oversized_line incomplete_tail anchor].
  rewrite <- Ec, <- Es, <- Ed. split; [by intros (_ & ? & ? & _)|]. intros [Hr Ht]. rewrite <- Ed in Htail.
  assert (0 < MAX_LINE_BYTES) by done. unfold anchor_of. simpl. split_and!; try done; try lia.
  - intros Hn. rewrite Hn in Hd. subst pending. simpl in Hs. lia.
  - intros Hn. rewrite Hn in Hd. split; [by apply Htail|]. lia.
Qed.

(** ** Claims *)

(** C3. However a growing file is cut into batches and into read buffers, the events
    and relations delivered so far and the parser state are exactly those of one
    pass over the committed bytes, which end at a line boundary: no line is parsed
    twice, none is skipped but those over the limit, and a line is parsed only when
    complete.  Bytes scanned beyond the commit belong to one line over the limit. *)
Theorem batches_deliver_single_pass d v s0 file p events relations :
  batches d v s0 file p events relations ->
  let committed := take (Z.to_nat (p_committed p)) file in
  let skipped := take (Z.to_nat (p_scan p - p_committed p)) (drop (Z.to_nat (p_committed p)) file) in
  0 <= p_committed p <= p_scan p /\ p_scan p <= Z.of_nat (length file) /\
  line_boundary committed /\
  ingest (file_context d v s0) (start_acc s0) committed =
    {| a_state := p_state p; a_events := events; a_relations := relations;
       a_offset := p_committed p |} /\
  (10 ∉ skipped) /\
  (if p_discarding p then MAX_LINE_BYTES < Z.of_nat (length skipped) else p_scan p = p_committed p).
Proof.
  intros (past & pending & rest & -> & Hc & Hs & Hb & Hp & Hi & Hd)%batches_at_position. cbv zeta.
  rewrite Hc, Hs. replace (Z.to_nat (_ - _)) with (length pending) by lia. rewrite Nat2Z.id.
  rewrite take_app_length, drop_app_length, take_app_length. rewrite !length_app, Hi, Hc.
  split_and!; try done; try lia. destruct (p_discarding p); [done|]. subst pending. simpl. lia.
Qed.

(** C31. A batch always comes back and makes progress: without cancellation, read
    failure or allocation failure [read_lines] returns, and unless it reports the end
    of the snapshot the next batch starts strictly later in the file. *)
Theorem read_lines_progress try_reserve should_cancel d v s0 file p events relations reads :
  batches d v s0 file p events relations ->
  Z.of_nat (length file) <= u64_max -> stream reads = drop (Z.to_nat (p_scan p)) file ->
  (forall n, should_cancel n = false) -> (forall a b, try_reserve a b = true) -> Failed ∉ reads ->
  exists r,
    read_lines sha256 try_reserve should_cancel reads
      (position_input d v (Z.of_nat (length file)) p) = Ok r /\
    p_scan p <= fr_scan_offset r /\
    (fr_reached_snapshot_end r = false -> p_scan p < fr_scan_offset r).
Proof.
  intros Hb Hmax Hreads Hc Hr Hf. set (input := position_input d v (Z.of_nat (length file)) p).
  destruct (frame_loop_total try_reserve should_cancel (Datatypes.S (length (stream reads))) input 0 reads
    (initial_frame input) Hc Hr Hf ltac:(lia)) as [[f' e] Hloop].
  assert (read_lines sha256 try_reserve should_cancel reads input = Ok (framing_result sha256 f' e)) as H.
  { unfold read_lines. by rewrite Hloop. }
  exists (framing_result sha256 f' e). split; [exact H|].
  eapply read_lines_refines in H as (_ & H1 & H2 & _);
    [|by apply batches_at_position in Hb|done|done]. done.
Qed.

(** A batch is bounded: it carries at most 256 events and relations, and of no
    line were ever more than 16 MiB kept in memory. *)
Theorem batch_bounded try_reserve should_cancel reads (input : FramingInput S) r :
  read_lines sha256 try_reserve should_cancel reads input = Ok r ->
  (length (fr_events r) + length (fr_relations r) <= MAX_BATCH_EVENTS)%nat /\
  max_line_bytes_retained (fr_diagnostics r) <= MAX_LINE_BYTES.
Proof.
  intros H. apply rbind_ok in H as ([f' e] & Hloop & [= <-]).
  apply frame_loop_bounded in Hloop as [H1 H2].
  - split; [exact H1|]. unfold framing_result. simpl. by destruct (_ || _).
  - unfold frame_bounded, initial_frame. simpl. split_and!; [|done|done].
    unfold MAX_BATCH_EVENTS. lia.
Qed.
End batches.

Arguments Position : clear implicits.

(** ** The claims at a concrete file

    A parser that remembers the first byte of each line stands for the real one. *)

#[local] Instance first_bytes : LineParser (list Z) := {
  parse_line _ s offset line :=
    (s ++ take 1 line, record_line,
     SessionRelation (mkSessionRelationDraft (lit "codex") (lit "default") (lit "child") (lit "parent")
       false (lit "active") offset))
}.

Definition sample_descriptor : SourceFileDescriptor :=
  {| sd_profile_id := lit "default"; sd_source_id := lit "active"; sd_filename_session_hint := None;
     sd_hashed_session_hint := lit "h" |}.

(** Two lines, the first ended by CR LF, and an unfinished third *)
Definition sample_file : list Z := lit "ab" ++ [13; 10] ++ lit "cd" ++ [10] ++ lit "e".
Definition sample_reads : list Read :=
  [Data (take 3 sample_file); Data (take 3 (drop 3 sample_file)); Data (drop 6 sample_file)].

Definition sample_input : FramingInput (list Z) :=
  position_input sample_descriptor Usage.Incremental (Z.of_nat (length sample_file)) (start_position []).

Definition sample_batch : FramingResult (list Z) :=
  match read_lines toy_sha256 (fun _ _ => true) (fun _ => false) sample_reads sample_input with
  | Ok r => r
  | Err _ => framing_result toy_sha256 (initial_frame sample_input) true
  end.

Lemma sample_batch_eq :
  read_lines toy_sha256 (fun _ _ => true) (fun _ => false) sample_reads sample_input = Ok sample_batch.
Proof. vm_compute. reflexivity. Qed.

Lemma sample_batches :
  batches toy_sha256 sample_descriptor Usage.Incremental [] sample_file (result_position sample_batch)
    (fr_events sample_batch) (fr_relations sample_batch).
Proof.
  apply (batches_read toy_sha256 sample_descriptor Usage.Incremental [] sample_file (start_position []) [] []
    sample_reads (fun _ _ => true) (fun _ => false)).
  - apply batches_start.
  - vm_compute. discriminate.
  - reflexivity.
  - exact sample_batch_eq.
Qed.

Lemma batches_deliver_single_pass_witness :
  p_committed (result_position sample_batch) = 7 /\
  a_state (ingest (file_context sample_descriptor Usage.Incremental (S := list Z) []) (start_acc [])
    (take 7 sample_file)) = lit "ac".
Proof.
  destruct (batches_deliver_single_pass toy_sha256 _ _ _ _ _ _ _ sample_batches)
    as (_ & _ & _ & H & _).
  split; [vm_compute; reflexivity|].
  change (Z.to_nat (p_committed (result_position sample_batch))) with 7%nat in H. rewrite H.
  vm_compute. reflexivity.
Defined.

Lemma read_lines_progress_witness :
  exists r, read_lines toy_sha256 (fun _ _ => true) (fun _ => false) sample_reads sample_input = Ok r /\
    0 <= fr_scan_offset r.
Proof.
  destruct (read_lines_progress toy_sha256 (fun _ _ => true) (fun _ => false) sample_descriptor
    Usage.Incremental [] sample_file (start_position []) [] [] sample_reads) as (r & H & Hs & _).
  - apply batches_start.
  - vm_compute. discriminate.
  - reflexivity.
  - reflexivity.
  - reflexivity.
  - unfold sample_reads. rewrite !not_elem_of_cons. split_and!; [done..|apply not_elem_of_nil].
  - exists r. split; [exact H|exact Hs].
Defined.

Lemma batch_bounded_witness : (length (fr_events sample_batch) + length (fr_relations sample_batch) <= 256)%nat.
Proof.
  exact (proj1 (batch_bounded toy_sha256 (fun _ _ => true) (fun _ => false) sample_reads sample_input
    sample_batch sample_batch_eq)).
Defined.
