(* ===== verification/ParserValues.v ===== *)
(** * Values of the Codex line parser

    Models [crates/codex/src/parser/value.rs] and the data of [parser/wire.rs]: what
    the parser reads out of a JSON line.  A scalar of the line is decoded by a
    hand-written visitor that never fails; [Visit] lists the calls a deserializer
    makes on a visitor.  The structs of a line are filled in by code that serde
    derives: they are the records [RawUsage], ..., [RawLine] here, and the reader that
    produces them is a parameter of the parser.

    Diagnostics are written, never read: a function that takes [&mut
    ParserDiagnostics] returns its value together with the events it recorded
    ([writer]).  Dates are handled by the [chrono] crate, the interface [Chrono]. *)

From S2P Require Import Prelude Collections Usage Accounting Checkpoint Framing.

Open Scope Z_scope.

(** ** Recorded diagnostics *)

Inductive DiagnosticEvent :=
| LineSeen
| EventEmitted
| MetadataSeen
| ToolSeen
| Recorded (code : ParserDiagnosticCode).

Definition writer (A : Type) : Type := A * list DiagnosticEvent.

Definition pure {A} (a : A) : writer A := (a, []).
Definition tell (e : DiagnosticEvent) : writer unit := (tt, [e]).
Definition wbind {A B} (m : writer A) (k : A -> writer B) : writer B :=
  let '(a, l) := m in let '(b, k) := k a in (b, l ++ k).

Declare Scope writer_scope.
Delimit Scope writer_scope with writer.
Open Scope writer_scope.
Notation "'let!' x := m 'in' k" := (wbind m (fun x => k))
  (at level 10, x name, m at level 200, k at level 200) : writer_scope.

(** [diagnostics.record(code)] *)
Definition diagnose (code : ParserDiagnosticCode) : writer unit := tell (Recorded code).
Definition diagnose_if (b : bool) (code : ParserDiagnosticCode) : writer unit :=
  if b then diagnose code else pure tt.
(** [for _ in 0..n { diagnostics.record(code) }] *)
Definition diagnose_times (n : nat) (code : ParserDiagnosticCode) : writer unit :=
  (tt, replicate n (Recorded code)).

(** [record_emitted_event], [record_metadata_line], [record_tool_event] *)
Definition record_emitted_event (d : ParserDiagnostics) : ParserDiagnostics :=
  {| diagnostic_lines := diagnostic_lines d;
     emitted_events := saturating_add u64_max (emitted_events d) 1;
     metadata_lines := metadata_lines d; tool_events := tool_events d;
     diagnostic_counts := diagnostic_counts d |}.
Definition record_metadata_line (d : ParserDiagnostics) : ParserDiagnostics :=
  {| diagnostic_lines := diagnostic_lines d; emitted_events := emitted_events d;
     metadata_lines := saturating_add u64_max (metadata_lines d) 1;
     tool_events := tool_events d; diagnostic_counts := diagnostic_counts d |}.
Definition record_tool_event (d : ParserDiagnostics) : ParserDiagnostics :=
  {| diagnostic_lines := diagnostic_lines d; emitted_events := emitted_events d;
     metadata_lines := metadata_lines d;
     tool_events := saturating_add u64_max (tool_events d) 1;
     diagnostic_counts := diagnostic_counts d |}.

Definition record_event (d : ParserDiagnostics) (e : DiagnosticEvent) : ParserDiagnostics :=
  match e with
  | LineSeen => record_line d
  | EventEmitted => record_emitted_event d
  | MetadataSeen => record_metadata_line d
  | ToolSeen => record_tool_event d
  | Recorded code => parser_record d code
  end.

(** ** Visitors *)

(** The calls of a deserializer; integers that fit are [u64] or negative [i64]. *)
Inductive Visit :=
| VisitU64 (value : Z) | VisitI64 (value : Z) | VisitF64 | VisitBool | VisitStr (value : str)
| VisitNone | VisitUnit | VisitSeq | VisitMap.

Inductive LenientU64 := U64Missing | U64Valid (value : Z) | U64Invalid.

(** [str::parse::<u64>] of a non-empty string of ASCII digits *)
Fixpoint parse_digits (acc : Z) (digits : list Z) : option Z :=
  match digits with
  | [] => Some acc
  | d :: digits =>
      match checked_mul u64_max acc 10 with
      | Some v => match checked_add u64_max v (d - 48) with
                  | Some v => parse_digits v digits
                  | None => None
                  end
      | None => None
      end
  end.

Definition parse_decimal (value : str) : LenientU64 :=
  let value := trim value in
  if bool_decide (value = []) || (20 <? str_len value) || negb (forallb is_ascii_digit (as_bytes value))
  then U64Invalid
  else match parse_digits 0 (as_bytes value) with Some v => U64Valid v | None => U64Invalid end.

Definition LenientU64_visit (v : Visit) : LenientU64 :=
  match v with
  | VisitU64 value => U64Valid value
  | VisitI64 value => if 0 <=? value then U64Valid value else U64Invalid
  | VisitStr value => parse_decimal value
  | VisitF64 | VisitBool | VisitNone | VisitUnit | VisitSeq | VisitMap => U64Invalid
  end.

Definition MAX_TIMESTAMP_BYTES : Z := 64.
Definition MAX_RAW_MODEL_BYTES : Z := 512.

Inductive BoundedText := TextMissing | TextValid (value : str) | TextInvalid.

Definition text_value (t : BoundedText) : option str :=
  match t with TextValid value => Some value | TextMissing | TextInvalid => None end.
Definition text_is_invalid (t : BoundedText) : bool :=
  match t with TextInvalid => true | _ => false end.
Definition text_is_missing (t : BoundedText) : bool :=
  match t with TextMissing => true | _ => false end.

Definition valid_bounded_text (max_bytes : Z) (value : str) : bool :=
  (str_len value <=? max_bytes) && negb (existsb is_control value).

(** [classify_borrowed_text] and [classify_owned_text] *)
Definition classify_text (max_bytes : Z) (value : str) : BoundedText :=
  if valid_bounded_text max_bytes value then TextValid value else TextInvalid.

Definition BoundedText_visit (max_bytes : Z) (v : Visit) : BoundedText :=
  match v with VisitStr value => classify_text max_bytes value | _ => TextInvalid end.

(** ** Timestamps *)

Inductive TimestampScalar :=
| StampMissing | StampText (text : str) | StampSigned (number : Z) | StampUnsigned (number : Z)
| StampInvalid.

Definition valid_timestamp_text (value : str) : bool :=
  negb (bool_decide (value = [])) && (str_len value <=? MAX_TIMESTAMP_BYTES)
  && negb (existsb is_control value).

Definition TimestampScalar_visit (v : Visit) : TimestampScalar :=
  match v with
  | VisitStr value => if valid_timestamp_text value then StampText value else StampInvalid
  | VisitI64 value => StampSigned value
  | VisitU64 value => StampUnsigned value
  | VisitF64 | VisitBool | VisitNone | VisitUnit | VisitSeq | VisitMap => StampInvalid
  end.

(** What the parser reads of a [DateTime<Utc>] *)
Record DateTime := { dt_timestamp : Z; dt_subsec_nanos : Z; dt_year : Z }.

Class Chrono := {
  (** [DateTime::parse_from_rfc3339(text).ok()], in UTC *)
  parse_from_rfc3339 : str -> option DateTime;
  (** [DateTime::from_timestamp(seconds, nanos)] *)
  from_timestamp : Z -> Z -> option DateTime
}.

(** [Result::ok] *)
Definition ok {A E} (r : result A E) : option A :=
  match r with Ok a => Some a | Err _ => None end.

Section timestamps.
Context `{!Chrono}.

Definition normalized_timestamp (value : DateTime) : option UtcTimestamp :=
  if negb ((0 <=? dt_year value) && (dt_year value <=? 9999)) then None
  else ok (UtcTimestamp_new (dt_timestamp value) (dt_subsec_nanos value)).

(** [saturating_mul] cannot saturate: the remainder is below 1000. *)
Definition numeric_timestamp (number : Z) : option UtcTimestamp :=
  let '(seconds, nanos) :=
    if 1000000000000 <? number
    then (Z.quot number 1000, Z.min u32_max (Z.rem number 1000 * 1000000))
    else (number, 0) in
  from_timestamp seconds nanos ≫= normalized_timestamp.

Definition timestamp_value (value : TimestampScalar) : option UtcTimestamp :=
  match value with
  | StampText text => parse_from_rfc3339 text ≫= normalized_timestamp
  | StampSigned number => numeric_timestamp number
  | StampUnsigned number => if number <=? i64_max then numeric_timestamp number else None
  | StampMissing | StampInvalid => None
  end.

(** [values.into_iter().find_map(timestamp_value)] *)
Fixpoint first_timestamp (values : list TimestampScalar) : option UtcTimestamp :=
  match values with
  | [] => None
  | v :: values => match timestamp_value v with Some t => Some t | None => first_timestamp values end
  end.
End timestamps.

(** ** Models *)

Record ResolvedModel := { model_key : str; model_raw : option str; model_fallback : bool }.
#[export] Instance ResolvedModel_eq_dec : EqDecision ResolvedModel.
Proof. solve_decision. Defined.

Definition unknown_model : str := lit "unknown".

Section models.
Context (sha256 : list Z -> list Z).

Definition normalize_explicit_model (value : str) : option ResolvedModel :=
  raw ← ok (MetadataValue_new value);
  if MAX_RAW_MODEL_BYTES <? str_len raw then None
  else match ModelKey_new raw with
       | Ok key => Some {| model_key := key; model_raw := Some raw; model_fallback := false |}
       | Err _ =>
           let digest := sha256 (as_bytes raw) in
           let key := append_hex (lit "unknown_") (take 16 digest) in
           key ← ok (ModelKey_new key);
           Some {| model_key := key; model_raw := Some raw; model_fallback := false |}
       end.

Definition resolve_model (explicit : option str) (current : option ResolvedModel)
    (invalid_aliases : nat) : writer (option ResolvedModel) :=
  let! _ := diagnose_times invalid_aliases InvalidModel in
  let fall_back :=
    match current with
    | Some value =>
        let! _ := diagnose_if (model_fallback value) ModelFallback in
        pure (Some value)
    | None =>
        let! _ := diagnose ModelFallback in
        pure (key ← ok (ModelKey_new unknown_model);
              Some {| model_key := key; model_raw := None; model_fallback := true |})
    end in
  match explicit with
  | Some value =>
      match normalize_explicit_model value with
      | Some resolved => pure (Some resolved)
      | None => let! _ := diagnose InvalidModel in fall_back
      end
  | None => fall_back
  end.
End models.

(** ** Token counts *)

Fixpoint first_token (values : list LenientU64) : writer TokenCount :=
  match values with
  | [] => pure Unavailable
  | U64Missing :: values => first_token values
  | U64Valid value :: _ => pure (Available value)
  | U64Invalid :: values => let! _ := diagnose InvalidToken in first_token values
  end.

(** ** The structs of a line ([wire.rs]) *)

(** [RawText] is bounded by 512 bytes, [RawDisplayText] and [RawPathText] by 4096. *)
Definition RAW_DISPLAY_BYTES : Z := 4096.

Record RawSource := { rs_display : BoundedText; rs_structured_parent_thread_id : BoundedText }.

Definition invalid_source : RawSource :=
  {| rs_display := TextInvalid; rs_structured_parent_thread_id := TextMissing |}.

(** [RawSourceVisitor]; for a map, [parent] is the nested
    [subagent.thread_spawn.parent_thread_id] that was deserialized from it. *)
Definition RawSource_visit (v : Visit) (parent : BoundedText) : RawSource :=
  match v with
  | VisitStr value =>
      {| rs_display := classify_text RAW_DISPLAY_BYTES value;
         rs_structured_parent_thread_id := TextMissing |}
  | VisitMap => {| rs_display := TextMissing; rs_structured_parent_thread_id := parent |}
  | _ => invalid_source
  end.

Record RawUsage := {
  ru_input_tokens : LenientU64;
  ru_prompt_tokens : LenientU64;
  ru_input : LenientU64;
  ru_cached_input_tokens : LenientU64;
  ru_cache_read_input_tokens : LenientU64;
  ru_cached_tokens : LenientU64;
  ru_output_tokens : LenientU64;
  ru_completion_tokens : LenientU64;
  ru_output : LenientU64;
  ru_reasoning_output_tokens : LenientU64;
  ru_reasoning_tokens : LenientU64;
  ru_total_tokens : LenientU64
}.

Record RawInfo := {
  ri_last_token_usage : option RawUsage;
  ri_total_token_usage : option RawUsage;
  ri_model : BoundedText;
  ri_model_name : BoundedText
}.

(** [git] is its only field [branch]. *)
Record RawPayload := {
  rp_kind : BoundedText;
  rp_model : BoundedText;
  rp_model_name : BoundedText;
  rp_model_slug : BoundedText;
  rp_model_id : BoundedText;
  rp_requested_model : BoundedText;
  rp_default_model : BoundedText;
  rp_service_tier : BoundedText;
  rp_model_context_window : LenientU64;
  rp_name : BoundedText;
  rp_cwd : BoundedText;
  rp_originator : BoundedText;
  rp_source : RawSource;
  rp_session_id : BoundedText;
  rp_id : BoundedText;
  rp_forked_from_id : BoundedText;
  rp_parent_thread_id : BoundedText;
  rp_git_branch : BoundedText;
  rp_info : option RawInfo
}.

Record RawResult := {
  rr_timestamp : TimestampScalar;
  rr_created_at : TimestampScalar;
  rr_created_at_v2 : TimestampScalar;
  rr_usage : option RawUsage;
  rr_model : BoundedText;
  rr_model_name : BoundedText
}.

Record RawLine := {
  rl_kind : BoundedText;
  rl_timestamp : TimestampScalar;
  rl_created_at : TimestampScalar;
  rl_created_at_v2 : TimestampScalar;
  rl_payload : option RawPayload;
  rl_usage : option RawUsage;
  rl_model : BoundedText;
  rl_model_name : BoundedText;
  rl_forked_from_id : BoundedText;
  rl_parent_thread_id : BoundedText;
  rl_data : option RawResult;
  rl_result : option RawResult;
  rl_response : option RawResult
}.

(** ** What the visitors establish *)

Definition text_ok (max_bytes : Z) (t : BoundedText) : Prop :=
  forall s, text_value t = Some s -> str_ok s /\ str_len s <= max_bytes /\ existsb is_control s = false.
Definition u64_ok (v : LenientU64) : Prop := match v with U64Valid v => in_u64 v | _ => True end.

(** A call with a value of its type *)
Definition visit_ok (v : Visit) : Prop :=
  match v with
  | VisitU64 value => in_u64 value
  | VisitI64 value => in_i64 value
  | VisitStr value => str_ok value
  | _ => True
  end.

Lemma parse_digits_range acc l v : 0 <= acc <= u64_max -> forallb is_ascii_digit l = true ->
  parse_digits acc l = Some v -> in_u64 v.
Proof.
  revert acc. induction l as [|d l IH]; intros acc Ha Hd H; simpl in H.
  - injection H as <-. unfold_ints. lia.
  - cbn [forallb] in Hd. apply andb_true_iff in Hd as [Hd Hl]. unfold is_ascii_digit in Hd.
    destruct (checked_mul _ _ _) as [m|] eqn:Em; [|done]. apply checked_mul_Some in Em as [-> Hm].
    destruct (checked_add _ _ _) as [a|] eqn:Ea; [|done]. apply checked_add_Some in Ea as [-> Hadd].
    apply (IH (acc * 10 + (d - 48))); [|done..]. to_prop. lia.
Qed.

Lemma LenientU64_visit_ok v : visit_ok v -> u64_ok (LenientU64_visit v).
Proof.
  destruct v as [z|z| | |s| | | |]; simpl; try done.
  - intros H. destruct (0 <=? z) eqn:E; simpl; [|done]. to_prop. unfold_ints. lia.
  - intros _. unfold parse_decimal. destruct (_ || _ || _) eqn:E; [done|].
    rewrite !orb_false_iff, negb_false_iff in E. destruct E as [[_ _] E].
    destruct (parse_digits 0 _) as [v|] eqn:Ep; [|done]. eapply parse_digits_range in Ep; [done|unfold_ints; lia|done].
Qed.

Lemma classify_text_ok max s : str_ok s -> text_ok max (classify_text max s).
Proof.
  intros Hs t. unfold classify_text, valid_bounded_text. destruct (_ && _) eqn:E; [|done].
  rewrite andb_true_iff, negb_true_iff in E. destruct E. to_prop. by intros [= <-].
Qed.

Lemma BoundedText_visit_ok max v : visit_ok v -> text_ok max (BoundedText_visit max v).
Proof. destruct v; simpl; try done. apply classify_text_ok. Qed.

(** ** A line as its deserializer delivers it *)

Definition RawSource_ok (s : RawSource) : Prop :=
  text_ok RAW_DISPLAY_BYTES (rs_display s) /\ text_ok MAX_RAW_MODEL_BYTES (rs_structured_parent_thread_id s).

Lemma RawSource_visit_ok v parent :
  visit_ok v -> text_ok MAX_RAW_MODEL_BYTES parent -> RawSource_ok (RawSource_visit v parent).
Proof. destruct v; simpl; intros Hv Hp; split; simpl; try done; by apply classify_text_ok. Qed.

Definition RawUsage_ok (u : RawUsage) : Prop :=
  Forall u64_ok [ru_input_tokens u; ru_prompt_tokens u; ru_input u; ru_cached_input_tokens u;
    ru_cache_read_input_tokens u; ru_cached_tokens u; ru_output_tokens u; ru_completion_tokens u;
    ru_output u; ru_reasoning_output_tokens u; ru_reasoning_tokens u; ru_total_tokens u].

Definition option_ok {A} (P : A -> Prop) (o : option A) : Prop := forall a, o = Some a -> P a.

Definition RawInfo_ok (i : RawInfo) : Prop :=
  option_ok RawUsage_ok (ri_last_token_usage i) /\ option_ok RawUsage_ok (ri_total_token_usage i) /\
  Forall (text_ok MAX_RAW_MODEL_BYTES) [ri_model i; ri_model_name i].

Definition RawPayload_ok (p : RawPayload) : Prop :=
  Forall (text_ok MAX_RAW_MODEL_BYTES) [rp_kind p; rp_model p; rp_model_name p; rp_model_slug p;
    rp_model_id p; rp_requested_model p; rp_default_model p; rp_session_id p; rp_id p;
    rp_forked_from_id p; rp_parent_thread_id p] /\
  Forall (text_ok RAW_DISPLAY_BYTES) [rp_service_tier p; rp_name p; rp_cwd p; rp_originator p;
    rp_git_branch p] /\
  u64_ok (rp_model_context_window p) /\ RawSource_ok (rp_source p) /\ option_ok RawInfo_ok (rp_info p).

Definition RawResult_ok (r : RawResult) : Prop :=
  option_ok RawUsage_ok (rr_usage r) /\ Forall (text_ok MAX_RAW_MODEL_BYTES) [rr_model r; rr_model_name r].

Definition RawLine_ok (l : RawLine) : Prop :=
  Forall (text_ok MAX_RAW_MODEL_BYTES)
    [rl_kind l; rl_model l; rl_model_name l; rl_forked_from_id l; rl_parent_thread_id l] /\
  option_ok RawPayload_ok (rl_payload l) /\ option_ok RawUsage_ok (rl_usage l) /\
  option_ok RawResult_ok (rl_data l) /\ option_ok RawResult_ok (rl_result l) /\
  option_ok RawResult_ok (rl_response l).

(** ** Lemmas on text and models *)

Lemma str_ok_app s t : str_ok (s ++ t) <-> str_ok s /\ str_ok t.
Proof. apply Forall_app. Qed.

Lemma str_ok_trim s : str_ok s -> str_ok (trim s).
Proof.
  intros H. unfold trim. destruct (trim_start_suffix s) as [p Hp].
  destruct (trim_end_prefix (trim_start s)) as [q Hq].
  rewrite Hp in H. apply str_ok_app in H as [_ H]. rewrite Hq in H. by apply str_ok_app in H as [H _].
Qed.

Lemma trimmed_value_ok s f max v : str_ok s -> validate_trimmed_value s f max = Ok v ->
  str_ok v /\ str_len v <= max /\ validate_trimmed_value v f max = Ok v.
Proof.
  intros Hs H. pose proof (validate_trimmed_value_fix _ _ _ _ H).
  apply validate_trimmed_value_ok in H as (-> & _ & Hl & _). split_and!; auto using str_ok_trim.
Qed.

Lemma utf8_char_head c : c < 128 \/ exists b l, utf8_char c = b :: l /\ 128 <= b.
Proof.
  unfold utf8_char. destruct (c <? 128) eqn:E1; to_prop; [by left|]. right.
  destruct (c <? 2048) eqn:E2; [|destruct (c <? 65536) eqn:E3]; to_prop; eexists _, _; split; try reflexivity.
  - pose proof (Z.div_pos c 64). lia.
  - pose proof (Z.div_pos c 4096). lia.
  - pose proof (Z.div_pos c 262144). lia.
Qed.

(** Bytes that are all ASCII are those of an ASCII string. *)
Lemma ascii_bytes_str_ok s : Forall (fun b => 0 <= b < 128) (as_bytes s) -> str_ok s.
Proof.
  induction s as [|c s IH]; intros H; constructor; simpl in H; apply Forall_app in H as [Hc Hs]; [|by apply IH].
  destruct (utf8_char_head c) as [Hlt|(b & l & E & Hb)].
  - unfold utf8_char in Hc. rewrite (proj2 (Z.ltb_lt _ _) Hlt) in Hc. inversion Hc; subst.
    unfold scalar. lia.
  - rewrite E in Hc. inversion Hc; subst. lia.
Qed.

Lemma is_model_key_byte_ascii b : is_model_key_byte b = true -> 0 <= b < 128.
Proof.
  unfold is_model_key_byte, is_usage_id_byte, is_ascii_alphanumeric, is_ascii_digit, is_ascii_uppercase,
    is_ascii_lowercase.
  rewrite !orb_true_iff, !andb_true_iff, !Z.leb_le, !Z.eqb_eq. lia.
Qed.

Lemma ModelKey_new_ok s v : ModelKey_new s = Ok v ->
  v = s /\ str_ok v /\ str_len v <= MAX_MODEL_KEY_BYTES /\ ModelKey_new v = Ok v.
Proof.
  intros H. pose proof H as H'. apply validate_ascii_value_ok in H as (-> & _ & Hl & Hb).
  split_and!; [done| |done|done]. apply ascii_bytes_str_ok.
  eapply Forall_impl; [exact Hb|]. simpl. intros b. apply is_model_key_byte_ascii.
Qed.

(** A model as the parser resolves it: the placeholder, or what its raw name normalizes to *)
Definition model_ok (sha256 : list Z -> list Z) (m : ResolvedModel) : Prop :=
  ModelKey_new (model_key m) = Ok (model_key m) /\
  (m = {| model_key := unknown_model; model_raw := None; model_fallback := true |} \/
   exists raw, model_raw m = Some raw /\ MetadataValue_new raw = Ok raw /\
     normalize_explicit_model sha256 raw = Some m).

Lemma normalize_shape sha256 value m : normalize_explicit_model sha256 value = Some m ->
  exists raw, MetadataValue_new value = Ok raw /\ MetadataValue_new raw = Ok raw /\
    model_raw m = Some raw /\ model_fallback m = false /\
    ModelKey_new (model_key m) = Ok (model_key m) /\ normalize_explicit_model sha256 raw = Some m.
Proof.
  unfold normalize_explicit_model. intros H.
  destruct (MetadataValue_new value) as [raw|] eqn:Er; [|done]. simpl in H.
  pose proof (validate_trimmed_value_fix _ _ _ _ Er) as Hfix. change (MetadataValue_new raw = Ok raw) in Hfix.
  exists raw. rewrite Hfix. simpl. split_and!; [done..| | | |exact H].
  all: destruct (_ <? _); [done|]; destruct (ModelKey_new raw) as [k|] eqn:Ek;
    [injection H as <-|destruct (ModelKey_new (append_hex _ _)) as [k|] eqn:Ek'; [|done]; simpl in H; injection H as <-];
    try done.
  - by apply ModelKey_new_ok in Ek as (_ & _ & _ & ?).
  - by apply ModelKey_new_ok in Ek' as (_ & _ & _ & ?).
Qed.

Lemma normalize_model_ok sha256 value m : normalize_explicit_model sha256 value = Some m -> model_ok sha256 m.
Proof. intros (raw & _ & ? & ? & _ & ? & ?)%normalize_shape. split; [done|]. right. eauto. Qed.

Lemma unknown_model_ok sha256 :
  model_ok sha256 {| model_key := unknown_model; model_raw := None; model_fallback := true |}.
Proof. split; [done|by left]. Qed.

(** Resolution always ends with a model. *)
Lemma resolve_model_ok sha256 explicit current n :
  option_ok (model_ok sha256) current ->
  exists m, (resolve_model sha256 explicit current n).1 = Some m /\ model_ok sha256 m.
Proof.
  intros Hc. unfold resolve_model.
  destruct explicit as [value|]; [destruct (normalize_explicit_model sha256 value) as [m|] eqn:E|].
  1: exists m; split; [done|by eapply normalize_model_ok].
  all: destruct current as [m|];
    [exists m; split; [by destruct (model_fallback m)|by apply Hc]
    |eexists; split; [done|apply unknown_model_ok]].
Qed.

Lemma model_ok_lengths sha256 m : model_ok sha256 m ->
  str_len (model_key m) <= 64 /\ match model_raw m with Some r => str_len r | None => 0 end <= 512.
Proof.
  intros [Hk H]. apply ModelKey_new_ok in Hk as (_ & _ & Hk & _). split; [exact Hk|].
  destruct H as [-> |(raw & -> & Hr & _)]; [done|]. by apply validate_trimmed_value_ok in Hr as (_ & _ & ? & _).
Qed.
