(* ===== verification/ParserState.v ===== *)
(** * State of the Codex line parser

    Models [crates/codex/src/parser/state.rs]: what the parser remembers between
    lines, its persistent form [ParserResumeState], and the counters of tools.  The
    candidate path and the activity hint of [provider/src/repository.rs] are not
    persisted.  Validated values are the strings they wrap; [..._ok] says that the
    constructor of the type returned them. *)

From S2P Require Import Prelude Collections Usage Accounting Checkpoint Framing ParserValues.

Open Scope Z_scope.

Definition MAX_TOOL_NAMES : nat := 64.
Definition MAX_TOOL_NAME_BYTES : Z := 80.
Definition MAX_CONTEXT_WINDOW_TOKENS : Z := 10000000.
Definition MAX_RETAINED_TEXT_BYTES : Z := 15232.
Definition MAX_PATH_BYTES : Z := 4096.

Record ToolCountEntry := { tool_name : str; tool_count : Z }.
#[export] Instance ToolCountEntry_eq_dec : EqDecision ToolCountEntry.
Proof. solve_decision. Defined.

Definition ToolCountEntry_new (name : str) : ToolCountEntry := {| tool_name := name; tool_count := 1 |}.

(** [RepositoryCandidatePath]: a canonical directory and the length of its path *)
Record RepositoryCandidatePath := { rc_directory : str; rc_byte_len : Z }.

Record RepositoryActivityHint := {
  rh_provider_id : str;
  rh_profile_id : str;
  rh_source_id : str;
  rh_session_id : str;
  rh_observed_at : UtcTimestamp;
  rh_project : option str;
  rh_candidate : RepositoryCandidatePath
}.

Record ResumeModel := { rm_key : str; rm_raw : option str; rm_fallback : bool }.
#[export] Instance ResumeModel_eq_dec : EqDecision ResumeModel.
Proof. solve_decision. Defined.

(** [ResumeModel::from] *)
Definition ResumeModel_from (m : ResolvedModel) : ResumeModel :=
  {| rm_key := model_key m; rm_raw := model_raw m; rm_fallback := model_fallback m |}.

Record ParserResumeState := {
  rs_version : Z;
  rs_current_model : option ResumeModel;
  rs_previous_totals : option TokenUsage;
  rs_service_tier : option str;
  rs_session_id : option str;
  rs_parent_session_id : option str;
  rs_lineage_conflict : bool;
  rs_next_usage_ordinal : Z;
  rs_project : option str;
  rs_originator : option str;
  rs_source_alias : option str;
  rs_git_branch : option str;
  rs_context_window : option Z;
  rs_pending_activity : ActivityCounts;
  rs_aggregate_activity : ActivityCounts;
  rs_tool_counts : list ToolCountEntry;
  rs_other_tools : Z
}.
#[export] Instance ParserResumeState_eq_dec : EqDecision ParserResumeState.
Proof. solve_decision. Defined.

Inductive ParserResumeErrorCode := UnsupportedVersion | InvalidState.

Record ParserState := {
  ps_current_model : option ResolvedModel;
  ps_previous_totals : option TokenUsage;
  ps_service_tier : option str;
  ps_session_id : option str;
  ps_parent_session_id : option str;
  ps_lineage_conflict : bool;
  ps_next_usage_ordinal : Z;
  ps_project : option str;
  ps_repository_candidate : option RepositoryCandidatePath;
  ps_repository_project : option str;
  ps_latest_repository_activity_hint : option RepositoryActivityHint;
  ps_originator : option str;
  ps_source_alias : option str;
  ps_git_branch : option str;
  ps_context_window : option Z;
  ps_pending_activity : ActivityCounts;
  ps_aggregate_activity : ActivityCounts;
  ps_tool_counts : list ToolCountEntry;
  ps_other_tools : Z
}.

Definition ParserState_new : ParserState :=
  {| ps_current_model := None; ps_previous_totals := None; ps_service_tier := None;
     ps_session_id := None; ps_parent_session_id := None; ps_lineage_conflict := false;
     ps_next_usage_ordinal := 0; ps_project := None; ps_repository_candidate := None;
     ps_repository_project := None; ps_latest_repository_activity_hint := None;
     ps_originator := None; ps_source_alias := None; ps_git_branch := None;
     ps_context_window := None; ps_pending_activity := ActivityCounts_default;
     ps_aggregate_activity := ActivityCounts_default; ps_tool_counts := []; ps_other_tools := 0 |}.

Definition snapshot (s : ParserState) : ParserResumeState :=
  {| rs_version := PARSER_SCHEMA_VERSION;
     rs_current_model := ResumeModel_from <$> ps_current_model s;
     rs_previous_totals := ps_previous_totals s; rs_service_tier := ps_service_tier s;
     rs_session_id := ps_session_id s; rs_parent_session_id := ps_parent_session_id s;
     rs_lineage_conflict := ps_lineage_conflict s; rs_next_usage_ordinal := ps_next_usage_ordinal s;
     rs_project := ps_project s; rs_originator := ps_originator s;
     rs_source_alias := ps_source_alias s; rs_git_branch := ps_git_branch s;
     rs_context_window := ps_context_window s; rs_pending_activity := ps_pending_activity s;
     rs_aggregate_activity := ps_aggregate_activity s; rs_tool_counts := ps_tool_counts s;
     rs_other_tools := ps_other_tools s |}.

(** ** Checks of a resumed state *)

Definition valid_tool_name (value : str) : bool :=
  negb (bool_decide (value = [])) && (str_len value <=? MAX_TOOL_NAME_BYTES)
  && negb (existsb is_control value).

(** [entries.windows(2).all(|pair| pair[0].name < pair[1].name)] *)
Fixpoint ascending_names (entries : list ToolCountEntry) : bool :=
  match entries with
  | a :: (b :: _) as rest =>
      match str_cmp (tool_name a) (tool_name b) with Lt => ascending_names rest | _ => false end
  | _ => true
  end.

Definition valid_tool_entries (entries : list ToolCountEntry) : bool :=
  (length entries <=? MAX_TOOL_NAMES)%nat
  && forallb (fun entry => valid_tool_name (tool_name entry) && (0 <? tool_count entry)) entries
  && ascending_names entries.

Definition valid_previous_totals (usage : TokenUsage) : bool :=
  match tu_input usage, tu_cached usage with
  | Available input, Available cached => cached <=? input
  | _, Unavailable => true
  | Unavailable, Available _ => false
  end.

Definition valid_activity_relation (pending aggregate : ActivityCounts) : bool :=
  forallb (fun '(p, a) => p <=? a) (zip (ac_slots pending) (ac_slots aggregate)).

Definition opt_len (value : option str) : Z := match value with Some v => str_len v | None => 0 end.

Definition hint_len (hint : option RepositoryActivityHint) : Z :=
  match hint with
  | Some h => str_len (rh_provider_id h) + str_len (rh_profile_id h) + str_len (rh_source_id h)
              + str_len (rh_session_id h) + opt_len (rh_project h)
  | None => 0
  end.

Definition retained_text_bytes (s : ParserState) : Z :=
  match ps_current_model s with
  | Some m => str_len (model_key m) + opt_len (model_raw m)
  | None => 0
  end
  + opt_len (ps_service_tier s) + opt_len (ps_session_id s) + opt_len (ps_parent_session_id s)
  + opt_len (ps_project s)
  + match ps_repository_candidate s with Some c => rc_byte_len c | None => 0 end
  + opt_len (ps_repository_project s) + hint_len (ps_latest_repository_activity_hint s)
  + opt_len (ps_originator s) + opt_len (ps_source_alias s) + opt_len (ps_git_branch s)
  + zsum (fun entry => str_len (tool_name entry)) (ps_tool_counts s).

Section resume.
Context (sha256 : list Z -> list Z).

Definition resolved_model_from_resume (value : ResumeModel)
  : result ResolvedModel ParserResumeErrorCode :=
  if rm_fallback value then
    if bool_decide (rm_key value = unknown_model) && is_none (rm_raw value)
    then Ok {| model_key := rm_key value; model_raw := None; model_fallback := true |}
    else Err InvalidState
  else
    match rm_raw value with
    | None => Err InvalidState
    | Some raw =>
        match normalize_explicit_model sha256 raw with
        | None => Err InvalidState
        | Some normalized =>
            fail_if negb (bool_decide (model_key normalized = rm_key value)) || model_fallback normalized
            with InvalidState else
            Ok {| model_key := rm_key value; model_raw := rm_raw value; model_fallback := false |}
        end
    end.

Definition from_resume (value : ParserResumeState) : result ParserState ParserResumeErrorCode :=
  fail_if negb (rs_version value =? PARSER_SCHEMA_VERSION) with UnsupportedVersion else
  fail_if
    is_some_and (rs_context_window value)
      (fun window => negb ((1 <=? window) && (window <=? MAX_CONTEXT_WINDOW_TOKENS)))
    || is_some_and (rs_previous_totals value) (fun usage => negb (valid_previous_totals usage))
    || negb (valid_tool_entries (rs_tool_counts value))
    || ((0 <? rs_other_tools value) && (length (rs_tool_counts value) <? MAX_TOOL_NAMES)%nat)
    || negb (valid_activity_relation (rs_pending_activity value) (rs_aggregate_activity value))
    || (i64_max <? rs_next_usage_ordinal value)
    || (negb (rs_lineage_conflict value) && is_some (rs_parent_session_id value)
        && bool_decide (rs_parent_session_id value = rs_session_id value))
  with InvalidState else
  let? current_model :=
    match rs_current_model value with
    | Some m => let? m := resolved_model_from_resume m in Ok (Some m)
    | None => Ok None
    end in
  let state :=
    {| ps_current_model := current_model; ps_previous_totals := rs_previous_totals value;
       ps_service_tier := rs_service_tier value; ps_session_id := rs_session_id value;
       ps_parent_session_id := rs_parent_session_id value;
       ps_lineage_conflict := rs_lineage_conflict value;
       ps_next_usage_ordinal := rs_next_usage_ordinal value; ps_project := rs_project value;
       ps_repository_candidate := None; ps_repository_project := None;
       ps_latest_repository_activity_hint := None; ps_originator := rs_originator value;
       ps_source_alias := rs_source_alias value; ps_git_branch := rs_git_branch value;
       ps_context_window := rs_context_window value;
       ps_pending_activity := rs_pending_activity value;
       ps_aggregate_activity := rs_aggregate_activity value;
       ps_tool_counts := rs_tool_counts value; ps_other_tools := rs_other_tools value |} in
  fail_if MAX_RETAINED_TEXT_BYTES <? retained_text_bytes state with InvalidState else
  Ok state.
End resume.

(** ** Tools *)

(** The table of tools and the overflow counter after one more use; whether the
    table was full *)
Definition count_tool (counts : list ToolCountEntry) (other : Z) (name : str)
  : list ToolCountEntry * Z * bool :=
  match binary_search (fun entry => str_cmp (tool_name entry) name) counts with
  | Ok index =>
      (alter (fun e => {| tool_name := tool_name e; tool_count := saturating_add u64_max (tool_count e) 1 |})
         index counts, other, false)
  | Err index =>
      if (length counts <? MAX_TOOL_NAMES)%nat
      then (vec_insert counts index (ToolCountEntry_new name), other, false)
      else (counts, saturating_add u64_max other 1, true)
  end.

Definition record_tool (s : ParserState) (name : str) (activity : ActivityKind) : writer ParserState :=
  let '(counts, other, full) := count_tool (ps_tool_counts s) (ps_other_tools s) name in
  let! _ := diagnose_if full ToolCapacity in
  pure {| ps_current_model := ps_current_model s; ps_previous_totals := ps_previous_totals s;
     ps_service_tier := ps_service_tier s; ps_session_id := ps_session_id s;
     ps_parent_session_id := ps_parent_session_id s; ps_lineage_conflict := ps_lineage_conflict s;
     ps_next_usage_ordinal := ps_next_usage_ordinal s; ps_project := ps_project s;
     ps_repository_candidate := ps_repository_candidate s;
     ps_repository_project := ps_repository_project s;
     ps_latest_repository_activity_hint := ps_latest_repository_activity_hint s;
     ps_originator := ps_originator s; ps_source_alias := ps_source_alias s;
     ps_git_branch := ps_git_branch s; ps_context_window := ps_context_window s;
     ps_pending_activity := ActivityCounts_increment (ps_pending_activity s) activity;
     ps_aggregate_activity := ActivityCounts_increment (ps_aggregate_activity s) activity;
     ps_tool_counts := counts; ps_other_tools := other |}.

(** [record_repository_activity_hint] of [ParserState], with the value [take] leaves *)
Definition set_hint (s : ParserState) (hint : option RepositoryActivityHint) : ParserState :=
  {| ps_current_model := ps_current_model s; ps_previous_totals := ps_previous_totals s;
     ps_service_tier := ps_service_tier s; ps_session_id := ps_session_id s;
     ps_parent_session_id := ps_parent_session_id s; ps_lineage_conflict := ps_lineage_conflict s;
     ps_next_usage_ordinal := ps_next_usage_ordinal s; ps_project := ps_project s;
     ps_repository_candidate := ps_repository_candidate s;
     ps_repository_project := ps_repository_project s;
     ps_latest_repository_activity_hint := hint;
     ps_originator := ps_originator s; ps_source_alias := ps_source_alias s;
     ps_git_branch := ps_git_branch s; ps_context_window := ps_context_window s;
     ps_pending_activity := ps_pending_activity s;
     ps_aggregate_activity := ps_aggregate_activity s; ps_tool_counts := ps_tool_counts s;
     ps_other_tools := ps_other_tools s |}.

Definition take_latest_repository_activity_hint (s : ParserState)
  : ParserState * option RepositoryActivityHint :=
  (set_hint s None, ps_latest_repository_activity_hint s).

(** ** The invariant of a state *)

Definition metadata_ok (v : str) : Prop := MetadataValue_new v = Ok v /\ str_ok v.
Definition session_ok (v : str) : Prop := UsageSessionId_new v = Ok v /\ str_ok v.
Definition alias_ok (v : str) : Prop := ProjectAlias_new v = Ok v /\ str_ok v.
Definition totals_ok (u : TokenUsage) : Prop := TokenUsage_ok u /\ valid_previous_totals u = true.
Definition window_ok (w : Z) : Prop := 1 <= w <= MAX_CONTEXT_WINDOW_TOKENS.

Definition tools_ok (counts : list ToolCountEntry) (other : Z) : Prop :=
  valid_tool_entries counts = true /\
  Forall (fun e => str_ok (tool_name e) /\ in_u64 (tool_count e)) counts /\
  in_u64 other /\ (0 < other -> length counts = MAX_TOOL_NAMES).

Definition activity_ok (pending aggregate : ActivityCounts) : Prop :=
  ActivityCounts_ok pending /\ ActivityCounts_ok aggregate /\
  valid_activity_relation pending aggregate = true.

(** Without a recorded conflict no session is its own parent. *)
Definition lineage_ok (conflict : bool) (parent session : option str) : Prop :=
  conflict = false -> forall p, parent = Some p -> session <> Some p.

Definition candidate_ok (c : RepositoryCandidatePath) : Prop := 0 <= rc_byte_len c <= MAX_PATH_BYTES.

Definition hint_ok (h : RepositoryActivityHint) : Prop :=
  str_len (rh_provider_id h) <= MAX_PROVIDER_ID_BYTES /\
  str_len (rh_profile_id h) <= MAX_USAGE_ID_BYTES /\ str_len (rh_source_id h) <= MAX_USAGE_ID_BYTES /\
  session_ok (rh_session_id h) /\ option_ok alias_ok (rh_project h).

Record state_ok (sha256 : list Z -> list Z) (s : ParserState) : Prop := {
  so_model : option_ok (model_ok sha256) (ps_current_model s);
  so_totals : option_ok totals_ok (ps_previous_totals s);
  so_service_tier : option_ok metadata_ok (ps_service_tier s);
  so_session : option_ok session_ok (ps_session_id s);
  so_parent : option_ok session_ok (ps_parent_session_id s);
  so_lineage : lineage_ok (ps_lineage_conflict s) (ps_parent_session_id s) (ps_session_id s);
  so_ordinal : 0 <= ps_next_usage_ordinal s <= i64_max;
  so_project : option_ok alias_ok (ps_project s);
  so_candidate : option_ok candidate_ok (ps_repository_candidate s);
  so_repository_project : option_ok alias_ok (ps_repository_project s);
  so_hint : option_ok hint_ok (ps_latest_repository_activity_hint s);
  so_originator : option_ok metadata_ok (ps_originator s);
  so_source_alias : option_ok metadata_ok (ps_source_alias s);
  so_git_branch : option_ok metadata_ok (ps_git_branch s);
  so_window : option_ok window_ok (ps_context_window s);
  so_activity : activity_ok (ps_pending_activity s) (ps_aggregate_activity s);
  so_tools : tools_ok (ps_tool_counts s) (ps_other_tools s)
}.

Lemma option_ok_None {A} (P : A -> Prop) : option_ok P None.
Proof. done. Qed.
Lemma option_ok_Some {A} (P : A -> Prop) a : option_ok P (Some a) <-> P a.
Proof. split; [by intros H; apply H|by intros H b [= <-]]. Qed.

Create HintDb parser.
#[export] Hint Resolve option_ok_None so_model so_totals so_service_tier so_session so_parent so_lineage
  so_ordinal so_project so_candidate so_repository_project so_hint so_originator so_source_alias
  so_git_branch so_window so_activity so_tools : parser.

(** *** Tools *)

Lemma ascending_names_sorted l :
  ascending_names l = true <-> strictly_sorted (cmp_by tool_name str_cmp) l.
Proof.
  induction l as [|a [|b l] IH]; [split; [constructor|done]|split; [repeat constructor|done]|].
  cbn [ascending_names]. split.
  - destruct (str_cmp (tool_name a) (tool_name b)) eqn:E; try done. intros Hs%IH. constructor; [done|].
    constructor; [exact E|]. apply StronglySorted_inv in Hs as [_ Hb]. eapply Forall_impl; [exact Hb|].
    intros c Hc. unfold cmp_by in *. eapply (cmp_Lt_le str_cmp); [exact E|]. by rewrite Hc.
  - intros Hs. apply StronglySorted_inv in Hs as [Hs Ha]. inversion Ha as [|? ? Hab]; subst.
    unfold cmp_by in Hab. rewrite Hab. by apply IH.
Qed.

(** The table in terms of its parts *)
Lemma valid_tool_entries_spec l : valid_tool_entries l = true <->
  (length l <= MAX_TOOL_NAMES)%nat /\
  (forall e, e ∈ l -> valid_tool_name (tool_name e) = true /\ 0 < tool_count e) /\
  strictly_sorted (cmp_by tool_name str_cmp) l.
Proof.
  unfold valid_tool_entries. rewrite !andb_true_iff, ascending_names_sorted, Nat.leb_le, forallb_forall.
  split.
  - intros [[Hl Hf] Hs]. split_and!; [done| |done]. intros e He. apply list_elem_of_In, Hf in He.
    rewrite andb_true_iff in He. destruct He. to_prop. done.
  - intros (Hl & Hf & Hs). split_and!; [done| |done]. intros e He. apply list_elem_of_In, Hf in He as [-> Hc].
    simpl. lia.
Qed.

Lemma alter_sorted (f : ToolCountEntry -> ToolCountEntry) i l :
  (forall e, tool_name (f e) = tool_name e) ->
  strictly_sorted (cmp_by tool_name str_cmp) l -> strictly_sorted (cmp_by tool_name str_cmp) (alter f i l).
Proof.
  intros Hf Hs. rewrite <- ascending_names_sorted in *.
  revert i Hs. induction l as [|a [|b l] IH]; intros [|i] Hs; [done..|by destruct i| |].
  - cbn in *. by rewrite Hf.
  - cbn [ascending_names] in Hs. destruct (str_cmp _ _) eqn:E; try done.
    specialize (IH i Hs). cbn [alter list_alter] in *. destruct i as [|i]; cbn in *.
    + rewrite Hf. by rewrite E.
    + by rewrite E.
Qed.

Lemma tool_probe name l : strictly_sorted (cmp_by tool_name str_cmp) l ->
  ascending_probe (fun entry => str_cmp (tool_name entry) name) l.
Proof. apply sorted_probe. Qed.

Lemma count_tool_ok counts other name counts' other' full :
  tools_ok counts other -> valid_tool_name name = true -> str_ok name ->
  count_tool counts other name = (counts', other', full) -> tools_ok counts' other'.
Proof.
  intros (Hv & Hc & Ho & Hfull) Hn Hs H. apply valid_tool_entries_spec in Hv as (Hlen & Hent & Hsort).
  pose proof (binary_search_cases _ _ (tool_probe name counts Hsort)) as Hb. unfold count_tool in H.
  destruct (binary_search _ _) as [i|i].
  - injection H as <- <- <-. destruct Hb as (e & Hi & _). split_and!; [|by apply Forall_alter; [|intros x _ [? ?]; split; [done|unfold saturating_add; unfold_ints; simpl; lia]]|done|by rewrite length_alter].
    apply valid_tool_entries_spec. split_and!; [by rewrite length_alter| |by apply alter_sorted].
    intros x Hx. apply list_elem_of_lookup in Hx as [j Hj]. destruct (decide (i = j)) as [<-|Hne].
    + rewrite list_lookup_alter_eq, Hi in Hj. injection Hj as <-. simpl.
      destruct (Hent e) as [? ?]; [by eapply list_elem_of_lookup_2|]. unfold saturating_add, u64_max. split; [done|lia].
    + rewrite list_lookup_alter_ne in Hj by done. apply Hent. by eapply list_elem_of_lookup_2.
  - destruct Hb as (Hi & Hlt & Hgt). destruct (_ <? _)%nat eqn:El; injection H as <- <- <-.
    + apply Nat.ltb_lt in El. pose proof (vec_insert_permutation counts i (ToolCountEntry_new name)) as Hp.
      split_and!; [| |done|intros Hpos; specialize (Hfull Hpos); lia].
      * apply valid_tool_entries_spec. split_and!; [rewrite Hp; simpl; lia| |by apply vec_insert_sorted].
        intros e. rewrite Hp, elem_of_cons. intros [->|He]; [done|by apply Hent].
      * rewrite Hp. constructor; [|done]. simpl. split; [done|unfold_ints; lia].
    + apply Nat.ltb_ge in El. split_and!; [by apply valid_tool_entries_spec|done| |intros; lia].
      unfold saturating_add. unfold_ints. lia.
Qed.

(** *** Activity *)

Lemma activity_relation_lookup p a : length (ac_slots p) = length (ac_slots a) ->
  valid_activity_relation p a = true <->
  forall i x y, ac_slots p !! i = Some x -> ac_slots a !! i = Some y -> x <= y.
Proof.
  intros Hl. unfold valid_activity_relation. rewrite forallb_forall. split.
  - intros H i x y Hx Hy. specialize (H (x, y)). cbv beta iota in H. apply Z.leb_le, H. apply list_elem_of_In.
    apply list_elem_of_lookup. exists i. apply lookup_zip_with_Some. by exists x, y.
  - intros H [x y] Hin. apply list_elem_of_In, list_elem_of_lookup in Hin as [i Hi].
    apply lookup_zip_with_Some in Hi as (x' & y' & [= <- <-] & Hx & Hy). apply Z.leb_le. by eapply H.
Qed.

Lemma increment_ok a k : ActivityCounts_ok a -> ActivityCounts_ok (ActivityCounts_increment a k).
Proof. intros H. by apply (activity_add_saturates a k k 1); [done|unfold_ints; lia]. Qed.

Lemma increment_activity_ok p a k : activity_ok p a ->
  activity_ok (ActivityCounts_increment p k) (ActivityCounts_increment a k).
Proof.
  intros (Hp & Ha & Hr). split_and!; [by apply increment_ok..|].
  destruct Hp as [Lp Fp], Ha as [La Fa]. rewrite activity_relation_lookup in Hr by congruence.
  apply activity_relation_lookup; [simpl; by rewrite !length_insert, Lp, La|].
  pose proof (ActivityKind_index_lt k) as Hi.
  destruct (lookup_lt_is_Some_2 (ac_slots p) (ActivityKind_index k)) as [u Hu]; [lia|].
  destruct (lookup_lt_is_Some_2 (ac_slots a) (ActivityKind_index k)) as [v Hv]; [lia|].
  intros i x y. unfold ActivityCounts_increment, ActivityCounts_add, ActivityCounts_get. simpl.
  rewrite (nth_lookup_Some _ _ _ _ Hu), (nth_lookup_Some _ _ _ _ Hv).
  destruct (decide (ActivityKind_index k = i)) as [<-|Hne].
  - rewrite !list_lookup_insert_eq by lia. intros [= <-] [= <-]. specialize (Hr _ _ _ Hu Hv).
    unfold saturating_add. lia.
  - rewrite !list_lookup_insert_ne by done. apply Hr.
Qed.

Lemma default_activity_ok : ActivityCounts_ok ActivityCounts_default.
Proof. split; [done|]. simpl. repeat constructor; unfold_ints; lia. Qed.

(** An event takes the pending activity with it. *)
Lemma reset_activity_ok p a : activity_ok p a -> activity_ok ActivityCounts_default a.
Proof.
  intros (_ & Ha & _). split_and!; [apply default_activity_ok|done|]. destruct Ha as [La Fa].
  apply activity_relation_lookup; [by rewrite La|]. intros i x y Hx Hy.
  change (repeat 0 8 !! i = Some x) in Hx. apply list_elem_of_lookup_2, list_elem_of_In, repeat_spec in Hx as ->.
  rewrite Forall_forall in Fa. apply list_elem_of_lookup_2, Fa in Hy. unfold_ints. lia.
Qed.

(** ** Lengths *)

Lemma str_len_nonneg s : 0 <= str_len s.
Proof. unfold str_len. lia. Qed.

Lemma opt_len_bound (P : str -> Prop) (max : Z) o :
  (forall v, P v -> str_len v <= max) -> 0 <= max -> option_ok P o -> 0 <= opt_len o <= max.
Proof.
  intros Hb Hm Ho. destruct o as [v|]; simpl; [|lia]. pose proof (str_len_nonneg v).
  specialize (Hb v (Ho v eq_refl)). lia.
Qed.

Lemma metadata_len v : metadata_ok v -> str_len v <= 512.
Proof. intros [H _]. by apply validate_trimmed_value_ok in H as (_ & _ & ? & _). Qed.
Lemma session_len v : session_ok v -> str_len v <= 512.
Proof. intros [H _]. by apply validate_trimmed_value_ok in H as (_ & _ & ? & _). Qed.
Lemma alias_len v : alias_ok v -> str_len v <= 512.
Proof. intros [H _]. by apply project_alias_stable in H as (_ & _ & ? & _). Qed.

Definition metadata_opt o := opt_len_bound metadata_ok 512 o metadata_len ltac:(lia).
Definition session_opt o := opt_len_bound session_ok 512 o session_len ltac:(lia).
Definition alias_opt o := opt_len_bound alias_ok 512 o alias_len ltac:(lia).

Lemma tools_len counts other : tools_ok counts other ->
  0 <= zsum (fun e => str_len (tool_name e)) counts <= 5120.
Proof.
  intros (Hv & _). apply valid_tool_entries_spec in Hv as (Hlen & Hent & _). split.
  - apply zsum_nonneg. intros e _. apply str_len_nonneg.
  - transitivity (zsum (fun _ : ToolCountEntry => 80) counts); [|rewrite zsum_const; unfold MAX_TOOL_NAMES in Hlen; lia].
    apply zsum_le. intros e He. apply Hent in He as [He _]. unfold valid_tool_name in He.
    rewrite !andb_true_iff in He. destruct He as [[_ He] _]. by to_prop.
Qed.

Lemma hint_len_bound h : option_ok hint_ok h -> 0 <= hint_len h <= 1344.
Proof.
  intros Hh. destruct h as [h|]; simpl; [|lia].
  destruct (Hh h eq_refl) as (H1 & H2 & H3 & H4%session_len & H5%alias_opt).
  unfold MAX_PROVIDER_ID_BYTES, MAX_USAGE_ID_BYTES in *.
  pose proof (str_len_nonneg (rh_provider_id h)). pose proof (str_len_nonneg (rh_profile_id h)).
  pose proof (str_len_nonneg (rh_source_id h)). pose proof (str_len_nonneg (rh_session_id h)). lia.
Qed.

(** ** Saving and resuming *)

Section roundtrip.
Context (sha256 : list Z -> list Z).

(** The bytes of text a state keeps, with and without what is not persisted *)
Lemma retained_split s : state_ok sha256 s ->
  0 <= retained_text_bytes s <= 9280 +
    match ps_repository_candidate s with Some c => rc_byte_len c | None => 0 end
    + opt_len (ps_repository_project s) + hint_len (ps_latest_repository_activity_hint s).
Proof.
  intros []. unfold retained_text_bytes.
  assert (0 <= match ps_current_model s with
    | Some m => str_len (model_key m) + opt_len (model_raw m) | None => 0 end <= 576) as Hm.
  { destruct (ps_current_model s) as [m|]; [|lia]. pose proof (model_ok_lengths sha256 m (so_model0 m eq_refl)).
    pose proof (str_len_nonneg (model_key m)).
    assert (0 <= opt_len (model_raw m)) by (destruct (model_raw m); simpl; [apply str_len_nonneg|lia]).
    unfold opt_len in *. lia. }
  apply metadata_opt in so_service_tier0, so_originator0, so_source_alias0, so_git_branch0.
  apply session_opt in so_session0, so_parent0. apply alias_opt in so_project0, so_repository_project0.
  apply tools_len in so_tools0. apply hint_len_bound in so_hint0.
  destruct (ps_repository_candidate s) as [c|]; [|lia]. destruct (so_candidate0 c eq_refl). lia.
Qed.

(** The documented bound on the text kept by a parser *)
Lemma retained_bound s : state_ok sha256 s -> retained_text_bytes s <= MAX_RETAINED_TEXT_BYTES.
Proof.
  intros H. pose proof (retained_split s H) as Hl. destruct H.
  apply alias_opt in so_repository_project0. apply hint_len_bound in so_hint0.
  assert (match ps_repository_candidate s with Some c => rc_byte_len c | None => 0 end <= 4096).
  { destruct (ps_repository_candidate s) as [c|]; [|lia]. by destruct (so_candidate0 c eq_refl). }
  unfold MAX_RETAINED_TEXT_BYTES. lia.
Qed.

Lemma resume_model_ok m : model_ok sha256 m -> resolved_model_from_resume sha256 (ResumeModel_from m) = Ok m.
Proof.
  intros [_ [-> |(raw & Hr & Hm & Hn)]]; [done|].
  destruct (normalize_shape _ _ _ Hn) as (raw' & _ & _ & Hr' & Hf & _ & _).
  unfold resolved_model_from_resume, ResumeModel_from. simpl. rewrite Hf, Hr, Hn. simpl.
  rewrite bool_decide_true, Hf by done. simpl. destruct m as [k r f]. simpl in *. by subst.
Qed.

(** What a resumed state has of the saved one *)
Definition persistent (s : ParserState) : ParserState :=
  {| ps_current_model := ps_current_model s; ps_previous_totals := ps_previous_totals s;
     ps_service_tier := ps_service_tier s; ps_session_id := ps_session_id s;
     ps_parent_session_id := ps_parent_session_id s; ps_lineage_conflict := ps_lineage_conflict s;
     ps_next_usage_ordinal := ps_next_usage_ordinal s; ps_project := ps_project s;
     ps_repository_candidate := None; ps_repository_project := None;
     ps_latest_repository_activity_hint := None;
     ps_originator := ps_originator s; ps_source_alias := ps_source_alias s;
     ps_git_branch := ps_git_branch s; ps_context_window := ps_context_window s;
     ps_pending_activity := ps_pending_activity s;
     ps_aggregate_activity := ps_aggregate_activity s; ps_tool_counts := ps_tool_counts s;
     ps_other_tools := ps_other_tools s |}.

Lemma persistent_ok s : state_ok sha256 s -> state_ok sha256 (persistent s).
Proof.
  intros H. split; simpl; eauto with parser.
Qed.

Lemma resume_snapshot s : state_ok sha256 s -> from_resume sha256 (snapshot s) = Ok (persistent s).
Proof.
  intros H. pose proof (retained_split _ (persistent_ok s H)) as Hlen. destruct H.
  unfold from_resume, snapshot. simpl.
  assert (is_some_and (ps_context_window s)
    (fun w => negb ((1 <=? w) && (w <=? MAX_CONTEXT_WINDOW_TOKENS))) = false) as ->.
  { destruct (ps_context_window s) as [w|]; [|done]. simpl. pose proof (so_window0 w eq_refl) as Hw.
    unfold window_ok in Hw. by decide_guards. }
  assert (is_some_and (ps_previous_totals s) (fun u => negb (valid_previous_totals u)) = false) as ->.
  { destruct (ps_previous_totals s) as [u|]; [|done]. simpl. by destruct (so_totals0 u eq_refl) as [_ ->]. }
  destruct so_tools0 as (Hv & _ & _ & Hfull), so_activity0 as (_ & _ & Hact). rewrite Hv, Hact.
  assert ((0 <? ps_other_tools s) && (length (ps_tool_counts s) <? MAX_TOOL_NAMES)%nat = false) as ->.
  { destruct (0 <? ps_other_tools s) eqn:E; to_prop; [|done]. rewrite Hfull by done. done. }
  rewrite (proj2 (Z.ltb_ge i64_max (ps_next_usage_ordinal s))) by lia.
  assert (negb (ps_lineage_conflict s) && is_some (ps_parent_session_id s)
    && bool_decide (ps_parent_session_id s = ps_session_id s) = false) as ->.
  { destruct (ps_lineage_conflict s) eqn:Ec; [done|]. destruct (ps_parent_session_id s) as [p|] eqn:Ep; [|done].
    simpl. apply bool_decide_eq_false. intros E. by apply (so_lineage0 eq_refl p). }
  simpl.
  assert (match ResumeModel_from <$> ps_current_model s with
    | Some m => rbind (resolved_model_from_resume sha256 m) (fun m => Ok (Some m)) | None => Ok None end
    = @Ok _ ParserResumeErrorCode (ps_current_model s)) as ->.
  { destruct (ps_current_model s) as [m|]; [|done]. simpl. by rewrite resume_model_ok by (by apply so_model0). }
  cbn [rbind]. change {| ps_current_model := ps_current_model s |} with (persistent s).
  simpl in Hlen.
  by rewrite (proj2 (Z.ltb_ge _ _)) by (unfold MAX_RETAINED_TEXT_BYTES; simpl; lia).
Qed.

(** The fields of a deserialized value have their types. *)
Record resume_typed (r : ParserResumeState) : Prop := {
  rt_model : option_ok (fun m => ModelKey_new (rm_key m) = Ok (rm_key m) /\
    option_ok metadata_ok (rm_raw m)) (rs_current_model r);
  rt_totals : option_ok TokenUsage_ok (rs_previous_totals r);
  rt_service_tier : option_ok metadata_ok (rs_service_tier r);
  rt_session : option_ok session_ok (rs_session_id r);
  rt_parent : option_ok session_ok (rs_parent_session_id r);
  rt_ordinal : in_u64 (rs_next_usage_ordinal r);
  rt_project : option_ok alias_ok (rs_project r);
  rt_originator : option_ok metadata_ok (rs_originator r);
  rt_source_alias : option_ok metadata_ok (rs_source_alias r);
  rt_git_branch : option_ok metadata_ok (rs_git_branch r);
  rt_window : option_ok in_u64 (rs_context_window r);
  rt_activity : ActivityCounts_ok (rs_pending_activity r) /\ ActivityCounts_ok (rs_aggregate_activity r);
  rt_tools : Forall (fun e => str_ok (tool_name e) /\ in_u64 (tool_count e)) (rs_tool_counts r) /\
    in_u64 (rs_other_tools r)
}.

Lemma resumed_model m m' :
  ModelKey_new (rm_key m) = Ok (rm_key m) -> option_ok metadata_ok (rm_raw m) ->
  resolved_model_from_resume sha256 m = Ok m' -> model_ok sha256 m' /\ ResumeModel_from m' = m.
Proof.
  intros Hk Hr H. unfold resolved_model_from_resume in H. destruct m as [k raw f]. simpl in *. destruct f.
  - destruct (bool_decide _ && _) eqn:E; [|done]. injection H as <-. apply andb_true_iff in E as [E1 E2]. to_prop.
    destruct raw; [done|]. subst. split; [apply unknown_model_ok|done].
  - destruct raw as [raw|]; [|done]. destruct (normalize_explicit_model sha256 raw) as [n|] eqn:En; [|done].
    destruct (_ || _) eqn:E; [done|]. injection H as <-. apply orb_false_iff in E as [E1 E2].
    rewrite negb_false_iff in E1. to_prop. destruct (Hr raw eq_refl) as [Hraw _].
    destruct (normalize_shape _ _ _ En) as (raw' & Hr1 & _ & Hn2 & Hn3 & _). rewrite Hraw in Hr1.
    injection Hr1 as <-. split; [|done]. split; [done|]. right. exists raw. split_and!; [done..|].
    rewrite En. f_equal. destruct n. simpl in *. by subst.
Qed.

(** A value that resumes is the snapshot of the state it resumes to. *)
Lemma resume_ok r s : resume_typed r -> from_resume sha256 r = Ok s ->
  state_ok sha256 s /\ snapshot s = r.
Proof.
  intros Ht H. unfold from_resume in H. destruct (negb (rs_version r =? _)) eqn:Ev; [done|].
  rewrite negb_false_iff in Ev. to_prop. destruct (_ || _ || _ || _ || _ || _ || _) eqn:Eg; [done|].
  rewrite !orb_false_iff, !negb_false_iff in Eg. destruct Eg as [[[[[[Ew Et] Etools] Eo] Ea] En] El].
  apply rbind_ok in H as (model & Hm & H). cbv zeta in H. destruct (MAX_RETAINED_TEXT_BYTES <? _); [done|]. injection H as <-.
  assert (option_ok (model_ok sha256) model /\ ResumeModel_from <$> model = rs_current_model r) as [Hmodel Hsnap].
  { destruct Ht as [Htm _ _ _ _ _ _ _ _ _ _ _ _]. destruct (rs_current_model r) as [m|]; [|by injection Hm as <-].
    apply rbind_ok in Hm as (m' & Hm & [= <-]). destruct (Htm m eq_refl) as [Hk Hr].
    apply (resumed_model m m' Hk Hr) in Hm as [? <-]. by rewrite option_ok_Some. }
  destruct Ht. split.
  - split; simpl; try done.
    + intros u Hu. split; [by apply rt_totals0|]. rewrite Hu in Et. simpl in Et. by rewrite negb_false_iff in Et.
    + intros Hc p Hp Hs. rewrite Hc, Hp, Hs in El. simpl in El. by rewrite bool_decide_true in El.
    + to_prop. unfold_ints. lia.
    + intros w Hw. rewrite Hw in Ew. simpl in Ew. rewrite negb_false_iff, andb_true_iff in Ew. destruct Ew.
      to_prop. by split.
    + destruct rt_activity0. by split.
    + destruct rt_tools0 as [? ?]. split_and!; [done..|]. intros Hpos. rewrite (proj2 (Z.ltb_lt _ _) Hpos) in Eo.
      apply Nat.ltb_ge in Eo. apply valid_tool_entries_spec in Etools as [? _]. lia.
  - unfold snapshot. destruct r. simpl in *. by subst.
Qed.
End roundtrip.
