(* ===== verification/ParserEffects.v ===== *)
(** * What one line does to the state of the Codex parser

    Models [crates/codex/src/parser/effects.rs]: the metadata and the tool use a line
    carries, and their application to the state, with the path checks of
    [codex/src/path_policy.rs] and [provider/src/repository.rs] as compiled for Unix.
    Opening a directory is a parameter ([ValidatedLocalDirectory::new] of the platform
    crate): a path gives the bytes of its canonical form or fails. *)

From S2P Require Import Prelude Collections Usage Accounting Checkpoint Framing ParserValues ParserState.

Open Scope Z_scope.

(** ** Strings *)

(** [slice::windows] *)
Fixpoint windows (n : nat) (l : list Z) : list (list Z) :=
  match l with
  | [] => []
  | _ :: rest => if (length l <? n)%nat then [] else take n l :: windows n rest
  end.

Definition to_ascii_lowercase (b : Z) : Z := if is_ascii_uppercase b then b + 32 else b.
Definition eq_ignore_ascii_case (a b : list Z) : bool :=
  bool_decide (map to_ascii_lowercase a = map to_ascii_lowercase b).

Definition contains_ascii_case_insensitive (value needle : str) : bool :=
  existsb (fun window => eq_ignore_ascii_case window (as_bytes needle))
    (windows (length (as_bytes needle)) (as_bytes value)).

(** [str::is_char_boundary]: not inside the encoding of a character *)
Definition is_char_boundary (value : str) (index : nat) : bool :=
  (index =? 0)%nat
  || match as_bytes value !! index with
     | Some b => negb ((128 <=? b) && (b <? 192))
     | None => (index =? length (as_bytes value))%nat
     end.

(** [&value[..end]] at a boundary *)
Fixpoint slice_to (value : str) (end_ : nat) : str :=
  match value with
  | [] => []
  | c :: value =>
      let n := length (utf8_char c) in
      if (n <=? end_)%nat then c :: slice_to value (end_ - n) else []
  end.

(** [while !value.is_char_boundary(end) { end -= 1; }] *)
Fixpoint char_boundary_before (value : str) (end_ : nat) : nat :=
  match end_ with
  | O => O
  | S m => if is_char_boundary value end_ then end_ else char_boundary_before value m
  end.

Definition truncate_utf8 (value : str) (max_bytes : Z) : str * bool :=
  if str_len value <=? max_bytes then (value, false)
  else (slice_to value (char_boundary_before value (Z.to_nat max_bytes)), true).

(** ** Paths *)

Inductive Component := RootDir | CurDir | ParentDir | Normal (name : str).

(** The parts between separators *)
Fixpoint split_path (path : str) : list str :=
  match path with
  | [] => [[]]
  | c :: path =>
      let parts := split_path path in
      if c =? 47 then [] :: parts
      else match parts with p :: ps => (c :: p) :: ps | [] => [[c]] end
  end.

Definition is_absolute (path : str) : bool := is_some_and (head path) (fun c => c =? 47).

(** [Path::components]: empty parts and inner dots are dropped. *)
Definition component (part : str) : option Component :=
  if bool_decide (part = []) || bool_decide (part = lit ".") then None
  else if bool_decide (part = lit "..") then Some ParentDir
  else Some (Normal part).
Definition components (path : str) : list Component :=
  let parts := split_path path in
  (if is_absolute path then [RootDir]
   else if bool_decide (head parts = Some (lit ".")) then [CurDir] else [])
  ++ omap component parts.

(** [Path::file_name] *)
Definition file_name (path : str) : option str :=
  match last (components path) with Some (Normal name) => Some name | _ => None end.

Inductive PathPolicyCode := PolicyInvalidPath | UnsupportedRootNamespace.

Definition path_byte_len (path : str) : Z := str_len path.

Definition validate_local_root_namespace (path : str) : result unit PathPolicyCode :=
  fail_if negb (is_absolute path) || (MAX_PATH_BYTES <? path_byte_len path) with PolicyInvalidPath else
  Ok tt.

Definition path_has_nul (path : str) : bool := existsb (Z.eqb 0) (as_bytes path).

(** [matches!(component, CurDir | ParentDir)] *)
Definition is_relative_component (c : Component) : bool :=
  match c with CurDir | ParentDir => true | _ => false end.

Definition refused_path (value : str) : bool :=
  bool_decide (value = []) || negb (is_ok (validate_local_root_namespace value))
  || existsb is_relative_component (components value).

(** ** Updates *)

Inductive RepositoryCandidateUpdate :=
| CandidateMissing
| CandidateSet (path : RepositoryCandidatePath)
| CandidateClear.

Record MetadataUpdate := {
  mu_current_model : option ResolvedModel;
  mu_service_tier : option str;
  mu_session_id : option str;
  mu_project : option str;
  mu_repository_candidate : RepositoryCandidateUpdate;
  mu_originator : option str;
  mu_source_alias : option str;
  mu_git_branch : option str;
  mu_context_window : option Z;
  mu_parent_session_id : option str;
  mu_lineage_conflict : bool
}.

Definition MetadataUpdate_default : MetadataUpdate :=
  {| mu_current_model := None; mu_service_tier := None; mu_session_id := None; mu_project := None;
     mu_repository_candidate := CandidateMissing; mu_originator := None; mu_source_alias := None;
     mu_git_branch := None; mu_context_window := None; mu_parent_session_id := None;
     mu_lineage_conflict := false |}.

Definition has_updates (m : MetadataUpdate) : bool :=
  is_some (mu_current_model m) || is_some (mu_service_tier m) || is_some (mu_session_id m)
  || is_some (mu_project m)
  || match mu_repository_candidate m with CandidateMissing => false | _ => true end
  || is_some (mu_originator m) || is_some (mu_source_alias m) || is_some (mu_git_branch m)
  || is_some (mu_context_window m) || is_some (mu_parent_session_id m) || mu_lineage_conflict m.

Record ToolUpdate := { to_name : str; to_activity : ActivityKind }.

Record ModelCandidate := { mc_value : option str; mc_invalid_aliases : nat }.

Fixpoint first_model_from (invalid_aliases : nat) (values : list BoundedText) : ModelCandidate :=
  match values with
  | [] => {| mc_value := None; mc_invalid_aliases := invalid_aliases |}
  | t :: values =>
      match text_value t with
      | Some value => {| mc_value := Some value; mc_invalid_aliases := invalid_aliases |}
      | None => first_model_from (invalid_aliases + if text_is_invalid t then 1 else 0) values
      end
  end.
Definition first_model (values : list BoundedText) : ModelCandidate := first_model_from 0 values.

(** [map_or_else(|_| { diagnostics.record(code); None }, Some)] *)
Definition or_diagnose {A E} (r : result A E) (code : ParserDiagnosticCode) : writer (option A) :=
  match r with
  | Ok a => pure (Some a)
  | Err _ => let! _ := diagnose code in pure None
  end.

Section effects.
Context (sha256 : list Z -> list Z).
Context (validated_local_directory : str -> option (list Z)).

(** [RepositoryCandidatePath::new] *)
Definition RepositoryCandidatePath_new (path : str) : option RepositoryCandidatePath :=
  if (MAX_PATH_BYTES <? path_byte_len path) || path_has_nul path then None
  else
    directory ← validated_local_directory path;
    let byte_len := Z.of_nat (length directory) in
    if MAX_PATH_BYTES <? byte_len then None
    else Some {| rc_directory := directory; rc_byte_len := byte_len |}.

(** The loop over the candidates for the parent, from the values found so far *)
Fixpoint lineage_loop (parent : option str) (conflict : bool) (candidates : list BoundedText)
  : writer (option str * bool) :=
  match candidates with
  | [] => pure (parent, conflict)
  | t :: candidates =>
      if text_is_invalid t then
        let! _ := diagnose InvalidMetadata in lineage_loop parent conflict candidates
      else match text_value t with
      | None => lineage_loop parent conflict candidates
      | Some value =>
          match UsageSessionId_new value with
          | Err _ => let! _ := diagnose InvalidMetadata in lineage_loop parent conflict candidates
          | Ok candidate =>
              match parent with
              | None => lineage_loop (Some candidate) conflict candidates
              | Some existing =>
                  lineage_loop parent (if bool_decide (existing = candidate) then conflict else true)
                    candidates
              end
          end
      end
  end.

Definition lineage_metadata (raw : RawLine) (payload : RawPayload) : writer (option str * bool) :=
  lineage_loop None false
    [rl_forked_from_id raw; rl_parent_thread_id raw; rp_forked_from_id payload;
     rp_parent_thread_id payload; rs_structured_parent_thread_id (rp_source payload)].

Definition normalize_metadata_model (candidate : ModelCandidate) : writer (option ResolvedModel) :=
  let! _ := diagnose_times (mc_invalid_aliases candidate) InvalidModel in
  match mc_value candidate with
  | None => pure None
  | Some value =>
      let resolved := normalize_explicit_model sha256 value in
      let! _ := diagnose_if (is_none resolved) InvalidModel in
      pure resolved
  end.

Definition display_metadata (raw : BoundedText) : writer (option str) :=
  if text_is_invalid raw then let! _ := diagnose InvalidMetadata in pure None
  else match text_value raw with
  | None => pure None
  | Some value =>
      let value := trim value in
      if bool_decide (value = []) then let! _ := diagnose InvalidMetadata in pure None
      else
        let '(value, truncated) := truncate_utf8 value MAX_METADATA_BYTES in
        let! _ := diagnose_if truncated MetadataTruncated in
        or_diagnose (MetadataValue_new value) InvalidMetadata
  end.

Definition session_identity (raw : BoundedText) : writer (option str) :=
  if text_is_invalid raw then let! _ := diagnose InvalidMetadata in pure None
  else match text_value raw with
  | None => pure None
  | Some value => or_diagnose (UsageSessionId_new value) InvalidMetadata
  end.

Definition session_metadata (line_kind : option str) (payload : RawPayload) : writer (option str) :=
  if bool_decide (line_kind = Some (lit "session_meta")) || bool_decide (line_kind = Some (lit "sessionMeta"))
  then
    let! id := session_identity (rp_id payload) in
    match id with
    | Some id => pure (Some id)
    | None => session_identity (rp_session_id payload)
    end
  else session_identity (rp_session_id payload).

Definition project_alias (raw : BoundedText) : writer (option str) :=
  if text_is_invalid raw then let! _ := diagnose InvalidPath in pure None
  else match text_value raw with
  | None => pure None
  | Some value =>
      let value := trim value in
      if refused_path value then let! _ := diagnose InvalidPath in pure None
      else match file_name value with
      | None => let! _ := diagnose InvalidPath in pure None
      | Some name =>
          let '(name, truncated) := truncate_utf8 name MAX_METADATA_BYTES in
          let! _ := diagnose_if truncated MetadataTruncated in
          or_diagnose (ProjectAlias_new name) InvalidPath
      end
  end.

Definition repository_candidate (raw : BoundedText) : RepositoryCandidateUpdate :=
  if text_is_missing raw then CandidateMissing
  else if text_is_invalid raw then CandidateClear
  else match text_value raw with
  | None => CandidateClear
  | Some value =>
      let value := trim value in
      if refused_path value then CandidateClear
      else match RepositoryCandidatePath_new value with
           | Some path => CandidateSet path
           | None => CandidateClear
           end
  end.

Definition context_window (raw : LenientU64) : writer (option Z) :=
  match raw with
  | U64Valid value =>
      if (1 <=? value) && (value <=? MAX_CONTEXT_WINDOW_TOKENS) then pure (Some value)
      else let! _ := diagnose InvalidMetadata in pure None
  | U64Missing => pure None
  | U64Invalid => let! _ := diagnose InvalidMetadata in pure None
  end.

Definition metadata_update (raw : RawLine) (include_model : bool) : writer MetadataUpdate :=
  match rl_payload raw with
  | None => pure MetadataUpdate_default
  | Some payload =>
      let! current_model :=
        if include_model then
          normalize_metadata_model
            (first_model [rp_model payload; rp_model_name payload; rp_model_slug payload;
               rp_model_id payload; rp_requested_model payload; rp_default_model payload])
        else pure None in
      let! lineage := lineage_metadata raw payload in
      let! service_tier := display_metadata (rp_service_tier payload) in
      let! session_id := session_metadata (text_value (rl_kind raw)) payload in
      let! project := project_alias (rp_cwd payload) in
      let! originator := display_metadata (rp_originator payload) in
      let! source_alias := display_metadata (rs_display (rp_source payload)) in
      let! git_branch := display_metadata (rp_git_branch payload) in
      let! window := context_window (rp_model_context_window payload) in
      pure {| mu_current_model := current_model; mu_service_tier := service_tier;
              mu_session_id := session_id; mu_project := project;
              mu_repository_candidate := repository_candidate (rp_cwd payload);
              mu_originator := originator; mu_source_alias := source_alias;
              mu_git_branch := git_branch; mu_context_window := window;
              mu_parent_session_id := lineage.1; mu_lineage_conflict := lineage.2 |}
  end.
End effects.

(** ** Tools *)

Definition matches_any (name : str) (markers : list string) : bool :=
  existsb (fun marker => contains_ascii_case_insensitive name (lit marker)) markers.

Definition classify_tool (name : str) : ActivityKind :=
  if matches_any name ["read"; "cat"; "view"] then Usage.Read
  else if matches_any name ["write"; "edit"; "patch"; "create"] then EditWrite
  else if matches_any name ["search"; "grep"; "find"] then Search
  else if matches_any name ["git"] then Git
  else if matches_any name ["test"; "build"; "compile"] then BuildTest
  else if matches_any name ["web"; "browser"; "http"] then Web
  else if matches_any name ["agent"; "delegate"; "spawn"] then Subagents
  else Terminal.

(** [Option::or] *)
Definition option_or {A} (a b : option A) : option A := match a with Some _ => a | None => b end.

Definition nonempty (s : str) : bool := negb (bool_decide (s = [])).

Definition tool_update (raw : RawLine) : writer (option ToolUpdate) :=
  match rl_payload raw with
  | None => pure None
  | Some payload =>
      let payload_kind := text_value (rp_kind payload) in
      let line_kind := text_value (rl_kind raw) in
      match option_or payload_kind line_kind with
      | None => pure None
      | Some discriminator =>
          let recognized_kind :=
            matches_any discriminator ["function_call"; "tool_call"; "exec_command"; "mcp"] in
          let response_item_with_name :=
            bool_decide (line_kind = Some (lit "response_item"))
            && is_some_and (text_value (rp_name payload)) nonempty in
          if negb recognized_kind && negb response_item_with_name then pure None
          else
            let! _ := diagnose_if (text_is_invalid (rp_name payload)) InvalidMetadata in
            let raw_name :=
              unwrap_or (option_or (option_filter (text_value (rp_name payload)) nonempty) payload_kind)
                (lit "unknown") in
            let trimmed := trim raw_name in
            let safe_name := if bool_decide (trimmed = []) then lit "unknown" else trimmed in
            let '(safe_name, truncated) := truncate_utf8 safe_name MAX_TOOL_NAME_BYTES in
            let! _ := diagnose_if truncated MetadataTruncated in
            pure (Some {| to_name := safe_name; to_activity := classify_tool safe_name |})
      end
  end.

(** ** Application *)

Definition apply_metadata (s : ParserState) (u : MetadataUpdate) : ParserState :=
  let '(parent, conflict) :=
    match mu_parent_session_id u with
    | None => (ps_parent_session_id s, ps_lineage_conflict s)
    | Some parent =>
        match ps_parent_session_id s with
        | None => (Some parent, ps_lineage_conflict s)
        | Some existing =>
            (Some existing, if bool_decide (existing = parent) then ps_lineage_conflict s else true)
        end
    end in
  let conflict := conflict || mu_lineage_conflict u in
  let '(candidate, repository_project) :=
    match mu_repository_candidate u with
    | CandidateMissing => (ps_repository_candidate s, ps_repository_project s)
    | CandidateSet value => (Some value, mu_project u)
    | CandidateClear => (None, None)
    end in
  {| ps_current_model := option_or (mu_current_model u) (ps_current_model s);
     ps_previous_totals := ps_previous_totals s;
     ps_service_tier := option_or (mu_service_tier u) (ps_service_tier s);
     ps_session_id := option_or (mu_session_id u) (ps_session_id s);
     ps_parent_session_id := parent; ps_lineage_conflict := conflict;
     ps_next_usage_ordinal := ps_next_usage_ordinal s;
     ps_project := option_or (mu_project u) (ps_project s);
     ps_repository_candidate := candidate; ps_repository_project := repository_project;
     ps_latest_repository_activity_hint := ps_latest_repository_activity_hint s;
     ps_originator := option_or (mu_originator u) (ps_originator s);
     ps_source_alias := option_or (mu_source_alias u) (ps_source_alias s);
     ps_git_branch := option_or (mu_git_branch u) (ps_git_branch s);
     ps_context_window := option_or (mu_context_window u) (ps_context_window s);
     ps_pending_activity := ps_pending_activity s; ps_aggregate_activity := ps_aggregate_activity s;
     ps_tool_counts := ps_tool_counts s; ps_other_tools := ps_other_tools s |}.

(** ** Truncation *)

Lemma utf8_char_length c : (1 <= length (utf8_char c) <= 4)%nat.
Proof. unfold utf8_char. repeat split_goal; simpl; lia. Qed.

Lemma as_bytes_app s t : as_bytes (s ++ t) = as_bytes s ++ as_bytes t.
Proof. induction s as [|c s IH]; simpl; [done|]. by rewrite IH, <- app_assoc. Qed.

Lemma str_len_app s t : str_len (s ++ t) = str_len s + str_len t.
Proof. unfold str_len. rewrite as_bytes_app, length_app. lia. Qed.

(** The first byte of a character is not a continuation byte. *)
Lemma utf8_lead c : scalar c -> exists b l, utf8_char c = b :: l /\ (128 <=? b) && (b <? 192) = false.
Proof.
  unfold scalar, utf8_char. intros Hc.
  destruct (c <? 128) eqn:E1; [|destruct (c <? 2048) eqn:E2; [|destruct (c <? 65536) eqn:E3]]; to_prop;
    eexists _, _; (split; [reflexivity|]).
  - lia.
  - pose proof (Z.div_pos c 64). lia.
  - pose proof (Z.div_pos c 4096). lia.
  - pose proof (Z.div_pos c 262144). lia.
Qed.

Lemma boundary_of_prefix p q : str_ok (p ++ q) -> is_char_boundary (p ++ q) (length (as_bytes p)) = true.
Proof.
  intros Hs. unfold is_char_boundary. rewrite as_bytes_app, lookup_app_r by lia.
  rewrite Nat.sub_diag. apply str_ok_app in Hs as [_ Hq]. destruct q as [|c q]; simpl.
  - rewrite app_nil_r, Nat.eqb_refl. by destruct (_ =? 0)%nat.
  - inversion Hq; subst. destruct (utf8_lead c) as (b & l & -> & Hb); [done|]. simpl. rewrite Hb. by rewrite orb_true_r.
Qed.

Lemma boundary_before_le v n : (char_boundary_before v n <= n)%nat.
Proof. induction n as [|n IH]; cbn [char_boundary_before]; [lia|]. destruct (is_char_boundary _ _); lia. Qed.

Lemma boundary_before_max v n m : is_char_boundary v m = true -> (m <= n)%nat ->
  (m <= char_boundary_before v n)%nat.
Proof.
  intros Hm. induction n as [|n IH]; intros Hle; cbn [char_boundary_before]; [lia|].
  destruct (is_char_boundary v (S n)) eqn:E; [lia|]. destruct (decide (m = S n)) as [->|]; [congruence|]. apply IH. lia.
Qed.

Lemma slice_to_prefix v n : exists w, v = slice_to v n ++ w /\ (length (as_bytes (slice_to v n)) <= n)%nat.
Proof.
  revert n. induction v as [|c v IH]; intros n; cbn [slice_to].
  { exists []. split; [done|simpl; lia]. }
  destruct (_ <=? n)%nat eqn:E; [|exists (c :: v); split; [done|simpl; lia]].
  apply Nat.leb_le in E. destruct (IH (n - length (utf8_char c))%nat) as (w & Hw & Hl).
  exists w. simpl. rewrite length_app. split; [by rewrite <- Hw|lia].
Qed.

Lemma slice_to_longest p q n : (length (as_bytes p) <= n)%nat -> exists r, slice_to (p ++ q) n = p ++ r.
Proof.
  revert n. induction p as [|c p IH]; intros n Hn; [by eexists|]. cbn [slice_to app as_bytes] in *.
  rewrite length_app in Hn. rewrite (proj2 (Nat.leb_le _ _)) by lia.
  destruct (IH (n - length (utf8_char c))%nat) as [r Hr]; [lia|]. exists r. by rewrite Hr.
Qed.

(** Truncation keeps the longest prefix of whole characters that fits. *)
Lemma truncate_utf8_spec v max v' cut : str_ok v -> 0 <= max -> truncate_utf8 v max = (v', cut) ->
  (exists w, v = v' ++ w) /\ str_len v' <= max /\ cut = bool_decide (v' <> v) /\
  (forall p q, v = p ++ q -> str_len p <= max -> exists r, v' = p ++ r).
Proof.
  intros Hv Hm. unfold truncate_utf8. destruct (str_len v <=? max) eqn:E; to_prop; intros [= <- <-].
  - split_and!; [exists []; by rewrite app_nil_r|done|by rewrite bool_decide_eq_false_2; [|intros []]|].
    intros p q -> _. by exists q.
  - set (n := char_boundary_before v (Z.to_nat max)).
    pose proof (boundary_before_le v (Z.to_nat max)) as Hn. fold n in Hn.
    destruct (slice_to_prefix v n) as (w & Hw & Hl).
    split_and!; [by exists w|unfold str_len; lia| |].
    + symmetry. apply bool_decide_eq_true_2. intros Heq. rewrite Heq in Hl. unfold str_len in E. lia.
    + intros p q -> Hp. apply slice_to_longest. apply boundary_before_max; [by apply boundary_of_prefix|].
      unfold str_len in Hp. lia.
Qed.

Lemma truncate_nonempty v max v' cut : str_ok v -> 4 <= max -> v <> [] ->
  truncate_utf8 v max = (v', cut) -> v' <> [].
Proof.
  intros Hv Hm Hne H. destruct v as [|c v]; [done|].
  destruct (truncate_utf8_spec (c :: v) max v' cut Hv ltac:(lia) H) as (_ & _ & _ & Hl).
  destruct (Hl [c] v eq_refl) as [r ->]; [|done].
  unfold str_len. simpl. rewrite app_nil_r. pose proof (utf8_char_length c). lia.
Qed.

(** ** What updates establish *)

Lemma prefix_no_control p q : existsb is_control (p ++ q) = false -> existsb is_control p = false.
Proof. rewrite existsb_app. by intros [? _]%orb_false_iff. Qed.

Lemma wbind_value {A B} (m : writer A) (k : A -> writer B) : (wbind m k).1 = (k m.1).1.
Proof. destruct m as [a l]. simpl. by destruct (k a). Qed.

Lemma or_diagnose_value {A E} (r : result A E) code : (or_diagnose r code).1 = ok r.
Proof. by destruct r. Qed.

Lemma ok_Some {A E} (r : result A E) a : ok r = Some a <-> r = Ok a.
Proof. destruct r; simpl; naive_solver. Qed.

Lemma session_new_ok s v : str_ok s -> UsageSessionId_new s = Ok v -> session_ok v.
Proof. intros Hs H. by destruct (trimmed_value_ok _ _ _ _ Hs H) as (? & _ & ?). Qed.
Lemma metadata_new_ok s v : str_ok s -> MetadataValue_new s = Ok v -> metadata_ok v.
Proof. intros Hs H. by destruct (trimmed_value_ok _ _ _ _ Hs H) as (? & _ & ?). Qed.
Lemma alias_new_ok s v : str_ok s -> ProjectAlias_new s = Ok v -> alias_ok v.
Proof.
  intros Hs H. apply project_alias_stable in H as (-> & _ & _ & _ & _ & _ & H). split; [done|]. by apply str_ok_trim.
Qed.

Lemma trim_inside s : exists p q, s = p ++ trim s ++ q.
Proof.
  destruct (trim_start_suffix s) as [p Hp]. destruct (trim_end_prefix (trim_start s)) as [q Hq].
  exists p, q. rewrite Hp at 1. by rewrite Hq at 1.
Qed.

Lemma trim_no_control s : existsb is_control s = false -> existsb is_control (trim s) = false.
Proof.
  destruct (trim_inside s) as (p & q & E). rewrite E at 1. rewrite !existsb_app.
  by intros [_ [? _]%orb_false_iff]%orb_false_iff.
Qed.

Lemma truncate_parts v max : str_ok v -> 0 <= max ->
  str_ok (truncate_utf8 v max).1 /\ str_len (truncate_utf8 v max).1 <= max /\
  exists w, v = (truncate_utf8 v max).1 ++ w.
Proof.
  intros Hv Hm. destruct (truncate_utf8 v max) as [v' cut] eqn:E.
  destruct (truncate_utf8_spec v max v' cut Hv Hm E) as ([w Hw] & Hl & _). simpl.
  split_and!; [|done|by exists w]. rewrite Hw in Hv. by apply str_ok_app in Hv as [? _].
Qed.

Lemma split_path_ok path : str_ok path -> Forall str_ok (split_path path).
Proof.
  induction 1 as [|c path Hc Hp IH]; simpl; [repeat constructor|].
  destruct (c =? 47); [by constructor; [constructor|]|]. destruct (split_path path) as [|q ps].
  { constructor; [by constructor|done]. }
 
inversion IH; subst. constructor; [by constructor|done].
Qed.

Lemma file_name_ok path name : str_ok path -> file_name path = Some name -> str_ok name.
Proof.
  intros Hp H. unfold file_name in H. destruct (last (components path)) as [c|] eqn:E; [|done].
  destruct c as [| | |n]; try done. injection H as <-. apply last_Some_elem_of in E. unfold components in E.
  apply elem_of_app in E as [E|E].
  - repeat split_in E; try (by apply not_elem_of_nil in E); by apply list_elem_of_singleton in E.
  - apply list_elem_of_omap in E as (part & Hin & Hc). unfold component in Hc. repeat split_in Hc; try done.
    injection Hc as <-. by apply (proj1 (Forall_forall _ _) (split_path_ok path Hp)).
Qed.

Section update_ok.
Context (sha256 : list Z -> list Z) (validated_local_directory : str -> option (list Z)).

Record update_ok (u : MetadataUpdate) : Prop := {
  uo_model : option_ok (model_ok sha256) (mu_current_model u);
  uo_service_tier : option_ok metadata_ok (mu_service_tier u);
  uo_session : option_ok session_ok (mu_session_id u);
  uo_project : option_ok alias_ok (mu_project u);
  uo_candidate : forall c, mu_repository_candidate u = CandidateSet c -> candidate_ok c;
  uo_originator : option_ok metadata_ok (mu_originator u);
  uo_source_alias : option_ok metadata_ok (mu_source_alias u);
  uo_git_branch : option_ok metadata_ok (mu_git_branch u);
  uo_window : option_ok window_ok (mu_context_window u);
  uo_parent : option_ok session_ok (mu_parent_session_id u)
}.

Lemma display_metadata_ok t : text_ok RAW_DISPLAY_BYTES t -> option_ok metadata_ok (display_metadata t).1.
Proof.
  intros Ht. unfold display_metadata. destruct (text_is_invalid t); [done|].
  destruct (text_value t) as [v|] eqn:Ev; [|done]. destruct (Ht v Ev) as (Hs & _ & _).
  destruct (bool_decide _); [done|]. pose proof (truncate_parts (trim v) MAX_METADATA_BYTES) as H.
  destruct (truncate_utf8 _ _) as [v' cut]. rewrite wbind_value, or_diagnose_value.
  intros w Hw%ok_Some. eapply metadata_new_ok; [|done]. by apply H; [apply str_ok_trim|].
Qed.

Lemma session_identity_ok t : text_ok MAX_RAW_MODEL_BYTES t -> option_ok session_ok (session_identity t).1.
Proof.
  intros Ht. unfold session_identity. destruct (text_is_invalid t); [done|].
  destruct (text_value t) as [v|] eqn:Ev; [|done]. destruct (Ht v Ev) as (Hs & _ & _).
  rewrite or_diagnose_value. intros w Hw%ok_Some. by eapply session_new_ok.
Qed.

Lemma session_metadata_ok kind p : RawPayload_ok p -> option_ok session_ok (session_metadata kind p).1.
Proof.
  intros (Ht & _). assert (text_ok MAX_RAW_MODEL_BYTES (rp_id p) /\ text_ok MAX_RAW_MODEL_BYTES (rp_session_id p)) as [H1 H2].
  { rewrite Forall_forall in Ht. split; apply Ht; rewrite !elem_of_cons; tauto. }
  unfold session_metadata. destruct (_ || _); [|by apply session_identity_ok]. rewrite wbind_value.
  pose proof (session_identity_ok _ H1) as Hid. destruct (session_identity (rp_id p)).1; [exact Hid|].
  by apply session_identity_ok.
Qed.

Lemma project_alias_ok t : text_ok RAW_DISPLAY_BYTES t -> option_ok alias_ok (project_alias t).1.
Proof.
  intros Ht. unfold project_alias. destruct (text_is_invalid t); [done|].
  destruct (text_value t) as [v|] eqn:Ev; [|done]. destruct (Ht v Ev) as (Hs & _ & _).
  destruct (refused_path _); [done|]. destruct (file_name (trim v)) as [n|] eqn:En; [|done].
  apply file_name_ok in En; [|by apply str_ok_trim].
  pose proof (truncate_parts n MAX_METADATA_BYTES En) as H.
  destruct (truncate_utf8 _ _) as [n' cut]. rewrite wbind_value, or_diagnose_value.
  intros w Hw%ok_Some. eapply alias_new_ok; [|done]. by apply H.
Qed.

Lemma lineage_loop_ok l parent conflict : Forall (text_ok MAX_RAW_MODEL_BYTES) l ->
  option_ok session_ok parent -> option_ok session_ok (lineage_loop parent conflict l).1.1.
Proof.
  intros Hl. revert parent conflict. induction Hl as [|t l Ht Hl IH]; intros parent conflict Hp; [done|].
  cbn [lineage_loop]. destruct (text_is_invalid t); [rewrite wbind_value; auto|].
  destruct (text_value t) as [v|] eqn:Ev; [|auto]. destruct (Ht v Ev) as (Hs & _ & _).
  destruct (UsageSessionId_new v) as [c|] eqn:Ec; [|rewrite wbind_value; auto].
  destruct parent as [e|]; [by apply IH|]. apply IH, option_ok_Some. by eapply session_new_ok.
Qed.

Lemma repository_candidate_ok t c :
  repository_candidate validated_local_directory t = CandidateSet c -> candidate_ok c.
Proof.
  unfold repository_candidate. intros H.
  destruct (text_is_missing t); [done|]. destruct (text_is_invalid t); [done|].
  destruct (text_value t) as [v|]; [|done]. cbv zeta in H. destruct (refused_path (trim v)); [done|].
  destruct (RepositoryCandidatePath_new _ _) as [r|] eqn:E; [|done]. injection H as <-.
  unfold RepositoryCandidatePath_new in E. destruct (_ || _); [done|].
  destruct (validated_local_directory _) as [d|]; [|done]. cbn in E.
  destruct (MAX_PATH_BYTES <? _) eqn:El; [done|]. injection E as <-. to_prop. unfold candidate_ok. simpl. lia.
Qed.

Lemma context_window_ok v : u64_ok v -> option_ok window_ok (context_window v).1.
Proof.
  intros Hv. destruct v as [|v|]; simpl; [done| |done]. destruct (_ && _) eqn:E; [|done].
  apply andb_true_iff in E as [? ?]. to_prop. by apply option_ok_Some.
Qed.

Lemma metadata_update_ok raw include : RawLine_ok raw ->
  update_ok (metadata_update sha256 validated_local_directory raw include).1.
Proof.
  intros (Hl & Hp & _). unfold metadata_update. destruct (rl_payload raw) as [p|] eqn:Ep; [|by split].
  specialize (Hp p eq_refl). pose proof Hp as (Ht & Hd & Hw & [Hsd Hsp] & _).
  rewrite !wbind_value. split; simpl.
  - destruct include; [|done]. unfold normalize_metadata_model. rewrite wbind_value.
    destruct (mc_value _) as [v|]; [|done]. rewrite wbind_value. intros m Hm. cbn [pure fst] in Hm. by eapply normalize_model_ok.
  - apply display_metadata_ok. by inversion Hd.
  - by apply session_metadata_ok.
  - apply project_alias_ok. rewrite Forall_forall in Hd. apply Hd. rewrite !elem_of_cons. tauto.
  - apply repository_candidate_ok.
  - apply display_metadata_ok. rewrite Forall_forall in Hd. apply Hd. rewrite !elem_of_cons. tauto.
  - by apply display_metadata_ok.
  - apply display_metadata_ok. rewrite Forall_forall in Hd. apply Hd. rewrite !elem_of_cons. tauto.
  - by apply context_window_ok.
  - apply lineage_loop_ok; [|done]. rewrite Forall_forall in Hl, Ht.
    repeat (constructor; [first [done | apply Hl; rewrite !elem_of_cons; tauto | apply Ht; rewrite !elem_of_cons; tauto]|]).
    constructor.
Qed.

(** Every text of a line is free of control characters. *)
Lemma tool_update_ok raw t : RawLine_ok raw -> (tool_update raw).1 = Some t ->
  valid_tool_name (to_name t) = true /\ str_ok (to_name t).
Proof.
  intros (Hl & Hp & _) H. unfold tool_update in H. destruct (rl_payload raw) as [p|]; [|done].
  destruct (Hp p eq_refl) as (Ht & Hd & _). rewrite Forall_forall in Ht, Hd.
  destruct (option_or _ _) as [d|]; [|done]. destruct (_ && _); [done|]. rewrite wbind_value in H. cbv zeta in H.
  set (n := unwrap_or _ _) in H.
  assert (str_ok n /\ existsb is_control n = false) as [Hn1 Hn2].
  { unfold n. destruct (option_filter _ _) as [v|] eqn:Ef; simpl.
    - apply option_filter_Some in Ef as [Ef _]. apply (Hd (rp_name p)) in Ef as (? & _ & ?); [done|].
      rewrite !elem_of_cons. tauto.
    - destruct (text_value (rp_kind p)) as [v|] eqn:Ev; simpl.
      + apply (Ht (rp_kind p)) in Ev as (? & _ & ?); [done|]. rewrite !elem_of_cons. tauto.
      + split; [|done]. repeat constructor. all: unfold scalar; simpl; lia. }
  clearbody n. set (m := if bool_decide (trim n = []) then _ else _) in H.
  assert (str_ok m /\ existsb is_control m = false /\ m <> []) as (Hm1 & Hm2 & Hm3).
  { unfold m. destruct (bool_decide (trim n = [])) eqn:E; to_prop.
    - split_and!; [|done|done]. repeat constructor. all: unfold scalar; simpl; lia.
    - split_and!; [by apply str_ok_trim|by apply trim_no_control|done]. }
  clearbody m. destruct (truncate_utf8 m MAX_TOOL_NAME_BYTES) as [m' cut] eqn:E.
  assert (m' <> []) by (by apply (truncate_nonempty m MAX_TOOL_NAME_BYTES m' cut); [| unfold MAX_TOOL_NAME_BYTES; lia| |]).
  pose proof (truncate_parts m MAX_TOOL_NAME_BYTES Hm1 ltac:(done)) as (H1 & H2 & [w Hw]). rewrite E in H1, H2, Hw.
  rewrite wbind_value in H. simpl in *. injection H as <-. simpl. split; [|done]. unfold valid_tool_name.
  rewrite bool_decide_false by done. rewrite Hw in Hm2. apply prefix_no_control in Hm2. rewrite Hm2.
  by rewrite (proj2 (Z.leb_le _ _) H2).
Qed.

Lemma option_or_ok {A} (P : A -> Prop) a b : option_ok P a -> option_ok P b -> option_ok P (option_or a b).
Proof. by destruct a. Qed.

(** Applying a well-formed update keeps the invariant, given the lineage it leads to. *)
Lemma apply_metadata_ok s u : state_ok sha256 s -> update_ok u ->
  lineage_ok (ps_lineage_conflict (apply_metadata s u)) (ps_parent_session_id (apply_metadata s u))
    (ps_session_id (apply_metadata s u)) ->
  state_ok sha256 (apply_metadata s u).
Proof.
  intros Hs Hu Hl. destruct Hu. unfold apply_metadata in *.
  destruct (match mu_parent_session_id u with Some _ => _ | None => _ end) as [parent conflict] eqn:Ep.
  destruct (match mu_repository_candidate u with CandidateMissing => _ | _ => _ end) as [cand proj] eqn:Ec.
  split; simpl in *; eauto using option_or_ok with parser.
  - destruct (mu_parent_session_id u) as [q|]; [|injection Ep as <- _; eauto with parser].
    destruct (ps_parent_session_id s) eqn:E; injection Ep as <- _; [|done]. rewrite <- E. eauto with parser.
  - destruct (mu_repository_candidate u); injection Ec as <- _; eauto with parser.
    apply option_ok_Some. auto.
  - destruct (mu_repository_candidate u); injection Ec as _ <-; eauto with parser.
Qed.
End update_ok.
