(* ===== verification/Parser.v ===== *)
(** * The Codex line parser

    Models [crates/codex/src/parser/mod.rs]: one JSON line of a session file updates
    the parser's state and yields a usage event, a session relation, or nothing.  The
    reader of the JSON text is the interface [JsonLines]; its law says that the fields
    of a line went through the visitors of [ParserValues].

    The second half proves the invariant of the state, what each outcome means, and
    that a parser resumed from a snapshot delivers what the parser that wrote it would
    have delivered.  It ends with the instances of the interfaces of [Framing] and
    [Checkpoint]. *)

From S2P Require Import Prelude Collections Usage Accounting Checkpoint Framing.
From S2P Require Import ParserValues ParserState ParserEffects.

Open Scope Z_scope.

Definition LONG_CONTEXT_THRESHOLD : Z := 272000.

Definition RELEVANCE_MARKERS : list (list Z) :=
  map lit ["token_count"; "turn_context"; "session_meta"; "sessionMeta"]
  ++ [34 :: lit "usage" ++ [34]]
  ++ map lit ["function_call"; "tool_call"; "exec_command"; "mcp"].

Definition looks_relevant (line : list Z) : bool :=
  existsb (Z.eqb 92) line
  || existsb (fun marker => existsb (fun w => bool_decide (w = marker)) (windows (length marker) line))
       RELEVANCE_MARKERS.

(** [serde_json::from_slice::<RawLine>] *)
Class JsonLines := {
  json_line : list Z -> option RawLine;
  json_line_ok : forall bytes raw, json_line bytes = Some raw -> RawLine_ok raw
}.

(** ** Usage *)

Definition normalize_usage (raw : RawUsage) : writer TokenUsage :=
  let! input := first_token [ru_input_tokens raw; ru_prompt_tokens raw; ru_input raw] in
  let! cached := first_token [ru_cached_input_tokens raw; ru_cache_read_input_tokens raw;
                              ru_cached_tokens raw] in
  let! output := first_token [ru_output_tokens raw; ru_completion_tokens raw; ru_output raw] in
  let! reasoning := first_token [ru_reasoning_output_tokens raw; ru_reasoning_tokens raw] in
  let! provider_total := first_token [ru_total_tokens raw] in
  let cached :=
    match input, cached with
    | Available input, Available cached => Available (Z.min cached input)
    | _, _ => Unavailable
    end in
  let sum :=
    match input, output, reasoning with
    | Available input, Available output, Available reasoning =>
        Available (saturating_add u64_max (saturating_add u64_max input output) reasoning)
    | _, _, _ => Unavailable
    end in
  let total :=
    match provider_total with
    | Available value => if 0 <? value then Available value else sum
    | Unavailable => sum
    end in
  pure (TokenUsage_new input cached output reasoning total).

(** [.map(|usage| normalize_usage(usage, diagnostics))] *)
Definition map_usage (usage : option RawUsage) : writer (option TokenUsage) :=
  match usage with
  | Some usage => let! usage := normalize_usage usage in pure (Some usage)
  | None => pure None
  end.

Definition line_usage_is_positive (usage : TokenUsage) : bool :=
  existsb (fun value => match value with Available count => 0 <? count | Unavailable => false end)
    [tu_input usage; tu_cached usage; tu_output usage; tu_reasoning usage; tu_total usage].

Definition subtract_count (current previous : TokenCount) : TokenCount :=
  match current, previous with
  | Available current, Available previous =>
      if previous <=? current then Available (saturating_sub current previous) else Available current
  | Available current, Unavailable => Available current
  | Unavailable, _ => Unavailable
  end.

Definition subtract_usage (current : TokenUsage) (previous : option TokenUsage) : TokenUsage :=
  match previous with
  | None => current
  | Some previous =>
      TokenUsage_new (subtract_count (tu_input current) (tu_input previous))
        (subtract_count (tu_cached current) (tu_cached previous))
        (subtract_count (tu_output current) (tu_output previous))
        (subtract_count (tu_reasoning current) (tu_reasoning previous))
        (subtract_count (tu_total current) (tu_total previous))
  end.

(** ** The effect of a line *)

Record LineEffect := {
  le_timestamp : option UtcTimestamp;
  le_model : ModelCandidate;
  le_usage : TokenUsage;
  le_baseline_update : option TokenUsage;
  le_model_includes_payload : bool
}.

Section parser.
Context (sha256 : list Z -> list Z) {chrono : Chrono} {json : JsonLines}.
Context (validated_local_directory : str -> option (list Z)).

Definition line_timestamps (raw : RawLine) : list TimestampScalar :=
  [rl_timestamp raw; rl_created_at raw; rl_created_at_v2 raw].

Definition effect_from_result (raw : RawLine) (result : RawResult) (usage : RawUsage) : writer LineEffect :=
  let! usage := normalize_usage usage in
  pure {| le_timestamp :=
            first_timestamp ([rr_timestamp result; rr_created_at result; rr_created_at_v2 result]
                             ++ line_timestamps raw);
          le_model := first_model [rr_model result; rr_model_name result; rl_model raw; rl_model_name raw];
          le_usage := usage; le_baseline_update := None; le_model_includes_payload := false |}.

(** The first branch of [line_effect]: a [token_count] event *)
Definition token_count_effect (raw : RawLine) (payload : RawPayload) (previous_totals : option TokenUsage)
  : writer (option LineEffect) :=
  match rp_info payload with
  | None => pure None
  | Some info =>
      let! baseline_update := map_usage (ri_total_token_usage info) in
      let! usage :=
        match ri_last_token_usage info with
        | Some usage => let! usage := normalize_usage usage in pure (Some usage)
        | None => pure ((fun baseline => subtract_usage baseline previous_totals) <$> baseline_update)
        end in
      pure ((fun usage =>
        {| le_timestamp := first_timestamp (line_timestamps raw);
           le_model := first_model [rp_model payload; rp_model_name payload; rp_model_slug payload;
             rp_model_id payload; ri_model info; ri_model_name info; rp_requested_model payload;
             rp_default_model payload];
           le_usage := usage; le_baseline_update := baseline_update;
           le_model_includes_payload := true |}) <$> usage)
  end.

Definition line_effect (raw : RawLine) (previous_totals : option TokenUsage) : writer (option LineEffect) :=
  let plain :=
    match rl_usage raw with
    | Some usage =>
        let! usage := normalize_usage usage in
        pure (Some {| le_timestamp := first_timestamp (line_timestamps raw);
                      le_model := first_model [rl_model raw; rl_model_name raw];
                      le_usage := usage; le_baseline_update := None;
                      le_model_includes_payload := false |})
    | None => pure None
    end in
  let other :=
    match option_or (option_or (rl_data raw) (rl_result raw)) (rl_response raw) with
    | Some result =>
        match rr_usage result with
        | Some usage => let! e := effect_from_result raw result usage in pure (Some e)
        | None => plain
        end
    | None => plain
    end in
  match rl_payload raw with
  | Some payload =>
      if bool_decide (text_value (rl_kind raw) = Some (lit "event_msg"))
         && bool_decide (text_value (rp_kind payload) = Some (lit "token_count"))
      then token_count_effect raw payload previous_totals
      else other
  | None => other
  end.

(** ** Sessions *)

Definition resolved_session_id (context : ParseContext) (s : ParserState) (m : MetadataUpdate) : str :=
  unwrap_or (option_or (option_or (mu_session_id m) (ps_session_id s)) (pc_filename_session_hint context))
    (pc_hashed_session_hint context).

Definition set_conflict (m : MetadataUpdate) (conflict : bool) : MetadataUpdate :=
  {| mu_current_model := mu_current_model m; mu_service_tier := mu_service_tier m;
     mu_session_id := mu_session_id m; mu_project := mu_project m;
     mu_repository_candidate := mu_repository_candidate m; mu_originator := mu_originator m;
     mu_source_alias := mu_source_alias m; mu_git_branch := mu_git_branch m;
     mu_context_window := mu_context_window m; mu_parent_session_id := mu_parent_session_id m;
     mu_lineage_conflict := conflict |}.

Definition normalize_lineage_conflict (s : ParserState) (m : MetadataUpdate) (session_id : str)
  : MetadataUpdate :=
  let incoming_parent := mu_parent_session_id m in
  let effective_parent := option_or incoming_parent (ps_parent_session_id s) in
  set_conflict m
    (mu_lineage_conflict m
     || (ps_lineage_conflict s
         || is_some_and effective_parent (fun parent => bool_decide (parent = session_id))
         || is_some_and incoming_parent (fun parent =>
              is_some_and (ps_parent_session_id s) (fun existing => negb (bool_decide (existing = parent)))))).

Definition session_relation_draft (context : ParseContext) (m : MetadataUpdate) (session_id : str)
    (source_offset : Z) : option SessionRelationDraft :=
  parent_session_id ← mu_parent_session_id m;
  ok (SessionRelationDraft_new
        {| sr_provider_id := pc_provider_id context; sr_profile_id := pc_profile_id context;
           sr_session_id := session_id; sr_parent_session_id := parent_session_id;
           sr_declared_conflict := mu_lineage_conflict m; sr_source_id := pc_source_id context;
           sr_source_offset := source_offset |}).

Definition record_repository_activity_hint (context : ParseContext) (s : ParserState) (m : MetadataUpdate)
    (session_id : str) (observed_at : option UtcTimestamp) : ParserState :=
  match observed_at with
  | None => s
  | Some observed_at =>
      let record candidate project :=
        set_hint s (Some
          {| rh_provider_id := pc_provider_id context; rh_profile_id := pc_profile_id context;
             rh_source_id := pc_source_id context; rh_session_id := session_id;
             rh_observed_at := observed_at; rh_project := project; rh_candidate := candidate |}) in
      match mu_repository_candidate m with
      | CandidateMissing =>
          match ps_repository_candidate s with
          | None => s
          | Some candidate => record candidate (ps_repository_project s)
          end
      | CandidateSet candidate => record candidate (mu_project m)
      | CandidateClear => s
      end
  end.

(** ** [parse_line] *)

(** [if metadata_line { .. } if let Some(tool) = tool { .. }] *)
Definition note_line (s : ParserState) (metadata_line : bool) (tool : option ToolUpdate)
  : writer ParserState :=
  let! _ := if metadata_line then tell MetadataSeen else pure tt in
  match tool with
  | Some tool =>
      let! s := record_tool s (to_name tool) (to_activity tool) in
      let! _ := tell ToolSeen in
      pure s
  | None => pure s
  end.

(** A line without usage *)
Definition parse_without_usage (context : ParseContext) (s : ParserState) (source_offset : Z) (raw : RawLine)
  : writer (ParserState * ParseOutcome) :=
  let! m := metadata_update sha256 validated_local_directory raw true in
  let session_id := resolved_session_id context s m in
  let m := normalize_lineage_conflict s m session_id in
  let relation := session_relation_draft context m session_id source_offset in
  let metadata_only := has_updates m in
  let! tool := tool_update raw in
  let s := record_repository_activity_hint context s m session_id (first_timestamp (line_timestamps raw)) in
  let! s := note_line (apply_metadata s m) metadata_only tool in
  pure (s, match relation with
           | Some relation => SessionRelation relation
           | None => if is_some tool then ToolOnly else if metadata_only then MetadataOnly else Skipped
           end).

(** [state.previous_totals = Some(baseline_update)] *)
Definition set_totals (s : ParserState) (baseline : option TokenUsage) : ParserState :=
  {| ps_current_model := ps_current_model s;
     ps_previous_totals := option_or baseline (ps_previous_totals s);
     ps_service_tier := ps_service_tier s; ps_session_id := ps_session_id s;
     ps_parent_session_id := ps_parent_session_id s; ps_lineage_conflict := ps_lineage_conflict s;
     ps_next_usage_ordinal := ps_next_usage_ordinal s; ps_project := ps_project s;
     ps_repository_candidate := ps_repository_candidate s;
     ps_repository_project := ps_repository_project s;
     ps_latest_repository_activity_hint := ps_latest_repository_activity_hint s;
     ps_originator := ps_originator s; ps_source_alias := ps_source_alias s;
     ps_git_branch := ps_git_branch s; ps_context_window := ps_context_window s;
     ps_pending_activity := ps_pending_activity s; ps_aggregate_activity := ps_aggregate_activity s;
     ps_tool_counts := ps_tool_counts s; ps_other_tools := ps_other_tools s |}.

(** A line whose usage is zero *)
Definition parse_zero_usage (context : ParseContext) (s : ParserState) (effect : LineEffect)
    (m : MetadataUpdate) (metadata_line : bool) (tool : option ToolUpdate)
  : writer (ParserState * ParseOutcome) :=
  let session_id := resolved_session_id context s m in
  let m := normalize_lineage_conflict s m session_id in
  let! s := note_line (apply_metadata s m) metadata_line tool in
  let s := set_totals s (le_baseline_update effect) in
  let! _ := diagnose ZeroUsage in
  pure (s, Skipped).

Definition long_context_of (usage : TokenUsage) : LongContextState :=
  match tu_input usage with
  | Available value => if LONG_CONTEXT_THRESHOLD <? value then LongYes else LongNo
  | Unavailable => LongUnavailable
  end.

(** The state after an emitted event *)
Definition after_event (s : ParserState) (baseline : option TokenUsage) (model : ResolvedModel)
    (session_id : str) : ParserState :=
  {| ps_current_model := Some model;
     ps_previous_totals := option_or baseline (ps_previous_totals s);
     ps_service_tier := ps_service_tier s;
     ps_session_id := option_or (ps_session_id s) (Some session_id);
     ps_parent_session_id := ps_parent_session_id s; ps_lineage_conflict := ps_lineage_conflict s;
     ps_next_usage_ordinal := saturating_add u64_max (ps_next_usage_ordinal s) 1;
     ps_project := ps_project s;
     ps_repository_candidate := ps_repository_candidate s;
     ps_repository_project := ps_repository_project s;
     ps_latest_repository_activity_hint := ps_latest_repository_activity_hint s;
     ps_originator := ps_originator s; ps_source_alias := ps_source_alias s;
     ps_git_branch := ps_git_branch s; ps_context_window := ps_context_window s;
     ps_pending_activity := ActivityCounts_default; ps_aggregate_activity := ps_aggregate_activity s;
     ps_tool_counts := ps_tool_counts s; ps_other_tools := ps_other_tools s |}.

(** The draft of an event *)
Definition event_draft (context : ParseContext) (s : ParserState) (source_offset : Z) (effect : LineEffect)
    (timestamp : UtcTimestamp) (m : MetadataUpdate) (session_id : str) (tool : option ToolUpdate)
    (model : ResolvedModel) : ObservationDraft :=
  {| od_provider_id := pc_provider_id context; od_profile_id := pc_profile_id context;
     od_session_id := session_id;
     od_parent_session_id := option_or (mu_parent_session_id m) (ps_parent_session_id s);
     od_session_ordinal := ps_next_usage_ordinal s;
     od_lineage_conflict := mu_lineage_conflict m || ps_lineage_conflict s;
     od_source_id := pc_source_id context; od_source_offset := source_offset;
     od_source_verification := pc_source_verification context; od_timestamp := timestamp;
     od_model := model_key model; od_raw_model := model_raw model; od_delta_usage := le_usage effect;
     od_cumulative_usage := le_baseline_update effect; od_fallback_model := model_fallback model;
     od_long_context := long_context_of (le_usage effect);
     od_service_tier := option_or (mu_service_tier m) (ps_service_tier s);
     od_reported_cost := None; od_project := option_or (mu_project m) (ps_project s);
     od_originator := option_or (mu_originator m) (ps_originator s);
     od_activity :=
       match tool with
       | Some tool => ActivityCounts_increment (ps_pending_activity s) (to_activity tool)
       | None => ps_pending_activity s
       end |}.

(** A line with usage *)
Definition parse_usage (context : ParseContext) (s : ParserState) (source_offset : Z) (effect : LineEffect)
    (timestamp : UtcTimestamp) (m : MetadataUpdate) (metadata_line : bool) (tool : option ToolUpdate)
  : writer (ParserState * ParseOutcome) :=
  let! model := resolve_model sha256 (mc_value (le_model effect))
                  (option_or (mu_current_model m) (ps_current_model s))
                  (mc_invalid_aliases (le_model effect)) in
  match model with
  | None => let! _ := diagnose InvalidModel in pure (s, Rejected InvalidModel)
  | Some model =>
      let session_id := resolved_session_id context s m in
      let m := normalize_lineage_conflict s m session_id in
      match ObservationDraft_new
              (event_draft context s source_offset effect timestamp m session_id tool model) with
      | Err _ => let! _ := diagnose InvalidMetadata in pure (s, Rejected InvalidMetadata)
      | Ok event =>
          let s := record_repository_activity_hint context s m session_id (Some timestamp) in
          let! s := note_line (apply_metadata s m) metadata_line tool in
          let s := after_event s (le_baseline_update effect) model session_id in
          let! _ := tell EventEmitted in
          pure (s, Emitted event)
      end
  end.

Definition codex_parse_line (context : ParseContext) (s : ParserState) (source_offset : Z)
    (complete_line : list Z) : writer (ParserState * ParseOutcome) :=
  let! _ := tell LineSeen in
  if MAX_LINE_BYTES <? Z.of_nat (length complete_line) then
    let! _ := diagnose LineTooLarge in pure (s, Rejected LineTooLarge)
  else if negb (looks_relevant complete_line) then
    let! _ := diagnose Irrelevant in pure (s, Skipped)
  else
    match json_line complete_line with
    | None => let! _ := diagnose MalformedJson in pure (s, Rejected MalformedJson)
    | Some raw =>
        let! effect := line_effect raw (ps_previous_totals s) in
        match effect with
        | None => parse_without_usage context s source_offset raw
        | Some effect =>
            match le_timestamp effect with
            | None => let! _ := diagnose InvalidTimestamp in pure (s, Rejected InvalidTimestamp)
            | Some timestamp =>
                let usage_positive := line_usage_is_positive (le_usage effect) in
                let include_metadata_model :=
                  negb usage_positive
                  || (negb (le_model_includes_payload effect) && is_none (mc_value (le_model effect))) in
                let! m := metadata_update sha256 validated_local_directory raw include_metadata_model in
                let metadata_line := has_updates m in
                let! tool := tool_update raw in
                if negb usage_positive then parse_zero_usage context s effect m metadata_line tool
                else parse_usage context s source_offset effect timestamp m metadata_line tool
            end
        end
    end.

(** ** The invariant *)

Definition context_ok (c : ParseContext) : Prop :=
  UsageProviderId_new (pc_provider_id c) = Ok (pc_provider_id c) /\
  UsageProfileId_new (pc_profile_id c) = Ok (pc_profile_id c) /\
  UsageSourceId_new (pc_source_id c) = Ok (pc_source_id c) /\
  option_ok session_ok (pc_filename_session_hint c) /\ session_ok (pc_hashed_session_hint c).

Lemma first_token_ok l : Forall u64_ok l -> TokenCount_ok (first_token l).1.
Proof.
  induction 1 as [|v l Hv Hl IH]; [done|]. destruct v as [|v|]; cbn [first_token]; [done|done|].
  by rewrite wbind_value.
Qed.

(** Counts are in range, and cached input never exceeds input. *)
Lemma normalize_usage_ok u : RawUsage_ok u -> totals_ok (normalize_usage u).1.
Proof.
  intros Hu. unfold RawUsage_ok in Hu. rewrite Forall_forall in Hu.
  unfold normalize_usage. rewrite !wbind_value.
  assert (forall l, (forall x, x ∈ l -> x ∈ [ru_input_tokens u; ru_prompt_tokens u; ru_input u;
    ru_cached_input_tokens u; ru_cache_read_input_tokens u; ru_cached_tokens u; ru_output_tokens u;
    ru_completion_tokens u; ru_output u; ru_reasoning_output_tokens u; ru_reasoning_tokens u;
    ru_total_tokens u]) -> TokenCount_ok (first_token l).1) as Hf.
  { intros l Hl. apply first_token_ok, Forall_forall. auto. }
  set (input := (first_token [ru_input_tokens u; _; _]).1).
  set (cached := (first_token [ru_cached_input_tokens u; _; _]).1).
  set (output := (first_token [ru_output_tokens u; _; _]).1).
  set (reasoning := (first_token [ru_reasoning_output_tokens u; _]).1).
  set (total := (first_token [ru_total_tokens u]).1).
  assert (TokenCount_ok input /\ TokenCount_ok cached /\ TokenCount_ok output /\ TokenCount_ok reasoning /\
    TokenCount_ok total) as (H1 & H2 & H3 & H4 & H5).
  { split_and!; apply Hf; intros x; rewrite !elem_of_cons; tauto. }
  clearbody input cached output reasoning total. clear Hf Hu.
  split; [unfold TokenUsage_ok; simpl; split_and!; try done|].
  - destruct input, cached; simpl in *; try done. unfold_ints. lia.
  - assert (TokenCount_ok match input, output, reasoning with
      | Available i, Available o, Available r => Available (saturating_add u64_max (saturating_add u64_max i o) r)
      | _, _, _ => Unavailable end) as Hsum.
    { destruct input, output, reasoning; simpl in *; try done. unfold saturating_add. unfold_ints. lia. }
    destruct total as [t|]; [|done]. by destruct (0 <? t).
  - unfold valid_previous_totals. simpl. destruct input, cached; simpl; try done. lia.
Qed.

Lemma subtract_count_ok c p : TokenCount_ok c -> TokenCount_ok p -> TokenCount_ok (subtract_count c p).
Proof.
  destruct c as [c|], p as [p|]; simpl; try done. intros. destruct (p <=? c) eqn:E; simpl; [|done].
  to_prop. unfold saturating_sub. unfold_ints. lia.
Qed.

Lemma subtract_usage_ok u p : TokenUsage_ok u -> option_ok TokenUsage_ok p -> TokenUsage_ok (subtract_usage u p).
Proof.
  intros Hu Hp. destruct p as [p|]; [|done]. specialize (Hp p eq_refl). unfold TokenUsage_ok in *. simpl.
  destruct Hu as (? & ? & ? & ? & ? & _), Hp as (? & ? & ? & ? & ? & _). split_and!; auto using subtract_count_ok.
Qed.

Lemma line_effect_ok raw prev e : RawLine_ok raw -> option_ok totals_ok prev ->
  (line_effect raw prev).1 = Some e ->
  TokenUsage_ok (le_usage e) /\ option_ok totals_ok (le_baseline_update e).
Proof.
  intros (_ & Hp & Hu & Hd & Hr & Hs) Hprev H. unfold line_effect in H. cbv zeta in H.
  set (plain := match rl_usage raw with Some _ => _ | None => _ end) in H.
  assert (forall e, plain.1 = Some e -> TokenUsage_ok (le_usage e) /\ option_ok totals_ok (le_baseline_update e)) as Hplain.
  { unfold plain. intros e'. destruct (rl_usage raw) as [u|]; [|done]. rewrite wbind_value. intros [= <-]. simpl.
    split; [|done]. by apply normalize_usage_ok, Hu. }
  clearbody plain. set (other := match option_or _ _ with Some _ => _ | None => _ end) in H.
  assert (forall e, other.1 = Some e -> TokenUsage_ok (le_usage e) /\ option_ok totals_ok (le_baseline_update e)) as Hother.
  { unfold other. intros e'. destruct (option_or _ _) as [r|] eqn:Er; [|apply Hplain].
    assert (RawResult_ok r) as [Hru _].
    { destruct (rl_data raw); [injection Er as <-; by apply Hd|]. destruct (rl_result raw); [injection Er as <-; by apply Hr|].
      by apply Hs. }
    destruct (rr_usage r) as [u|]; [|apply Hplain]. unfold effect_from_result. rewrite !wbind_value. intros [= <-]. simpl.
    split; [|done]. by apply normalize_usage_ok, Hru. }
  clearbody other. destruct (rl_payload raw) as [p|]; [|by apply Hother]. destruct (_ && _); [|by apply Hother].
  unfold token_count_effect in H. destruct (Hp p eq_refl) as (_ & _ & _ & _ & Hi).
  destruct (rp_info p) as [i|]; [|done]. destruct (Hi i eq_refl) as (Hlast & Htotal & _).
  rewrite !wbind_value in H. set (base := (map_usage (ri_total_token_usage i)).1) in *.
  assert (option_ok totals_ok base) as Hbase.
  { unfold base, map_usage. destruct (ri_total_token_usage i) as [u|]; [|done]. rewrite wbind_value. apply option_ok_Some.
    by apply normalize_usage_ok, Htotal. }
  clearbody base. destruct (ri_last_token_usage i) as [u|].
  - rewrite wbind_value in H. injection H as <-. simpl. split; [|done]. by apply normalize_usage_ok, Hlast.
  - destruct base as [b|]; [|done]. injection H as <-. simpl. split; [|done].
    apply subtract_usage_ok; [by apply Hbase|]. intros q Hq. by apply (Hprev q).
Qed.

(** *** Lineage *)

(** After normalization an update without conflict leaves a parent that is not the session. *)
Lemma normalized_lineage context s m :
  let sid := resolved_session_id context s m in
  let s' := apply_metadata s (normalize_lineage_conflict s m sid) in
  (ps_lineage_conflict s' = false -> forall p, ps_parent_session_id s' = Some p -> p <> sid) /\
  (forall x, ps_session_id s' = Some x -> x = sid) /\
  (mu_lineage_conflict (normalize_lineage_conflict s m sid) || ps_lineage_conflict s = false ->
   option_or (mu_parent_session_id m) (ps_parent_session_id s) <> Some sid).
Proof.
  cbv zeta. set (sid := resolved_session_id context s m). unfold apply_metadata, normalize_lineage_conflict. simpl.
  split_and!.
  - destruct (mu_parent_session_id m) as [q|], (ps_parent_session_id s) as [e|]; simpl.
    all: destruct (mu_repository_candidate m); simpl; rewrite ?orb_false_iff.
    all: repeat match goal with |- context [bool_decide ?P] => destruct (bool_decide P) eqn:?; to_prop end; simpl.
    all: try (intros ? p [= <-]; naive_solver).
    all: by intros _ p.
  - unfold sid, resolved_session_id. intros x.
    destruct (mu_parent_session_id m), (ps_parent_session_id s), (mu_repository_candidate m); simpl;
      destruct (mu_session_id m), (ps_session_id s); simpl; naive_solver.
  - rewrite !orb_false_iff. intros [(_ & [_ H] & _) _] E. rewrite E in H. simpl in H. by rewrite bool_decide_true in H.
Qed.

Lemma set_conflict_ok m b : update_ok sha256 m -> update_ok sha256 (set_conflict m b).
Proof. intros []. by split. Qed.

Lemma resolved_session_ok context s m : context_ok context -> state_ok sha256 s -> update_ok sha256 m ->
  session_ok (resolved_session_id context s m).
Proof.
  intros (_ & _ & _ & Hf & Hh) Hs Hm. unfold resolved_session_id.
  destruct (option_or _ _) as [v|] eqn:E; [|done].
  enough (option_ok session_ok (Some v)) by (by apply option_ok_Some). rewrite <- E.
  apply option_or_ok; [|done]. apply option_or_ok; [apply Hm|apply Hs].
Qed.

(** Recording a hint changes nothing else. *)
Lemma hint_only context s m sid t : context_ok context -> state_ok sha256 s -> update_ok sha256 m ->
  session_ok sid ->
  exists h, record_repository_activity_hint context s m sid t = set_hint s h /\ option_ok hint_ok h.
Proof.
  intros Hc Hs Hm Hsid. unfold record_repository_activity_hint.
  assert (exists h, s = set_hint s h /\ option_ok hint_ok h) as Hsame.
  { exists (ps_latest_repository_activity_hint s). split; [by destruct s|]. eauto with parser. }
  assert (forall p, option_ok alias_ok p -> forall c ts, hint_ok
    {| rh_provider_id := pc_provider_id context; rh_profile_id := pc_profile_id context;
       rh_source_id := pc_source_id context; rh_session_id := sid; rh_observed_at := ts;
       rh_project := p; rh_candidate := c |}) as Hnew.
  { intros p Hp c ts. destruct Hc as (H1 & H2 & H3 & _ & _).
    apply validate_ascii_value_ok in H1 as (_ & _ & ? & _), H2 as (_ & _ & ? & _), H3 as (_ & _ & ? & _).
    split_and!; done. }
  destruct t as [ts|]; [|done]. destruct (mu_repository_candidate m); [|eexists; split; [done|]|done].
  - destruct (ps_repository_candidate s); [|done]. eexists. split; [done|]. apply option_ok_Some, Hnew. eauto with parser.
  - apply option_ok_Some, Hnew. apply Hm.
Qed.

Lemma set_hint_ok s h : state_ok sha256 s -> option_ok hint_ok h -> state_ok sha256 (set_hint s h).
Proof. intros Hs Hh. split; simpl; eauto with parser. Qed.

Definition tool_ok (t : ToolUpdate) : Prop := valid_tool_name (to_name t) = true /\ str_ok (to_name t).

(** What [note_line] leaves alone *)
Definition same_identity (s t : ParserState) : Prop :=
  ps_session_id s = ps_session_id t /\ ps_parent_session_id s = ps_parent_session_id t /\
  ps_lineage_conflict s = ps_lineage_conflict t /\ ps_next_usage_ordinal s = ps_next_usage_ordinal t /\
  ps_previous_totals s = ps_previous_totals t.

Lemma note_line_ok s b tool : state_ok sha256 s -> option_ok tool_ok tool ->
  state_ok sha256 (note_line s b tool).1 /\ same_identity (note_line s b tool).1 s.
Proof.
  intros Hs Ht. unfold note_line. rewrite wbind_value. destruct tool as [t|]; [|done].
  destruct (Ht t eq_refl) as [Hn Hstr]. rewrite !wbind_value. unfold record_tool.
  destruct (count_tool _ _ _) as [[counts other] full] eqn:E. rewrite wbind_value.
  split; [|by split_and!]. split; simpl; eauto with parser.
  - apply increment_activity_ok. eauto with parser.
  - eapply count_tool_ok; [|exact Hn|exact Hstr|exact E]. eauto with parser.
Qed.

Lemma set_totals_ok s b : state_ok sha256 s -> option_ok totals_ok b -> state_ok sha256 (set_totals s b).
Proof. intros Hs Hb. split; simpl; eauto using option_or_ok with parser. Qed.

(** The state once the metadata of a line is applied *)
Lemma apply_normalized_ok context s h m :
  context_ok context -> state_ok sha256 s -> update_ok sha256 m -> option_ok hint_ok h ->
  let sid := resolved_session_id context s m in
  let s' := apply_metadata (set_hint s h) (normalize_lineage_conflict s m sid) in
  state_ok sha256 s' /\
  (ps_lineage_conflict s' = false -> forall p, ps_parent_session_id s' = Some p -> p <> sid) /\
  (forall x, ps_session_id s' = Some x -> x = sid) /\
  ps_next_usage_ordinal s' = ps_next_usage_ordinal s /\ ps_previous_totals s' = ps_previous_totals s.
Proof.
  intros Hc Hs Hm Hh. cbv zeta. pose proof (normalized_lineage context s m) as (H1 & H2 & _). cbv zeta in H1, H2.
  set (sid := resolved_session_id context s m) in *. set (n := normalize_lineage_conflict s m sid) in *.
  assert (forall A (f : ParserState -> A), (forall s h, f (set_hint s h) = f s) ->
    f (apply_metadata (set_hint s h) n) = f (set_hint (apply_metadata s n) h)) as Hset.
  { intros A f _. unfold apply_metadata. f_equal. simpl.
    destruct (match mu_parent_session_id n with Some _ => _ | None => _ end).
    by destruct (match mu_repository_candidate n with CandidateMissing => _ | _ => _ end). }
  rewrite (Hset _ ps_lineage_conflict), (Hset _ ps_parent_session_id), (Hset _ ps_session_id),
    (Hset _ ps_next_usage_ordinal), (Hset _ ps_previous_totals) by done. simpl.
  split_and!; [|done|done| |].
  - apply apply_metadata_ok; [by apply set_hint_ok|by apply set_conflict_ok|].
    rewrite (Hset _ ps_lineage_conflict), (Hset _ ps_parent_session_id), (Hset _ ps_session_id) by done. simpl.
    intros Hf p Hp Hx. apply (H1 Hf p Hp). by apply H2.
  - unfold apply_metadata. repeat split_goal; done.
  - unfold apply_metadata. repeat split_goal; done.
Qed.

(** A line with usage always yields its event. *)
Lemma parse_usage_emits context s off effect ts m ml tool :
  state_ok sha256 s -> update_ok sha256 m ->
  let sid := resolved_session_id context s m in
  let n := normalize_lineage_conflict s m sid in
  exists model, model_ok sha256 model /\
    (parse_usage context s off effect ts m ml tool).1 =
      (after_event (note_line (apply_metadata (record_repository_activity_hint context s n sid (Some ts)) n) ml tool).1
         (le_baseline_update effect) model sid,
       Emitted (event_draft context s off effect ts n sid tool model)).
Proof.
  intros Hs Hm. cbv zeta. unfold parse_usage. rewrite wbind_value.
  destruct (resolve_model_ok sha256 (mc_value (le_model effect))
    (option_or (mu_current_model m) (ps_current_model s)) (mc_invalid_aliases (le_model effect))) as (model & Hr & Hmodel).
  { apply option_or_ok; [apply Hm|apply Hs]. }
  rewrite Hr. exists model. split; [done|]. set (sid := resolved_session_id context s m).
  unfold ObservationDraft_new. cbn [od_lineage_conflict od_parent_session_id od_session_id event_draft].
  destruct (negb _ && bool_decide _) eqn:E.
  - exfalso. apply andb_true_iff in E as [E1 E2]. rewrite negb_true_iff in E1. apply bool_decide_eq_true in E2.
    pose proof (normalized_lineage context s m) as (_ & _ & Hnl). cbv zeta in Hnl. exact (Hnl E1 E2).
  - rewrite !wbind_value. done.
Qed.

Lemma after_event_ok s baseline model sid :
  state_ok sha256 s -> option_ok totals_ok baseline -> model_ok sha256 model -> session_ok sid ->
  (ps_lineage_conflict s = false -> forall p, ps_parent_session_id s = Some p -> p <> sid) ->
  (forall x, ps_session_id s = Some x -> x = sid) ->
  ps_next_usage_ordinal s < i64_max ->
  state_ok sha256 (after_event s baseline model sid).
Proof.
  intros Hs Hb Hm Hsid Hl Hx Ho. split; simpl; eauto using option_or_ok with parser.
  - by apply option_ok_Some.
  - apply option_or_ok; [eauto with parser|by apply option_ok_Some].
  - intros Hc p Hp Hsess. apply (Hl Hc p Hp). destruct (ps_session_id s) as [x|] eqn:E; simpl in Hsess; injection Hsess as <-; auto.
  - pose proof (so_ordinal _ _ Hs). unfold saturating_add. unfold_ints. lia.
  - eapply reset_activity_ok. eauto with parser.
Qed.

(** The three ways a readable line is handled *)
Lemma parse_without_usage_ok context s off raw :
  context_ok context -> state_ok sha256 s -> RawLine_ok raw ->
  let r := (parse_without_usage context s off raw).1 in
  state_ok sha256 r.1 /\ ps_next_usage_ordinal r.1 = ps_next_usage_ordinal s /\
  (forall e, r.2 <> Emitted e) /\ (forall c, r.2 <> Rejected c).
Proof.
  intros Hc Hs Hr. cbv zeta. unfold parse_without_usage. rewrite !wbind_value.
  pose proof (metadata_update_ok sha256 validated_local_directory raw true Hr) as Hm.
  set (m := (metadata_update _ _ _ _).1) in *. cbv zeta. rewrite ?wbind_value.
  pose proof (resolved_session_ok context s m Hc Hs Hm) as Hsid. set (sid := resolved_session_id context s m) in *.
  set (n := normalize_lineage_conflict s m sid) in *.
  destruct (hint_only context s n sid (first_timestamp (line_timestamps raw)) Hc Hs (set_conflict_ok _ _ Hm) Hsid)
    as (h & -> & Hh).
  pose proof (apply_normalized_ok context s h m Hc Hs Hm Hh) as (H1 & _ & _ & Ho & _). cbv zeta in H1, Ho.
  fold sid in H1, Ho. fold n in H1, Ho.
  destruct (note_line_ok _ (has_updates n) (tool_update raw).1 H1) as (H2 & _ & _ & _ & Ho2 & _).
  { intros t Ht. by eapply tool_update_ok. }
  cbn [pure fst snd]. split_and!; [done|congruence| |]; intros ?; repeat split_goal; done.
Qed.

Lemma parse_zero_usage_ok context s effect m ml tool :
  context_ok context -> state_ok sha256 s -> update_ok sha256 m ->
  option_ok totals_ok (le_baseline_update effect) -> option_ok tool_ok tool ->
  let r := (parse_zero_usage context s effect m ml tool).1 in
  state_ok sha256 r.1 /\ ps_next_usage_ordinal r.1 = ps_next_usage_ordinal s /\ r.2 = Skipped.
Proof.
  intros Hc Hs Hm Hb Ht. cbv zeta. unfold parse_zero_usage. rewrite !wbind_value.
  assert (s = set_hint s (ps_latest_repository_activity_hint s)) as Esame by (by destruct s).
  pose proof (apply_normalized_ok context s (ps_latest_repository_activity_hint s) m Hc Hs Hm (so_hint _ _ Hs))
    as (H1 & _ & _ & Ho & _). cbv zeta in H1, Ho. rewrite <- Esame in H1, Ho.
  destruct (note_line_ok _ ml tool H1 Ht) as (H2 & _ & _ & _ & Ho2 & _).
  cbn [pure fst snd]. split_and!; [by apply set_totals_ok|simpl; congruence|done].
Qed.

Lemma parse_usage_ok context s off effect ts m ml tool :
  context_ok context -> state_ok sha256 s -> update_ok sha256 m -> ps_next_usage_ordinal s < i64_max ->
  option_ok totals_ok (le_baseline_update effect) -> option_ok tool_ok tool ->
  let r := (parse_usage context s off effect ts m ml tool).1 in
  state_ok sha256 r.1 /\ ps_next_usage_ordinal r.1 = ps_next_usage_ordinal s + 1 /\
  exists model, model_ok sha256 model /\
    r.2 = Emitted (event_draft context s off effect ts
            (normalize_lineage_conflict s m (resolved_session_id context s m))
            (resolved_session_id context s m) tool model).
Proof.
  intros Hc Hs Hm Hlt Hb Ht. cbv zeta.
  destruct (parse_usage_emits context s off effect ts m ml tool Hs Hm) as (model & Hmodel & E). cbv zeta in E.
  rewrite E. cbn [fst snd]. clear E.
  pose proof (resolved_session_ok context s m Hc Hs Hm) as Hsid. set (sid := resolved_session_id context s m) in *.
  set (n := normalize_lineage_conflict s m sid) in *.
  destruct (hint_only context s n sid (Some ts) Hc Hs (set_conflict_ok _ _ Hm) Hsid) as (h & -> & Hh).
  pose proof (apply_normalized_ok context s h m Hc Hs Hm Hh) as (H1 & Hl & Hx & Ho & _). cbv zeta in H1, Hl, Hx, Ho.
  fold sid in H1, Hl, Hx, Ho. fold n in H1, Hl, Hx, Ho.
  destruct (note_line_ok _ ml tool H1 Ht) as (H2 & I1 & I2 & I3 & I4 & _).
  pose proof (so_ordinal _ _ Hs). split_and!; [|simpl; rewrite I4, Ho; unfold saturating_add; unfold_ints; lia|eauto].
  apply after_event_ok; [done..| | |].
  - rewrite I2, I3. exact Hl.
  - rewrite I1. exact Hx.
  - lia.
Qed.

(** *** One line *)

(** What an outcome says about the state before and after *)
Definition outcome_ok (context : ParseContext) (off : Z) (s s' : ParserState) (o : ParseOutcome) : Prop :=
  match o with
  | Emitted e =>
      ps_next_usage_ordinal s' = ps_next_usage_ordinal s + 1 /\
      od_session_ordinal e = ps_next_usage_ordinal s /\ od_source_offset e = off /\
      (in_u64 off -> ObservationDraft_ok e)
  | Rejected code =>
      s' = s /\ (code = LineTooLarge \/ code = MalformedJson \/ code = InvalidTimestamp)
  | SessionRelation _ | MetadataOnly | ToolOnly | Skipped =>
      ps_next_usage_ordinal s' = ps_next_usage_ordinal s
  end.

Lemma ascii_id_ok s f max : validate_ascii_value s f max is_usage_id_byte = Ok s -> str_ok s.
Proof.
  intros H. apply validate_ascii_value_ok in H as (_ & _ & _ & Hb). apply ascii_bytes_str_ok.
  eapply Forall_impl; [exact Hb|]. simpl. intros b Hx. apply is_model_key_byte_ascii. unfold is_model_key_byte.
  by rewrite Hx.
Qed.

Lemma event_draft_ok context s off effect ts n sid tool model :
  context_ok context -> state_ok sha256 s -> session_ok sid -> model_ok sha256 model -> in_u64 off ->
  TokenUsage_ok (le_usage effect) -> option_ok totals_ok (le_baseline_update effect) ->
  ObservationDraft_ok (event_draft context s off effect ts n sid tool model).
Proof.
  intros (H1 & H2 & _) Hs [Hsid1 Hsid2] [Hk _] Hoff Hu Hb. unfold ObservationDraft_ok. simpl.
  pose proof (ModelKey_new_ok _ _ Hk) as (_ & Hk' & _ & _). pose proof (so_ordinal _ _ Hs).
  split_and!; try done; [by eapply ascii_id_ok|by eapply ascii_id_ok|unfold_ints; lia|].
  destruct (le_baseline_update effect) as [b|]; [|done]. by apply Hb.
Qed.

Lemma parse_line_ok context s off line :
  context_ok context -> state_ok sha256 s -> ps_next_usage_ordinal s < i64_max ->
  let r := (codex_parse_line context s off line).1 in
  state_ok sha256 r.1 /\ outcome_ok context off s r.1 r.2.
Proof.
  intros Hc Hs Hlt. cbv zeta. unfold codex_parse_line. rewrite wbind_value.
  destruct (_ <? _); [rewrite wbind_value; simpl; auto|]. destruct (negb _); [rewrite wbind_value; simpl; auto|].
  destruct (json_line line) as [raw|] eqn:Ej; [|rewrite wbind_value; simpl; auto].
  pose proof (json_line_ok _ _ Ej) as Hraw. rewrite wbind_value.
  destruct (line_effect raw (ps_previous_totals s)).1 as [effect|] eqn:Ee.
  2: { destruct (parse_without_usage_ok context s off raw Hc Hs Hraw) as (H1 & H2 & H3 & H4). cbv zeta in *.
       split; [done|]. destruct ((parse_without_usage context s off raw).1.2) eqn:E; simpl; try done.
       - by specialize (H3 event). - by specialize (H4 code). }
  apply line_effect_ok in Ee as [Hu Hb]; [|done|eauto with parser].
  destruct (le_timestamp effect) as [ts|]; [|rewrite wbind_value; simpl; auto 7].
  rewrite !wbind_value. cbv zeta.
  match goal with |- context [metadata_update _ _ _ ?b] =>
    pose proof (metadata_update_ok sha256 validated_local_directory raw b Hraw) as Hm end.
  set (m := (metadata_update _ _ _ _).1) in *. rewrite ?wbind_value.
  assert (option_ok tool_ok (tool_update raw).1) as Ht by (intros t Ht; by eapply tool_update_ok).
  destruct (negb _).
  - destruct (parse_zero_usage_ok context s effect m (has_updates m) (tool_update raw).1 Hc Hs Hm Hb Ht)
      as (H1 & H2 & H3). cbv zeta in *. rewrite H3. by split.
  - destruct (parse_usage_ok context s off effect ts m (has_updates m) (tool_update raw).1 Hc Hs Hm Hlt Hb Ht)
      as (H1 & H2 & model & Hmodel & H3). cbv zeta in *. rewrite H3. split; [done|].
    split_and!; [done|done|done|]. intros Hoff. apply event_draft_ok; try done. by apply resolved_session_ok.
Qed.

(** *** Runs *)

(** The lines of a file with their offsets, parsed one after the other *)
Fixpoint parse_all (context : ParseContext) (s : ParserState) (lines : list (Z * list Z))
  : ParserState * list ParseOutcome :=
  match lines with
  | [] => (s, [])
  | (off, line) :: lines =>
      let '(s, o) := (codex_parse_line context s off line).1 in
      let '(s, os) := parse_all context s lines in
      (s, o :: os)
  end.

Definition emitted (os : list ParseOutcome) : list ObservationDraft :=
  omap (fun o => match o with Emitted e => Some e | _ => None end) os.

Lemma new_state_ok : state_ok sha256 ParserState_new.
Proof.
  split; simpl; try done.
  split_and!; [apply default_activity_ok..|done].
Qed.

Lemma parse_all_ok context s lines :
  context_ok context -> state_ok sha256 s -> ps_next_usage_ordinal s + Z.of_nat (length lines) <= i64_max ->
  let r := parse_all context s lines in
  state_ok sha256 r.1 /\
  ps_next_usage_ordinal r.1 = ps_next_usage_ordinal s + Z.of_nat (length (emitted r.2)) /\
  (length (emitted r.2) <= length lines)%nat /\
  map od_session_ordinal (emitted r.2) = seqZ (ps_next_usage_ordinal s) (Z.of_nat (length (emitted r.2))) /\
  (Forall (fun l => in_u64 l.1) lines -> Forall ObservationDraft_ok (emitted r.2)).
Proof.
  intros Hc. revert s. induction lines as [|[off line] lines IH]; intros s Hs Hlen; cbn [parse_all].
  { simpl. split_and!; [done|lia|lia|done|constructor]. }
  cbn [length] in Hlen. destruct (parse_line_ok context s off line Hc Hs ltac:(lia)) as [H1 H2]. cbv zeta in H1, H2.
  destruct (codex_parse_line context s off line).1 as [s1 o]. cbn [fst snd] in *.
  assert (ps_next_usage_ordinal s1 = ps_next_usage_ordinal s + match o with Emitted _ => 1 | _ => 0 end) as Ho.
  { destruct o; simpl in H2; try lia. destruct H2 as [-> _]. lia. }
  destruct (IH s1 H1) as (I1 & I2 & I3 & I4 & I5); [destruct o; lia|]. cbv zeta in *.
  destruct (parse_all context s1 lines) as [s2 os]. cbn [fst snd length] in *.
  split_and!; [done| | | |].
  - destruct o; simpl; lia.
  - destruct o; simpl; lia.
  - destruct o as [e| | | | |]; simpl.
    + destruct H2 as (_ & He & _). rewrite He, I4, Nat2Z.inj_succ, (seqZ_cons (ps_next_usage_ordinal s)) by lia. f_equal. rewrite Ho. f_equal. lia.
    + rewrite I4. rewrite Ho. by rewrite Z.add_0_r.
    + rewrite I4. rewrite Ho. by rewrite Z.add_0_r.
    + rewrite I4. rewrite Ho. by rewrite Z.add_0_r.
    + rewrite I4. rewrite Ho. by rewrite Z.add_0_r.
    + rewrite I4. rewrite Ho. by rewrite Z.add_0_r.
  - intros Hoff. inversion Hoff as [|? ? Hx Hrest]; subst. destruct o; simpl; auto. constructor; [|auto].
    by apply H2.
Qed.

(** ** Resuming does not change what is delivered

    Two states are equivalent when they agree on what is persisted; parsing respects
    the equivalence. *)

#[local] Instance parser_state_equiv : Equiv ParserState := fun s t => persistent s = persistent t.
#[local] Instance writer_equiv {A} `{Equiv A} : Equiv (writer A) := fun m n => m.1 ≡ n.1 /\ m.2 = n.2.
#[local] Instance outcome_equiv : Equiv ParseOutcome := (=).

Ltac same_state H :=
  match type of H with
  | ?s ≡ ?t => destruct s, t; unfold equiv, parser_state_equiv, persistent in H; simpl in H;
               injection H as H; subst
  end.

Lemma persistent_equiv s : persistent s ≡ s.
Proof. done. Qed.

#[local] Instance set_hint_proper : Proper ((≡) ==> (=) ==> (≡)) set_hint.
Proof. intros s t H h _ <-. by same_state H. Qed.

Lemma set_hint_equiv s h : set_hint s h ≡ s.
Proof. done. Qed.

#[local] Instance apply_metadata_proper : Proper ((≡) ==> (=) ==> (≡)) apply_metadata.
Proof.
  intros s t H u _ <-. same_state H. unfold apply_metadata. simpl.
  destruct (match mu_parent_session_id u with Some _ => _ | None => _ end).
  by destruct (mu_repository_candidate u).
Qed.

#[local] Instance after_event_proper : Proper ((≡) ==> (=) ==> (=) ==> (=) ==> (≡)) after_event.
Proof. intros s t H b _ <- m _ <- x _ <-. by same_state H. Qed.

#[local] Instance set_totals_proper : Proper ((≡) ==> (=) ==> (≡)) set_totals.
Proof. intros s t H b _ <-. by same_state H. Qed.

Lemma hint_equiv context s m sid t : record_repository_activity_hint context s m sid t ≡ s.
Proof. unfold record_repository_activity_hint. repeat split_goal; done. Qed.

Lemma wbind_equiv {A B} `{Equiv A, Equiv B} (m n : writer A) (j k : A -> writer B) :
  m ≡ n -> (forall a b, a ≡ b -> j a ≡ k b) -> wbind m j ≡ wbind n k.
Proof.
  intros [H1 H2] Hk. destruct m as [a l], n as [b l']. simpl in *. subst. specialize (Hk a b H1).
  destruct (j a) as [x lx], (k b) as [y ly], Hk as [? ?]. simpl in *. by subst.
Qed.

Lemma wbind_same {A B} `{Equiv B} (m : writer A) (j k : A -> writer B) :
  (forall a, j a ≡ k a) -> wbind m j ≡ wbind m k.
Proof.
  intros Hk. destruct m as [a l]. simpl. specialize (Hk a). destruct (j a), (k a), Hk as [? ?]. simpl in *. by subst.
Qed.

Lemma note_line_equiv s t b tool : s ≡ t -> note_line s b tool ≡ note_line t b tool.
Proof.
  intros H. unfold note_line. apply wbind_same. intros _. destruct tool as [u|]; [|done].
  apply wbind_equiv; [|by intros; apply wbind_same]. unfold record_tool. same_state H.
  destruct (count_tool _ _ _) as [[? ?] ?]. by apply wbind_same.
Qed.

Lemma resolved_session_equiv context s t m : s ≡ t ->
  resolved_session_id context s m = resolved_session_id context t m.
Proof. intros H. by same_state H. Qed.

Lemma normalize_lineage_equiv s t m sid : s ≡ t ->
  normalize_lineage_conflict s m sid = normalize_lineage_conflict t m sid.
Proof. intros H. by same_state H. Qed.

Lemma event_draft_equiv context s t off e ts m sid tool model : s ≡ t ->
  event_draft context s off e ts m sid tool model = event_draft context t off e ts m sid tool model.
Proof. intros H. by same_state H. Qed.

Lemma result_equiv (s t : ParserState) (o : ParseOutcome) :
  s ≡ t -> (pure (s, o) : writer (ParserState * ParseOutcome)) ≡ pure (t, o).
Proof. intros H. by split. Qed.

Lemma applied_equiv context s t m sid ts : s ≡ t ->
  apply_metadata (record_repository_activity_hint context s m sid ts) m
  ≡ apply_metadata (record_repository_activity_hint context t m sid ts) m.
Proof.
  intros H. apply apply_metadata_proper; [|done].
  etransitivity; [apply hint_equiv|]. etransitivity; [exact H|]. symmetry. apply hint_equiv.
Qed.

Lemma codex_parse_line_equiv context s t off line : s ≡ t ->
  codex_parse_line context s off line ≡ codex_parse_line context t off line.
Proof.
  intros H. unfold codex_parse_line.
  assert (forall code o, (let! _ := diagnose code in pure (s, o) : writer (ParserState * ParseOutcome))
    ≡ (let! _ := diagnose code in pure (t, o))) as Hplain
    by (intros; apply wbind_same; intros _; by apply result_equiv).
  apply wbind_same. intros _. destruct (_ <? _); [done|]. destruct (negb _); [done|].
  destruct (json_line line) as [raw|]; [|done].
  assert (ps_previous_totals s = ps_previous_totals t) as <- by (clear Hplain; by same_state H).
  apply wbind_same. intros [e|].
  - destruct (le_timestamp e) as [ts|]; [|done]. cbv zeta. apply wbind_same. intros m. apply wbind_same. intros tool.
    destruct (negb _).
    + unfold parse_zero_usage. rewrite (resolved_session_equiv context s t m H), (normalize_lineage_equiv s t m _ H).
      apply wbind_equiv; [by apply note_line_equiv, apply_metadata_proper|]. intros a b Hab. apply wbind_same.
      intros _. apply result_equiv. by apply set_totals_proper.
    + unfold parse_usage. rewrite (resolved_session_equiv context s t m H), (normalize_lineage_equiv s t m _ H).
      assert (ps_current_model s = ps_current_model t) as -> by (clear Hplain; by same_state H).
      apply wbind_same. intros [model|]; [|done]. rewrite (event_draft_equiv _ s t _ _ _ _ _ _ _ H).
      destruct (ObservationDraft_new _) as [ev|]; [|done].
      apply wbind_equiv; [by apply note_line_equiv, applied_equiv|]. intros a b Hab. apply wbind_same.
      intros _. apply result_equiv. by apply after_event_proper.
  - unfold parse_without_usage. apply wbind_same. intros m. cbv zeta.
    rewrite (resolved_session_equiv context s t m H), (normalize_lineage_equiv s t m _ H).
    apply wbind_same. intros tool. apply wbind_equiv; [by apply note_line_equiv, applied_equiv|].
    intros a b Hab. by apply result_equiv.
Qed.

Lemma parse_all_equiv context s t lines : s ≡ t ->
  (parse_all context s lines).1 ≡ (parse_all context t lines).1 /\
  (parse_all context s lines).2 = (parse_all context t lines).2.
Proof.
  revert s t. induction lines as [|[off line] lines IH]; intros s t H; [done|]. cbn [parse_all].
  destruct (codex_parse_line_equiv context s t off line H) as [[H1 H2] _].
  destruct (codex_parse_line context s off line).1 as [s1 o], (codex_parse_line context t off line).1 as [t1 p].
  simpl in H1, H2. unfold equiv, outcome_equiv in H2. subst p. destruct (IH s1 t1 H1) as [I1 I2].
  destruct (parse_all context s1 lines), (parse_all context t1 lines). simpl in *. by subst.
Qed.

Lemma parse_all_app context s l k :
  parse_all context s (l ++ k) =
  (let '(s1, os) := parse_all context s l in let '(s2, os') := parse_all context s1 k in (s2, os ++ os')).
Proof.
  revert s. induction l as [|[off line] l IH]; intros s; cbn [parse_all app].
  - by destruct (parse_all context s k).
  - destruct (codex_parse_line context s off line).1 as [s1 o]. rewrite IH.
    destruct (parse_all context s1 l) as [s2 os]. by destruct (parse_all context s2 k).
Qed.
(** ** What a line does to the cumulative totals *)

Inductive Counter := CInput | CCached | COutput | CReasoning | CTotal.

Definition counter (c : Counter) (u : TokenUsage) : TokenCount :=
  match c with
  | CInput => tu_input u | CCached => tu_cached u | COutput => tu_output u
  | CReasoning => tu_reasoning u | CTotal => tu_total u
  end.

(** A total that is absent counts from zero. *)
Definition count_value (c : TokenCount) : Z := match c with Available n => n | Unavailable => 0 end.
Definition total_of (c : Counter) (totals : option TokenUsage) : Z :=
  match totals with Some u => count_value (counter c u) | None => 0 end.

(** The line reports its usage only as a running total, which has not decreased. *)
Definition counts_up (c : Counter) (s : ParserState) (line : list Z) : bool :=
  match json_line line with
  | None => true
  | Some raw =>
      match (line_effect raw (ps_previous_totals s)).1 with
      | None => true
      | Some e =>
          match le_baseline_update e with
          | None => false
          | Some total =>
              is_none (payload ← rl_payload raw; info ← rp_info payload; ri_last_token_usage info)
              && match counter c total with
                 | Available n => total_of c (ps_previous_totals s) <=? n
                 | Unavailable => false
                 end
          end
      end
  end.

Fixpoint counting_run (c : Counter) (context : ParseContext) (s : ParserState) (lines : list (Z * list Z))
  : bool :=
  match lines with
  | [] => true
  | (off, line) :: lines =>
      counts_up c s line && counting_run c context (codex_parse_line context s off line).1.1 lines
  end.

Lemma counter_subtract c u p : counter c (subtract_usage u (Some p)) = subtract_count (counter c u) (counter c p).
Proof. by destruct c. Qed.

Lemma zero_usage_counter c u n : line_usage_is_positive u = false -> counter c u = Available n -> n <= 0.
Proof.
  intros H Hc. destruct (Z.ltb_spec 0 n) as [Hn|]; [|done]. exfalso.
  assert (line_usage_is_positive u = true); [|congruence]. unfold line_usage_is_positive.
  apply existsb_exists. exists (counter c u). split; [destruct c; simpl; tauto|]. rewrite Hc. by apply Z.ltb_lt.
Qed.

Lemma note_line_totals s b tool : ps_previous_totals (note_line s b tool).1 = ps_previous_totals s.
Proof.
  unfold note_line. rewrite wbind_value. destruct tool as [t|]; [|done]. rewrite !wbind_value. unfold record_tool.
  destruct (count_tool _ _ _) as [[? ?] ?]. by rewrite wbind_value.
Qed.

Lemma apply_metadata_totals s m : ps_previous_totals (apply_metadata s m) = ps_previous_totals s.
Proof. unfold apply_metadata. by repeat split_goal. Qed.

Lemma hint_totals context s m sid t :
  ps_previous_totals (record_repository_activity_hint context s m sid t) = ps_previous_totals s.
Proof. unfold record_repository_activity_hint. by repeat split_goal. Qed.

(** A line leaves the totals alone, or applies the effect it was read to have. *)
Lemma parse_line_totals context s off line :
  context_ok context -> state_ok sha256 s ->
  let r := (codex_parse_line context s off line).1 in
  (ps_previous_totals r.1 = ps_previous_totals s /\ (forall e, r.2 <> Emitted e)) \/
  exists raw e, json_line line = Some raw /\ (line_effect raw (ps_previous_totals s)).1 = Some e /\
    ps_previous_totals r.1 = option_or (le_baseline_update e) (ps_previous_totals s) /\
    if line_usage_is_positive (le_usage e)
    then exists d, r.2 = Emitted d /\ od_delta_usage d = le_usage e
    else r.2 = Skipped.
Proof.
  intros Hc Hs. cbv zeta. unfold codex_parse_line. rewrite wbind_value.
  destruct (MAX_LINE_BYTES <? _); [rewrite wbind_value; left; done|].
  destruct (negb _); [rewrite wbind_value; left; done|].
  destruct (json_line line) as [raw|] eqn:Ej; [|rewrite wbind_value; left; done].
  pose proof (json_line_ok _ _ Ej) as Hraw. rewrite wbind_value.
  destruct (line_effect raw (ps_previous_totals s)).1 as [e|] eqn:Ee.
  2: { left. split; [|destruct (parse_without_usage_ok context s off raw Hc Hs Hraw) as (_ & _ & H & _); exact H].
       unfold parse_without_usage. rewrite !wbind_value. simpl.
       by rewrite note_line_totals, apply_metadata_totals, hint_totals. }
  destruct (le_timestamp e) as [ts|]; [|rewrite wbind_value; left; done].
  rewrite !wbind_value. cbv zeta.
  match goal with |- context [metadata_update _ _ _ ?b] =>
    pose proof (metadata_update_ok sha256 validated_local_directory raw b Hraw) as Hm end.
  set (m := (metadata_update _ _ _ _).1) in *. rewrite ?wbind_value.
  right. exists raw, e. split; [done|]. split; [done|].
  destruct (line_usage_is_positive (le_usage e)) eqn:Ep; cbn [negb].
  - destruct (parse_usage_emits context s off e ts m (has_updates m) (tool_update raw).1 Hs Hm) as (model & _ & E).
    cbv zeta in E. rewrite E. cbn [fst snd after_event ps_previous_totals]. split; [|eauto].
    by rewrite note_line_totals, apply_metadata_totals, hint_totals.
  - unfold parse_zero_usage. rewrite !wbind_value. simpl. split; [|done].
    by rewrite note_line_totals, apply_metadata_totals.
Qed.

(** What one such line adds to a counter is what its event reports. *)
Lemma counts_up_line c context s off line :
  context_ok context -> state_ok sha256 s -> counts_up c s line = true ->
  let r := (codex_parse_line context s off line).1 in
  total_of c (ps_previous_totals r.1) =
    total_of c (ps_previous_totals s) + zsum (fun e => count_value (counter c (od_delta_usage e))) (emitted [r.2]).
Proof.
  intros Hc Hs Hup. cbv zeta. destruct (parse_line_totals context s off line Hc Hs) as [[-> Hno]|H]; cbv zeta in *.
  { destruct (_.2) eqn:E; simpl; try lia. by specialize (Hno event). }
  destruct H as (raw & e & Hj & He & -> & Hout). unfold counts_up in Hup. rewrite Hj, He in Hup.
  destruct (le_baseline_update e) as [total|] eqn:Eb; [|done]. apply andb_true_iff in Hup as [Hlast Hn].
  destruct (counter c total) as [n|] eqn:En; [|done]. to_prop.
  assert (le_usage e = subtract_usage total (ps_previous_totals s)) as Hu.
  { clear Hout Hn. unfold line_effect in He. cbv zeta in He.
    set (plain := match rl_usage raw with Some _ => _ | None => _ end) in He.
    assert (forall e', plain.1 = Some e' -> le_baseline_update e' = None) as Hplain.
    { unfold plain. intros e'. destruct (rl_usage raw); [|done]. rewrite wbind_value. by intros [= <-]. }
    clearbody plain. set (other := match option_or _ _ with Some _ => _ | None => _ end) in He.
    assert (forall e', other.1 = Some e' -> le_baseline_update e' = None) as Hother.
    { unfold other. intros e'. destruct (option_or _ _) as [r|]; [|apply Hplain].
      destruct (rr_usage r); [|apply Hplain]. unfold effect_from_result. rewrite !wbind_value. by intros [= <-]. }
    clearbody other. destruct (rl_payload raw) as [p|]; [|apply Hother in He; congruence].
    destruct (_ && _); [|apply Hother in He; congruence]. unfold token_count_effect in He. simpl in Hlast.
    destruct (rp_info p) as [i|]; [|done]. simpl in Hlast. rewrite !wbind_value in He.
    destruct (ri_last_token_usage i); [done|]. simpl in He. destruct (map_usage _).1 as [b|]; [|done].
    injection He as <-. simpl in *. congruence. }
  assert (counter c (le_usage e) = Available (n - total_of c (ps_previous_totals s))) as Hdelta.
  { rewrite Hu. destruct (ps_previous_totals s) as [p|]; simpl in *; [|by rewrite En; f_equal; lia].
    change (counter c (subtract_usage total (Some p)) = Available (n - count_value (counter c p))).
    rewrite counter_subtract, En. destruct (counter c p) as [q|]; simpl in *; [|f_equal; lia].
    rewrite (proj2 (Z.leb_le q n)) by done. unfold saturating_sub. f_equal. lia. }
  simpl. rewrite En. simpl. destruct (line_usage_is_positive (le_usage e)) eqn:Ep.
  - destruct Hout as (d & -> & Hd). unfold zsum. simpl. rewrite Hd, Hdelta. simpl. lia.
  - rewrite Hout. unfold zsum. simpl. pose proof (zero_usage_counter c _ _ Ep Hdelta). lia.
Qed.

(** ** Claims *)

(** C5. A session's state can always be saved: after any lines, read by a parser that
    started fresh, the snapshot is accepted by [from_resume] and gives back the state,
    but for the repository hint that is not persisted; and the text the state retains
    stays within the limit [from_resume] checks. *)
Theorem parser_always_resumable context lines :
  context_ok context -> Z.of_nat (length lines) <= i64_max ->
  let s := (parse_all context ParserState_new lines).1 in
  from_resume sha256 (snapshot s) = Ok (persistent s) /\
  retained_text_bytes s <= MAX_RETAINED_TEXT_BYTES.
Proof.
  intros Hc Hl. cbv zeta. destruct (parse_all_ok context ParserState_new lines Hc new_state_ok Hl) as (H & _).
  cbv zeta in H. split; [by apply resume_snapshot|by eapply retained_bound].
Qed.

(** C6. Interrupting the parser is invisible: parsing some lines, saving the state,
    loading it and parsing the rest delivers the same outcomes as parsing all lines in
    one go, and ends in a state that is saved the same way. *)
Theorem parser_resume_transparent context before after s :
  context_ok context -> Z.of_nat (length before) <= i64_max ->
  from_resume sha256 (snapshot (parse_all context ParserState_new before).1) = Ok s ->
  let whole := parse_all context ParserState_new (before ++ after) in
  let resumed := parse_all context s after in
  whole.2 = (parse_all context ParserState_new before).2 ++ resumed.2 /\
  snapshot whole.1 = snapshot resumed.1.
Proof.
  intros Hc Hl H. cbv zeta. destruct (parse_all_ok context ParserState_new before Hc new_state_ok Hl) as (Hs & _).
  cbv zeta in Hs. rewrite resume_snapshot in H by done. injection H as <-. rewrite parse_all_app.
  destruct (parse_all context ParserState_new before) as [s1 os]. simpl in Hs.
  destruct (parse_all_equiv context s1 (persistent s1) after) as [H1 H2]; [done|].
  cbn [fst snd]. destruct (parse_all context s1 after) as [s2 os2]. simpl in *. split; [by f_equal|].
  change (snapshot (persistent s2) = snapshot (persistent (parse_all context (persistent s1) after).1)).
  by f_equal.
Qed.

(** C8. The events of a session are numbered 0, 1, 2, ... in the order of their lines,
    without a gap and whatever else is between them, and each of them is well formed,
    so that its fingerprint identifies it. *)
Theorem parser_events_ordered context lines :
  context_ok context -> Z.of_nat (length lines) <= i64_max -> Forall (fun l => in_u64 l.1) lines ->
  let events := emitted (parse_all context ParserState_new lines).2 in
  map od_session_ordinal events = seqZ 0 (Z.of_nat (length events)) /\ Forall ObservationDraft_ok events.
Proof.
  intros Hc Hl Hoff. cbv zeta.
  destruct (parse_all_ok context ParserState_new lines Hc new_state_ok Hl) as (_ & _ & _ & H & Hok).
  split; [exact H|by apply Hok].
Qed.

(** C9. A line is refused only for being too long, not JSON, or usage without a
    time, and then leaves the state as it was: the two other refusals the code writes
    down (a model or metadata that is invalid) cannot happen, since the model falls
    back and a self-parented session is flagged before the event is built. *)
Theorem parser_rejection_harmless context s off line code :
  context_ok context -> state_ok sha256 s -> ps_next_usage_ordinal s < i64_max ->
  (codex_parse_line context s off line).1.2 = Rejected code ->
  (codex_parse_line context s off line).1.1 = s /\ (code = LineTooLarge \/ code = MalformedJson \/ code = InvalidTimestamp).
Proof.
  intros Hc Hs Hlt H. destruct (parse_line_ok context s off line Hc Hs Hlt) as [_ Ho]. cbv zeta in Ho.
  rewrite H in Ho. exact Ho.
Qed.

(** C7. Running totals are counted once: over lines that report usage only as running
    totals that do not decrease, the deltas of the emitted events add up to the growth
    of the total, for each of the five counters. *)
Theorem parser_deltas_add_up c context s lines :
  context_ok context -> state_ok sha256 s -> ps_next_usage_ordinal s + Z.of_nat (length lines) <= i64_max ->
  counting_run c context s lines = true ->
  let r := parse_all context s lines in
  zsum (fun e => count_value (counter c (od_delta_usage e))) (emitted r.2) =
    total_of c (ps_previous_totals r.1) - total_of c (ps_previous_totals s).
Proof.
  intros Hc. revert s. induction lines as [|[off line] lines IH]; intros s Hs Hl Hrun; cbn [parse_all]; [simpl; lia|].
  cbn [length] in Hl. cbn [counting_run] in Hrun. apply andb_true_iff in Hrun as [Hup Hrun].
  destruct (parse_line_ok context s off line Hc Hs ltac:(lia)) as [H1 H2].
  pose proof (counts_up_line c context s off line Hc Hs Hup) as Hsum. cbv zeta in H1, H2, Hsum.
  destruct (codex_parse_line context s off line).1 as [s1 o]. cbn [fst snd] in *.
  assert (ps_next_usage_ordinal s1 <= ps_next_usage_ordinal s + 1) as Ho.
  { destruct o; simpl in H2; try lia. destruct H2 as [-> _]. lia. }
  specialize (IH s1 H1 ltac:(lia) Hrun). cbv zeta in IH. destruct (parse_all context s1 lines) as [s2 os].
  cbn [fst snd] in *. change (o :: os) with ([o] ++ os). unfold emitted in *. rewrite omap_app, zsum_app. lia.
Qed.
End parser.

(** ** The claims at a concrete session

    A reader that knows three lines, and a calendar of numeric timestamps *)

Definition plain_chrono : Chrono :=
  {| parse_from_rfc3339 := fun _ => None;
     from_timestamp := fun s n => Some {| dt_timestamp := s; dt_subsec_nanos := n; dt_year := 2023 |} |}.

Definition sample_totals (input : Z) : RawUsage :=
  {| ru_input_tokens := U64Valid input; ru_prompt_tokens := U64Missing; ru_input := U64Missing;
     ru_cached_input_tokens := U64Missing; ru_cache_read_input_tokens := U64Missing;
     ru_cached_tokens := U64Missing; ru_output_tokens := U64Valid 2; ru_completion_tokens := U64Missing;
     ru_output := U64Missing; ru_reasoning_output_tokens := U64Missing; ru_reasoning_tokens := U64Missing;
     ru_total_tokens := U64Missing |}.

Definition sample_line (input : Z) : RawLine :=
  {| rl_kind := TextValid (lit "event_msg"); rl_timestamp := StampSigned 1700000000;
     rl_created_at := StampMissing; rl_created_at_v2 := StampMissing;
     rl_payload := Some
       {| rp_kind := TextValid (lit "token_count"); rp_model := TextMissing; rp_model_name := TextMissing;
          rp_model_slug := TextMissing; rp_model_id := TextMissing; rp_requested_model := TextMissing;
          rp_default_model := TextMissing; rp_service_tier := TextMissing; rp_model_context_window := U64Missing;
          rp_name := TextMissing; rp_cwd := TextMissing; rp_originator := TextMissing; rp_source := {| rs_display := TextMissing; rs_structured_parent_thread_id := TextMissing |};
          rp_session_id := TextMissing; rp_id := TextMissing; rp_forked_from_id := TextMissing;
          rp_parent_thread_id := TextMissing; rp_git_branch := TextMissing;
          rp_info := Some {| ri_last_token_usage := None; ri_total_token_usage := Some (sample_totals input);
                             ri_model := TextMissing; ri_model_name := TextMissing |} |};
     rl_usage := None; rl_model := TextMissing; rl_model_name := TextMissing; rl_forked_from_id := TextMissing;
     rl_parent_thread_id := TextMissing; rl_data := None; rl_result := None; rl_response := None |}.

Definition read_sample (bytes : list Z) : option RawLine :=
  if bool_decide (bytes = lit "token_count 10") then Some (sample_line 10)
  else if bool_decide (bytes = lit "token_count 25") then Some (sample_line 25)
  else None.

Lemma missing_text_ok n : text_ok n TextMissing.
Proof. by intros s. Qed.

Lemma literal_text_ok n s : str_ok s -> str_len s <= n -> existsb is_control s = false -> text_ok n (TextValid s).
Proof. by intros ? ? ? t [= <-]. Qed.

Lemma solve_str_ok s : forallb (fun c => (0 <=? c) && (c <=? 127)) s = true -> str_ok s.
Proof.
  intros H. apply Forall_forall. intros c Hc%list_elem_of_In. rewrite forallb_forall in H. specialize (H c Hc).
  apply andb_true_iff in H as [? ?]. to_prop. unfold scalar. lia.
Qed.

Ltac solve_texts :=
  repeat (apply Forall_cons; split);
  try apply Forall_nil; try apply missing_text_ok; try done;
  try (apply literal_text_ok; [apply solve_str_ok; reflexivity|vm_compute; discriminate|reflexivity]).

Lemma sample_line_ok input : in_u64 input -> RawLine_ok (sample_line input).
Proof.
  intros Hi. unfold RawLine_ok, sample_line. simpl. split_and!; try done; [solve_texts|].
  apply option_ok_Some. unfold RawPayload_ok. simpl. split_and!; try done; [solve_texts|solve_texts|].
  apply option_ok_Some. unfold RawInfo_ok. simpl. split_and!; [done| |solve_texts].
  apply option_ok_Some. unfold RawUsage_ok, sample_totals. simpl.
  repeat (apply Forall_cons; split); try apply Forall_nil; try done.
Qed.

Definition sample_json : JsonLines.
Proof.
  refine {| json_line := read_sample |}. unfold read_sample. intros bytes raw H.
  destruct (bool_decide (bytes = lit "token_count 10")); [injection H as <-; apply sample_line_ok; unfold_ints; lia|].
  destruct (bool_decide (bytes = lit "token_count 25")); [injection H as <-; apply sample_line_ok; unfold_ints; lia|].
  done.
Defined.

Definition sample_context : ParseContext :=
  ParseContext_new (lit "default") (lit "active") None (lit "h").

Lemma sample_context_ok : context_ok sample_context.
Proof.
  unfold context_ok. split_and!; [vm_compute; reflexivity..|done|].
  split; [vm_compute; reflexivity|apply solve_str_ok; reflexivity].
Qed.

(** A running total, a line that is not JSON, and the next total *)
Definition sample_lines : list (Z * list Z) :=
  [(0, lit "token_count 10"); (15, lit "token_count ?"); (29, lit "token_count 25")].

Definition sample_run (lines : list (Z * list Z)) : ParserState * list ParseOutcome :=
  @parse_all toy_sha256 plain_chrono sample_json (fun _ => None) sample_context ParserState_new lines.

Lemma parser_always_resumable_witness :
  exists s, from_resume toy_sha256 (snapshot (sample_run sample_lines).1) = Ok s /\ ps_next_usage_ordinal s = 2.
Proof.
  destruct (@parser_always_resumable toy_sha256 plain_chrono sample_json (fun _ => None) sample_context sample_lines)
    as [H _]; [exact sample_context_ok|vm_compute; discriminate|].
  eexists. split; [exact H|]. vm_compute. reflexivity.
Defined.

Lemma parser_resume_transparent_witness :
  exists s, (sample_run sample_lines).2 =
    (sample_run (take 1 sample_lines)).2
    ++ (@parse_all toy_sha256 plain_chrono sample_json (fun _ => None) sample_context s (drop 1 sample_lines)).2 /\
  ps_next_usage_ordinal s = 1.
Proof.
  destruct (from_resume toy_sha256 (snapshot (sample_run (take 1 sample_lines)).1)) as [s|] eqn:E.
  - exists s.
    destruct (@parser_resume_transparent toy_sha256 plain_chrono sample_json (fun _ => None) sample_context
      (take 1 sample_lines) (drop 1 sample_lines) s) as [H _];
      [exact sample_context_ok|vm_compute; discriminate|exact E|].
    split; [exact H|]. vm_compute in E. injection E as <-. reflexivity.
  - exfalso. vm_compute in E. discriminate.
Defined.

Lemma parser_events_ordered_witness :
  map od_session_ordinal (emitted (sample_run sample_lines).2) = [0; 1].
Proof.
  destruct (@parser_events_ordered toy_sha256 plain_chrono sample_json (fun _ => None) sample_context sample_lines)
    as [H _]; [exact sample_context_ok|vm_compute; discriminate| |].
  - repeat constructor; unfold_ints; simpl; lia.
  - etransitivity; [exact H|]. vm_compute. reflexivity.
Defined.

Lemma parser_rejection_harmless_witness :
  (@codex_parse_line toy_sha256 plain_chrono sample_json (fun _ => None) sample_context ParserState_new 0
     (lit "token_count ?")).1.1 = ParserState_new.
Proof.
  apply (@parser_rejection_harmless toy_sha256 plain_chrono sample_json (fun _ => None) sample_context
    ParserState_new 0 (lit "token_count ?") MalformedJson).
  - exact sample_context_ok.
  - apply new_state_ok.
  - vm_compute. reflexivity.
  - vm_compute. reflexivity.
Defined.

Lemma parser_deltas_add_up_witness :
  zsum (fun e => count_value (counter CInput (od_delta_usage e))) (emitted (sample_run sample_lines).2) = 25.
Proof.
  unfold sample_run. rewrite (@parser_deltas_add_up toy_sha256 plain_chrono sample_json (fun _ => None) CInput
    sample_context ParserState_new sample_lines).
  - vm_compute. reflexivity.
  - exact sample_context_ok.
  - apply new_state_ok.
  - vm_compute. discriminate.
  - vm_compute. reflexivity.
Defined.
