(* ===== verification/ReaderParser.v ===== *)
(** * The reader with the Codex parser

    Puts [Framing] and [Parser] together: the parser as the [LineParser] of the reader
    and its snapshot as the [ResumeState] of a checkpoint, as in
    [crates/codex/src/reader/mod.rs].  Between two batches the program may stop; the
    next batch then starts from the parser state read out of the checkpoint.  The
    theorems say that this is invisible: the events delivered by any sequence of
    batches, restarts and appends are those of one pass of the parser over the lines
    of the committed bytes. *)

From S2P Require Import Prelude Collections Usage Accounting Checkpoint Framing.
From S2P Require Import ParserValues ParserState ParserEffects Parser.

Open Scope Z_scope.

(** ** The reader does not look into the parser's state *)

Section parametric.
Context {S : Type} `{!LineParser S} (R : S -> S -> Prop).
Context (sha256 : list Z -> list Z) (try_reserve : nat -> nat -> bool) (should_cancel : nat -> bool).
Hypothesis parse_related : forall context s t off line, R s t ->
  R (parse_line context s off line).1.1 (parse_line context t off line).1.1 /\
  (parse_line context s off line).1.2 = (parse_line context t off line).1.2 /\
  (parse_line context s off line).2 = (parse_line context t off line).2.

Definition frame_with (f : Frame S) (t : S) : Frame S :=
  {| f_state := t; f_events := f_events f; f_relations := f_relations f; f_diagnostics := f_diagnostics f;
     f_parser_diagnostics := f_parser_diagnostics f; f_line := f_line f; f_discarding := f_discarding f;
     f_absolute := f_absolute f; f_committed := f_committed f; f_bytes_read := f_bytes_read f;
     f_complete_bytes := f_complete_bytes f; f_line_batch_bytes := f_line_batch_bytes f;
     f_consumed := f_consumed f |}.

Definition position_with (p : Position S) (t : S) : Position S :=
  {| p_committed := p_committed p; p_scan := p_scan p; p_discarding := p_discarding p; p_state := t |}.

Lemma parse_content_related context f t d bytes : R (f_state f) t ->
  exists t', R (f_state (parse_content context f d bytes)) t' /\
    parse_content context (frame_with f t) d bytes = frame_with (parse_content context f d bytes) t'.
Proof.
  intros H. unfold parse_content. destruct bytes as [|b bytes]; [eexists; split; [exact H|done]|]. simpl.
  destruct (parse_related context (f_state f) t (f_committed f) (b :: bytes) H) as (H1 & H2 & H3).
  destruct (parse_line context (f_state f) _ _) as [[s1 r1] o1], (parse_line context t _ _) as [[s2 r2] o2].
  simpl in *. subst. by exists s2.
Qed.

Lemma complete_line_related context f t oversized : R (f_state f) t ->
  exists t', R (f_state (complete_line context f oversized)) t' /\
    complete_line context (frame_with f t) oversized = frame_with (complete_line context f oversized) t'.
Proof.
  intros H. unfold complete_line. destruct oversized; [by exists t|].
  change (f_line (frame_with f t)) with (f_line f). change (f_diagnostics (frame_with f t)) with (f_diagnostics f).
  destruct (ends_with_cr (f_line f)).
  - destruct (parse_content_related context f t (reader_record (reader_record (f_diagnostics f) CompleteLine) CrlfLine)
      (take (length (f_line f) - 1) (f_line f)) H) as (t' & H1 & H2). exists t'. by rewrite H2.
  - destruct (parse_content_related context f t (reader_record (f_diagnostics f) CompleteLine) (f_line f) H)
      as (t' & H1 & H2). exists t'. by rewrite H2.
Qed.

Lemma frame_loop_related fuel d v len p u call reads f t f' e : R (f_state f) t ->
  frame_loop try_reserve should_cancel fuel (position_input d v len p) call reads f = Ok (f', e) ->
  exists t', R (f_state f') t' /\
    frame_loop try_reserve should_cancel fuel (position_input d v len (position_with p u)) call reads (frame_with f t)
    = Ok (frame_with f' t', e).
Proof.
  revert call reads f t. induction fuel as [|fuel IH]; intros call reads f t HR H; cbn [frame_loop] in *; [done|].
  destruct (should_cancel call); [done|]. destruct reads as [|[available|] rest]; [|destruct available as [|b bs]|done].
  1-2: by injection H as <- <-; eauto.
  set (available := b :: bs) in *.
  change (take_content try_reserve (frame_with f t)) with (take_content try_reserve f).
  destruct (take_content try_reserve f available (memchr 10 available)) as [[[[line dis] diag] over]|]; [|done].
  cbn [rbind] in *.
  set (f1 := advance f _ _ _ _) in H.
  change (advance (frame_with f t) _ _ _ _) with (frame_with f1 t). assert (R (f_state f1) t) as HR1 by exact HR.
  clearbody f1. change (context_of (position_input d v len (position_with p u))) with (context_of (position_input d v len p)).
  change (discard_read_limit (position_input d v len (position_with p u))) with (discard_read_limit (position_input d v len p)).
  change (f_absolute (frame_with f1 t)) with (f_absolute f1).
  change (f_discarding (frame_with f1 t)) with (f_discarding f1).
  change (f_bytes_read (frame_with f1 t)) with (f_bytes_read f1).
  destruct (is_some (memchr 10 available)).
  - destruct (complete_line_related (context_of (position_input d v len p)) f1 t over HR1) as (t' & H1 & ->).
    change (batch_full (frame_with ?g t')) with (batch_full g).
    destruct (batch_full _); [injection H as <- <-; eauto|by apply IH].
  - destruct (_ && _); [injection H as <- <-; eauto|by apply IH].
Qed.

(** Reading from an equivalent state gives the same batch and an equivalent state. *)
Lemma read_lines_related d v len p t reads r : R (p_state p) t ->
  read_lines sha256 try_reserve should_cancel reads (position_input d v len p) = Ok r ->
  exists r' t', R (fr_state r) t' /\
    read_lines sha256 try_reserve should_cancel reads (position_input d v len (position_with p t)) = Ok r' /\
    result_position r' = position_with (result_position r) t' /\
    fr_events r' = fr_events r /\ fr_relations r' = fr_relations r /\
    fr_incomplete_tail r' = fr_incomplete_tail r.
Proof.
  intros HR H. apply rbind_ok in H as ([f' e] & Hl & [= <-]).
  eapply (frame_loop_related _ _ _ _ p t _ _ _ t) in Hl as (t' & H1 & H2); [|exact HR].
  unfold read_lines. change (initial_frame (position_input d v len (position_with p t))) with
    (frame_with (initial_frame (position_input d v len p)) t). rewrite H2. cbn [rbind].
  eexists _, t'. split_and!; [exact H1|reflexivity|done..].
Qed.
End parametric.

(** ** The instances *)

Section codex.
Context (sha256 : list Z -> list Z) {chrono : Chrono} {json : JsonLines}.
Context (validated_local_directory : str -> option (list Z)).
(** [serde_json] on [ParserResumeState] *)
Context (resume_to_vec : ParserResumeState -> option (list Z)).
Context (resume_from_slice : list Z -> option ParserResumeState).

#[local] Instance codex_line_parser : LineParser ParserState := {
  parse_line context s off line :=
    let '(s, o, events) := codex_parse_line sha256 validated_local_directory context s off line in
    (s, fun d => fold_left record_event events d, o)
}.

#[local] Instance codex_resume : ResumeState ParserResumeState := {
  to_vec := resume_to_vec;
  from_slice := resume_from_slice;
  resumable r := is_ok (from_resume sha256 r)
}.

(** ** The lines of a file *)

(** The lines that reach the parser, with the offsets they start at *)
Fixpoint content_lines (off : Z) (lines : list (list Z)) : list (Z * list Z) :=
  match lines with
  | [] => []
  | line :: lines =>
      (if MAX_LINE_BYTES <? Z.of_nat (length line) then []
       else match strip_cr line with [] => [] | content => [(off, content)] end)
      ++ content_lines (off + Z.of_nat (length line) + 1) lines
  end.

Definition relations (os : list ParseOutcome) : list SessionRelationDraft :=
  omap (fun o => match o with SessionRelation r => Some r | _ => None end) os.

(** The parser over all complete lines of the bytes *)
Definition parse_bytes (context : ParseContext) (data : list Z) : ParserState * list ParseOutcome :=
  parse_all sha256 validated_local_directory context ParserState_new
    (content_lines 0 (split_lines [] data).1).

Lemma handle_lines context lines a :
  let r := parse_all sha256 validated_local_directory context (a_state a) (content_lines (a_offset a) lines) in
  let b := fold_left (handle_line context) lines a in
  a_state b = r.1 /\ a_events b = a_events a ++ emitted r.2 /\ a_relations b = a_relations a ++ relations r.2.
Proof.
  revert a. induction lines as [|line lines IH]; intros a; cbn [content_lines fold_left].
  { simpl. by rewrite !app_nil_r. }
  specialize (IH (handle_line context a line)). cbv zeta in IH |- *. destruct IH as (-> & -> & ->).
  unfold handle_line. destruct (MAX_LINE_BYTES <? _); [simpl; by rewrite !app_nil_r|].
  destruct (strip_cr line) as [|c content]; [simpl; by rewrite !app_nil_r|].
  cbn [app parse_all]. cbn [parse_line codex_line_parser].
  destruct (codex_parse_line _ _ context (a_state a) (a_offset a) (c :: content)) as [[s1 o] ev].
  cbn [fst a_state a_events a_relations a_offset]. destruct (parse_all _ _ context s1 _) as [s2 os].
  split; [done|]. destruct o; simpl; by rewrite <- ?app_assoc, ?app_nil_r.
Qed.

Lemma split_lines_count data current : (length (split_lines current data).1 <= length data)%nat.
Proof.
  revert current. induction data as [|b data IH]; intros current; simpl; [lia|]. destruct (b =? 10).
  - specialize (IH []). destruct (split_lines [] data). simpl in *. lia.
  - specialize (IH (current ++ [b])). lia.
Qed.

Lemma content_lines_count off lines : (length (content_lines off lines) <= length lines)%nat.
Proof.
  revert off. induction lines as [|line lines IH]; intros off; simpl; [lia|]. rewrite length_app.
  specialize (IH (off + Z.of_nat (length line) + 1)).
  destruct (_ <? _); [simpl; lia|]. destruct (strip_cr line); simpl; lia.
Qed.

Lemma content_lines_offsets off lines :
  0 <= off -> Forall (fun l => 0 <= l.1 <= off + zsum (fun l => Z.of_nat (length l) + 1) lines) (content_lines off lines).
Proof.
  revert off. induction lines as [|line lines IH]; intros off Hoff; [constructor|]. cbn [content_lines].
  assert (0 <= zsum (fun l => Z.of_nat (length l) + 1) lines) by (clear; induction lines; unfold zsum in *; simpl in *; lia).
  apply Forall_app. split.
  - destruct (_ <? _); [constructor|]. destruct (strip_cr line); constructor; [|constructor]. unfold zsum in *. simpl. lia.
  - eapply Forall_impl; [apply IH; lia|]. intros l. unfold zsum. simpl. lia.
Qed.

Lemma split_lines_bytes data current :
  zsum (fun l => Z.of_nat (length l) + 1) (split_lines current data).1 <= Z.of_nat (length current + length data).
Proof.
  revert current. induction data as [|b data IH]; intros current; simpl; [lia|]. destruct (b =? 10).
  - specialize (IH []). destruct (split_lines [] data). unfold zsum in *. simpl in *. lia.
  - specialize (IH (current ++ [b])). rewrite length_app in IH. simpl in IH. lia.
Qed.

(** ** Batches, appends and restarts *)

Inductive sessions (d : SourceFileDescriptor) (v : ObservationVerification)
  : list Z -> Position ParserState -> list ObservationDraft -> list SessionRelationDraft -> Prop :=
| sessions_start file : sessions d v file (start_position ParserState_new) [] []
| sessions_append file more p events rels :
    sessions d v file p events rels -> sessions d v (file ++ more) p events rels
| sessions_read file p events rels reads try_reserve should_cancel r :
    sessions d v file p events rels ->
    stream reads = drop (Z.to_nat (p_scan p)) file ->
    read_lines sha256 try_reserve should_cancel reads
      (position_input d v (Z.of_nat (length file)) p) = Ok r ->
    sessions d v file (result_position r) (events ++ fr_events r) (rels ++ fr_relations r)
| sessions_restart file p events rels s :
    sessions d v file p events rels ->
    from_resume sha256 (snapshot (p_state p)) = Ok s ->
    sessions d v file (position_with p s) events rels.

Definition same_snapshot (s t : ParserState) : Prop := persistent s = persistent t.

Lemma same_snapshot_eq s t : same_snapshot s t -> snapshot s = snapshot t.
Proof. intros H. change (snapshot (persistent s) = snapshot (persistent t)). by f_equal. Qed.

Lemma parse_line_related context s t off line : same_snapshot s t ->
  same_snapshot (parse_line context s off line).1.1 (parse_line context t off line).1.1 /\
  (parse_line context s off line).1.2 = (parse_line context t off line).1.2 /\
  (parse_line context s off line).2 = (parse_line context t off line).2.
Proof.
  intros H. cbn [parse_line codex_line_parser].
  destruct (codex_parse_line_equiv sha256 validated_local_directory context s t off line H) as [[H1 H2] H3].
  destruct (codex_parse_line _ _ context s off line) as [[s1 o1] e1].
  destruct (codex_parse_line _ _ context t off line) as [[t1 o2] e2]. simpl in *. by subst.
Qed.

(** A position of the single pass has a good parser state. *)
Lemma at_position_parsed d v file events rels p :
  context_ok (file_context d v ParserState_new) -> Z.of_nat (length file) <= i64_max ->
  at_position (file_context d v ParserState_new) ParserState_new file events rels p ->
  let r := parse_bytes (file_context d v ParserState_new) (take (Z.to_nat (p_committed p)) file) in
  p_state p = r.1 /\ events = emitted r.2 /\ rels = relations r.2 /\ state_ok sha256 (p_state p) /\
  map od_session_ordinal events = seqZ 0 (Z.of_nat (length events)) /\ Forall ObservationDraft_ok events.
Proof.
  intros Hc Hlen (past & pending & rest & -> & Hp & _ & _ & _ & Hi & _). cbv zeta.
  rewrite Hp, Nat2Z.id, take_app_length. unfold ingest in Hi. rewrite !length_app in Hlen.
  destruct (handle_lines (file_context d v ParserState_new) (split_lines [] past).1 (start_acc ParserState_new))
    as (H1 & H2 & H3). cbv zeta in H1, H2, H3. rewrite Hi in H1, H2, H3. cbn [a_state a_events a_relations] in *.
  fold (parse_bytes (file_context d v ParserState_new) past) in H1, H2, H3.
  pose proof (split_lines_count past []) as N1. pose proof (content_lines_count 0 (split_lines [] past).1) as N2.
  destruct (parse_all_ok sha256 validated_local_directory (file_context d v ParserState_new) ParserState_new
    (content_lines 0 (split_lines [] past).1) Hc (new_state_ok sha256)) as (Hok & _ & _ & Hord & Hdraft).
  { cbn [ParserState_new ps_next_usage_ordinal]. lia. }
  cbv zeta in *. fold (parse_bytes (file_context d v ParserState_new) past) in Hok, Hord, Hdraft.
  simpl in H2, H3. subst events rels. rewrite H1. split_and!; try done. apply Hdraft.
  eapply Forall_impl; [by apply content_lines_offsets|]. intros l Hl. simpl in Hl.
  pose proof (split_lines_bytes past []) as N3. simpl in N3. unfold i64_max in Hlen. unfold_ints. lia.
Qed.

Lemma sessions_at_position d v file p events rels :
  context_ok (file_context d v ParserState_new) -> Z.of_nat (length file) <= i64_max ->
  sessions d v file p events rels ->
  exists t, same_snapshot (p_state p) t /\
    at_position (file_context d v ParserState_new) ParserState_new file events rels (position_with p t).
Proof.
  intros Hc Hlen H. induction H as [file|file more p ev rel _ IH|file p ev rel reads tr sc r _ IH Hreads H
    |file p ev rel s _ IH Hs].
  - exists ParserState_new. split; [done|]. apply start_at_position.
  - rewrite length_app in Hlen. destruct IH as (t & Ht & Hpos); [lia|]. exists t. split; [done|].
    by apply at_position_append.
  - destruct (IH Hlen) as (t & Ht & Hpos).
    destruct (read_lines_related same_snapshot sha256 tr sc parse_line_related d v _ p t reads r Ht H)
      as (r' & t' & Ht' & H' & Hp' & <- & <- & _). exists t'. split; [done|]. rewrite <- Hp'.
    eapply read_lines_refines in H' as [H' _]; [exact H'|exact Hpos| |exact Hreads].
    unfold i64_max in Hlen. unfold_ints. lia.
  - destruct (IH Hlen) as (t & Ht & Hpos). rewrite (same_snapshot_eq _ _ Ht) in Hs.
    pose proof (at_position_parsed d v file ev rel _ Hc Hlen Hpos) as (_ & _ & _ & Hok & _). cbn [p_state position_with] in Hok.
    rewrite resume_snapshot in Hs by done. injection Hs as <-. exists t. split; [done|exact Hpos].
Qed.
(** ** Claims *)

(** C4. Reading a session file is exactly-once, whatever happens in between: for any
    sequence of batches, appends to the file and restarts of the program from the saved
    state, the events and relations delivered are those of one pass of a fresh parser
    over the complete lines of the committed bytes; the events are well formed and
    numbered 0, 1, 2, ...; and the state is again one that can be saved and loaded. *)
Theorem reader_restarts_invisible d v file p events rels :
  context_ok (file_context d v ParserState_new) -> Z.of_nat (length file) <= i64_max ->
  sessions d v file p events rels ->
  let r := parse_bytes (file_context d v ParserState_new) (take (Z.to_nat (p_committed p)) file) in
  events = emitted r.2 /\ rels = relations r.2 /\
  map od_session_ordinal events = seqZ 0 (Z.of_nat (length events)) /\ Forall ObservationDraft_ok events /\
  snapshot (p_state p) = snapshot r.1 /\
  from_resume sha256 (snapshot (p_state p)) = Ok (persistent (p_state p)).
Proof.
  intros Hc Hlen H. destruct (sessions_at_position d v file p events rels Hc Hlen H) as (t & Ht & Hpos).
  destruct (at_position_parsed d v file events rels _ Hc Hlen Hpos) as (H1 & H2 & H3 & H4 & H5 & H6).
  cbn [p_state p_committed position_with] in *. cbv zeta.
  rewrite (same_snapshot_eq _ _ Ht). split_and!; try done; [by rewrite H1|].
  rewrite resume_snapshot by done. by rewrite Ht.
Qed.

(** The text of the parser state can be stored in a checkpoint. *)
Definition storable (s : ParserState) : Prop :=
  exists text, resume_to_vec (snapshot s) = Some text /\ Z.of_nat (length text) <= MAX_RESUME_BYTES.

(** C10. Every batch can be stored, over any history of batches, appends and restarts:
    the anchor the code computes from the file (which may have grown since) is the
    digest of the last committed bytes, up to 4096 of them, unless a seek or a read
    fails; with it the checkpoint is accepted exactly when the text of the parser state
    fits the limit, never refused for an offset, a flag, the anchor or the state
    itself; and the parser state read back from it is the one that was reached. *)
Theorem codex_checkpoint_accepted try_reserve should_cancel d v file p events rels reads r handle grown
    physical logical modified level :
  context_ok (file_context d v ParserState_new) -> Z.of_nat (length file) <= i64_max ->
  sessions d v file p events rels -> stream reads = drop (Z.to_nat (p_scan p)) file ->
  read_lines sha256 try_reserve should_cancel reads
    (position_input d v (Z.of_nat (length file)) p) = Ok r ->
  of_bytes handle = file ++ grown ->
  match boundary_anchor sha256 handle (fr_committed_offset r) with
  | Ok a =>
      a = anchor_of sha256 (take (Z.to_nat (fr_committed_offset r)) file) /\
      (forall cp,
         batch_checkpoint snapshot physical logical (Z.of_nat (length file)) modified level a r = Ok cp <->
         storable (fr_state r) /\
         cp = batch_parts snapshot physical logical (Z.of_nat (length file)) modified level a r) /\
      from_resume sha256 (snapshot (fr_state r)) = Ok (persistent (fr_state r))
  | Err e => io_failure handle e
  end.
Proof.
  intros Hc Hlen Hses Hreads H Hbytes.
  assert (Z.of_nat (length file) <= u64_max) as Hu by (unfold i64_max in Hlen; unfold_ints; lia).
  destruct (sessions_at_position d v file p events rels Hc Hlen Hses) as (t & Ht & Hpos).
  destruct (read_lines_related same_snapshot sha256 try_reserve should_cancel parse_line_related d v _ p t reads r Ht H)
    as (r' & t' & Ht' & H' & Hp' & _ & _ & Htail').
  eapply read_lines_refines in H' as (Hpos' & _ & _ & Htail); [|exact Hpos|done|done].
  destruct (at_position_parsed d v file _ _ _ Hc Hlen Hpos') as (_ & _ & _ & Hok & _). rewrite Hp' in Hok, Hpos'.
  assert (from_resume sha256 (snapshot (fr_state r)) = Ok (persistent (fr_state r))) as Hres.
  { rewrite (same_snapshot_eq _ _ Ht'), Ht'. by apply resume_snapshot. }
  destruct (checkpoint_accepted sha256 _ _ file _ _ _ r snapshot physical logical modified level Hpos' Hu)
    as [Hcom Hcp]; [done..| |].
  { intros Hd. rewrite <- Htail'. apply Htail. rewrite <- Hd. by injection Hp'. }
  set (committed := take _ file) in *.
  assert (of_bytes handle = committed ++ (drop (Z.to_nat (fr_committed_offset r)) file ++ grown)) as Hb
    by (rewrite Hbytes, app_assoc; unfold committed; by rewrite take_drop).
  assert (Z.of_nat (length committed) <= u64_max) as Hcu by (unfold committed; rewrite length_take; lia).
  pose proof (boundary_anchor_spec sha256 handle committed _ Hb Hcu) as Ha. rewrite <- Hcom in Ha.
  destruct (boundary_anchor _ _ _) as [a|e]; [|exact Ha]. rewrite Ha.
  split_and!; [done| |done]. intros cp. unfold batch_checkpoint, storable. set (parts := batch_parts _ _ _ _ _ _ _ _) in *.
  destruct (ReaderCheckpointV1_new parts) as [q|e] eqn:Eq.
  - apply ReaderCheckpointV1_new_ok in Eq as [-> Hq]. apply Hcp in Hq as [_ Hq]. naive_solver.
  - split; [done|]. intros [Hst ->]. assert (checkpoint_ok parts) as Hq.
    { apply Hcp. split; [|exact Hst]. change (is_ok (from_resume sha256 (snapshot (fr_state r))) = true). by rewrite Hres. }
    rewrite (proj2 (ReaderCheckpointV1_new_ok parts parts) (conj eq_refl Hq)) in Eq. done.
Qed.
End codex.

(** ** The claims at a concrete file *)

Definition codex_file : list Z := lit "token_count 10" ++ [10] ++ lit "token_count 25" ++ [10] ++ lit "tok".

#[local] Instance codex_sample_parser : LineParser ParserState :=
  @codex_line_parser toy_sha256 plain_chrono sample_json (fun _ => None).

Definition codex_input : FramingInput ParserState :=
  position_input sample_descriptor Usage.Incremental (Z.of_nat (length codex_file)) (start_position ParserState_new).

Definition codex_batch : FramingResult ParserState :=
  match read_lines toy_sha256 (fun _ _ => true) (fun _ => false) [Data codex_file] codex_input with
  | Ok r => r
  | Err _ => framing_result toy_sha256 (initial_frame codex_input) true
  end.

Lemma codex_batch_eq :
  read_lines toy_sha256 (fun _ _ => true) (fun _ => false) [Data codex_file] codex_input = Ok codex_batch.
Proof. vm_compute. reflexivity. Qed.

Lemma codex_context_ok : context_ok (file_context sample_descriptor Usage.Incremental ParserState_new).
Proof. exact sample_context_ok. Qed.

Lemma reader_restarts_invisible_witness :
  map od_session_ordinal (fr_events codex_batch) = [0; 1] /\ Forall ObservationDraft_ok (fr_events codex_batch).
Proof.
  destruct (@reader_restarts_invisible toy_sha256 plain_chrono sample_json (fun _ => None) sample_descriptor
    Usage.Incremental codex_file (position_with (result_position codex_batch) (persistent (fr_state codex_batch)))
    (fr_events codex_batch) (fr_relations codex_batch)) as (_ & _ & H & Hok & _).
  - exact codex_context_ok.
  - vm_compute. discriminate.
  - apply sessions_restart.
    + apply (@sessions_read toy_sha256 plain_chrono sample_json (fun _ => None) sample_descriptor Usage.Incremental
        codex_file (start_position ParserState_new) [] [] [Data codex_file] (fun _ _ => true) (fun _ => false)).
      * apply sessions_start.
      * reflexivity.
      * exact codex_batch_eq.
    + vm_compute. reflexivity.
  - split; [etransitivity; [exact H|]; vm_compute; reflexivity|exact Hok].
Defined.

(** The file grew by two bytes since, and is read three bytes at a time. *)
Definition grown_file : OpenFile :=
  {| of_bytes := codex_file ++ lit "en"; of_seek _ := true; of_read _ _ := Some 3 |}.

Lemma codex_checkpoint_accepted_witness :
  fr_committed_offset codex_batch = 30 /\
  boundary_anchor toy_sha256 grown_file 30 = Ok (anchor_of toy_sha256 (take 30 codex_file)) /\
  is_ok (@batch_checkpoint ParserState ParserResumeState
    (codex_resume toy_sha256 (fun _ => Some (lit "{}")) (fun _ => None)) snapshot None (replicate 32 9)
    (Z.of_nat (length codex_file)) None FullPrefix (anchor_of toy_sha256 (take 30 codex_file)) codex_batch) = true.
Proof.
  pose proof (@codex_checkpoint_accepted toy_sha256 plain_chrono sample_json (fun _ => None)
    (fun _ => Some (lit "{}")) (fun _ => None) (fun _ _ => true) (fun _ => false) sample_descriptor Usage.Incremental
    codex_file (start_position ParserState_new) [] [] [Data codex_file] codex_batch
    grown_file (lit "en") None (replicate 32 9) None FullPrefix codex_context_ok) as H.
  assert (fr_committed_offset codex_batch = 30) as E by (vm_compute; reflexivity).
  assert (boundary_anchor toy_sha256 grown_file 30 = Ok (anchor_of toy_sha256 (take 30 codex_file))) as Ea
    by (vm_compute; reflexivity).
  rewrite E, Ea in H. split; [exact E|]. split; [exact Ea|].
  destruct H as (_ & Hcp & _).
  - vm_compute. discriminate.
  - apply sessions_start.
  - reflexivity.
  - exact codex_batch_eq.
  - reflexivity.
  - erewrite (proj2 (Hcp _)); [reflexivity|]. split; [|reflexivity].
    exists (lit "{}"). split; [reflexivity|]. vm_compute. discriminate.
Defined.
