(* ===== verification/BenefitTypes.v ===== *)
(** * Benefit values ([crates/domain/src/benefit.rs])

    Lots of a provider's benefits (banked resets, credits), inventories of them as
    observed at one time, and reminder profiles, with the constructors every value
    passes through.  [...Parts] have the fields of the record they build, so a
    constructor takes the record and returns it or the first error. *)

From S2P Require Import Prelude Collections QuotaTypes.

Open Scope Z_scope.

Definition MAX_BENEFIT_LOTS_PER_OBSERVATION : nat := 64.
Definition MAX_REMINDER_THRESHOLDS : nat := 8.
Definition MIN_REMINDER_LEAD_SECONDS : Z := 60.
Definition MAX_REMINDER_LEAD_SECONDS : Z := 365 * 24 * 60 * 60.
Definition RECOMMENDED_REMINDER_LEAD_SECONDS : list Z :=
  [7 * 24 * 60 * 60; 24 * 60 * 60; 12 * 60 * 60; 6 * 60 * 60; 60 * 60].
Definition MAX_BENEFIT_LABEL_KEY_BYTES : Z := 128.
Definition MAX_BENEFIT_TIME_ZONE_ID_BYTES : Z := 128.

Inductive BenefitError :=
| BenefitInvalidId (field : str)
| InvalidLabelKey
| InvalidTimeZoneId
| InvalidLocalDate
| InvalidLocalTime
| InvalidExpiry
| InvalidQuantity
| InvalidGrantedTime
| InvalidObservationTimes
| DuplicateLotId
| BenefitCapacityExceeded (limit : nat)
| InvalidReminderLeadTime
| InvalidReminderProfileRevision
| InvalidSerializedValue.

(** [BenefitScope] *)
Record BenefitScope := mkBenefitScope {
  bs_provider_id : str;
  bs_account_id : str;
  bs_workspace_id : option str
}.
#[export] Instance BenefitScope_eq_dec : EqDecision BenefitScope.
Proof. solve_decision. Defined.

Inductive BenefitKind := BankedRateLimitReset | UsageCredit | TemporaryUsage | UnknownKind.
Inductive BenefitState :=
| StAvailable | ActivationPending | Activated | StExpired | Revoked | Ambiguous.
Inductive BenefitEvidenceSource := BenProviderOfficial | BenProviderLocal | BenManual | BenUnknownSource.
Inductive BenefitConfidence := BenHigh | BenMedium | BenLow | BenUnknownConfidence.
Inductive BenefitDetailKind := ProviderDetail | ProviderAggregate | ManualDetail.
Inductive BenefitInventoryCompleteness := InvComplete | CompleteQuantityPartialDetails | InvPartial.
Inductive BenefitTarget := ProviderTarget | QuotaWindowTarget (window_id : str).
#[export] Instance BenefitKind_eq_dec : EqDecision BenefitKind.
Proof. solve_decision. Defined.
#[export] Instance BenefitState_eq_dec : EqDecision BenefitState.
Proof. solve_decision. Defined.
#[export] Instance BenefitEvidenceSource_eq_dec : EqDecision BenefitEvidenceSource.
Proof. solve_decision. Defined.
#[export] Instance BenefitConfidence_eq_dec : EqDecision BenefitConfidence.
Proof. solve_decision. Defined.
#[export] Instance BenefitDetailKind_eq_dec : EqDecision BenefitDetailKind.
Proof. solve_decision. Defined.
#[export] Instance BenefitInventoryCompleteness_eq_dec : EqDecision BenefitInventoryCompleteness.
Proof. solve_decision. Defined.
#[export] Instance BenefitTarget_eq_dec : EqDecision BenefitTarget.
Proof. solve_decision. Defined.

(** ** Identifiers and local times *)

Definition valid_ascii_identifier (value : str) (max_bytes : Z) (allow_slash : bool) : bool :=
  negb (bool_decide (value = []))
  && (str_len value <=? max_bytes)
  && forallb (fun byte =>
       is_ascii_alphanumeric byte
       || existsb (Z.eqb byte) (lit "._-+")
       || (allow_slash && (byte =? 47))) (as_bytes value).

Definition BenefitLabelKey_new (value : str) : result str BenefitError :=
  fail_if negb (valid_ascii_identifier value MAX_BENEFIT_LABEL_KEY_BYTES false)
  with InvalidLabelKey else Ok value.

(** [str::starts_with], [ends_with] and [contains] for the literals used below *)
Definition starts_with (value : str) (c : Z) : bool := is_some_and (head value) (fun b => b =? c).
Definition ends_with (value : str) (c : Z) : bool := is_some_and (last value) (fun b => b =? c).
Fixpoint contains_pair (value : str) (c : Z) : bool :=
  match value with
  | a :: (b :: _) as rest => ((a =? c) && (b =? c)) || contains_pair rest c
  | _ => false
  end.

Definition BenefitTimeZoneId_new (value : str) : result str BenefitError :=
  fail_if negb (valid_ascii_identifier value MAX_BENEFIT_TIME_ZONE_ID_BYTES true)
    || starts_with value 46 || ends_with value 46 || contains_pair value 46
    || starts_with value 47 || ends_with value 47
  with InvalidTimeZoneId else Ok value.

Definition is_leap_year (year : Z) : bool :=
  (Z.rem year 4 =? 0) && (negb (Z.rem year 100 =? 0) || (Z.rem year 400 =? 0)).

Definition days_in_month (year month : Z) : Z :=
  if existsb (Z.eqb month) [1; 3; 5; 7; 8; 10; 12] then 31
  else if existsb (Z.eqb month) [4; 6; 9; 11] then 30
  else if month =? 2 then if is_leap_year year then 29 else 28
  else 0.

Record BenefitLocalDate := { ld_year : Z; ld_month : Z; ld_day : Z }.
#[export] Instance BenefitLocalDate_eq_dec : EqDecision BenefitLocalDate.
Proof. solve_decision. Defined.

Definition BenefitLocalDate_new (year month day : Z) : result BenefitLocalDate BenefitError :=
  fail_if negb ((1 <=? year) && (year <=? 9999)) || negb ((1 <=? month) && (month <=? 12))
    || (day =? 0) || (days_in_month year month <? day)
  with InvalidLocalDate else
  Ok {| ld_year := year; ld_month := month; ld_day := day |}.

Record BenefitLocalTime := { lt_hour : Z; lt_minute : Z; lt_second : Z; lt_millisecond : Z }.
#[export] Instance BenefitLocalTime_eq_dec : EqDecision BenefitLocalTime.
Proof. solve_decision. Defined.

Definition BenefitLocalTime_new (hour minute second millisecond : Z)
  : result BenefitLocalTime BenefitError :=
  fail_if (23 <? hour) || (59 <? minute) || (59 <? second) || (999 <? millisecond)
  with InvalidLocalTime else
  Ok {| lt_hour := hour; lt_minute := minute; lt_second := second; lt_millisecond := millisecond |}.

Record BenefitLocalDateTime := { ldt_date : BenefitLocalDate; ldt_time : BenefitLocalTime }.
#[export] Instance BenefitLocalDateTime_eq_dec : EqDecision BenefitLocalDateTime.
Proof. solve_decision. Defined.

Inductive BenefitExpiry :=
| ExactUtc (at_ms : Z)
| ProviderLocal (local : BenefitLocalDateTime) (time_zone : str)
| ProviderDate (date : BenefitLocalDate) (time_zone : option str)
| BoundedUtc (earliest_at_ms latest_at_ms : Z)
| UnknownExpiry.
#[export] Instance BenefitExpiry_eq_dec : EqDecision BenefitExpiry.
Proof. solve_decision. Defined.

Definition exact_utc (at_ms : Z) : result BenefitExpiry BenefitError :=
  fail_if at_ms <=? 0 with InvalidExpiry else Ok (ExactUtc at_ms).

Definition bounded_utc (earliest_at_ms latest_at_ms : Z) : result BenefitExpiry BenefitError :=
  fail_if (earliest_at_ms <=? 0) || (latest_at_ms <? earliest_at_ms) with InvalidExpiry else
  Ok (BoundedUtc earliest_at_ms latest_at_ms).

Definition conservative_utc_ms (e : BenefitExpiry) : option Z :=
  match e with
  | ExactUtc at_ms => Some at_ms
  | BoundedUtc earliest_at_ms _ => Some earliest_at_ms
  | ProviderLocal _ _ | ProviderDate _ _ | UnknownExpiry => None
  end.

(** ** Lots and inventories *)

Record BenefitLotObservation := {
  lot_id : list Z;
  lot_kind : BenefitKind;
  quantity : Z;
  lot_state : BenefitState;
  target : BenefitTarget;
  granted_at_ms : option Z;
  expiry : BenefitExpiry;
  lot_source : BenefitEvidenceSource;
  lot_confidence : BenefitConfidence;
  detail_kind : BenefitDetailKind;
  lot_label_key : str
}.
#[export] Instance BenefitLotObservation_eq_dec : EqDecision BenefitLotObservation.
Proof. solve_decision. Defined.

Definition BenefitLotObservation_new (parts : BenefitLotObservation)
  : result BenefitLotObservation BenefitError :=
  fail_if (quantity parts =? 0) || (i64_max <? quantity parts) with InvalidQuantity else
  fail_if is_some_and (granted_at_ms parts) (fun t => t <=? 0) with InvalidGrantedTime else
  Ok parts.

Record BenefitInventoryObservation := {
  io_scope : BenefitScope;
  io_observation_id : list Z;
  io_observed_at_ms : Z;
  io_fresh_until_ms : Z;
  io_stale_after_ms : Z;
  io_completeness : BenefitInventoryCompleteness;
  io_lots : list BenefitLotObservation
}.

(** [lots.iter().any(|lot| !identities.insert(id))] *)
Fixpoint repeated_lot (seen : list (list Z)) (lots : list BenefitLotObservation) : bool :=
  match lots with
  | [] => false
  | l :: lots => bool_decide (lot_id l ∈ seen) || repeated_lot (lot_id l :: seen) lots
  end.

Definition BenefitInventoryObservation_new (parts : BenefitInventoryObservation)
  : result BenefitInventoryObservation BenefitError :=
  fail_if (io_observed_at_ms parts <=? 0) || (io_fresh_until_ms parts <? io_observed_at_ms parts)
    || (io_stale_after_ms parts <? io_fresh_until_ms parts)
  with InvalidObservationTimes else
  fail_if (MAX_BENEFIT_LOTS_PER_OBSERVATION <? length (io_lots parts))%nat
  with BenefitCapacityExceeded MAX_BENEFIT_LOTS_PER_OBSERVATION else
  fail_if repeated_lot [] (io_lots parts) with DuplicateLotId else
  Ok parts.

(** ** Reminder profiles *)

Definition ReminderLeadTime_new (seconds : Z) : result Z BenefitError :=
  fail_if negb ((MIN_REMINDER_LEAD_SECONDS <=? seconds) && (seconds <=? MAX_REMINDER_LEAD_SECONDS))
  with InvalidReminderLeadTime else Ok seconds.

Definition ReminderProfileRevision_new (value : Z) : result Z BenefitError :=
  fail_if (value =? 0) || (i64_max <? value) with InvalidReminderProfileRevision else Ok value.

Inductive NotificationChannel := InApp | OsScheduled.
#[export] Instance NotificationChannel_eq_dec : EqDecision NotificationChannel.
Proof. solve_decision. Defined.

(** The derived [Ord] of [NotificationChannel] *)
Definition channel_rank (c : NotificationChannel) : Z :=
  match c with InApp => 0 | OsScheduled => 1 end.

Record ReminderProfile := {
  rp_revision : Z;
  rp_lead_times : list Z;
  rp_channels : list NotificationChannel
}.

Definition ReminderProfile_new (parts : ReminderProfile) : result ReminderProfile BenefitError :=
  let lead_times := dedup (sort_by_cmp (cmp_rev Z.compare) (rp_lead_times parts)) in
  fail_if (MAX_REMINDER_THRESHOLDS <? length lead_times)%nat
  with BenefitCapacityExceeded MAX_REMINDER_THRESHOLDS else
  let channels := dedup (sort_by_cmp (cmp_by channel_rank Z.compare) (rp_channels parts)) in
  Ok {| rp_revision := rp_revision parts; rp_lead_times := lead_times; rp_channels := channels |}.

(** [collect::<Result<Vec<_>, _>>] of the lead times *)
Fixpoint collect_lead_times (seconds : list Z) : result (list Z) BenefitError :=
  match seconds with
  | [] => Ok []
  | s :: seconds =>
      let? t := ReminderLeadTime_new s in
      let? ts := collect_lead_times seconds in
      Ok (t :: ts)
  end.

Definition ReminderProfile_recommended (revision : Z) : result ReminderProfile BenefitError :=
  let? lead_times := collect_lead_times RECOMMENDED_REMINDER_LEAD_SECONDS in
  ReminderProfile_new
    {| rp_revision := revision; rp_lead_times := lead_times; rp_channels := [InApp] |}.

(** ** What the constructors establish *)

Definition lot_ok (l : BenefitLotObservation) : Prop :=
  length (lot_id l) = 32%nat /\ 0 < quantity l <= i64_max /\
  (forall t, granted_at_ms l = Some t -> 0 < t).

Lemma lot_new_ok l : lot_ok l -> BenefitLotObservation_new l = Ok l.
Proof.
  intros (_ & Hq & Hg). unfold BenefitLotObservation_new.
  destruct (granted_at_ms l) as [t|] eqn:E; simpl; [specialize (Hg t eq_refl)|]; by decide_guards.
Qed.

Lemma repeated_lot_NoDup seen lots : repeated_lot seen lots = false <->
  NoDup (map lot_id lots) /\ forall l, l ∈ lots -> lot_id l ∉ seen.
Proof.
  revert seen. induction lots as [|l lots IH]; intros seen; simpl.
  - split; [intros _; split; [by apply NoDup_nil|intros ? Hin; by apply not_elem_of_nil in Hin]|done].
  - rewrite orb_false_iff, bool_decide_eq_false, IH, NoDup_cons. split.
    + intros (Hs & Hnd & Hseen). split_and!; [|done|].
      * intros (x & Hx & Hin)%list_elem_of_fmap. apply Hseen in Hin. rewrite <- Hx in Hin.
        apply Hin. apply elem_of_cons. by left.
      * intros x [->|Hx]%elem_of_cons; [done|]. intros Hin. apply (Hseen x Hx), elem_of_cons. by right.
    + intros ([Hl Hnd] & Hseen). split_and!; [apply Hseen, elem_of_cons; by left|done|].
      intros x Hx [He|Hin]%elem_of_cons.
      * apply Hl. apply list_elem_of_fmap. by exists x.
      * apply (Hseen x); [apply elem_of_cons; by right|done].
Qed.

(** A constructed observation: ordered times, bounded, every lot once *)
Definition observation_ok (o : BenefitInventoryObservation) : Prop :=
  BenefitInventoryObservation_new o = Ok o /\ Forall lot_ok (io_lots o).

Lemma observation_ok_lots o : observation_ok o ->
  NoDup (map lot_id (io_lots o)) /\
  (length (io_lots o) <= MAX_BENEFIT_LOTS_PER_OBSERVATION)%nat /\ 0 < io_observed_at_ms o.
Proof.
  intros [H _]. unfold BenefitInventoryObservation_new in H. inv_ok H.
  apply repeated_lot_NoDup in E1 as [? _]. apply Nat.ltb_ge in E0. done.
Qed.
