(* ===== verification/Benefits.v ===== *)
(** * Benefit inventories and their reminders

    Models [crates/benefits/src]: [reconcile.rs] merges an observed inventory into
    the current one and journals every change, [reminder.rs] schedules reminders
    before lots expire and picks the ones that are due, [identity.rs] names scopes,
    changes and deliveries.  SHA-256 is the section variable [sha256].

    A [BTreeMap] keyed by 32 bytes is a finite map with the keys in lexicographic
    order: [entries] is the order in which its iterators run. *)

From stdpp Require Import gmap.
From S2P Require Import Prelude Collections QuotaTypes QuotaDetector BenefitTypes.

Open Scope Z_scope.

(** ** [BTreeMap] *)

Abbreviation BTreeMap A := (gmap (list Z) A).

Definition bytes_cmp : list Z -> list Z -> comparison := lex_cmp Z.compare.

Definition entries {A} (m : BTreeMap A) : list (list Z * A) :=
  sort_by_cmp (cmp_by fst bytes_cmp) (map_to_list m).
Definition into_values {A} (m : BTreeMap A) : list A := map snd (entries m).

(** [collect::<BTreeMap<_, _>>]: a later entry replaces an earlier one *)
Definition collect {A} (key : A -> list Z) (l : list A) : BTreeMap A :=
  fold_left (fun m a => <[key a := a]> m) l ∅.

(** ** Revisions, sequences, errors *)

Inductive BenefitCoreError :=
| ScopeMismatch
| ConflictingObservationIdentity
| InvalidRevision
| InvalidSequence
| CapacityExceeded
| InvalidTime.

Definition BenefitRevision_new (value : Z) : result Z BenefitCoreError :=
  fail_if i64_max <? value with InvalidRevision else Ok value.
Definition revision_next (r : Z) : result Z BenefitCoreError :=
  let? v := ok_or (checked_add u64_max r 1) InvalidRevision in BenefitRevision_new v.
Definition BenefitSequence_new (value : Z) : result Z BenefitCoreError :=
  fail_if i64_max <? value with InvalidSequence else Ok value.
Definition sequence_next (s : Z) : result Z BenefitCoreError :=
  let? v := ok_or (checked_add u64_max s 1) InvalidSequence in BenefitSequence_new v.

Record BenefitCurrentLot := { cl_lot : BenefitLotObservation; cl_revision : Z }.
#[export] Instance BenefitCurrentLot_eq_dec : EqDecision BenefitCurrentLot.
Proof. solve_decision. Defined.

Definition BenefitCurrentLot_new (lot : BenefitLotObservation) (revision : Z)
  : result BenefitCurrentLot BenefitCoreError :=
  fail_if revision =? 0 with InvalidRevision else Ok {| cl_lot := lot; cl_revision := revision |}.

Definition cl_key (c : BenefitCurrentLot) : list Z := lot_id (cl_lot c).

Record BenefitInventoryState := {
  is_scope : BenefitScope;
  is_scope_id : list Z;
  is_revision : Z;
  is_last_change_sequence : Z;
  is_last_observation_id : option (list Z);
  is_last_observed_at_ms : option Z;
  is_lots : list BenefitCurrentLot
}.

Inductive BenefitChangeKind :=
| Awarded | QuantityChanged | StateChanged | ExpiryChanged | Corrected | DisappearedAmbiguous
| Reappeared | RetiredTerminal.

Definition kind_code (k : BenefitChangeKind) : Z :=
  match k with
  | Awarded => 1 | QuantityChanged => 2 | StateChanged => 3 | ExpiryChanged => 4
  | Corrected => 5 | DisappearedAmbiguous => 6 | Reappeared => 7 | RetiredTerminal => 8
  end.

Record BenefitChange := {
  ch_id : list Z;
  ch_sequence : Z;
  ch_lot_id : list Z;
  ch_lot_revision : Z;
  ch_kind : BenefitChangeKind;
  ch_before : option BenefitLotObservation;
  ch_after : option BenefitLotObservation
}.

Inductive BenefitReconciliationStatus := DuplicateObservation | StaleObservation | FreshnessOnly | Changed.

Record BenefitReconciliation := {
  re_status : BenefitReconciliationStatus;
  re_state : BenefitInventoryState;
  re_changes : list BenefitChange
}.

Definition classify_change (before after : BenefitLotObservation) : BenefitChangeKind :=
  if bool_decide (lot_state before = Ambiguous) && negb (bool_decide (lot_state after = Ambiguous))
  then Reappeared
  else
    let quantity_changed := negb (quantity before =? quantity after) in
    let state_changed := negb (bool_decide (lot_state before = lot_state after)) in
    let expiry_changed := negb (bool_decide (expiry before = expiry after)) in
    let other_changed :=
      negb (bool_decide (lot_kind before = lot_kind after))
      || negb (bool_decide (target before = target after))
      || negb (bool_decide (granted_at_ms before = granted_at_ms after))
      || negb (bool_decide (lot_source before = lot_source after))
      || negb (bool_decide (lot_confidence before = lot_confidence after))
      || negb (bool_decide (detail_kind before = detail_kind after))
      || negb (bool_decide (lot_label_key before = lot_label_key after)) in
    match quantity_changed, state_changed, expiry_changed, other_changed with
    | true, false, false, false => QuantityChanged
    | false, true, false, false => StateChanged
    | false, false, true, false => ExpiryChanged
    | _, _, _, _ => Corrected
    end.

Definition is_terminal (s : BenefitState) : bool :=
  match s with Activated | StExpired | Revoked => true | _ => false end.

(** [parts.state = Ambiguous] *)
Definition make_ambiguous (l : BenefitLotObservation) : BenefitLotObservation :=
  {| lot_id := lot_id l; lot_kind := lot_kind l; quantity := quantity l; lot_state := Ambiguous;
     target := target l; granted_at_ms := granted_at_ms l; expiry := expiry l;
     lot_source := lot_source l; lot_confidence := lot_confidence l; detail_kind := detail_kind l;
     lot_label_key := lot_label_key l |}.

(** An entry of [pending] *)
Record PendingChange := {
  pe_lot_id : list Z;
  pe_revision : Z;
  pe_kind : BenefitChangeKind;
  pe_before : option BenefitLotObservation;
  pe_after : option BenefitLotObservation
}.

(** The maps and the list the two loops of [reconcile_inventory] update *)
Record Merge := {
  mg_prior : BTreeMap BenefitCurrentLot;
  mg_next : BTreeMap BenefitCurrentLot;
  mg_pending : list PendingChange
}.

(** The body of the loop over the observed lots *)
Definition merge_observed (m : Merge) (lot : BenefitLotObservation) : result Merge BenefitCoreError :=
  let key := lot_id lot in
  let prior := delete key (mg_prior m) in
  match mg_prior m !! key with
  | None =>
      let? revision := BenefitRevision_new 1 in
      let? c := BenefitCurrentLot_new lot revision in
      Ok {| mg_prior := prior; mg_next := <[key := c]> (mg_next m);
            mg_pending := mg_pending m ++
              [{| pe_lot_id := lot_id lot; pe_revision := revision; pe_kind := Awarded;
                  pe_before := None; pe_after := Some lot |}] |}
  | Some previous =>
      if bool_decide (cl_lot previous = lot)
      then Ok {| mg_prior := prior; mg_next := <[key := previous]> (mg_next m);
                 mg_pending := mg_pending m |}
      else
        let? revision := revision_next (cl_revision previous) in
        let kind := classify_change (cl_lot previous) lot in
        let? c := BenefitCurrentLot_new lot revision in
        Ok {| mg_prior := prior; mg_next := <[key := c]> (mg_next m);
              mg_pending := mg_pending m ++
                [{| pe_lot_id := lot_id lot; pe_revision := revision; pe_kind := kind;
                    pe_before := Some (cl_lot previous); pe_after := Some lot |}] |}
  end.

Fixpoint merge_all_observed (m : Merge) (lots : list BenefitLotObservation)
  : result Merge BenefitCoreError :=
  match lots with
  | [] => Ok m
  | l :: lots => let? m := merge_observed m l in merge_all_observed m lots
  end.

(** The body of the loop over the lots that were not observed *)
Definition merge_missing (complete : bool) (m : Merge) (entry : list Z * BenefitCurrentLot)
  : result Merge BenefitCoreError :=
  let '(key, previous) := entry in
  let keep := Ok {| mg_prior := mg_prior m; mg_next := <[key := previous]> (mg_next m);
                    mg_pending := mg_pending m |} in
  if negb complete then keep
  else if is_terminal (lot_state (cl_lot previous)) then
    let? revision := revision_next (cl_revision previous) in
    Ok {| mg_prior := mg_prior m; mg_next := mg_next m;
          mg_pending := mg_pending m ++
            [{| pe_lot_id := lot_id (cl_lot previous); pe_revision := revision;
                pe_kind := RetiredTerminal; pe_before := Some (cl_lot previous); pe_after := None |}] |}
  else if bool_decide (lot_state (cl_lot previous) = Ambiguous) then keep
  else
    let? ambiguous :=
      match BenefitLotObservation_new (make_ambiguous (cl_lot previous)) with
      | Ok l => Ok l
      | Err _ => Err CapacityExceeded
      end in
    let? revision := revision_next (cl_revision previous) in
    let? c := BenefitCurrentLot_new ambiguous revision in
    Ok {| mg_prior := mg_prior m; mg_next := <[key := c]> (mg_next m);
          mg_pending := mg_pending m ++
            [{| pe_lot_id := lot_id ambiguous; pe_revision := revision;
                pe_kind := DisappearedAmbiguous; pe_before := Some (cl_lot previous);
                pe_after := Some ambiguous |}] |}.

Fixpoint merge_all_missing (complete : bool) (m : Merge) (l : list (list Z * BenefitCurrentLot))
  : result Merge BenefitCoreError :=
  match l with
  | [] => Ok m
  | e :: l => let? m := merge_missing complete m e in merge_all_missing complete m l
  end.

(** ** [identity.rs] *)

Definition BENEFIT_SCOPE_DOMAIN : list Z := lit "tokenmaster.benefit.scope.v1".
Definition CHANGE_DOMAIN : list Z := lit "tokenmaster.benefit.change.v1".
Definition DELIVERY_DOMAIN : list Z := lit "tokenmaster.benefit.delivery.v1".

Definition notification_channel_code (c : NotificationChannel) : Z :=
  match c with InApp => 1 | OsScheduled => 2 end.

Section benefits.
Context (sha256 : list Z -> list Z).

Definition benefit_scope_id (scope : BenefitScope) : list Z :=
  let hasher := update_field [] BENEFIT_SCOPE_DOMAIN in
  let hasher := update_field hasher (as_bytes (bs_provider_id scope)) in
  let hasher := update_field hasher (as_bytes (bs_account_id scope)) in
  sha256 (match bs_workspace_id scope with
          | Some workspace_id => update_field (update_field hasher [1]) (as_bytes workspace_id)
          | None => update_field hasher [0]
          end).

Definition benefit_change_id (scope_id : list Z) (sequence : Z) (lot : list Z) (revision code : Z)
  : list Z :=
  let hasher := update_field [] CHANGE_DOMAIN in
  let hasher := update_field hasher scope_id in
  let hasher := update_field hasher (be_bytes 8 sequence) in
  let hasher := update_field hasher lot in
  let hasher := update_field hasher (be_bytes 8 revision) in
  sha256 (update_field hasher [code]).

Definition reminder_delivery_id (scope : BenefitScope) (lot : list Z) (revision lead_time : Z)
    (channel : NotificationChannel) : list Z :=
  let hasher := update_field [] DELIVERY_DOMAIN in
  let hasher := update_field hasher (benefit_scope_id scope) in
  let hasher := update_field hasher lot in
  let hasher := update_field hasher (be_bytes 8 revision) in
  let hasher := update_field hasher (be_bytes 4 lead_time) in
  sha256 (update_field hasher [notification_channel_code channel]).

(** ** [reconcile.rs] *)

Definition BenefitInventoryState_empty (scope : BenefitScope) : BenefitInventoryState :=
  {| is_scope := scope; is_scope_id := benefit_scope_id scope; is_revision := 0;
     is_last_change_sequence := 0; is_last_observation_id := None; is_last_observed_at_ms := None;
     is_lots := [] |}.

(** The loop that refuses a repeated key *)
Fixpoint insert_all (m : BTreeMap BenefitCurrentLot) (lots : list BenefitCurrentLot)
  : result (BTreeMap BenefitCurrentLot) BenefitCoreError :=
  match lots with
  | [] => Ok m
  | c :: lots =>
      fail_if is_some (m !! cl_key c) with CapacityExceeded else
      insert_all (<[cl_key c := c]> m) lots
  end.

Definition BenefitInventoryState_from_parts (scope : BenefitScope) (revision last_change_sequence : Z)
    (last_observation_id : option (list Z)) (last_observed_at_ms : option Z)
    (lots : list BenefitCurrentLot) : result BenefitInventoryState BenefitCoreError :=
  let too_many := (MAX_BENEFIT_LOTS_PER_OBSERVATION <? length lots)%nat in
  fail_if is_some_and last_observed_at_ms (fun t => t <=? 0)
    || negb (eqb (is_some last_observation_id) (is_some last_observed_at_ms)) || too_many
  with (if too_many then CapacityExceeded else InvalidTime) else
  let? keyed := insert_all ∅ lots in
  Ok {| is_scope := scope; is_scope_id := benefit_scope_id scope; is_revision := revision;
        is_last_change_sequence := last_change_sequence;
        is_last_observation_id := last_observation_id; is_last_observed_at_ms := last_observed_at_ms;
        is_lots := into_values keyed |}.

(** The last loop: the pending changes get their sequence numbers and identities. *)
Fixpoint number_changes (scope_id : list Z) (sequence : Z) (pending : list PendingChange)
  : result (Z * list BenefitChange) BenefitCoreError :=
  match pending with
  | [] => Ok (sequence, [])
  | p :: pending =>
      let? sequence := sequence_next sequence in
      let? rest := number_changes scope_id sequence pending in
      Ok (rest.1,
          {| ch_id := benefit_change_id scope_id sequence (pe_lot_id p) (pe_revision p)
                        (kind_code (pe_kind p));
             ch_sequence := sequence; ch_lot_id := pe_lot_id p; ch_lot_revision := pe_revision p;
             ch_kind := pe_kind p; ch_before := pe_before p; ch_after := pe_after p |} :: rest.2)
  end.

Definition reconcile_inventory (current : BenefitInventoryState) (o : BenefitInventoryObservation)
  : result BenefitReconciliation BenefitCoreError :=
  fail_if negb (bool_decide (is_scope current = io_scope o)) with ScopeMismatch else
  if is_some_and (is_last_observed_at_ms current) (fun last => io_observed_at_ms o <? last)
  then Ok {| re_status := StaleObservation; re_state := current; re_changes := [] |}
  else
    let observed := sort_by_cmp (cmp_by lot_id bytes_cmp) (io_lots o) in
    let? m := merge_all_observed
      {| mg_prior := collect cl_key (is_lots current); mg_next := ∅; mg_pending := [] |} observed in
    let complete := negb (bool_decide (io_completeness o = InvPartial)) in
    let? m := merge_all_missing complete m (entries (mg_prior m)) in
    fail_if (MAX_BENEFIT_LOTS_PER_OBSERVATION <? size (mg_next m))%nat with CapacityExceeded else
    let same_identity := bool_decide (is_last_observation_id current = Some (io_observation_id o)) in
    if same_identity then
      if bool_decide (length (mg_pending m) = 0%nat)
      then Ok {| re_status := DuplicateObservation; re_state := current; re_changes := [] |}
      else Err ConflictingObservationIdentity
    else
      let? numbered :=
        number_changes (is_scope_id current) (is_last_change_sequence current) (mg_pending m) in
      let '(sequence, changes) := numbered in
      let status := if bool_decide (length changes = 0%nat) then FreshnessOnly else Changed in
      let? revision := revision_next (is_revision current) in
      Ok {| re_status := status;
            re_state :=
              {| is_scope := is_scope current; is_scope_id := is_scope_id current;
                 is_revision := revision; is_last_change_sequence := sequence;
                 is_last_observation_id := Some (io_observation_id o);
                 is_last_observed_at_ms := Some (io_observed_at_ms o);
                 is_lots := into_values (mg_next m) |};
            re_changes := changes |}.

(** ** [reminder.rs] *)

Definition MAX_SCHEDULED_REMINDERS : nat := MAX_BENEFIT_LOTS_PER_OBSERVATION * MAX_REMINDER_THRESHOLDS * 2.
Definition MAX_DUE_REMINDER_PAGE_SIZE : nat := 256.

Record ReminderDue := {
  rd_delivery_id : list Z;
  rd_lot_id : list Z;
  rd_lot_revision : Z;
  rd_lead_time : Z;
  rd_channel : NotificationChannel;
  rd_due_at_ms : Z;
  rd_expiry_at_ms : Z
}.

(** The entry pushed by the innermost loop *)
Definition reminder_for (scope : BenefitScope) (c : BenefitCurrentLot) (expiry_at_ms lead_time : Z)
    (channel : NotificationChannel) : ReminderDue :=
  let due := expiry_at_ms - lead_time * 1000 in
  {| rd_delivery_id := reminder_delivery_id scope (lot_id (cl_lot c)) (cl_revision c) lead_time channel;
     rd_lot_id := lot_id (cl_lot c); rd_lot_revision := cl_revision c; rd_lead_time := lead_time;
     rd_channel := channel;
     rd_due_at_ms := if i64_min <=? due then due else i64_min;
     rd_expiry_at_ms := expiry_at_ms |}.

(** The reminders of one lot, in the order of the two inner loops; the product of a
    [u32] and 1000 always fits in [i64] *)
Definition lot_reminders (scope : BenefitScope) (profile : ReminderProfile) (c : BenefitCurrentLot)
  : list ReminderDue :=
  if negb (bool_decide (lot_state (cl_lot c) = StAvailable)) then []
  else match conservative_utc_ms (expiry (cl_lot c)) with
       | None => []
       | Some expiry_at_ms =>
           mjoin (map (fun lead_time => map (reminder_for scope c expiry_at_ms lead_time) (rp_channels profile))
                    (rp_lead_times profile))
       end.

Definition schedule_cmp : ReminderDue -> ReminderDue -> comparison :=
  cmp_then (cmp_by rd_due_at_ms Z.compare)
    (cmp_then (cmp_by rd_expiry_at_ms Z.compare)
      (cmp_then (cmp_by rd_lot_id bytes_cmp)
        (cmp_by (fun r => notification_channel_code (rd_channel r)) Z.compare))).

Definition schedule_reminders (scope : BenefitScope) (lots : list BenefitCurrentLot)
    (profile : ReminderProfile) : result (list ReminderDue) BenefitCoreError :=
  let capacity := (length lots * length (rp_lead_times profile) * length (rp_channels profile))%nat in
  fail_if (MAX_SCHEDULED_REMINDERS <? capacity)%nat with CapacityExceeded else
  Ok (sort_by_cmp schedule_cmp (mjoin (map (lot_reminders scope profile) lots))).
End benefits.

(** The key of the selection: lot and channel *)
Definition due_key (r : ReminderDue) : list Z * Z :=
  (rd_lot_id r, notification_channel_code (rd_channel r)).

(** The body of the selection loop *)
Definition select_due (now_ms : Z) (selected : gmap (list Z * Z) ReminderDue) (entry : ReminderDue)
  : gmap (list Z * Z) ReminderDue :=
  if (now_ms <? rd_due_at_ms entry) || (rd_expiry_at_ms entry <=? now_ms) then selected
  else match selected !! due_key entry with
       | Some current =>
           if rd_lead_time current <=? rd_lead_time entry then selected
           else <[due_key entry := entry]> selected
       | None => <[due_key entry := entry]> selected
       end.

Definition due_cmp : ReminderDue -> ReminderDue -> comparison :=
  cmp_then (cmp_by rd_expiry_at_ms Z.compare)
    (cmp_then (cmp_by rd_lot_id bytes_cmp)
      (cmp_by (fun r => notification_channel_code (rd_channel r)) Z.compare)).

Definition due_key_cmp : list Z * Z -> list Z * Z -> comparison :=
  cmp_then (cmp_by fst bytes_cmp) (cmp_by snd Z.compare).

Definition collapse_due_reminders (scheduled : list ReminderDue) (now_ms : Z) (max_rows : nat)
  : result (list ReminderDue) BenefitCoreError :=
  fail_if (now_ms <=? 0) || (max_rows =? 0)%nat || (MAX_DUE_REMINDER_PAGE_SIZE <? max_rows)%nat
  with (if now_ms <=? 0 then InvalidTime else CapacityExceeded) else
  let selected := fold_left (select_due now_ms) scheduled ∅ in
  let due := map snd (sort_by_cmp (cmp_by fst due_key_cmp) (map_to_list selected)) in
  Ok (take max_rows (sort_by_cmp due_cmp due)).

(** ** Facts on [BTreeMap] *)

Lemma collect_app {A} (key : A -> list Z) l a : collect key (l ++ [a]) = <[key a := a]> (collect key l).
Proof. unfold collect. by rewrite fold_left_app. Qed.

Lemma collect_Some {A} (key : A -> list Z) l k a : NoDup (map key l) ->
  collect key l !! k = Some a <-> a ∈ l /\ key a = k.
Proof.
  induction l as [|b l IH] using rev_ind; intros Hnd.
  - unfold collect. simpl. rewrite lookup_empty. split; [done|]. intros [H _]. by apply not_elem_of_nil in H.
  - rewrite map_app, NoDup_app in Hnd. destruct Hnd as (Hl & Hb & _). specialize (IH Hl).
    rewrite collect_app, elem_of_app, list_elem_of_singleton. destruct (decide (key b = k)) as [<-|Hne].
    + rewrite lookup_insert_eq. split; [by intros [= ->]; split; [right|]|]. intros [[Hin| ->] Hk]; [|done].
      exfalso. apply (Hb (key a)); [by apply list_elem_of_fmap_2|]. rewrite Hk. apply elem_of_cons. by left.
    + rewrite lookup_insert_ne by done. rewrite IH. split; [naive_solver|].
      intros [[Hin| ->] Hk]; naive_solver.
Qed.

Lemma collect_None {A} (key : A -> list Z) l k : NoDup (map key l) ->
  collect key l !! k = None <-> k ∉ map key l.
Proof.
  intros Hnd. split.
  - intros H (a & -> & Ha)%list_elem_of_fmap. assert (collect key l !! key a = Some a) by (by apply collect_Some).
    congruence.
  - intros H. destruct (collect key l !! k) as [a|] eqn:E; [|done]. apply collect_Some in E as [Ha <-]; [|done].
    exfalso. by apply H, list_elem_of_fmap_2.
Qed.

Lemma collect_permutation {A} (key : A -> list Z) l l' : NoDup (map key l) -> l ≡ₚ l' ->
  collect key l = collect key l'.
Proof.
  intros Hnd Hp. assert (NoDup (map key l')) as Hnd' by (by rewrite <- Hp).
  apply map_eq. intros k. apply option_eq. intros a.
  rewrite !collect_Some by done. by rewrite Hp.
Qed.

Lemma entries_permutation {A} (m : BTreeMap A) : entries m ≡ₚ map_to_list m.
Proof. apply sort_permutation. Qed.

Lemma elem_of_entries {A} (m : BTreeMap A) k a : (k, a) ∈ entries m <-> m !! k = Some a.
Proof. rewrite entries_permutation. apply elem_of_map_to_list. Qed.

Lemma NoDup_entries {A} (m : BTreeMap A) : NoDup (map fst (entries m)).
Proof. rewrite entries_permutation. apply NoDup_fst_map_to_list. Qed.

Lemma into_values_keys {A} (key : A -> list Z) (m : BTreeMap A) :
  (forall k a, m !! k = Some a -> key a = k) -> map key (into_values m) = map fst (entries m).
Proof.
  intros Hk. unfold into_values. rewrite map_map. apply map_ext_in. intros [k a] Hin.
  apply Hk. by apply elem_of_entries, list_elem_of_In.
Qed.

Lemma into_values_collect {A} (key : A -> list Z) (m : BTreeMap A) :
  (forall k a, m !! k = Some a -> key a = k) ->
  NoDup (map key (into_values m)) /\ collect key (into_values m) = m.
Proof.
  intros Hk. assert (NoDup (map key (into_values m))) as Hnd
    by (rewrite into_values_keys by done; apply NoDup_entries).
  split; [done|]. apply map_eq. intros k. apply option_eq. intros a. rewrite collect_Some by done.
  unfold into_values. rewrite list_elem_of_fmap. split.
  - intros [([k' a'] & -> & Hin) <-]. apply elem_of_entries in Hin. simpl. by rewrite (Hk _ _ Hin).
  - intros Hm. split; [|by apply Hk]. exists (k, a). split; [done|]. by apply elem_of_entries.
Qed.

(** ** What reconciliation means *)

(** The lot after an observation that lists it / does not list it *)
Definition observed_target (lot : BenefitLotObservation) (previous : option BenefitCurrentLot)
  : BenefitCurrentLot :=
  match previous with
  | None => {| cl_lot := lot; cl_revision := 1 |}
  | Some p =>
      if bool_decide (cl_lot p = lot) then p
      else {| cl_lot := lot; cl_revision := cl_revision p + 1 |}
  end.

Definition missing_target (complete : bool) (p : BenefitCurrentLot) : option BenefitCurrentLot :=
  if negb complete then Some p
  else
    match lot_state (cl_lot p) with
    | Activated | StExpired | Revoked => None
    | Ambiguous => Some p
    | StAvailable | ActivationPending =>
        Some {| cl_lot := make_ambiguous (cl_lot p); cl_revision := cl_revision p + 1 |}
    end.

(** The tests of the code, in its order *)
Lemma missing_target_tests complete p :
  missing_target complete p =
  if negb complete then Some p
  else if is_terminal (lot_state (cl_lot p)) then None
  else if bool_decide (lot_state (cl_lot p) = Ambiguous) then Some p
  else Some {| cl_lot := make_ambiguous (cl_lot p); cl_revision := cl_revision p + 1 |}.
Proof. unfold missing_target. by destruct complete, (lot_state (cl_lot p)). Qed.

Definition reconciled (complete : bool) (observed : BTreeMap BenefitLotObservation)
    (current : BTreeMap BenefitCurrentLot) (k : list Z) : option BenefitCurrentLot :=
  match observed !! k with
  | Some lot => Some (observed_target lot (current !! k))
  | None => current !! k ≫= missing_target complete
  end.

(** A journal entry applied to the lots *)
Definition apply_change (m : BTreeMap BenefitCurrentLot) (p : PendingChange) : BTreeMap BenefitCurrentLot :=
  match pe_after p with
  | Some lot => <[pe_lot_id p := {| cl_lot := lot; cl_revision := pe_revision p |}]> m
  | None => delete (pe_lot_id p) m
  end.

(** The journal entry describes the lot as it is and takes its next revision. *)
Definition change_fits (m : BTreeMap BenefitCurrentLot) (p : PendingChange) : Prop :=
  pe_before p = cl_lot <$> m !! pe_lot_id p /\
  pe_revision p = from_option cl_revision 0 (m !! pe_lot_id p) + 1.

(** A journal read from the first entry to the last *)
Inductive replays : BTreeMap BenefitCurrentLot -> list PendingChange -> BTreeMap BenefitCurrentLot -> Prop :=
| replays_nil m : replays m [] m
| replays_cons m p l m' : change_fits m p -> replays (apply_change m p) l m' -> replays m (p :: l) m'.

Lemma replays_snoc m l m' p : replays m l m' -> change_fits m' p ->
  replays m (l ++ [p]) (apply_change m' p).
Proof. induction 1; intros Hp; simpl; constructor; eauto. constructor. Qed.

(** Add the entry at the end of the journal in the goal to the replay [Hj]. *)
Ltac journal_entry Hj :=
  match goal with |- replays _ (_ ++ [?p]) _ => apply (replays_snoc _ _ _ p Hj) end.

Definition keyed (m : BTreeMap BenefitCurrentLot) : Prop := forall k c, m !! k = Some c -> cl_key c = k.

(** The pending half and the finished half of the lots, put together *)
Lemma view_insert (prior next : BTreeMap BenefitCurrentLot) k c :
  delete k prior ∪ <[k := c]> next = <[k := c]> (prior ∪ next).
Proof.
  apply map_eq. intros k'. destruct (decide (k' = k)) as [->|Hne].
  - by rewrite lookup_union, lookup_delete_eq, !lookup_insert_eq.
  - by rewrite lookup_union, lookup_delete_ne, !lookup_insert_ne, lookup_union.
Qed.

Lemma revision_next_ok r r' : revision_next r = Ok r' -> r' = r + 1 /\ r' <= i64_max.
Proof.
  unfold revision_next, BenefitRevision_new. intros H. inv_ok H.
  apply ok_or_Ok, checked_add_Some in Hv as [-> _]. lia.
Qed.

Lemma current_new_ok lot r c : BenefitCurrentLot_new lot r = Ok c ->
  c = {| cl_lot := lot; cl_revision := r |}.
Proof. unfold BenefitCurrentLot_new. intros H. by inv_ok H. Qed.

Lemma revision_one : BenefitRevision_new 1 = Ok 1.
Proof. done. Qed.

(** An entry for a lot that is there *)
Lemma at_key V p kind after : V !! cl_key p = Some p ->
  change_fits V {| pe_lot_id := lot_id (cl_lot p); pe_revision := cl_revision p + 1; pe_kind := kind;
                   pe_before := Some (cl_lot p); pe_after := after |}.
Proof. intros H. unfold change_fits. simpl. change (lot_id (cl_lot p)) with (cl_key p). by rewrite H. Qed.

Section merge.
Context (current : BTreeMap BenefitCurrentLot) (current_keyed : keyed current).
Context (complete : bool).

(** The loop over the observed lots, after [past] *)
Definition after_observed (past : list BenefitLotObservation) (m : Merge) : Prop :=
  replays current (mg_pending m) (mg_prior m ∪ mg_next m) /\
  (forall k, mg_prior m !! k = if decide (k ∈ map lot_id past) then None else current !! k) /\
  (forall k, mg_next m !! k
     = (fun lot => observed_target lot (current !! k)) <$> collect lot_id past !! k).

Lemma merge_observed_spec past lot m m' :
  NoDup (map lot_id (past ++ [lot])) -> after_observed past m -> merge_observed m lot = Ok m' ->
  after_observed (past ++ [lot]) m'.
Proof.
  intros Hnd (Hj & Hp & Hn) H. rewrite map_app, NoDup_app in Hnd. destruct Hnd as (Hnd & Hnew & _).
  assert (lot_id lot ∉ map lot_id past) as Hfresh.
  { intros Hin. apply (Hnew _ Hin). apply elem_of_cons. by left. }
  assert (mg_prior m !! lot_id lot = current !! lot_id lot) as Hprior
    by (rewrite Hp; by rewrite decide_False).
  assert (mg_next m !! lot_id lot = None) as Hnone.
  { rewrite Hn. by rewrite (proj2 (collect_None lot_id past _ Hnd)). }
  assert (forall c, observed_target lot (current !! lot_id lot) = c ->
    (forall k, delete (lot_id lot) (mg_prior m) !! k
       = if decide (k ∈ map lot_id (past ++ [lot])) then None else current !! k) /\
    (forall k, <[lot_id lot := c]> (mg_next m) !! k
       = (fun l => observed_target l (current !! k)) <$> collect lot_id (past ++ [lot]) !! k)) as Hrest.
  { intros c <-. split; intros k; destruct (decide (k = lot_id lot)) as [->|Hne].
    - rewrite lookup_delete_eq, decide_True; [done|]. rewrite map_app, elem_of_app. right.
      apply elem_of_cons. by left.
    - rewrite lookup_delete_ne, Hp by done. apply decide_ext. rewrite map_app, elem_of_app. split; [by left|].
      intros [?|?]; [done|]. by apply list_elem_of_singleton in H0.
    - by rewrite collect_app, !lookup_insert_eq.
    - rewrite collect_app, !lookup_insert_ne by done. apply Hn. }
  unfold merge_observed in H. rewrite Hprior in H. unfold observed_target in Hrest.
  assert (forall V, V = mg_prior m ∪ mg_next m -> V !! lot_id lot = current !! lot_id lot) as HV.
  { intros V ->. rewrite lookup_union, Hprior, Hnone. by destruct (current !! lot_id lot). }
  destruct (current !! lot_id lot) as [p|] eqn:Ep.
  - destruct (bool_decide _) eqn:E; to_prop.
    + injection H as <-. destruct (Hrest p eq_refl) as [H1 H2]. split_and!; simpl; try done.
      rewrite view_insert, insert_id; [done|]. by rewrite (HV _ eq_refl).
    + apply rbind_ok in H as (r & Hr & H). apply rbind_ok in H as (c & Hc & [= <-]).
      apply revision_next_ok in Hr as [-> _]. apply current_new_ok in Hc as ->.
      destruct (Hrest _ eq_refl) as [H1 H2]. split_and!; simpl; try done.
      rewrite view_insert. journal_entry Hj. unfold change_fits. simpl.
      by rewrite (HV _ eq_refl).
  - rewrite revision_one in H. cbn [rbind] in H. apply rbind_ok in H as (c & Hc & [= <-]).
    apply current_new_ok in Hc as ->. destruct (Hrest _ eq_refl) as [H1 H2]. split_and!; simpl; try done.
    rewrite view_insert. journal_entry Hj. unfold change_fits. simpl.
    by rewrite (HV _ eq_refl).
Qed.

Lemma merge_all_observed_spec past lots m m' :
  NoDup (map lot_id (past ++ lots)) -> after_observed past m -> merge_all_observed m lots = Ok m' ->
  after_observed (past ++ lots) m'.
Proof.
  revert past m. induction lots as [|l lots IH]; intros past m Hnd Hm H; simpl in H.
  - injection H as <-. by rewrite app_nil_r.
  - apply rbind_ok in H as (m1 & H1 & H). rewrite cons_middle, app_assoc in *.
    apply (IH (past ++ [l]) m1); [done| |done].
    apply (merge_observed_spec past l m m1); [|done|done].
    rewrite map_app, NoDup_app in Hnd. apply Hnd.
Qed.

(** The loop over the missing lots: [rest] is what is left to visit *)
Definition after_missing (observed : BTreeMap BenefitLotObservation)
    (rest : list (list Z * BenefitCurrentLot)) (m : Merge) : Prop :=
  let left : BTreeMap BenefitCurrentLot := list_to_map rest in
  replays current (mg_pending m) (left ∪ mg_next m) /\
  (forall k, mg_next m !! k =
     if decide (k ∈ map fst rest) then None else reconciled complete observed current k).

Lemma merge_missing_spec observed k p rest m m' :
  NoDup (map fst ((k, p) :: rest)) -> observed !! k = None -> current !! k = Some p -> cl_key p = k ->
  after_missing observed ((k, p) :: rest) m -> merge_missing complete m (k, p) = Ok m' ->
  after_missing observed rest m'.
Proof.
  intros Hnd Hobs Hcur Hkey (Hj & Hn) H. apply NoDup_cons in Hnd as [Hk Hnd].
  change (k ∉ map fst rest) in Hk. change (NoDup (map fst rest)) in Hnd. simpl in Hj.
  set (L := list_to_map rest : BTreeMap BenefitCurrentLot) in *.
  set (V := <[k:=p]> L ∪ mg_next m) in *.
  assert (mg_next m !! k = None) as Hnone.
  { rewrite Hn. rewrite decide_True; [done|]. apply elem_of_cons. by left. }
  assert (L !! k = None) as Hleft by (by apply not_elem_of_list_to_map).
  assert (forall c, L ∪ <[k:=c]> (mg_next m) = <[k:=c]> V) as Hview.
  { intros c. unfold V. rewrite <- view_insert. f_equal. by rewrite delete_insert_id. }
  assert (V !! k = Some p) as HVk by (unfold V; by rewrite lookup_union, lookup_insert_eq, Hnone).
  assert (reconciled complete observed current k = missing_target complete p) as Hrec
    by (unfold reconciled; by rewrite Hobs, Hcur).
  assert (forall next : BTreeMap BenefitCurrentLot, next !! k = missing_target complete p ->
    (forall k', k' <> k -> next !! k' = mg_next m !! k') ->
    forall k', next !! k' =
      if decide (k' ∈ map fst rest) then None else reconciled complete observed current k') as Hnext.
  { intros next H1 H2 k'. destruct (decide (k' = k)) as [->|Hne].
    - by rewrite decide_False, Hrec.
    - rewrite H2, Hn by done. apply decide_ext. simpl. rewrite elem_of_cons. naive_solver. }
  rewrite missing_target_tests in Hnext. unfold merge_missing in H. unfold after_missing. fold L.
  assert (forall c, (<[k:=c]> (mg_next m)) !! k = Some c /\
    forall k', k' <> k -> <[k:=c]> (mg_next m) !! k' = mg_next m !! k') as Hins
    by (intros c; split; [apply lookup_insert_eq|intros; by rewrite lookup_insert_ne]).
  destruct complete; cbn [negb] in *.
  2: { injection H as <-. simpl. rewrite Hview, insert_id by done. split; [done|]. apply Hnext; apply Hins. }
  destruct (is_terminal _).
  { apply rbind_ok in H as (r & Hr & [= <-]). apply revision_next_ok in Hr as [-> _]. simpl.
    split; [|by apply Hnext].
    assert (L ∪ mg_next m = delete k V) as ->.
    { unfold V. rewrite delete_union, delete_insert_id by done. by rewrite (delete_id (mg_next m)). }
    subst k. journal_entry Hj. by apply at_key. }
  destruct (bool_decide _).
  { injection H as <-. simpl. rewrite Hview, insert_id by done. split; [done|]. apply Hnext; apply Hins. }
  apply rbind_ok in H as (a & Ha & H). apply rbind_ok in H as (r & Hr & H).
  apply rbind_ok in H as (c & Hc & [= <-]). apply revision_next_ok in Hr as [-> _].
  apply current_new_ok in Hc as ->.
  assert (a = make_ambiguous (cl_lot p)) as ->.
  { unfold BenefitLotObservation_new in Ha. inv_ok Ha. done. }
  simpl. split; [|apply Hnext; apply Hins]. rewrite Hview. subst k. journal_entry Hj. by apply at_key.
Qed.

Lemma merge_all_missing_spec observed rest m m' :
  NoDup (map fst rest) ->
  (forall k p, (k, p) ∈ rest -> observed !! k = None /\ current !! k = Some p) ->
  after_missing observed rest m -> merge_all_missing complete m rest = Ok m' ->
  after_missing observed [] m'.
Proof.
  revert m. induction rest as [|[k p] rest IH]; intros m Hnd Hin Hm H; simpl in H.
  - by injection H as <-.
  - apply rbind_ok in H as (m1 & H1 & H). destruct (Hin k p) as [Ho Hc]; [apply elem_of_cons; by left|].
    apply (IH m1); [by apply NoDup_cons in Hnd as [_ ?]| |by eapply merge_missing_spec; eauto|done].
    intros k' p' Hin'. apply Hin, elem_of_cons. by right.
Qed.

(** Both loops together: the journal leads from the current lots to the new ones,
    and each new lot is the one reconciliation means. *)
Lemma merge_spec lots m1 m2 :
  NoDup (map lot_id lots) ->
  merge_all_observed {| mg_prior := current; mg_next := ∅; mg_pending := [] |} lots = Ok m1 ->
  merge_all_missing complete m1 (entries (mg_prior m1)) = Ok m2 ->
  replays current (mg_pending m2) (mg_next m2) /\
  (forall k, mg_next m2 !! k = reconciled complete (collect lot_id lots) current k).
Proof.
  intros Hnd H1 H2.
  apply (merge_all_observed_spec []) in H1 as (Hj & Hp & Hn); [simpl in *|done|].
  2: { split_and!; simpl; [|done|done]. rewrite (right_id_L ∅ (∪)). constructor. }
  apply (merge_all_missing_spec (collect lot_id lots)) in H2 as [Hj2 Hn2].
  - split; [|done]. by rewrite list_to_map_nil, (left_id_L ∅ (∪)) in Hj2.
  - apply NoDup_entries.
  - intros k p Hin. apply elem_of_entries in Hin. rewrite Hp in Hin.
    destruct (decide (k ∈ map lot_id lots)); [done|]. split; [by apply collect_None|done].
  - split.
    + replace (list_to_map (entries (mg_prior m1)) : BTreeMap BenefitCurrentLot) with (mg_prior m1); [done|].
      rewrite <- (list_to_map_to_list (mg_prior m1)) at 1. symmetry.
      apply list_to_map_proper; [apply NoDup_entries|apply entries_permutation].
    + intros k. rewrite Hn. unfold reconciled.
      destruct (decide (k ∈ map fst (entries (mg_prior m1)))) as [Hin|Hnin].
      * apply list_elem_of_fmap in Hin as ([k' p] & -> & Hin). apply elem_of_entries in Hin. simpl.
        rewrite Hp in Hin. destruct (decide (k' ∈ map lot_id lots)); [done|].
        by rewrite (proj2 (collect_None lot_id lots k' Hnd)).
      * destruct (collect lot_id lots !! k) as [l|] eqn:El; [done|]. simpl.
        destruct (current !! k) as [p|] eqn:Ec; [|done]. exfalso. apply Hnin.
        apply list_elem_of_fmap. exists (k, p). split; [done|]. apply elem_of_entries. rewrite Hp, Ec.
        apply collect_None in El; [|done]. by rewrite decide_False.
Qed.
End merge.

(** ** Reconciliation of whole inventories *)

Definition lots_of (s : BenefitInventoryState) : BTreeMap BenefitCurrentLot := collect cl_key (is_lots s).

(** No lot twice, as every constructor of a state ensures *)
Definition state_ok (s : BenefitInventoryState) : Prop :=
  NoDup (map cl_key (is_lots s)) /\ (length (is_lots s) <= MAX_BENEFIT_LOTS_PER_OBSERVATION)%nat.

Definition complete_observation (o : BenefitInventoryObservation) : bool :=
  negb (bool_decide (io_completeness o = InvPartial)).

(** The status says that the observation was taken in. *)
Definition accepted (r : BenefitReconciliation) : Prop :=
  re_status r = FreshnessOnly \/ re_status r = Changed.

Definition pending_of (c : BenefitChange) : PendingChange :=
  {| pe_lot_id := ch_lot_id c; pe_revision := ch_lot_revision c; pe_kind := ch_kind c;
     pe_before := ch_before c; pe_after := ch_after c |}.

Lemma collect_keyed l : NoDup (map cl_key l) -> keyed (collect cl_key l).
Proof. intros Hnd k c H. by apply collect_Some in H as [_ H]. Qed.

Lemma reconciled_keyed complete lots current :
  NoDup (map lot_id lots) -> keyed current ->
  forall k c, reconciled complete (collect lot_id lots) current k = Some c -> cl_key c = k.
Proof.
  intros Hnd Hk k c. unfold reconciled. destruct (collect lot_id lots !! k) as [l|] eqn:El.
  - apply collect_Some in El as [_ <-]; [|done]. intros [= <-]. unfold observed_target.
    destruct (current !! lot_id l) as [p|]; [|done]. destruct (bool_decide _) eqn:E; to_prop; [|done].
    unfold cl_key. by rewrite E.
  - destruct (current !! k) as [p|] eqn:Ep; [|done]. simpl. apply Hk in Ep. rewrite missing_target_tests.
    repeat split_goal; intros [= <-]; done.
Qed.

Lemma number_changes_spec sha256 sid seq pending seq' changes :
  number_changes sha256 sid seq pending = Ok (seq', changes) ->
  map pending_of changes = pending /\
  map ch_sequence changes = seqZ (seq + 1) (Z.of_nat (length changes)) /\
  seq' = seq + Z.of_nat (length changes).
Proof.
  revert seq seq' changes. induction pending as [|p pending IH]; intros seq seq' changes H; simpl in H.
  - injection H as <- <-. simpl. split_and!; [done|done|lia].
  - apply rbind_ok in H as (s1 & Hs & H). apply rbind_ok in H as ([s2 cs] & Hcs & [= <- <-]).
    assert (s1 = seq + 1) as ->.
    { unfold sequence_next, BenefitSequence_new in Hs. inv_ok Hs.
      by apply ok_or_Ok, checked_add_Some in Hv as [-> _]. }
    apply IH in Hcs as (H1 & H2 & H3). simpl map. cbn [length]. split_and!.
    + f_equal; [by destruct p|done].
    + rewrite Nat2Z.inj_succ, seqZ_cons by lia. f_equal. rewrite H2. f_equal; lia.
    + simpl. lia.
Qed.

(** An accepted observation: the two merge loops ran, and what became of them *)
Lemma reconcile_inv sha256 s o r :
  reconcile_inventory sha256 s o = Ok r ->
  (re_state r = s /\ re_changes r = [] /\ ~ accepted r) \/
  exists m1 m2 seq revision,
    accepted r /\
    merge_all_observed {| mg_prior := lots_of s; mg_next := ∅; mg_pending := [] |}
      (sort_by_cmp (cmp_by lot_id bytes_cmp) (io_lots o)) = Ok m1 /\
    merge_all_missing (complete_observation o) m1 (entries (mg_prior m1)) = Ok m2 /\
    (size (mg_next m2) <= MAX_BENEFIT_LOTS_PER_OBSERVATION)%nat /\
    number_changes sha256 (is_scope_id s) (is_last_change_sequence s) (mg_pending m2)
      = Ok (seq, re_changes r) /\
    revision = is_revision s + 1 /\
    re_state r = {| is_scope := is_scope s; is_scope_id := is_scope_id s; is_revision := revision;
                    is_last_change_sequence := seq;
                    is_last_observation_id := Some (io_observation_id o);
                    is_last_observed_at_ms := Some (io_observed_at_ms o);
                    is_lots := into_values (mg_next m2) |}.
Proof.
  unfold reconcile_inventory, accepted. intros H.
  destruct (negb _); [done|]. destruct (is_some_and _ _).
  { injection H as <-. left. simpl. naive_solver. }
  apply rbind_ok in H as (m1 & H1 & H). apply rbind_ok in H as (m2 & H2 & H).
  destruct (_ <? _)%nat eqn:Es; [done|]. apply Nat.ltb_ge in Es.
  destruct (bool_decide (is_last_observation_id s = _)).
  { destruct (bool_decide (_ = 0%nat)); [|done]. injection H as <-. left. simpl. naive_solver. }
  apply rbind_ok in H as ([seq changes] & Hn & H). apply rbind_ok in H as (rev & Hr & [= <-]).
  apply revision_next_ok in Hr as [-> _]. right. exists m1, m2, seq, (is_revision s + 1). simpl.
  split_and!; try done. all: destruct (bool_decide (_ = 0%nat)); auto.
Qed.

Lemma sorted_lots o : observation_ok o ->
  NoDup (map lot_id (sort_by_cmp (cmp_by lot_id bytes_cmp) (io_lots o))) /\
  collect lot_id (sort_by_cmp (cmp_by lot_id bytes_cmp) (io_lots o)) = collect lot_id (io_lots o).
Proof.
  intros Ho. apply observation_ok_lots in Ho as (Hnd & _ & _).
  assert (sort_by_cmp (cmp_by lot_id bytes_cmp) (io_lots o) ≡ₚ io_lots o) as Hp by apply sort_permutation.
  split; [by rewrite Hp|]. symmetry. by apply collect_permutation.
Qed.

(** The lots of the new state, and the journal that leads to them *)
Lemma reconcile_lots_journal sha256 s o r :
  state_ok s -> observation_ok o -> reconcile_inventory sha256 s o = Ok r -> accepted r ->
  state_ok (re_state r) /\ (size (lots_of (re_state r)) <= MAX_BENEFIT_LOTS_PER_OBSERVATION)%nat /\
  replays (lots_of s) (map pending_of (re_changes r)) (lots_of (re_state r)) /\
  (forall k, lots_of (re_state r) !! k =
     reconciled (complete_observation o) (collect lot_id (io_lots o)) (lots_of s) k).
Proof.
  intros [Hnd _] Ho H Ha. destruct (sorted_lots o Ho) as [Hs Hc].
  apply reconcile_inv in H as [(_ & _ & H)|(m1 & m2 & seq & rev & _ & H1 & H2 & Hsize & Hn & _ & Hst)];
    [done|].
  apply number_changes_spec in Hn as (Hpend & _ & _).
  pose proof (collect_keyed _ Hnd) as Hkey. fold (lots_of s) in Hkey.
  destruct (merge_spec (lots_of s) Hkey (complete_observation o) _ m1 m2 Hs H1 H2) as [Hj Hnext].
  rewrite Hc in Hnext.
  assert (keyed (mg_next m2)) as Hkn.
  { intros k c Hk. rewrite Hnext in Hk. eapply reconciled_keyed; [|exact Hkey|exact Hk].
    by apply observation_ok_lots in Ho as (? & _). }
  destruct (into_values_collect cl_key (mg_next m2) Hkn) as [Hnd2 Hcol].
  assert (lots_of (re_state r) = mg_next m2) as -> by (rewrite Hst; exact Hcol).
  split_and!; [|done|by rewrite Hpend|done]. rewrite Hst. split; [exact Hnd2|]. simpl.
  unfold into_values. by rewrite length_map, entries_permutation, length_map_to_list.
Qed.

(** ** Old and repeated observations *)

(** The observation was made before the one the state was last brought up to. *)
Definition stale (s : BenefitInventoryState) (o : BenefitInventoryObservation) : Prop :=
  exists last, is_last_observed_at_ms s = Some last /\ io_observed_at_ms o < last.

Definition repeated (s : BenefitInventoryState) (o : BenefitInventoryObservation) : Prop :=
  is_last_observation_id s = Some (io_observation_id o).

(** The inventory that [o] lists, merged into [s], is what [s] holds. *)
Definition nothing_new (s : BenefitInventoryState) (o : BenefitInventoryObservation) : Prop :=
  forall k, reconciled (complete_observation o) (collect lot_id (io_lots o)) (lots_of s) k = lots_of s !! k.

(** What the result says about the observation, and what the state remembers of it *)
Definition taken_in (s : BenefitInventoryState) (o : BenefitInventoryObservation) (r : BenefitReconciliation) : Prop :=
  re_status r = match re_changes r with [] => FreshnessOnly | _ => Changed end /\
  is_last_observation_id (re_state r) = Some (io_observation_id o) /\
  is_last_observed_at_ms (re_state r) = Some (io_observed_at_ms o) /\
  is_revision (re_state r) = is_revision s + 1 /\
  is_scope (re_state r) = is_scope s /\ is_scope_id (re_state r) = is_scope_id s.

Lemma stale_test s o :
  is_some_and (is_last_observed_at_ms s) (fun last => io_observed_at_ms o <? last) = true <-> stale s o.
Proof.
  unfold stale. destruct (is_last_observed_at_ms s) as [t|]; simpl; [|naive_solver].
  rewrite Z.ltb_lt. naive_solver.
Qed.

Lemma reconcile_outcome sha256 s o r :
  state_ok s -> observation_ok o -> reconcile_inventory sha256 s o = Ok r ->
  (stale s o -> r = {| re_status := StaleObservation; re_state := s; re_changes := [] |}) /\
  (~ stale s o -> repeated s o ->
     r = {| re_status := DuplicateObservation; re_state := s; re_changes := [] |} /\ nothing_new s o) /\
  (~ stale s o -> ~ repeated s o -> taken_in s o r).
Proof.
  intros [Hnd _] Ho H. unfold reconcile_inventory in H. destruct (negb _); [done|].
  pose proof (stale_test s o) as Hst. destruct (is_some_and _ _).
  { injection H as <-. naive_solver. }
  assert (~ stale s o) as Hfresh by (intros Hs; by apply Hst in Hs). clear Hst.
  apply rbind_ok in H as (m1 & H1 & H). apply rbind_ok in H as (m2 & H2 & H). destruct (_ <? _)%nat; [done|].
  destruct (sorted_lots o Ho) as [Hs Hc].
  destruct (merge_spec (lots_of s) (collect_keyed _ Hnd) (complete_observation o) _ m1 m2 Hs H1 H2) as [Hj Hnext].
  rewrite Hc in Hnext. case_bool_decide as Hid.
  - case_bool_decide as Hp; [|done]. injection H as <-. apply nil_length_inv in Hp. rewrite Hp in Hj.
    split_and!; [done|intros _ _; split; [done|]|done]. intros k. rewrite <- Hnext.
    assert (mg_next m2 = lots_of s) as -> by (by inversion Hj). done.
  - apply rbind_ok in H as ([seq changes] & _ & H). apply rbind_ok in H as (rev & Hr & [= <-]).
    apply revision_next_ok in Hr as [-> _]. split_and!; [done|done|]. intros _ _. unfold taken_in. simpl.
    split_and!; [|done..]. by destruct changes.
Qed.

(** ** The same observation again *)

Lemma merge_all_observed_same lots m :
  NoDup (map lot_id lots) ->
  (forall l, l ∈ lots -> exists c, mg_prior m !! lot_id l = Some c /\ cl_lot c = l) ->
  exists m', merge_all_observed m lots = Ok m' /\ mg_pending m' = mg_pending m.
Proof.
  revert m. induction lots as [|l lots IH]; intros m Hnd Hin; simpl; [eauto|].
  apply NoDup_cons in Hnd as [Hl Hnd].
  destruct (Hin l) as (c & Hc & Hcl); [apply elem_of_cons; by left|].
  unfold merge_observed. rewrite Hc, bool_decide_true by done. cbn [rbind].
  match goal with |- context [merge_all_observed ?x lots] => set (m1 := x) end.
  destruct (IH m1 Hnd) as (m' & Hm' & Hp); [|by exists m'].
  intros l' Hl'. destruct (Hin l') as (c' & Hc' & Hcl'); [apply elem_of_cons; by right|].
  exists c'. split; [|done]. simpl. rewrite lookup_delete_ne; [done|]. intros He. apply Hl. rewrite He.
  by apply list_elem_of_fmap_2.
Qed.

Lemma merge_all_missing_same complete rest m :
  (forall k p, (k, p) ∈ rest -> complete = false \/ lot_state (cl_lot p) = Ambiguous) ->
  exists m', merge_all_missing complete m rest = Ok m' /\ mg_pending m' = mg_pending m.
Proof.
  revert m. induction rest as [|[k p] rest IH]; intros m Hin; simpl; [eauto|].
  assert (exists m1, merge_missing complete m (k, p) = Ok m1 /\ mg_pending m1 = mg_pending m) as (m1 & H1 & Hp1).
  { unfold merge_missing. destruct (Hin k p) as [->|Ha]; [apply elem_of_cons; by left|eauto|].
    destruct complete; [|eauto]. simpl. rewrite Ha. simpl. eauto. }
  unfold merge_missing in H1. rewrite H1. cbn [rbind].
  destruct (IH m1) as (m' & Hm' & Hp); [|exists m'; split; [done|by rewrite Hp]].
  intros k' p' Hin'. eapply Hin, elem_of_cons. by right.
Qed.

(** Reconciling twice is reconciling once, lot by lot. *)
Lemma reconciled_again complete observed current current' k :
  (forall k, current' !! k = reconciled complete observed current k) ->
  reconciled complete observed current' k = current' !! k.
Proof.
  intros H. unfold reconciled at 1. rewrite H. unfold reconciled.
  destruct (observed !! k) as [l|].
  - unfold observed_target. destruct (current !! k) as [p|]; [|by rewrite bool_decide_true].
    destruct (bool_decide (cl_lot p = l)) eqn:E; [by rewrite E|]. by rewrite bool_decide_true.
  - destruct (current !! k) as [p|]; [|done]. simpl.
    destruct (missing_target complete p) as [c|] eqn:E; [|done]. simpl.
    rewrite missing_target_tests in *. destruct complete; [|done]. simpl in *.
    destruct (is_terminal (lot_state (cl_lot p))) eqn:Et; [done|].
    destruct (bool_decide (lot_state (cl_lot p) = Ambiguous)) eqn:Ea; injection E as <-.
    + by rewrite Et, Ea.
    + done.
Qed.

Lemma missing_ambiguous p c : missing_target true p = Some c -> lot_state (cl_lot c) = Ambiguous.
Proof. rewrite missing_target_tests. simpl. repeat split_goal; intros [= <-]; by to_prop. Qed.

(** ** Due reminders *)

Definition is_due (now_ms : Z) (r : ReminderDue) : Prop :=
  rd_due_at_ms r <= now_ms < rd_expiry_at_ms r.

(** The selection after the entries [past]: for each lot and channel, a due entry
    with the shortest lead time *)
Definition selected_of (now_ms : Z) (past : list ReminderDue)
    (selected : gmap (list Z * Z) ReminderDue) : Prop :=
  (forall k e, selected !! k = Some e -> e ∈ past /\ is_due now_ms e /\ due_key e = k) /\
  (forall e, e ∈ past -> is_due now_ms e ->
     exists e', selected !! due_key e = Some e' /\ rd_lead_time e' <= rd_lead_time e).

Lemma select_due_spec now past selected e :
  selected_of now past selected -> selected_of now (past ++ [e]) (select_due now selected e).
Proof.
  intros [Hs Hb]. unfold select_due.
  assert (forall x, x ∈ past -> x ∈ past ++ [e]) as Hpast by (intros; apply elem_of_app; by left).
  assert (e ∈ past ++ [e]) as Hlast by (apply elem_of_app; right; by apply list_elem_of_singleton).
  assert (is_due now e -> forall cur, selected !! due_key e = cur ->
    (forall c, cur = Some c -> rd_lead_time e < rd_lead_time c) ->
    selected_of now (past ++ [e]) (<[due_key e := e]> selected)) as Hins.
  { intros Hdue cur Hcur Hlt. split.
    - intros k x. destruct (decide (due_key e = k)) as [<-|Hne].
      + rewrite lookup_insert_eq. by intros [= <-].
      + rewrite lookup_insert_ne by done. intros Hx. destruct (Hs k x Hx) as (? & ? & ?). auto.
    - intros x [Hx|Hx%list_elem_of_singleton]%elem_of_app Hd.
      + destruct (Hb x Hx Hd) as (y & Hy & Hle). destruct (decide (due_key e = due_key x)) as [He|Hne].
        * exists e. rewrite He, lookup_insert_eq. split; [done|]. rewrite He, Hy in Hcur.
          specialize (Hlt y (eq_sym Hcur)). lia.
        * exists y. by rewrite lookup_insert_ne.
      + subst x. exists e. by rewrite lookup_insert_eq. }
  assert ((is_due now e -> exists c, selected !! due_key e = Some c /\ rd_lead_time c <= rd_lead_time e) ->
    selected_of now (past ++ [e]) selected) as Hkeep.
  { intros He. split.
    - intros k x Hx. destruct (Hs k x Hx) as (? & ? & ?). auto.
    - intros x [Hx|Hx%list_elem_of_singleton]%elem_of_app Hd; [by apply Hb|]. subst x. by apply He. }
  destruct (_ || _) eqn:Eg; to_prop.
  - apply Hkeep. intros [? ?]. lia.
  - assert (is_due now e) as Hdue by (unfold is_due; lia).
    destruct (selected !! due_key e) as [c|] eqn:Ec.
    + destruct (_ <=? _) eqn:El; to_prop; [apply Hkeep; eauto|].
      apply (Hins Hdue _ eq_refl). intros c' [= <-]. lia.
    + by apply (Hins Hdue _ eq_refl).
Qed.

Lemma select_all_spec now l past selected :
  selected_of now past selected -> selected_of now (past ++ l) (fold_left (select_due now) l selected).
Proof.
  revert past selected. induction l as [|e l IH]; intros past selected H; simpl.
  - by rewrite app_nil_r.
  - rewrite cons_middle, app_assoc. by apply IH, select_due_spec.
Qed.

Lemma due_cmp_total : TotalCmp due_cmp.
Proof. unfold due_cmp, bytes_cmp. apply _. Qed.

Lemma schedule_cmp_total : TotalCmp schedule_cmp.
Proof. unfold schedule_cmp, bytes_cmp. apply _. Qed.

Lemma then_with_Eq c d : then_with c d = Eq <-> c = Eq /\ d = Eq.
Proof. destruct c; simpl; naive_solver. Qed.

Lemma due_cmp_Eq a b : due_cmp a b = Eq -> due_key a = due_key b.
Proof.
  unfold due_cmp, cmp_then, cmp_by. rewrite !then_with_Eq. intros (_ & Hl & Hc).
  unfold due_key. f_equal; [by apply (lex_cmp_exact Z.compare)|by apply Z.compare_eq].
Qed.

(** The page is the front of the selection in its final order. *)
Lemma collapse_page scheduled now max due : collapse_due_reminders scheduled now max = Ok due ->
  exists selected all, selected_of now scheduled selected /\ due = take max all /\
    strictly_sorted due_cmp all /\ (forall e, e ∈ all <-> selected !! due_key e = Some e).
Proof.
  unfold collapse_due_reminders. intros H. destruct (_ || _); [done|]. injection H as <-.
  set (sel := fold_left _ _ _).
  assert (selected_of now scheduled sel) as Hsel.
  { apply (select_all_spec now scheduled [] ∅). split; [done|].
    intros e He. by apply not_elem_of_nil in He. }
  exists sel. eexists. split; [done|]. split; [reflexivity|].
  set (kv := sort_by_cmp (cmp_by fst due_key_cmp) (map_to_list sel)).
  assert (kv ≡ₚ map_to_list sel) as Hkv by apply sort_permutation.
  assert (forall e, e ∈ map snd kv <-> sel !! due_key e = Some e) as Hin.
  { intros e. rewrite Hkv, list_elem_of_fmap. split.
    - intros ([k x] & -> & Hx). apply elem_of_map_to_list in Hx. simpl.
      destruct Hsel as [Hs _]. by destruct (Hs k x Hx) as (_ & _ & ->).
    - intros He. exists (due_key e, e). split; [done|]. by apply elem_of_map_to_list. }
  split.
  - apply (sort_strictly_sorted due_cmp (TotalCmp0 := due_cmp_total)).
    + intros a b Ha%Hin Hb%Hin He%due_cmp_Eq. rewrite He in Ha. congruence.
    + apply (NoDup_fmap_1 due_key). rewrite <- list_fmap_compose.
      replace (_ <$> kv) with (map fst kv); [rewrite Hkv; apply NoDup_fst_map_to_list|].
      apply map_ext_in. intros [k x] Hx. simpl. apply list_elem_of_In in Hx. rewrite Hkv in Hx.
      apply elem_of_map_to_list in Hx. destruct Hsel as [Hs _]. by destruct (Hs k x Hx) as (_ & _ & ->).
  - intros e. by rewrite (elem_of_sort due_cmp).
Qed.

(** The reminder of a lot for a lead time and a channel *)
Definition scheduled_for sha256 (scope : BenefitScope) (lots : list BenefitCurrentLot)
    (profile : ReminderProfile) (c : BenefitCurrentLot) (x lead : Z) (channel : NotificationChannel)
    (r : ReminderDue) : Prop :=
  c ∈ lots /\ lot_state (cl_lot c) = StAvailable /\ conservative_utc_ms (expiry (cl_lot c)) = Some x /\
  lead ∈ rp_lead_times profile /\ channel ∈ rp_channels profile /\
  r = reminder_for sha256 scope c x lead channel.

Lemma schedule_elem sha256 scope lots profile scheduled r :
  schedule_reminders sha256 scope lots profile = Ok scheduled ->
  r ∈ scheduled <-> exists c x lead channel, scheduled_for sha256 scope lots profile c x lead channel r.
Proof.
  unfold schedule_reminders. intros H. destruct (_ <? _)%nat; [done|]. injection H as <-.
  rewrite (elem_of_sort schedule_cmp), list_elem_of_join. unfold scheduled_for. split.
  - intros (l & Hr & Hl). apply list_elem_of_fmap in Hl as (c & -> & Hc). unfold lot_reminders in Hr.
    destruct (negb _) eqn:Es; [by apply not_elem_of_nil in Hr|]. to_prop.
    destruct (conservative_utc_ms _) as [x|] eqn:Ex; [|by apply not_elem_of_nil in Hr].
    apply list_elem_of_join in Hr as (l & Hr & Hl). apply list_elem_of_fmap in Hl as (lead & -> & Hlead).
    apply list_elem_of_fmap in Hr as (ch & -> & Hch). exists c, x, lead, ch. done.
  - intros (c & x & lead & ch & Hc & Hs & Hx & Hlead & Hch & ->).
    exists (lot_reminders sha256 scope profile c). split; [|by apply list_elem_of_fmap_2].
    unfold lot_reminders. rewrite Hs, Hx. simpl. apply list_elem_of_join.
    exists (map (reminder_for sha256 scope c x lead) (rp_channels profile)).
    split; [by apply list_elem_of_fmap_2|]. apply list_elem_of_fmap. by exists lead.
Qed.

(** ** Claims *)

(** C30. Reconciliation changes each lot as its observation says: an observed lot is
    taken over with revision 1, the same revision when nothing changed and the next
    one otherwise; a lot missing from a complete inventory is retired when terminal
    and becomes ambiguous otherwise, and a partial inventory leaves it alone.  The
    new state has no lot twice and at most 64. *)
Theorem reconcile_lots sha256 s o r :
  state_ok s -> observation_ok o -> reconcile_inventory sha256 s o = Ok r -> accepted r ->
  state_ok (re_state r) /\
  (forall k, lots_of (re_state r) !! k =
     reconciled (complete_observation o) (collect lot_id (io_lots o)) (lots_of s) k).
Proof. intros Hs Ho H Ha. by destruct (reconcile_lots_journal _ _ _ _ Hs Ho H Ha) as (? & _ & _ & ?). Qed.

(** C29. The journal is complete: replaying the changes of a reconciliation on the old
    lots gives the new ones, each change describing the lot it finds and taking its
    next revision, with consecutive sequence numbers after the last one.  An
    observation older than the state is reported stale, and one with the identity the
    state was last brought up to is reported a duplicate, which is accepted only when
    it brings nothing new; neither changes or journals anything.  Every other
    observation is remembered with its time, as a new revision of the state, and
    reported as a change exactly when something was journaled. *)
Theorem reconcile_journal_replays sha256 s o r :
  state_ok s -> observation_ok o -> reconcile_inventory sha256 s o = Ok r ->
  replays (lots_of s) (map pending_of (re_changes r)) (lots_of (re_state r)) /\
  map ch_sequence (re_changes r)
    = seqZ (is_last_change_sequence s + 1) (Z.of_nat (length (re_changes r))) /\
  is_last_change_sequence (re_state r)
    = is_last_change_sequence s + Z.of_nat (length (re_changes r)) /\
  (stale s o -> r = {| re_status := StaleObservation; re_state := s; re_changes := [] |}) /\
  (~ stale s o -> repeated s o ->
     r = {| re_status := DuplicateObservation; re_state := s; re_changes := [] |} /\ nothing_new s o) /\
  (~ stale s o -> ~ repeated s o -> taken_in s o r).
Proof.
  intros Hs Ho H. pose proof (reconcile_outcome _ _ _ _ Hs Ho H) as Hout. pose proof H as Hinv.
  apply reconcile_inv in Hinv as [(Est & Ech & _)|(m1 & m2 & seq & rev & Ha & _ & _ & _ & Hn & _ & Hst)].
  - rewrite Est, Ech. simpl. split; [constructor|]. split; [done|]. split; [lia|exact Hout].
  - destruct (reconcile_lots_journal _ _ _ _ Hs Ho H Ha) as (_ & _ & Hj & _).
    apply number_changes_spec in Hn as (_ & Hseq & Hlast). split; [done|]. split; [done|].
    split; [by rewrite Hst|exact Hout].
Qed.

(** Reconciliation is idempotent: presenting the observation that produced a
    state once more is recognised as a duplicate and leaves the state unchanged. *)
Theorem reconcile_idempotent sha256 s o r :
  state_ok s -> observation_ok o -> reconcile_inventory sha256 s o = Ok r -> accepted r ->
  reconcile_inventory sha256 (re_state r) o
  = Ok {| re_status := DuplicateObservation; re_state := re_state r; re_changes := [] |}.
Proof.
  intros Hs Ho H Ha. destruct (reconcile_lots_journal _ _ _ _ Hs Ho H Ha) as ([Hnd' _] & Hsize & _ & Hlots).
  destruct (sorted_lots o Ho) as [Hsorted Hcol].
  assert (is_scope s = io_scope o) as Hscope.
  { unfold reconcile_inventory in H. destruct (negb _) eqn:E; [done|]. by to_prop. }
  apply reconcile_inv in H as [(_ & _ & ?)|(m1 & m2 & seq & rev & _ & _ & _ & _ & _ & _ & Hst)]; [done|].
  set (st := re_state r) in *. set (lots := sort_by_cmp (cmp_by lot_id bytes_cmp) (io_lots o)) in *.
  set (m0 := {| mg_prior := lots_of st; mg_next := ∅; mg_pending := [] |}).
  pose proof (collect_keyed _ Hnd') as Hkey. fold (lots_of st) in Hkey.
  destruct (merge_all_observed_same lots m0 Hsorted) as (m1' & H1 & Hp1).
  { intros l Hl. simpl. rewrite Hlots. unfold reconciled.
    assert (collect lot_id (io_lots o) !! lot_id l = Some l) as ->
      by (rewrite <- Hcol; by apply collect_Some).
    eexists. split; [done|]. unfold observed_target. destruct (lots_of s !! lot_id l) as [p|]; [|done].
    destruct (bool_decide (cl_lot p = l)) eqn:E; by to_prop. }
  assert (after_observed (lots_of st) lots m1') as (_ & Hprior & _).
  { apply (merge_all_observed_spec (lots_of st) [] lots m0 m1'); [done| |done].
    split_and!; simpl; [|done|done]. rewrite (right_id_L ∅ (∪)). constructor. }
  destruct (merge_all_missing_same (complete_observation o) (entries (mg_prior m1')) m1')
    as (m2' & H2 & Hp2).
  { intros k p Hin. apply elem_of_entries in Hin. rewrite Hprior in Hin.
    destruct (decide (k ∈ map lot_id lots)) as [|Hk]; [done|]. rewrite Hlots in Hin. unfold reconciled in Hin.
    rewrite <- Hcol, (proj2 (collect_None lot_id lots k Hsorted) Hk) in Hin.
    destruct (lots_of s !! k) as [q|]; [|done]. simpl in Hin.
    destruct (complete_observation o); [right; by eapply missing_ambiguous|by left]. }
  destruct (merge_spec (lots_of st) Hkey (complete_observation o) lots m1' m2' Hsorted H1 H2) as [_ Hnext].
  assert (mg_next m2' = lots_of st) as Hsame.
  { apply map_eq. intros k. rewrite Hnext, Hcol. by eapply reconciled_again. }
  unfold reconcile_inventory. change (collect cl_key (is_lots st)) with (lots_of st).
  fold lots m0. rewrite H1. cbn [rbind]. fold (complete_observation o). rewrite H2. cbn [rbind].
  rewrite Hsame, (proj2 (Nat.ltb_ge _ _) Hsize), Hp2, Hp1.
  assert (is_scope st = io_scope o /\ is_last_observed_at_ms st = Some (io_observed_at_ms o) /\
    is_last_observation_id st = Some (io_observation_id o)) as (-> & -> & ->) by (by rewrite Hst).
  rewrite bool_decide_true by done. simpl. rewrite Z.ltb_irrefl. by rewrite bool_decide_true.
Qed.

(** C39. A page of due reminders is the front of one ordered list (by expiry, lot and
    channel) that holds exactly one reminder for every available lot and channel with
    a due lead time: the one with the shortest such lead time, never after expiry. *)
Theorem due_reminders sha256 scope lots profile scheduled now max_rows due :
  NoDup (map cl_key lots) ->
  schedule_reminders sha256 scope lots profile = Ok scheduled ->
  collapse_due_reminders scheduled now max_rows = Ok due ->
  exists all, due = take max_rows all /\ strictly_sorted due_cmp all /\
  forall r, r ∈ all <-> exists c x lead channel,
    scheduled_for sha256 scope lots profile c x lead channel r /\ is_due now r /\
    (forall lead', lead' ∈ rp_lead_times profile ->
       is_due now (reminder_for sha256 scope c x lead' channel) -> lead <= lead').
Proof.
  intros Hnd Hsch Hdue. apply collapse_page in Hdue as (sel & all & [Hs Hb] & -> & Hsorted & Hall).
  exists all. split_and!; [done|done|]. intros r. rewrite Hall. split.
  - intros Hr. apply Hs in Hr as Hr'. destruct Hr' as (Hin & Hd & _).
    apply (schedule_elem _ _ _ _ _ _ Hsch) in Hin as (c & x & lead & ch & Hf).
    exists c, x, lead, ch. split_and!; [done|done|]. intros lead' Hlead' Hd'.
    pose proof Hf as (Hc & Hst & Hx & _ & Hch & Er).
    destruct (Hb (reminder_for sha256 scope c x lead' ch)) as (r' & Hr' & Hle); [|done|].
    { apply (schedule_elem _ _ _ _ _ _ Hsch). exists c, x, lead', ch. done. }
    rewrite Er in Hr. change (due_key (reminder_for sha256 scope c x lead' ch))
      with (due_key (reminder_for sha256 scope c x lead ch)) in Hr'.
    rewrite Hr in Hr'. by injection Hr' as <-.
  - intros (c & x & lead & ch & Hf & Hd & Hmin). destruct (Hb r) as (r' & Hr' & Hle); [|done|].
    { apply (schedule_elem _ _ _ _ _ _ Hsch). by exists c, x, lead, ch. }
    rewrite Hr'. f_equal. apply Hs in Hr' as (Hin & Hd' & Hk).
    apply (schedule_elem _ _ _ _ _ _ Hsch) in Hin as (c' & x' & lead' & ch' & Hf').
    pose proof Hf as (Hc & _ & Hx & _ & _ & Er).
    pose proof Hf' as (Hc' & _ & Hx' & Hlead' & _ & Er'). subst r r'.
    injection Hk as Hid Hcode.
    assert (ch' = ch) as -> by (destruct ch, ch'; done).
    assert (c' = c) as ->.
    { pose proof (proj2 (collect_Some cl_key lots (cl_key c') c' Hnd) (conj Hc' eq_refl)) as H1.
      pose proof (proj2 (collect_Some cl_key lots (cl_key c) c Hnd) (conj Hc eq_refl)) as H2.
      unfold cl_key in H1, H2. rewrite Hid in H1. congruence. }
    rewrite Hx in Hx'. injection Hx' as <-. specialize (Hmin lead' Hlead' Hd'). simpl in Hle.
    assert (lead' = lead) as -> by lia. done.
Qed.

(** ** Witnesses: an inventory of two lots, observed again with one of them changed,
    one gone and one new *)

Definition sample_scope : BenefitScope :=
  {| bs_provider_id := lit "codex"; bs_account_id := lit "acct"; bs_workspace_id := None |}.

Definition sample_lot (id quantity : Z) (state : BenefitState) : BenefitLotObservation :=
  {| lot_id := repeat id 32; lot_kind := UsageCredit; quantity := quantity; lot_state := state;
     target := ProviderTarget; granted_at_ms := Some 5; expiry := ExactUtc 700_000_000;
     lot_source := BenProviderOfficial; lot_confidence := BenHigh; detail_kind := ProviderDetail;
     lot_label_key := lit "credit" |}.

Definition sample_inventory : BenefitInventoryState :=
  {| is_scope := sample_scope; is_scope_id := benefit_scope_id toy_sha256 sample_scope; is_revision := 3;
     is_last_change_sequence := 7; is_last_observation_id := Some [1];
     is_last_observed_at_ms := Some 100;
     is_lots := [{| cl_lot := sample_lot 1 4 StAvailable; cl_revision := 1 |};
                 {| cl_lot := sample_lot 2 1 StAvailable; cl_revision := 5 |}] |}.

Definition sample_observation : BenefitInventoryObservation :=
  {| io_scope := sample_scope; io_observation_id := [2]; io_observed_at_ms := 200;
     io_fresh_until_ms := 300; io_stale_after_ms := 400; io_completeness := InvComplete;
     io_lots := [sample_lot 3 9 StAvailable; sample_lot 1 3 StAvailable] |}.

Definition sample_result : BenefitReconciliation :=
  match reconcile_inventory toy_sha256 sample_inventory sample_observation with
  | Ok r => r
  | Err _ => {| re_status := StaleObservation; re_state := sample_inventory; re_changes := [] |}
  end.

Example sample_kinds : map ch_kind (re_changes sample_result) = [QuantityChanged; Awarded; DisappearedAmbiguous].
Proof. vm_compute. reflexivity. Qed.

Lemma sample_reconciled :
  reconcile_inventory toy_sha256 sample_inventory sample_observation = Ok sample_result.
Proof. vm_compute. reflexivity. Qed.

Lemma sample_state_ok : state_ok sample_inventory.
Proof. split; [by apply (bool_decide_unpack _); vm_compute|by apply Nat.leb_le]. Qed.

Lemma sample_observation_ok : observation_ok sample_observation.
Proof.
  split; [vm_compute; reflexivity|]. assert (forall id q, 0 < q <= i64_max -> lot_ok (sample_lot id q StAvailable)) as H.
  { intros id q Hq. split_and!; [apply repeat_length|apply Hq|apply Hq|by intros t [= <-]]. }
  repeat constructor; by apply H.
Qed.

Lemma sample_accepted : accepted sample_result.
Proof. right. vm_compute. reflexivity. Qed.

Lemma reconcile_lots_witness :
  lots_of (re_state sample_result) !! repeat 2 32
  = Some {| cl_lot := sample_lot 2 1 Ambiguous; cl_revision := 6 |}.
Proof.
  rewrite (proj2 (reconcile_lots toy_sha256 _ _ _ sample_state_ok sample_observation_ok sample_reconciled
                    sample_accepted)).
  vm_compute. reflexivity.
Defined.

(** The observation is new; made at an earlier time it would be stale, and with the
    identity of the last one it would be refused. *)
Definition observation_at (id time : Z) : BenefitInventoryObservation :=
  {| io_scope := sample_scope; io_observation_id := [id]; io_observed_at_ms := time;
     io_fresh_until_ms := 300; io_stale_after_ms := 400; io_completeness := InvComplete;
     io_lots := io_lots sample_observation |}.

Example sample_outcomes :
  (re_status <$> [sample_result]) = [Changed] /\
  reconcile_inventory toy_sha256 sample_inventory (observation_at 2 99)
  = Ok {| re_status := StaleObservation; re_state := sample_inventory; re_changes := [] |} /\
  reconcile_inventory toy_sha256 sample_inventory (observation_at 1 100) = Err ConflictingObservationIdentity.
Proof. vm_compute. split_and!; reflexivity. Qed.

Lemma reconcile_journal_replays_witness :
  replays (lots_of sample_inventory) (map pending_of (re_changes sample_result))
    (lots_of (re_state sample_result)) /\
  taken_in sample_inventory sample_observation sample_result.
Proof.
  destruct (reconcile_journal_replays toy_sha256 _ _ _ sample_state_ok sample_observation_ok sample_reconciled)
    as (Hj & _ & _ & _ & _ & Ht).
  split; [exact Hj|]. apply Ht.
  - intros (last & [= <-] & Hlt). vm_compute in Hlt. discriminate Hlt.
  - intros Hr. vm_compute in Hr. discriminate Hr.
Defined.

Lemma reconcile_idempotent_witness :
  reconcile_inventory toy_sha256 (re_state sample_result) sample_observation
  = Ok {| re_status := DuplicateObservation; re_state := re_state sample_result; re_changes := [] |}.
Proof.
  exact (reconcile_idempotent toy_sha256 _ _ _ sample_state_ok sample_observation_ok sample_reconciled
           sample_accepted).
Defined.

Definition sample_profile : ReminderProfile :=
  {| rp_revision := 1; rp_lead_times := RECOMMENDED_REMINDER_LEAD_SECONDS; rp_channels := [InApp] |}.

Example sample_profile_recommended : ReminderProfile_recommended 1 = Ok sample_profile.
Proof. vm_compute. reflexivity. Qed.

(** Two hours before expiry the six-hour reminder is the one shown. *)
Lemma due_reminders_witness :
  exists scheduled due all,
    schedule_reminders toy_sha256 sample_scope (is_lots sample_inventory) sample_profile = Ok scheduled /\
    collapse_due_reminders scheduled 692_800_000 1 = Ok due /\ map rd_lead_time due = [21_600] /\
    due = take 1 all /\ strictly_sorted due_cmp all.
Proof.
  assert (exists scheduled,
    schedule_reminders toy_sha256 sample_scope (is_lots sample_inventory) sample_profile = Ok scheduled)
    as [scheduled Hs] by (eexists; vm_compute; reflexivity).
  assert (exists due, collapse_due_reminders scheduled 692_800_000 1 = Ok due /\
    map rd_lead_time due = [21_600]) as (due & Hd & Hl).
  { vm_compute in Hs. injection Hs as <-. eexists. split; vm_compute; reflexivity. }
  destruct (due_reminders toy_sha256 sample_scope (is_lots sample_inventory) sample_profile scheduled
              692_800_000 1 due (proj1 sample_state_ok) Hs Hd) as (all & H1 & H2 & _).
  by exists scheduled, due, all.
Defined.
